(** * Secure request pipeline of the Kibana MCP server: a shallow embedding

    The development follows the layout of the TypeScript sources:
    - [Js]            strings, values and property access as JavaScript has them;
    - [Regex]         the backtracking matcher behind [RegExp.test] and
                      [String.replace] for the syntax the sources use;
    - [InputSanitizer] (lib/inputSanitizer.ts), [EsClient] (lib/esClient.ts),
      [PiiRedaction] (lib/piiRedaction.ts), [AuditLogger] (lib/auditLogger.ts),
      [ToolWrapper] (lib/toolWrapper.ts), and the tools
      [KibanaSearch], [ListIndices], [DiscoverCluster];
    - the theorems about them, one group per property. *)

From Stdlib Require Import String Ascii DecimalString.
From Stdlib Require Import List NArith ZArith Bool Lia Arith.
Import ListNotations.

Set Implicit Arguments.
Set Warnings "-register-all".

(* ===================================================================== *)
(** * JavaScript strings and values *)
(* ===================================================================== *)

Module Js.

(** A JavaScript string is a sequence of UTF-16 code units. *)
Definition char := N.
Definition jsstring := list char.

(** String literals of the sources (all of them ASCII). *)
Definition js (s : string) : jsstring :=
  map N_of_ascii (list_ascii_of_string s).

Fixpoint str_eqb (a b : jsstring) : bool :=
  match a, b with
  | [], [] => true
  | x :: a', y :: b' => N.eqb x y && str_eqb a' b'
  | _, _ => false
  end.

Definition dquote : jsstring := [34%N].

(** [pieces.join(sep)] *)
Fixpoint join (sep : jsstring) (pieces : list jsstring) : jsstring :=
  match pieces with
  | [] => []
  | [x] => x
  | x :: rest => x ++ sep ++ join sep rest
  end.

(** [s.includes(c)] for a one-character needle. *)
Definition includes_char (c : char) (s : jsstring) : bool :=
  existsb (N.eqb c) s.

(** [s.slice(0, n)] and [s.slice(-n)]. *)
Definition slice_to (n : nat) (s : jsstring) : jsstring := firstn n s.
Definition slice_last (n : nat) (s : jsstring) : jsstring :=
  skipn (length s - n) s.

(** [s.startsWith(p)]. *)
Fixpoint startsWith (p s : jsstring) : bool :=
  match p, s with
  | [], _ => true
  | x :: p', y :: s' => N.eqb x y && startsWith p' s'
  | _ :: _, [] => false
  end.

(** Values. Numbers are integers: every function modelled here either
    passes a number through or tests it for zero or against integer
    bounds. [JFun] is a built-in function object; the only one the
    modelled code can meet is [Array.prototype.filter]. *)
Inductive value : Type :=
| JUndefined
| JNull
| JBool (b : bool)
| JNum (n : Z)
| JStr (s : jsstring)
| JArr (items : list value)
| JObj (props : list (jsstring * value))
| JFun (name : jsstring).

(** Own properties of an object, in property order. *)
Fixpoint lookup (k : jsstring) (props : list (jsstring * value)) : option value :=
  match props with
  | [] => None
  | (k', v) :: rest => if str_eqb k k' then Some v else lookup k rest
  end.

(** [{ ...props, k: v }]: an existing key keeps its place, a new one goes last. *)
Fixpoint set_prop (k : jsstring) (v : value) (props : list (jsstring * value))
  : list (jsstring * value) :=
  match props with
  | [] => [(k, v)]
  | (k', v') :: rest =>
      if str_eqb k k' then (k', v) :: rest else (k', v') :: set_prop k v rest
  end.

(** ToBoolean. *)
Definition truthy (v : value) : bool :=
  match v with
  | JUndefined | JNull => false
  | JBool b => b
  | JNum n => negb (Z.eqb n 0)
  | JStr s => match s with [] => false | _ => true end
  | JArr _ | JObj _ | JFun _ => true
  end.

(** [a || b]. *)
Definition js_or (a b : value) : value := if truthy a then a else b.

(** [a ?? b]. *)
Definition nullish (v : value) : bool :=
  match v with JUndefined | JNull => true | _ => false end.

Definition isArray (v : value) : bool :=
  match v with JArr _ => true | _ => false end.

End Js.
Import Js.

(** Outcome of an evaluation that may throw: the thrown value is any
    JavaScript value ([catch (error: any)]). *)
Inductive Res (A : Type) : Type :=
| Ok (a : A)
| Throw (e : value).
Arguments Ok {A} a.
Arguments Throw {A} e.

(** [new Error(message)], [new TypeError(message)], ...: the modelled code
    reads only the [message] and [response] properties of what it catches. *)
Definition mkError (message : jsstring) : value :=
  JObj [(js "message", JStr message)].

Module JsProp.

(** Decimal text of an array or string index. *)
Definition index_key (i : nat) : jsstring :=
  js (NilEmpty.string_of_uint (Nat.to_uint i)).

(** [v.k]. Reading a property of [undefined] or [null] throws a TypeError.
    Besides own properties the table holds the single inherited property
    among the names the modelled code reads ([query], [bool], [filter],
    [response], [data], [error], [reason], [message], [status], [type]):
    every array inherits [filter] from [Array.prototype]. *)
Definition get_prop (v : value) (k : jsstring) : Res value :=
  match v with
  | JUndefined | JNull =>
      Throw (mkError (js "Cannot read properties of undefined"))
  | JObj props =>
      Ok (match lookup k props with Some x => x | None => JUndefined end)
  | JArr _ =>
      Ok (if str_eqb k (js "filter") then JFun (js "filter") else JUndefined)
  | _ => Ok JUndefined
  end.

(** ToString, as [RegExp.test], [parseInt] and a template literal apply it
    to their argument. A number prints in decimal: the integers of the
    model stand for doubles below 10^21, which print so. An array prints
    its elements joined by commas ([undefined] and [null] as nothing); a
    plain object prints as [[object Object]] unless an own [toString]
    property (never callable in parsed JSON) hides the inherited method,
    which makes the conversion a TypeError. *)
Fixpoint ToString (v : value) : Res jsstring :=
  match v with
  | JUndefined => Ok (js "undefined")
  | JNull => Ok (js "null")
  | JBool b => Ok (if b then js "true" else js "false")
  | JNum n => Ok (js (NilZero.string_of_int (Z.to_int n)))
  | JStr s => Ok s
  | JArr items =>
      let fix elements (items : list value) : Res (list jsstring) :=
        match items with
        | [] => Ok []
        | x :: rest =>
            match (if nullish x then Ok [] else ToString x) with
            | Throw e => Throw e
            | Ok sx =>
                match elements rest with
                | Throw e => Throw e
                | Ok srest => Ok (sx :: srest)
                end
            end
        end in
      match elements items with
      | Throw e => Throw e
      | Ok pieces => Ok (join (js ",") pieces)
      end
  | JObj props =>
      match lookup (js "toString") props with
      | Some _ => Throw (mkError (js "Cannot convert object to primitive value"))
      | None => Ok (js "[object Object]")
      end
  | JFun name => Ok (js "function " ++ name ++ js "() { [native code] }")
  end.

(** [v?.k]. *)
Definition get_opt (v : value) (k : jsstring) : value :=
  match get_prop v k with
  | Ok x => x
  | Throw _ => JUndefined
  end.

Fixpoint index_props_from (i : nat) (items : list value) : list (jsstring * value) :=
  match items with
  | [] => []
  | x :: rest => (index_key i, x) :: index_props_from (S i) rest
  end.

(** The own enumerable properties that [{ ...v }] copies. *)
Definition spread (v : value) : list (jsstring * value) :=
  match v with
  | JObj props => props
  | JArr items => index_props_from 0 items
  | JStr s => index_props_from 0 (map (fun c => JStr [c]) s)
  | _ => []
  end.

End JsProp.
Import JsProp.

(* ===================================================================== *)
(** * Numbers *)
(* ===================================================================== *)

Module JsNumber.

(** The numbers that [parseInt] and the arithmetic on its results can
    give: a double that holds an integer, an infinity, or [NaN]. The two
    zeros are one here: the modelled code subtracts, compares and tests
    its numbers, and none of that tells the zeros apart. *)
Inductive Number : Type :=
| NaN
| Int (z : Z)
| Infinity (negative : bool).

(** The Number value for an integer: the nearest double, a tie going to
    the even significand; past the largest double it is an infinity. Up to
    2^53 every integer is its own double; above, [a = q * 2^e + r] with a
    significand [q] of 53 bits. *)
Definition double_of (z : Z) : Number :=
  let a := Z.abs z in
  if (a <? 2 ^ 53)%Z then Int z
  else
    let e := (Z.log2 a - 52)%Z in
    let q := (a / 2 ^ e)%Z in
    let r := (a mod 2 ^ e)%Z in
    let half := (2 ^ (e - 1))%Z in
    let q := if (half <? r)%Z || ((r =? half)%Z && Z.odd q) then (q + 1)%Z else q in
    let rounded := (q * 2 ^ e)%Z in
    if (2 ^ 1024 <=? rounded)%Z then Infinity (z <? 0)%Z
    else Int (if (z <? 0)%Z then - rounded else rounded).

(** ToBoolean *)
Definition nonzero (a : Number) : bool :=
  match a with
  | NaN => false
  | Int z => negb (Z.eqb z 0)
  | Infinity _ => true
  end.

(** [a || 0] *)
Definition or_zero (a : Number) : Number := if nonzero a then a else Int 0.

(** [a - b] *)
Definition subtract (a b : Number) : Number :=
  match a, b with
  | NaN, _ | _, NaN => NaN
  | Int x, Int y => double_of (x - y)
  | Int _, Infinity n => Infinity (negb n)
  | Infinity n, Int _ => Infinity n
  | Infinity n, Infinity n' => if Bool.eqb n n' then NaN else Infinity n
  end.

(** [a > 0] *)
Definition positive (a : Number) : bool :=
  match a with
  | NaN => false
  | Int z => (0 <? z)%Z
  | Infinity negative => negb negative
  end.

(** [a <= b] for two numbers; false when one of them is [NaN]. *)
Definition leb (a b : Number) : bool :=
  match a, b with
  | NaN, _ | _, NaN => false
  | Int x, Int y => (x <=? y)%Z
  | Infinity n, Int _ => n
  | Int _, Infinity n => negb n
  | Infinity n, Infinity n' => n || negb n'
  end.

(** [Math.max(a, b)] and [Math.min(a, b)] *)
Definition Math_max (a b : Number) : Number :=
  match a, b with
  | NaN, _ | _, NaN => NaN
  | _, _ => if leb a b then b else a
  end.

Definition Math_min (a b : Number) : Number :=
  match a, b with
  | NaN, _ | _, NaN => NaN
  | _, _ => if leb a b then a else b
  end.

End JsNumber.
Import JsNumber.

(* ===================================================================== *)
(** * Regular expressions: the backtracking matcher of ECMAScript *)
(* ===================================================================== *)

Module Regex.

(** A character set is a union of inclusive code-unit ranges. *)
Definition cset := list (N * N).

Definition in_set (cs : cset) (c : char) : bool :=
  existsb (fun r => N.leb (fst r) c && N.leb c (snd r)) cs.

Definition ch (a : ascii) : N := N_of_ascii a.
Definition one (a : ascii) : N * N := (ch a, ch a).

Definition digit_set : cset := [(ch "0", ch "9")].
Definition upper_set : cset := [(ch "A", ch "Z")].
Definition lower_set : cset := [(ch "a", ch "z")].
(** [\w] *)
Definition word_set : cset := upper_set ++ lower_set ++ digit_set ++ [one "_"].
(** [\s]: WhiteSpace and LineTerminator code points. *)
Definition space_set : cset :=
  [(9, 13); (32, 32); (160, 160); (5760, 5760); (8192, 8202); (8232, 8233);
   (8239, 8239); (8287, 8287); (12288, 12288); (65279, 65279)]%N.
(** What [.] excludes: the line terminators. *)
Definition line_terminators : cset := [(10, 10); (13, 13); (8232, 8233)]%N.

(** The syntax the sources use. A capturing group changes nothing for
    [test] and for a [replace] callback that reads only the whole match, so
    it is not represented. *)
Inductive regex : Type :=
| Eps
| Cls (neg : bool) (cs : cset)
| Seq (r1 r2 : regex)
| Rep (greedy : bool) (lo : nat) (hi : option nat) (r : regex)
| WordB
| Bol
| Eol.

(** A position is the code unit before it (if any) and the text after it.
    A continuation receives the position reached and answers with the
    number of code units left after the end of the whole match. *)
Definition cont := option char -> jsstring -> option nat.

Definition is_word (c : char) : bool := in_set word_set c.
Definition word_at (o : option char) : bool :=
  match o with Some c => is_word c | None => false end.

(** RepeatMatcher: a greedy quantifier tries one more iteration before it
    tries the continuation, a lazy one the other way round; once the
    minimum is reached an iteration that consumes nothing fails. *)
Fixpoint rep (step : cont -> cont) (fuel : nat) (greedy : bool) (lo : nat)
    (hi : option nat) (k : cont) (prev : option char) (s : jsstring)
    {struct fuel} : option nat :=
  match fuel with
  | O => None
  | S f =>
      let more :=
        match hi with
        | Some O => None
        | _ =>
            step (fun p' s' =>
                    if (length s' <? length s) || (0 <? lo)
                    then rep step f greedy (pred lo) (option_map pred hi) k p' s'
                    else None) prev s
        end in
      let stop := if lo =? 0 then k prev s else None in
      if greedy
      then match more with Some n => Some n | None => stop end
      else match stop with Some n => Some n | None => more end
  end.

Fixpoint m (r : regex) (k : cont) (prev : option char) (s : jsstring)
    {struct r} : option nat :=
  match r with
  | Eps => k prev s
  | Cls neg cs =>
      match s with
      | c :: s' => if xorb neg (in_set cs c) then k (Some c) s' else None
      | [] => None
      end
  | Seq r1 r2 => m r1 (m r2 k) prev s
  | Rep g lo hi r' => rep (m r') (lo + length s + 1) g lo hi k prev s
  | WordB =>
      if xorb (word_at prev) (word_at (hd_error s)) then k prev s else None
  | Bol => match prev with None => k prev s | Some _ => None end
  | Eol => match s with [] => k prev s | _ :: _ => None end
  end.

Definition done : cont := fun _ t => Some (length t).

(** A match attempt at one position: the length of the match found there. *)
Definition match_at (r : regex) (prev : option char) (s : jsstring) : option nat :=
  match m r done prev s with
  | Some rest => Some (length s - rest)
  | None => None
  end.

(** [regex.test(s)] for a regex without the [g] flag: is there a position
    where a match starts? *)
Fixpoint test_from (r : regex) (prev : option char) (s : jsstring) : bool :=
  match match_at r prev s with
  | Some _ => true
  | None =>
      match s with
      | [] => false
      | c :: s' => test_from r (Some c) s'
      end
  end.

Definition test (r : regex) (s : jsstring) : bool := test_from r None s.

(** [s.replace(regex, callback)] for a regex with the [g] flag. The
    callback may update a state (the sources' callbacks count and collect);
    it is called on the matches from left to right. After a match the
    search resumes behind it, one code unit further when the match was
    empty. [skip] counts the code units of the current match still to be
    dropped. *)
Section Replace.
Variable St : Type.
Variable cb : jsstring -> St -> jsstring * St.

Fixpoint replace_from (r : regex) (prev : option char) (s : jsstring)
    (skip : nat) (st : St) {struct s} : jsstring * St :=
  match skip with
  | S n =>
      match s with
      | [] => ([], st)
      | c :: s' => replace_from r (Some c) s' n st
      end
  | O =>
      match match_at r prev s with
      | Some len =>
          let (out, st1) := cb (firstn len s) st in
          match s with
          | [] => (out, st1)
          | c :: s' =>
              match len with
              | O =>
                  let (rest, st2) := replace_from r (Some c) s' 0 st1 in
                  (out ++ c :: rest, st2)
              | S n =>
                  let (rest, st2) := replace_from r (Some c) s' n st1 in
                  (out ++ rest, st2)
              end
          end
      | None =>
          match s with
          | [] => ([], st)
          | c :: s' =>
              let (rest, st2) := replace_from r (Some c) s' 0 st in
              (c :: rest, st2)
          end
      end
  end.

Definition replace_all (r : regex) (s : jsstring) (st : St) : jsstring * St :=
  replace_from r None s 0 st.
End Replace.

(** Shorthands for writing the sources' regex literals. *)
Definition lit (a : ascii) : regex := Cls false [one a].
Definition digit : regex := Cls false digit_set.
Definition opt (r : regex) : regex := Rep true 0 (Some 1) r.
Definition times (lo hi : nat) (r : regex) : regex := Rep true lo (Some hi) r.
Definition exactly (n : nat) (r : regex) : regex := Rep true n (Some n) r.
Definition at_least (n : nat) (r : regex) : regex := Rep true n None r.
Fixpoint seq (rs : list regex) : regex :=
  match rs with
  | [] => Eps
  | [r] => r
  | r :: rs' => Seq r (seq rs')
  end.

End Regex.
Import Regex.

(* ===================================================================== *)
(** * lib/piiRedaction.ts *)
(* ===================================================================== *)

Module PiiRedaction.

(** [s.replace(/\D/g, '')] *)
Definition digits_of (s : jsstring) : jsstring := filter (in_set digit_set) s.

(** The loop of [luhnCheck], from the last digit to the first. *)
Fixpoint luhn_loop (digits_from_last : jsstring) (alternate : bool) (sum : N) : N :=
  match digits_from_last with
  | [] => sum
  | c :: rest =>
      let n := (c - ch "0")%N in
      let n := if alternate
               then (if (9 <? n * 2)%N then n * 2 - 9 else n * 2)%N
               else n in
      luhn_loop rest (negb alternate) (sum + n)%N
  end.

Definition luhnCheck (num : jsstring) : bool :=
  let digits := digits_of num in
  (luhn_loop (rev digits) false 0 mod 10 =? 0)%N.

Record RedactionPattern := {
  name : jsstring;
  regex : Regex.regex;
  mask : jsstring -> jsstring
}.

Definition sep_set : cset := space_set ++ [one "-"].
Definition sep3_set : cset := space_set ++ [one "."; one "-"].
Definition alnum_upper_set : cset := upper_set ++ digit_set.
Definition local_set : cset :=
  lower_set ++ upper_set ++ digit_set ++
  [one "."; one "_"; one "%"; one "+"; one "-"].
Definition domain_set : cset :=
  lower_set ++ upper_set ++ digit_set ++ [one "."; one "-"].
Definition letter_set : cset := lower_set ++ upper_set.

(** [/\b(\d{4}[\s-]?\d{4}[\s-]?\d{4}[\s-]?\d{4})\b/g] *)
Definition credit_card_regex : Regex.regex :=
  seq [WordB;
       exactly 4 digit; opt (Cls false sep_set);
       exactly 4 digit; opt (Cls false sep_set);
       exactly 4 digit; opt (Cls false sep_set);
       exactly 4 digit;
       WordB].

Definition stars (n : nat) : jsstring := repeat (ch "*") n.

Definition credit_card_mask (match_ : jsstring) : jsstring :=
  let digits := digits_of match_ in
  if negb (length digits =? 16) || negb (luhnCheck digits) then match_
  else
    let last4 := slice_last 4 digits in
    let sep := if includes_char (ch "-") match_ then js "-"
               else if includes_char (ch " ") match_ then js " "
               else [] in
    stars 4 ++ sep ++ stars 4 ++ sep ++ stars 4 ++ sep ++ last4.

(** [/\b([A-Z]{2}\d{2}[A-Z0-9]{4,30})\b/g] *)
Definition iban_regex : Regex.regex :=
  seq [WordB;
       exactly 2 (Cls false upper_set); exactly 2 digit;
       times 4 30 (Cls false alnum_upper_set);
       WordB].

Definition iban_mask (match_ : jsstring) : jsstring :=
  if length match_ <? 15 then match_
  else slice_to 4 match_ ++ stars 4 ++ slice_last 4 match_.

(** [/\b(\d{3}-\d{2}-\d{4})\b/g] *)
Definition ssn_regex : Regex.regex :=
  seq [WordB; exactly 3 digit; lit "-"; exactly 2 digit; lit "-";
       exactly 4 digit; WordB].

Definition ssn_mask (_ : jsstring) : jsstring := js "***-**-****".

(** [/\b([a-zA-Z0-9._%+-]+@[a-zA-Z0-9.-]+\.[a-zA-Z]{2,})\b/g] *)
Definition email_regex : Regex.regex :=
  seq [WordB;
       at_least 1 (Cls false local_set); lit "@";
       at_least 1 (Cls false domain_set); lit ".";
       at_least 2 (Cls false letter_set);
       WordB].

(** [s.split(c)] for a one-character separator. *)
Fixpoint split_on (c : char) (s : jsstring) : list jsstring :=
  match s with
  | [] => [[]]
  | x :: s' =>
      match split_on c s' with
      | piece :: pieces =>
          if N.eqb x c then [] :: piece :: pieces else (x :: piece) :: pieces
      | [] => [[x]]
      end
  end.

(** How a template literal prints a string that may be [undefined]. *)
Definition show (o : option jsstring) : jsstring :=
  match o with Some s => s | None => js "undefined" end.

Definition email_mask (match_ : jsstring) : jsstring :=
  let pieces := split_on (ch "@") match_ in
  let local := nth_error pieces 0 in
  let domain := nth_error pieces 1 in
  let local0 := match local with
                | Some (c :: _) => Some [c]
                | _ => None
                end in
  show local0 ++ js "***@" ++ show domain.

(** [/(\+\d{1,3}[\s.-]?\d[\s.-]?\d{3,4}[\s.-]?\d{3,4})\b/g] *)
Definition phone_regex : Regex.regex :=
  seq [lit "+"; times 1 3 digit; opt (Cls false sep3_set);
       digit; opt (Cls false sep3_set);
       times 3 4 digit; opt (Cls false sep3_set);
       times 3 4 digit;
       WordB].

Definition phone_mask (match_ : jsstring) : jsstring :=
  let digits := digits_of match_ in
  if length digits <? 8 then match_
  else js "+" ++ slice_to 2 digits ++ js "***" ++ slice_last 2 digits.

Definition PATTERNS : list RedactionPattern :=
  [ {| name := js "credit_card"; regex := credit_card_regex; mask := credit_card_mask |};
    {| name := js "iban"; regex := iban_regex; mask := iban_mask |};
    {| name := js "ssn"; regex := ssn_regex; mask := ssn_mask |};
    {| name := js "email"; regex := email_regex; mask := email_mask |};
    {| name := js "phone"; regex := phone_regex; mask := phone_mask |} ].

(** [typesFound] is a [Set<string>]: insertion order, no duplicates. *)
Definition TypeSet := list jsstring.
Definition set_add (x : jsstring) (s : TypeSet) : TypeSet :=
  if existsb (str_eqb x) s then s else s ++ [x].

(** The callback [redactString] hands to [replace]: the state is the local
    [count] and the shared [typesFound]. *)
Definition redact_callback (pattern : RedactionPattern) (match_ : jsstring)
    (st : nat * TypeSet) : jsstring * (nat * TypeSet) :=
  let masked := mask pattern match_ in
  if negb (str_eqb masked match_)
  then (masked, (S (fst st), set_add (name pattern) (snd st)))
  else (masked, st).

Definition redactString (value : jsstring) (typesFound : TypeSet)
  : jsstring * (nat * TypeSet) :=
  fold_left
    (fun acc pattern =>
       replace_all (redact_callback pattern) (regex pattern) (fst acc) (snd acc))
    PATTERNS (value, (0, typesFound)).

(** [result[key] = r] on the copy under construction. Assigning to
    [__proto__] reaches the setter of [Object.prototype] and creates no own
    property. *)
Definition assign (key : jsstring) (r : value) (result : list (jsstring * value))
  : list (jsstring * value) :=
  if str_eqb key (js "__proto__") then result else set_prop key r result.

(** Results are [((result, count), typesFound)]. *)
Fixpoint redactRecursive (data : value) (typesFound : TypeSet) {struct data}
  : (value * nat) * TypeSet :=
  match data with
  | JStr s =>
      let '(r, (count, types)) := redactString s typesFound in
      ((JStr r, count), types)
  | JArr items =>
      let fix each (items : list value) (types : TypeSet)
          : (list value * nat) * TypeSet :=
        match items with
        | [] => (([], 0), types)
        | item :: rest =>
            let '((r, count), types1) := redactRecursive item types in
            let '((rs, total), types2) := each rest types1 in
            ((r :: rs, count + total), types2)
        end in
      let '((rs, totalCount), types) := each items typesFound in
      ((JArr rs, totalCount), types)
  | JObj props =>
      let fix entries (props : list (jsstring * value))
          (result : list (jsstring * value)) (totalCount : nat) (types : TypeSet)
          : (list (jsstring * value) * nat) * TypeSet :=
        match props with
        | [] => ((result, totalCount), types)
        | (key, v) :: rest =>
            let '((r, count), types1) := redactRecursive v types in
            entries rest (assign key r result) (totalCount + count) types1
        end in
      let '((result, totalCount), types) := entries props [] 0 typesFound in
      ((JObj result, totalCount), types)
  | _ => ((data, 0), typesFound)
  end.

(** The two loops of [redactRecursive] on their own: the [map] over an
    array and the [for] over the entries of an object. *)
Fixpoint redact_items (items : list value) (types : TypeSet)
  : (list value * nat) * TypeSet :=
  match items with
  | [] => (([], 0), types)
  | item :: rest =>
      let '((r, count), types1) := redactRecursive item types in
      let '((rs, total), types2) := redact_items rest types1 in
      ((r :: rs, count + total), types2)
  end.

Fixpoint redact_entries (props : list (jsstring * value))
    (result : list (jsstring * value)) (totalCount : nat) (types : TypeSet)
  : (list (jsstring * value) * nat) * TypeSet :=
  match props with
  | [] => ((result, totalCount), types)
  | (key, v) :: rest =>
      let '((r, count), types1) := redactRecursive v types in
      redact_entries rest (assign key r result) (totalCount + count) types1
  end.

Record RedactionResult := {
  redactedData : value;
  redactionCount : nat;
  redactedTypes : list jsstring
}.

Definition redactPII (data : value) : RedactionResult :=
  let '((result, count), typesFound) := redactRecursive data [] in
  {| redactedData := result; redactionCount := count; redactedTypes := typesFound |}.

End PiiRedaction.
Import PiiRedaction.


(* ===================================================================== *)
(** * lib/inputSanitizer.ts *)
(* ===================================================================== *)

Module InputSanitizer.

(** [/^[a-zA-Z0-9\-.*,_]+$/] *)
Definition index_name_set : cset :=
  lower_set ++ upper_set ++ digit_set ++
  [one "-"; one "."; one "*"; one ","; one "_"].

Definition INDEX_NAME_REGEX : Regex.regex :=
  seq [Bol; at_least 1 (Cls false index_name_set); Eol].

Definition invalid_index_message (index : jsstring) : jsstring :=
  js "Invalid index name " ++ dquote ++ index ++ dquote ++
  js ". Only alphanumeric characters, hyphens, dots, asterisks, commas, and underscores are allowed.".

(** [validateIndexName]: returns normally or throws an [Error]. *)
Definition validateIndexName (index : jsstring) : Res unit :=
  if negb (truthy (JStr index)) || negb (test INDEX_NAME_REGEX index)
  then Throw (mkError (invalid_index_message index))
  else Ok tt.

End InputSanitizer.
Import InputSanitizer.

(* ===================================================================== *)
(** * lib/config.ts *)
(* ===================================================================== *)

Module Config.

(** The fields the modelled code reads. The URLs, the credential, the
    request timeout and the Kibana space only configure the HTTP library.
    [retryAttempts] comes from [parseInt]; a value that is not a number
    bounds the retry loop like a non-positive one. *)
Record ServerConfig := {
  allowedIndexPatterns : list jsstring;
  maxSearchSize : Z;
  retryAttempts : Z;
  retryDelayMs : Z;
  auditEnabled : bool;
  piiRedactionEnabled : bool
}.

End Config.
Import Config.

(* ===================================================================== *)
(** * lib/auditLogger.ts *)
(* ===================================================================== *)

Module AuditLogger.

Inductive Status := success_status | error_status.

(** [timestamp] holds the clock reading that [toISOString] would print;
    [error_message] is [undefined] when absent. *)
Record AuditEntry := {
  timestamp : Z;
  tool_called : jsstring;
  input_parameters : jsstring;
  output_size_bytes : nat;
  redaction_count : nat;
  redacted_types : list jsstring;
  execution_time_ms : Z;
  status : Status;
  error_message : value
}.

Definition MAX_INPUT_LOG_LENGTH : nat := 500.

Definition truncation_marker : jsstring := js "...[truncated]".

(** The [sanitized] copy built by [log]. *)
Definition sanitize (entry : AuditEntry) : AuditEntry :=
  {| timestamp := timestamp entry;
     tool_called := tool_called entry;
     input_parameters :=
       if MAX_INPUT_LOG_LENGTH <? length (input_parameters entry)
       then slice_to MAX_INPUT_LOG_LENGTH (input_parameters entry) ++ truncation_marker
       else input_parameters entry;
     output_size_bytes := output_size_bytes entry;
     redaction_count := redaction_count entry;
     redacted_types := redacted_types entry;
     execution_time_ms := execution_time_ms entry;
     status := status entry;
     error_message := error_message entry |}.

(** [log]: the sink is standard error; each record written is one line of
    JSON text there, kept here as the record that is serialised. *)
Definition log (enabled : bool) (entry : AuditEntry) (stderr : list AuditEntry)
  : list AuditEntry :=
  if negb enabled then stderr
  else stderr ++ [sanitize entry].

End AuditLogger.

(* ===================================================================== *)
(** * The world the code runs in: backend, timers, clock, standard error *)
(* ===================================================================== *)

Module Runtime.

Inductive Method := GET | POST.
Inductive Client := Elasticsearch | Kibana.

Record Request := {
  client : Client;
  method : Method;
  path : jsstring;
  body : option value
}.

(** What a rejected HTTP call carries: [error.message] and, when the
    server answered, [error.response] with its numeric [status] and [data]. *)
Record AxiosResponse := { status : Z; data : value }.
Record AxiosError := { message : jsstring; response : option AxiosResponse }.

Inductive HttpOutcome (T : Type) : Type :=
| Resolved (t : T)
| Rejected (e : AxiosError).
Arguments Resolved {T} t.
Arguments Rejected {T} e.

(** [backend n req] is what the [n]-th HTTP call of the run meets when it
    is [req]; [clock n] is the [n]-th reading of [Date.now()]. *)
Record World := {
  backend : nat -> Request -> HttpOutcome value;
  http_log : list Request;
  sleeps : list Z;
  clock : nat -> Z;
  clock_reads : nat;
  stderr : list AuditLogger.AuditEntry
}.

Definition M (A : Type) : Type := World -> Res A * World.

Definition ret {A} (a : A) : M A := fun w => (Ok a, w).
Definition throw {A} (e : value) : M A := fun w => (Throw e, w).
Definition bind {A B} (c : M A) (k : A -> M B) : M B :=
  fun w =>
    match c w with
    | (Ok a, w1) => k a w1
    | (Throw e, w1) => (Throw e, w1)
    end.
Definition lift {A} (r : Res A) : M A := fun w => (r, w).

(** [try { c } catch (error) { handler }] *)
Definition try_catch {A} (c : M A) (handler : value -> M A) : M A :=
  fun w =>
    match c w with
    | (Ok a, w1) => (Ok a, w1)
    | (Throw e, w1) => handler e w1
    end.

(** One awaited HTTP call. *)
Definition http (req : Request) : World -> HttpOutcome value * World :=
  fun w =>
    (backend w (length (http_log w)) req,
     {| backend := backend w; http_log := http_log w ++ [req];
        sleeps := sleeps w; clock := clock w; clock_reads := clock_reads w;
        stderr := stderr w |}).

(** [await new Promise((resolve) => setTimeout(resolve, delay))] *)
Definition sleep (delay : Z) (w : World) : World :=
  {| backend := backend w; http_log := http_log w;
     sleeps := sleeps w ++ [delay]; clock := clock w;
     clock_reads := clock_reads w; stderr := stderr w |}.

(** [Date.now()] *)
Definition now : M Z :=
  fun w =>
    (Ok (clock w (clock_reads w)),
     {| backend := backend w; http_log := http_log w; sleeps := sleeps w;
        clock := clock w; clock_reads := S (clock_reads w);
        stderr := stderr w |}).

Definition write_stderr (f : list AuditLogger.AuditEntry -> list AuditLogger.AuditEntry)
  : M unit :=
  fun w =>
    (Ok tt,
     {| backend := backend w; http_log := http_log w; sleeps := sleeps w;
        clock := clock w; clock_reads := clock_reads w;
        stderr := f (stderr w) |}).

(** The value a caller catches when an HTTP call is rejected. *)
Definition axios_error_value (e : AxiosError) : value :=
  JObj ((js "message", JStr (message e)) ::
        match response e with
        | Some r =>
            [(js "response",
              JObj [(js "status", JNum (status r)); (js "data", data r)])]
        | None => []
        end).

End Runtime.
Import Runtime.

Declare Scope js_scope.
Notation "x <- c ;; k" := (bind c (fun x => k))
  (at level 61, c at next level, right associativity) : js_scope.
Notation "c ;;; k" := (bind c (fun _ => k))
  (at level 61, right associativity) : js_scope.
Open Scope js_scope.

(* ===================================================================== *)
(** * lib/esClient.ts *)
(* ===================================================================== *)

Module EsClient.

(** ** [globMatch] *)

(** The set of [/[.+^${}()|[\]\\]/]. *)
Definition special_set : cset :=
  [one "."; one "+"; one "^"; one "$"; one "{"; one "}"; one "("; one ")";
   one "|"; one "["; one "]"; one "\"].

(** [pattern.replace(/[.+^${}()|[\]\\]/g, '\\$&')] *)
Definition escape_specials (pattern : jsstring) : jsstring :=
  flat_map (fun c => if in_set special_set c then [ch "\"; c] else [c]) pattern.

(** [.replace(/\*/g, '.*')] *)
Definition stars_to_dotstar (s : jsstring) : jsstring :=
  flat_map (fun c => if N.eqb c (ch "*") then js ".*" else [c]) s.

(** The source text handed to [new RegExp]. *)
Definition glob_source (pattern : jsstring) : jsstring :=
  js "^" ++ stars_to_dotstar (escape_specials pattern) ++ js "$".

(** The characters with a meaning of their own in a pattern. *)
Definition syntax_set : cset :=
  special_set ++ [one "*"; one "?"; one "/"].

Inductive Parsed :=
| Pattern (r : Regex.regex)
| SyntaxError
| Unsupported.

(** What the last term parsed is, for the quantifier that may follow. *)
Inductive Last := NoTerm | Assertion | Atom | Quantified | LazyQuantified.

(** [new RegExp(source)] for the pattern syntax that [glob_source] can
    produce: assertions [^] and [$], the atom [.], an escaped syntax
    character, an ordinary character, and the quantifiers [*] and [?]
    ([?] after a quantifier makes it lazy). A quantifier with nothing to
    repeat is a SyntaxError. Syntax that [glob_source] never produces is
    reported as [Unsupported]. [acc] holds the terms read, last first. *)
Fixpoint parse (source : jsstring) (acc : list Regex.regex) (last : Last) : Parsed :=
  match source with
  | [] => Pattern (seq (rev acc))
  | c :: rest =>
      if N.eqb c (ch "\") then
        match rest with
        | e :: rest' =>
            if in_set syntax_set e
            then parse rest' (Cls false [(e, e)] :: acc) Atom
            else Unsupported
        | [] => SyntaxError
        end
      else if N.eqb c (ch "^") then parse rest (Bol :: acc) Assertion
      else if N.eqb c (ch "$") then parse rest (Eol :: acc) Assertion
      else if N.eqb c (ch ".") then
        parse rest (Cls true line_terminators :: acc) Atom
      else if N.eqb c (ch "*") then
        match last, acc with
        | Atom, t :: acc' => parse rest (Rep true 0 None t :: acc') Quantified
        | _, _ => SyntaxError
        end
      else if N.eqb c (ch "?") then
        match last, acc with
        | Atom, t :: acc' =>
            parse rest (Rep true 0 (Some 1) t :: acc') Quantified
        | Quantified, Rep _ lo hi t :: acc' =>
            parse rest (Rep false lo hi t :: acc') LazyQuantified
        | _, _ => SyntaxError
        end
      else if in_set special_set c then Unsupported
      else parse rest (Cls false [(c, c)] :: acc) Atom
  end.

Definition RegExp_new (source : jsstring) : Parsed := parse source [] NoTerm.

Definition globMatch (pattern value : jsstring) : Res bool :=
  match RegExp_new (glob_source pattern) with
  | Pattern r => Ok (test r value)
  | SyntaxError | Unsupported =>
      Throw (mkError (js "Invalid regular expression"))
  end.

(** [patterns.some((pattern) => globMatch(pattern, index))] *)
Fixpoint some_globMatch (patterns : list jsstring) (index : jsstring) : Res bool :=
  match patterns with
  | [] => Ok false
  | pattern :: rest =>
      match globMatch pattern index with
      | Ok true => Ok true
      | Ok false => some_globMatch rest index
      | Throw e => Throw e
      end
  end.

(** ** [validateIndex] *)

Definition not_allowed_message (index : jsstring) (patterns : list jsstring) : jsstring :=
  js "Index " ++ dquote ++ index ++ dquote ++
  js " is not in the allowed index patterns: " ++ join (js ", ") patterns.

Definition validateIndex (config : ServerConfig) (index : jsstring) : Res unit :=
  match validateIndexName index with
  | Throw e => Throw e
  | Ok _ =>
      if 0 <? length (allowedIndexPatterns config) then
        match some_globMatch (allowedIndexPatterns config) index with
        | Throw e => Throw e
        | Ok allowed =>
            if negb allowed
            then Throw (mkError (not_allowed_message index (allowedIndexPatterns config)))
            else Ok tt
        end
      else Ok tt
  end.

(** ** [withRetry] *)

(** [status && status >= 400 && status < 500 && status !== 429], where
    [status] is [error.response?.status]. *)
Definition client_error (e : AxiosError) : bool :=
  match response e with
  | Some r =>
      let status := status r in
      negb (status =? 0)%Z && (400 <=? status)%Z && (status <? 500)%Z &&
      negb (status =? 429)%Z
  | None => false
  end.

(** What [throw lastError] throws: [undefined] when nothing was assigned. *)
Definition thrown_lastError (lastError : option AxiosError) : value :=
  match lastError with
  | Some e => axios_error_value e
  | None => JUndefined
  end.

Section WithRetry.
Variable config : ServerConfig.
Variable T : Type.
Variable fn : World -> HttpOutcome T * World.

(** The [for] loop, with [iterations] passes left before the condition
    [attempt < retryAttempts] fails. *)
Fixpoint withRetry_loop (iterations : nat) (attempt : Z)
    (lastError : option AxiosError) (w : World) : Res T * World :=
  match iterations with
  | O => (Throw (thrown_lastError lastError), w)
  | S iterations' =>
      match fn w with
      | (Resolved t, w1) => (Ok t, w1)
      | (Rejected error, w1) =>
          if client_error error then (Throw (axios_error_value error), w1)
          else
            let w2 :=
              if (attempt <? retryAttempts config - 1)%Z
              then sleep (retryDelayMs config * 2 ^ attempt)%Z w1
              else w1 in
            withRetry_loop iterations' (attempt + 1)%Z (Some error) w2
      end
  end.

Definition withRetry : M T :=
  withRetry_loop (Z.to_nat (retryAttempts config)) 0%Z None.
End WithRetry.

(** ** The operations *)

Definition search (config : ServerConfig) (index : jsstring)
    (body : list (jsstring * value)) (size : Z) : M value :=
  _ <- lift (validateIndex config index) ;;
  let cappedSize := Z.min size (maxSearchSize config) in
  withRetry config
    (http {| client := Elasticsearch; method := POST;
             path := js "/" ++ index ++ js "/_search";
             body := Some (JObj (set_prop (js "size") (JNum cappedSize) body)) |}).

Definition catIndices (config : ServerConfig) (pattern : option jsstring) : M value :=
  let pattern := match pattern with Some p => p | None => js "*" end in
  withRetry config
    (http {| client := Elasticsearch; method := GET;
             path := js "/_cat/indices/" ++ pattern ++
                     js "?format=json&h=index,health,status,docs.count,store.size";
             body := None |}).

Definition getMapping (config : ServerConfig) (index : jsstring) : M value :=
  _ <- lift (validateIndex config index) ;;
  withRetry config
    (http {| client := Elasticsearch; method := GET;
             path := js "/" ++ index ++ js "/_mapping";
             body := None |}).

End EsClient.
Import EsClient.

(* ===================================================================== *)
(** * lib/types.ts and lib/toolWrapper.ts *)
(* ===================================================================== *)

Module ToolWrapper.

(** [ToolResult<T>]: the union the tools return. At run time [error] holds
    whatever the wrapper found in the fault it caught. *)
Inductive ToolResult :=
| success (data : value) (total : option value) (aggregations : option value)
| error (error : value).

Definition optional (key : string) (o : option value) : list (jsstring * value) :=
  match o with
  | Some v => [(js key, v)]
  | None => []
  end.

(** The object a [ToolResult] is. *)
Definition toJS (result : ToolResult) : value :=
  match result with
  | success data total aggregations =>
      JObj ([(js "type", JStr (js "success")); (js "data", data)] ++
            optional "total" total ++ optional "aggregations" aggregations)
  | error e => JObj [(js "type", JStr (js "error")); (js "error", e)]
  end.

(** [match(v)({ success: ..., error: ... })] of the dismatch library on a
    value known only at run time: it dispatches on the [type] property and
    fails when no handler carries that name. *)
Definition dismatch {A} (v : value) (on_success on_error : value -> A) : Res A :=
  match get_prop v (js "type") with
  | Throw e => Throw e
  | Ok (JStr t) =>
      if str_eqb t (js "success") then Ok (on_success v)
      else if str_eqb t (js "error") then Ok (on_error v)
      else Throw (mkError (js "No handler for this variant"))
  | Ok _ => Throw (mkError (js "No handler for this variant"))
  end.

(** The message of the [catch] block:
    [error.response?.data?.error?.reason || error.response?.data?.message
     || error.message || 'Unknown error']. *)
Definition errorMessage_of (error : value) : Res value :=
  match get_prop error (js "response") with
  | Throw e => Throw e
  | Ok response =>
      let data := get_opt response (js "data") in
      let reason := get_opt (get_opt data (js "error")) (js "reason") in
      if truthy reason then Ok reason
      else
        let message := get_opt data (js "message") in
        if truthy message then Ok message
        else
          match get_prop error (js "message") with
          | Throw e => Throw e
          | Ok own => Ok (js_or own (JStr (js "Unknown error")))
          end
  end.

Section Execute.
(** [JSON.stringify], a function of the host. *)
Variable JSON_stringify : value -> jsstring.
Variable config : ServerConfig.

(** The [// PII redaction] step: the final result, the count, the types. *)
Definition redaction_step (result : ToolResult) : value * nat * list jsstring :=
  match result with
  | success _ _ _ =>
      if negb (piiRedactionEnabled config) then (toJS result, 0, [])
      else
        let redaction := redactPII (toJS result) in
        (redactedData redaction, redactionCount redaction, redactedTypes redaction)
  | error _ => (toJS result, 0, [])
  end.

(** The second half of [execute], from the comment [// PII redaction] to
    the [return]: redact, time, build the entry, log, return. *)
Definition redact_audit_return (id : jsstring) (input : value) (startTime : Z)
    (result : ToolResult) : M value :=
  let '(finalResult, redactionCount, redactedTypes) := redaction_step result in
  endTime <- now ;;
  let executionTime := (endTime - startTime)%Z in
  auditFields <- lift (dismatch finalResult
                         (fun _ => (AuditLogger.success_status, JUndefined))
                         (fun r => (AuditLogger.error_status,
                                    get_opt r (js "error")))) ;;
  date <- now ;;
  write_stderr
    (AuditLogger.log (auditEnabled config)
       {| AuditLogger.timestamp := date;
          AuditLogger.tool_called := id;
          AuditLogger.input_parameters := JSON_stringify input;
          AuditLogger.output_size_bytes := length (JSON_stringify finalResult);
          AuditLogger.redaction_count := redactionCount;
          AuditLogger.redacted_types := redactedTypes;
          AuditLogger.execution_time_ms := executionTime;
          AuditLogger.status := fst auditFields;
          AuditLogger.error_message := snd auditFields |}) ;;;
  ret finalResult.

(** The [execute] that [createSecureTool] builds around the tool's own
    [options.execute], here [logic] already applied to [input]. *)
Definition execute (id : jsstring) (input : value) (logic : M ToolResult)
  : M value :=
  startTime <- now ;;
  result <- try_catch logic
              (fun caught =>
                 errorMessage <- lift (errorMessage_of caught) ;;
                 ret (error errorMessage)) ;;
  redact_audit_return id input startTime result.
End Execute.

End ToolWrapper.
Import ToolWrapper.

(* ===================================================================== *)
(** * tools/kibanaSearch.ts: the time-range merge *)
(* ===================================================================== *)

Module KibanaSearch.

Inductive QueryShape :=
| has_bool (bool : value) (body : list (jsstring * value))
| has_query (query : value) (body : list (jsstring * value))
| no_query (body : list (jsstring * value)).

(** [body.query] of an object. *)
Definition body_query (body : list (jsstring * value)) : value :=
  match lookup (js "query") body with
  | Some q => q
  | None => JUndefined
  end.

(** [classifyQuery]. Where [body.query?.bool] is truthy, [body.query] is
    neither [undefined] nor [null] and the plain read [body.query.bool]
    yields the same value. *)
Definition classifyQuery (body : list (jsstring * value)) : QueryShape :=
  if truthy (get_opt (body_query body) (js "bool"))
  then has_bool (get_opt (body_query body) (js "bool")) body
  else if truthy (body_query body) then has_query (body_query body) body
  else no_query body.

Definition rangeFilter (time_range : jsstring) : value :=
  JObj [(js "range",
         JObj [(js "@timestamp",
                JObj [(js "gte", JStr time_range); (js "lte", JStr (js "now"))])])].

(** [Array.isArray(bool.filter) ? bool.filter : bool.filter ? [bool.filter] : []];
    [bool] is truthy here, so reading its property cannot throw. *)
Definition filters_of (bool : value) : list value :=
  match get_opt bool (js "filter") with
  | JArr items => items
  | other => if truthy other then [other] else []
  end.

(** The [match(classifyQuery(searchBody))({...})] expression. *)
Definition mergeTimeRange (searchBody : list (jsstring * value))
    (time_range : jsstring) : list (jsstring * value) :=
  match classifyQuery searchBody with
  | has_bool bool body =>
      set_prop (js "query")
        (JObj [(js "bool",
                JObj (set_prop (js "filter")
                        (JArr (filters_of bool ++ [rangeFilter time_range]))
                        (spread bool)))])
        body
  | has_query query body =>
      set_prop (js "query")
        (JObj [(js "bool",
                JObj [(js "must", JArr [query]);
                      (js "filter", JArr [rangeFilter time_range])])])
        body
  | no_query body =>
      set_prop (js "query")
        (JObj [(js "bool", JObj [(js "filter", JArr [rangeFilter time_range])])])
        body
  end.

(** [searchBody] as [execute] passes it to the client: a copy of [query],
    merged with [time_range] when one is given and not empty. *)
Definition searchBody_of (query : list (jsstring * value))
    (time_range : option jsstring) : list (jsstring * value) :=
  match time_range with
  | Some t => if truthy (JStr t) then mergeTimeRange query t else query
  | None => query
  end.

End KibanaSearch.
Import KibanaSearch.

(* ===================================================================== *)
(** * tools/listIndices.ts and tools/discoverCluster.ts *)
(* ===================================================================== *)

Module ListIndices.

(** [IndexInfo]. The fields are declared [string]; each is copied from a
    row of the response unchecked and holds whatever the row held. *)
Record IndexInfo := {
  index : value;
  health : value;
  status : value;
  doc_count : value;
  store_size : value
}.

Definition IndexInfo_value (i : IndexInfo) : value :=
  JObj [(js "index", index i); (js "health", health i);
        (js "status", status i); (js "doc_count", doc_count i);
        (js "store_size", store_size i)].

(** The callback of [rawIndices.map]. Reading [idx.index] fails on a row
    that is [null]; the reads after it are of the same row. *)
Definition to_IndexInfo (idx : value) : Res IndexInfo :=
  match get_prop idx (js "index") with
  | Throw e => Throw e
  | Ok name =>
      Ok {| index := name;
            health := get_opt idx (js "health");
            status := get_opt idx (js "status");
            doc_count := get_opt idx (js "docs.count");
            store_size := get_opt idx (js "store.size") |}
  end.

Fixpoint map_rows (rows : list value) : Res (list IndexInfo) :=
  match rows with
  | [] => Ok []
  | idx :: rest =>
      match to_IndexInfo idx with
      | Throw e => Throw e
      | Ok i =>
          match map_rows rest with
          | Throw e => Throw e
          | Ok infos => Ok (i :: infos)
          end
      end
  end.

(** [rawIndices.map(...)]: only an array has [map]. *)
Definition map_rawIndices (rawIndices : value) : Res (list IndexInfo) :=
  match rawIndices with
  | JArr rows => map_rows rows
  | _ => Throw (mkError (js "rawIndices.map is not a function"))
  end.

(** [idx.index.startsWith('.')]: only a string has the method; on
    [undefined] and [null] already the read of the property fails. *)
Definition startsWith_dot (index : value) : Res bool :=
  match index with
  | JStr s => Ok (startsWith (js ".") s)
  | _ =>
      match get_prop index (js "startsWith") with
      | Throw e => Throw e
      | Ok _ => Throw (mkError (js "idx.index.startsWith is not a function"))
      end
  end.

(** [indices.filter((idx) => !idx.index.startsWith('.'))] *)
Fixpoint filter_hidden (indices : list IndexInfo) : Res (list IndexInfo) :=
  match indices with
  | [] => Ok []
  | idx :: rest =>
      match startsWith_dot (index idx) with
      | Throw e => Throw e
      | Ok hidden =>
          match filter_hidden rest with
          | Throw e => Throw e
          | Ok kept => Ok (if hidden then kept else idx :: kept)
          end
      end
  end.

(** [globMatch(p, idx.index)] of the tools' own copy of [globMatch]: the
    pattern is compiled, then [test] converts its argument to a string. *)
Definition globMatch_value (pattern : jsstring) (v : value) : Res bool :=
  match RegExp_new (glob_source pattern) with
  | Pattern r =>
      match ToString v with
      | Throw e => Throw e
      | Ok s => Ok (test r s)
      end
  | SyntaxError | Unsupported =>
      Throw (mkError (js "Invalid regular expression"))
  end.

(** [patterns.some((p) => globMatch(p, idx.index))] *)
Fixpoint some_globMatch_value (patterns : list jsstring) (v : value) : Res bool :=
  match patterns with
  | [] => Ok false
  | pattern :: rest =>
      match globMatch_value pattern v with
      | Ok true => Ok true
      | Ok false => some_globMatch_value rest v
      | Throw e => Throw e
      end
  end.

(** [indices.filter((idx) => patterns.some((p) => globMatch(p, idx.index)))] *)
Fixpoint filter_allowed (patterns : list jsstring) (indices : list IndexInfo)
  : Res (list IndexInfo) :=
  match indices with
  | [] => Ok []
  | idx :: rest =>
      match some_globMatch_value patterns (index idx) with
      | Throw e => Throw e
      | Ok keep =>
          match filter_allowed patterns rest with
          | Throw e => Throw e
          | Ok kept => Ok (if keep then idx :: kept else kept)
          end
      end
  end.

(** Steps 1 to 4, which both tools share word for word. *)
Definition list_and_filter (config : ServerConfig) (pattern : option jsstring)
    (include_hidden : bool) : M (list IndexInfo) :=
  _ <- lift (validateIndexName (match pattern with Some p => p | None => js "*" end)) ;;
  rawIndices <- catIndices config pattern ;;
  indices <- lift (map_rawIndices rawIndices) ;;
  indices <- lift (if negb include_hidden then filter_hidden indices else Ok indices) ;;
  if 0 <? length (allowedIndexPatterns config)
  then lift (filter_allowed (allowedIndexPatterns config) indices)
  else ret indices.

(** [listIndicesTool]'s [execute]. *)
Definition execute (config : ServerConfig) (pattern : option jsstring)
    (include_hidden : bool) : M ToolResult :=
  indices <- list_and_filter config pattern include_hidden ;;
  ret (success (JArr (map IndexInfo_value indices))
         (Some (JNum (Z.of_nat (length indices)))) None).

End ListIndices.

Module DiscoverCluster.
Import ListIndices.

(** [parseInt(v, 10)]: the text of [v] without leading white space, an
    optional sign, then the longest run of digits, read as a decimal
    number and rounded to a double as Node does it; no digit gives [NaN]. *)
Fixpoint skip_spaces (s : jsstring) : jsstring :=
  match s with
  | c :: s' => if in_set space_set c then skip_spaces s' else s
  | [] => []
  end.

Fixpoint leading_digits (s : jsstring) : jsstring :=
  match s with
  | c :: s' => if in_set digit_set c then c :: leading_digits s' else []
  | [] => []
  end.

Definition decimal_value (digits : jsstring) : Z :=
  fold_left (fun acc c => (acc * 10 + Z.of_N (c - ch "0"))%Z) digits 0%Z.

Definition parseInt10 (v : value) : Res Number :=
  match ToString v with
  | Throw e => Throw e
  | Ok s =>
      let s := skip_spaces s in
      let (negative, s) :=
        match s with
        | c :: s' =>
            if N.eqb c (ch "-") then (true, s')
            else if N.eqb c (ch "+") then (false, s')
            else (false, s)
        | [] => (false, s)
        end in
      match leading_digits s with
      | [] => Ok NaN
      | digits =>
          Ok (double_of (if negative then (- decimal_value digits)%Z
                         else decimal_value digits))
      end
  end.

(** [parseInt(idx.doc_count, 10) || 0] *)
Definition count_of (idx : IndexInfo) : Res Number :=
  match parseInt10 (doc_count idx) with
  | Throw e => Throw e
  | Ok n => Ok (or_zero n)
  end.

Fixpoint counts_of (indices : list IndexInfo) : Res (list (Number * IndexInfo)) :=
  match indices with
  | [] => Ok []
  | idx :: rest =>
      match count_of idx with
      | Throw e => Throw e
      | Ok n =>
          match counts_of rest with
          | Throw e => Throw e
          | Ok ns => Ok ((n, idx) :: ns)
          end
      end
  end.

(** The comparator on the two counts: [countB - countA]. *)
Definition compare_counts (countA countB : Number) : Number :=
  subtract countB countA.

(** [Array.prototype.sort] is stable, and a comparator result of [NaN]
    counts as zero: an element goes behind another only where the
    comparator is positive for the pair. *)
Fixpoint insert_desc (x : Number * IndexInfo) (sorted : list (Number * IndexInfo))
  : list (Number * IndexInfo) :=
  match sorted with
  | [] => [x]
  | y :: rest =>
      if positive (compare_counts (fst x) (fst y))
      then y :: insert_desc x rest
      else x :: y :: rest
  end.

Definition sort_desc (keyed : list (Number * IndexInfo)) : list (Number * IndexInfo) :=
  fold_right insert_desc [] keyed.

(** [indices.sort(...)]: the comparator runs only when there are two
    elements to compare, and then on every element. *)
Definition sort_by_count (indices : list IndexInfo) : Res (list IndexInfo) :=
  match indices with
  | [] | [_] => Ok indices
  | _ =>
      match counts_of indices with
      | Throw e => Throw e
      | Ok keyed => Ok (map snd (sort_desc keyed))
      end
  end.

(** [indices.slice(0, end)] *)
Definition slice0 {A} (end_ : Z) (l : list A) : list A :=
  if (0 <=? end_)%Z then firstn (Z.to_nat end_) l
  else firstn (length l - Z.to_nat (- end_)) l.

(** [esClient.getMapping(idx.index)] with whatever the row held as its
    index. [validateIndexName] rejects a falsy argument; every other use
    of the argument inside [getMapping] ([test], the template literals of
    the messages and of the path) converts it to a string. *)
Definition getMapping_value (config : ServerConfig) (index : value) : M value :=
  name <- lift (ToString index) ;;
  if truthy index then getMapping config name
  else throw (mkError (invalid_index_message name)).

Section Execute.
(** Steps of the [then] callback and of [deduplicateFields]: from the
    mapping response to the list of fields. They are the business of
    lib/mappingUtils.ts and are taken as given. *)
Variable fields_of_mapping : value -> Res value.

(** Step 6 for one index. [Promise.all] starts the requests together;
    the model runs them in the order of the list. A failed fetch gives no
    fields and does not fail the tool. *)
Definition discover_one (config : ServerConfig) (idx : IndexInfo) : M value :=
  fields <- try_catch
              (data <- getMapping_value config (index idx) ;;
               lift (fields_of_mapping data))
              (fun _ => ret (JArr [])) ;;
  ret (JObj (set_prop (js "fields") fields (spread (IndexInfo_value idx)))).

Fixpoint discover_all (config : ServerConfig) (indices : list IndexInfo)
  : M (list value) :=
  match indices with
  | [] => ret []
  | idx :: rest =>
      d <- discover_one config idx ;;
      ds <- discover_all config rest ;;
      ret (d :: ds)
  end.

(** The indices that enter step 6. *)
Definition selected (config : ServerConfig) (pattern : option jsstring)
    (include_hidden : bool) (max_indices : Z) : M (nat * list IndexInfo) :=
  indices <- list_and_filter config pattern include_hidden ;;
  let totalIndices := length indices in
  sorted <- lift (sort_by_count indices) ;;
  ret (totalIndices, slice0 max_indices sorted).

(** [discoverClusterTool]'s [execute]. *)
Definition execute (config : ServerConfig) (pattern : option jsstring)
    (include_hidden : bool) (max_indices : Z) : M ToolResult :=
  sel <- selected config pattern include_hidden max_indices ;;
  discoveredIndices <- discover_all config (snd sel) ;;
  ret (success
         (JObj [(js "cluster_summary",
                 JObj [(js "total_indices", JNum (Z.of_nat (fst sel)));
                       (js "discovered",
                        JNum (Z.of_nat (length discoveredIndices)))]);
                (js "indices", JArr discoveredIndices)])
         None None).
End Execute.

End DiscoverCluster.


(* ===================================================================== *)
(** * The rest of the sources
    - [ReadOnlyQuery] (lib/inputSanitizer.ts), [KibanaSearchTool]
      (tools/kibanaSearch.ts), [MappingUtils] (lib/mappingUtils.ts),
      [GetIndexMappings] (tools/getIndexMappings.ts), [DiscoverFields]
      (tools/discoverCluster.ts), [GetAlertStatus] (tools/getAlertStatus.ts
      and lib/esClient.ts), [LoadConfig] (lib/config.ts). *)
(* ===================================================================== *)

From Stdlib Require Import Permutation Sorted.

(* ===================================================================== *)
(** * lib/inputSanitizer.ts: the read-only guard *)
(* ===================================================================== *)

Module ReadOnlyQuery.

(** [BLOCKED_KEYWORDS] *)
Definition BLOCKED_KEYWORDS : list jsstring :=
  [js "script"; js "_update"; js "_delete"; js "_bulk"; js "ctx._source"].

(** [hay.includes(needle)] *)
Fixpoint includes (needle hay : jsstring) : bool :=
  startsWith needle hay ||
  match hay with
  | [] => false
  | _ :: hay' => includes needle hay'
  end.

Definition blocked_message (keyword : jsstring) : jsstring :=
  js "Query rejected: contains blocked keyword " ++ dquote ++ keyword ++ dquote ++
  js ". Only read-only queries are allowed.".

(** The [for] loop over the keywords. *)
Fixpoint scan (keywords : list jsstring) (serialized : jsstring) : Res unit :=
  match keywords with
  | [] => Ok tt
  | keyword :: rest =>
      if includes keyword serialized
      then Throw (mkError (blocked_message keyword))
      else scan rest serialized
  end.

Section Host.
(** [JSON.stringify] and [String.prototype.toLowerCase], functions of the
    host. [JSON.stringify] yields no text, but [undefined], for [undefined]
    and for a function; calling [toLowerCase] on that is a TypeError. *)
Variable JSON_stringify : value -> jsstring.
Variable toLowerCase : jsstring -> jsstring.

Definition validateReadOnlyQuery (query : value) : Res unit :=
  match query with
  | JUndefined | JFun _ =>
      Throw (mkError (js "Cannot read properties of undefined"))
  | _ => scan BLOCKED_KEYWORDS (toLowerCase (JSON_stringify query))
  end.
End Host.

End ReadOnlyQuery.

(* ===================================================================== *)
(** * tools/kibanaSearch.ts: the tool *)
(* ===================================================================== *)

Module KibanaSearchTool.
Import ReadOnlyQuery.

(** [array.map((hit) => hit._source)] *)
Fixpoint sources_of (hits : list value) : Res (list value) :=
  match hits with
  | [] => Ok []
  | hit :: rest =>
      match get_prop hit (js "_source") with
      | Throw e => Throw e
      | Ok source =>
          match sources_of rest with
          | Throw e => Throw e
          | Ok sources => Ok (source :: sources)
          end
      end
  end.

(** The result built from the response: [data.hits.hits.map(...)], then
    [data.hits.total?.value ?? data.hits.total], then the aggregations
    when there are any. Only an array has [map]. *)
Definition result_of (data : value) : Res ToolResult :=
  match get_prop data (js "hits") with
  | Throw e => Throw e
  | Ok hits =>
      match get_prop hits (js "hits") with
      | Throw e => Throw e
      | Ok (JArr items) =>
          match sources_of items with
          | Throw e => Throw e
          | Ok sources =>
              let total := get_opt hits (js "total") in
              let total :=
                if nullish (get_opt total (js "value")) then total
                else get_opt total (js "value") in
              let aggregations := get_opt data (js "aggregations") in
              Ok (success (JArr sources) (Some total)
                    (if truthy aggregations then Some aggregations else None))
          end
      | Ok other =>
          if nullish other
          then Throw (mkError (js "Cannot read properties of undefined"))
          else Throw (mkError (js "data.hits.hits.map is not a function"))
      end
  end.

Section Host.
Variable JSON_stringify : value -> jsstring.
Variable toLowerCase : jsstring -> jsstring.

(** [kibanaSearchTool]'s [execute]; [size] is [undefined] when absent. *)
Definition execute (config : ServerConfig) (index : jsstring) (query : value)
    (size : option Z) (time_range : option jsstring) : M ToolResult :=
  _ <- lift (validateIndexName index) ;;
  _ <- lift (validateReadOnlyQuery JSON_stringify toLowerCase query) ;;
  let searchBody := searchBody_of (spread query) time_range in
  data <- search config index searchBody
            (match size with Some n => n | None => 10%Z end) ;;
  lift (result_of data).
End Host.

End KibanaSearchTool.

(* ===================================================================== *)
(** * lib/mappingUtils.ts *)
(* ===================================================================== *)

Module MappingUtils.

Record FieldMapping := { field : jsstring; type : value }.

Definition FieldMapping_value (f : FieldMapping) : value :=
  JObj [(js "field", JStr (field f)); (js "type", type f)].

(** [`${prefix}.${name}`] under a prefix, the bare name without one. *)
Definition fieldPath_of (prefix name : jsstring) : jsstring :=
  if truthy (JStr prefix) then prefix ++ js "." ++ name else name.

(** [flattenProperties]. [Object.entries] lists the own properties of
    whatever it is given. The function pushes onto the array it is handed;
    here it returns the array as the pushes leave it. Once [mapping.type]
    has been read, [mapping] is neither [undefined] nor [null] and the
    reads of [mapping.properties] and [mapping.fields] cannot throw. The
    recursion follows the nesting of the mapping; [fuel] bounds its depth,
    and [None] means the bound was hit. *)
Fixpoint flatten (fuel : nat) (properties : value) (prefix : jsstring)
    (result : list FieldMapping) {struct fuel}
  : option (Res (list FieldMapping)) :=
  match fuel with
  | O => None
  | S fuel' =>
      let fix entries (es : list (jsstring * value)) (result : list FieldMapping)
          : option (Res (list FieldMapping)) :=
        match es with
        | [] => Some (Ok result)
        | (name, mapping) :: rest =>
            let fieldPath := fieldPath_of prefix name in
            match get_prop mapping (js "type") with
            | Throw e => Some (Throw e)
            | Ok type_ =>
                let result :=
                  if truthy type_
                  then result ++ [{| field := fieldPath; type := type_ |}]
                  else result in
                match (if truthy (get_opt mapping (js "properties"))
                       then flatten fuel' (get_opt mapping (js "properties"))
                              fieldPath result
                       else Some (Ok result)) with
                | Some (Ok result) =>
                    match (if truthy (get_opt mapping (js "fields"))
                           then flatten fuel' (get_opt mapping (js "fields"))
                                  fieldPath result
                           else Some (Ok result)) with
                    | Some (Ok result) => entries rest result
                    | other => other
                    end
                | other => other
                end
            end
        end in
      entries (spread properties) result
  end.

(** The body of the [for] loop and the loop, on their own. *)
Definition flatten_entry (fuel : nat) (prefix : jsstring)
    (entry : jsstring * value) (result : list FieldMapping)
  : option (Res (list FieldMapping)) :=
  let fieldPath := fieldPath_of prefix (fst entry) in
  match get_prop (snd entry) (js "type") with
  | Throw e => Some (Throw e)
  | Ok type_ =>
      let result :=
        if truthy type_
        then result ++ [{| field := fieldPath; type := type_ |}]
        else result in
      match (if truthy (get_opt (snd entry) (js "properties"))
             then flatten fuel (get_opt (snd entry) (js "properties"))
                    fieldPath result
             else Some (Ok result)) with
      | Some (Ok result) =>
          if truthy (get_opt (snd entry) (js "fields"))
          then flatten fuel (get_opt (snd entry) (js "fields")) fieldPath result
          else Some (Ok result)
      | other => other
      end
  end.

Fixpoint flatten_entries (fuel : nat) (prefix : jsstring)
    (es : list (jsstring * value)) (result : list FieldMapping)
  : option (Res (list FieldMapping)) :=
  match es with
  | [] => Some (Ok result)
  | entry :: rest =>
      match flatten_entry fuel prefix entry result with
      | Some (Ok result) => flatten_entries fuel prefix rest result
      | other => other
      end
  end.

(** How deep a value nests. *)
Fixpoint depth (v : value) : nat :=
  match v with
  | JArr items => S (list_max (map depth items))
  | JObj props => S (list_max (map (fun kv => depth (snd kv)) props))
  | _ => 0
  end.

(** The function as the callers use it: the depth of the mapping is bound
    enough. *)
Definition flattenProperties (properties : value) (prefix : jsstring)
    (result : list FieldMapping) : Res (list FieldMapping) :=
  match flatten (S (depth properties)) properties prefix result with
  | Some r => r
  | None => Ok result
  end.

(** The loop both tools run over a mapping response:
    [for (const indexName of Object.keys(data)) { const properties =
     data[indexName]?.mappings?.properties; if (properties)
     flattenProperties(properties, '', fields); }].
    [Object.keys] throws on [undefined] and [null]. *)
Fixpoint fields_loop (entries : list (jsstring * value)) (fields : list FieldMapping)
  : Res (list FieldMapping) :=
  match entries with
  | [] => Ok fields
  | (indexName, entry) :: rest =>
      let properties := get_opt (get_opt entry (js "mappings")) (js "properties") in
      if truthy properties then
        match flattenProperties properties [] fields with
        | Throw e => Throw e
        | Ok fields' => fields_loop rest fields'
        end
      else fields_loop rest fields
  end.

Definition mapping_fields (mappingData : value) : Res (list FieldMapping) :=
  if nullish mappingData
  then Throw (mkError (js "Cannot convert undefined or null to object"))
  else fields_loop (spread mappingData) [].

End MappingUtils.

(* ===================================================================== *)
(** * tools/getIndexMappings.ts *)
(* ===================================================================== *)

Module GetIndexMappings.
Import MappingUtils.

(** [getIndexMappingsTool]'s [execute]. *)
Definition execute (config : ServerConfig) (index : jsstring) : M ToolResult :=
  _ <- lift (validateIndexName index) ;;
  mappingData <- getMapping config index ;;
  fields <- lift (mapping_fields mappingData) ;;
  ret (success
         (JObj [(js "index", JStr index);
                (js "fields", JArr (map FieldMapping_value fields))])
         None None).

End GetIndexMappings.

(* ===================================================================== *)
(** * tools/discoverCluster.ts: the fields of an index *)
(* ===================================================================== *)

Module DiscoverFields.
Import MappingUtils.

(** [seen.has(key)] on a [Map<string, string>] kept in insertion order. *)
Definition has (key : jsstring) (seen : list (jsstring * value)) : bool :=
  existsb (fun kv => str_eqb key (fst kv)) seen.

(** [deduplicateFields] *)
Definition deduplicateFields (fields : list FieldMapping) : list FieldMapping :=
  let seen :=
    fold_left
      (fun seen f =>
         if negb (has (field f) seen) then seen ++ [(field f, type f)] else seen)
      fields [] in
  map (fun kv => {| field := fst kv; type := snd kv |}) seen.

(** What step 6 makes of a mapping response: the [then] callback followed
    by [deduplicateFields]. *)
Definition fields_of_mapping (data : value) : Res value :=
  match mapping_fields data with
  | Throw e => Throw e
  | Ok fields => Ok (JArr (map FieldMapping_value (deduplicateFields fields)))
  end.

(** [discoverClusterTool]'s [execute], complete. *)
Definition execute : ServerConfig -> option jsstring -> bool -> Z -> M ToolResult :=
  DiscoverCluster.execute fields_of_mapping.

End DiscoverFields.

(* ===================================================================== *)
(** * lib/esClient.ts and tools/getAlertStatus.ts: alerting rules *)
(* ===================================================================== *)

Module GetAlertStatus.

(** A value of [Record<string, string | number>]. *)
Inductive ParamValue := PStr (s : jsstring) | PNum (n : Z).

(** [String(v)] *)
Definition String_of (v : ParamValue) : jsstring :=
  match v with
  | PStr s => s
  | PNum n => js (NilZero.string_of_int (Z.to_int n))
  end.

Definition not_available : jsstring :=
  js "Kibana Alerting is not available. Ensure the Kibana alerting plugin is enabled and the API key has the required privileges.".

(** [a ?? b] *)
Definition coalesce (a b : value) : value := if nullish a then b else a.

(** [rule.name]: a function object has a name of its own. *)
Definition name_of (rule : value) : value :=
  match rule with
  | JFun name => JStr name
  | _ => get_opt rule (js "name")
  end.

(** The callback of [(raw.data ?? []).map]. Once [rule.id] has been read,
    the other reads cannot throw. *)
Definition normalize (rule : value) : Res value :=
  match get_prop rule (js "id") with
  | Throw e => Throw e
  | Ok id =>
      let execution_status := get_opt rule (js "execution_status") in
      Ok (JObj
            [(js "id", id);
             (js "name", name_of rule);
             (js "rule_type_id", get_opt rule (js "rule_type_id"));
             (js "enabled", get_opt rule (js "enabled"));
             (js "tags", coalesce (get_opt rule (js "tags")) (JArr []));
             (js "schedule", coalesce (get_opt rule (js "schedule")) (JObj []));
             (js "last_execution_status",
              coalesce (get_opt execution_status (js "status"))
                (JStr (js "unknown")));
             (js "last_execution_date",
              get_opt execution_status (js "last_execution_date"));
             (js "last_execution_status_reason",
              get_opt (get_opt execution_status (js "error")) (js "reason"))])
  end.

Fixpoint normalize_all (rules : list value) : Res (list value) :=
  match rules with
  | [] => Ok []
  | rule :: rest =>
      match normalize rule with
      | Throw e => Throw e
      | Ok r =>
          match normalize_all rest with
          | Throw e => Throw e
          | Ok rs => Ok (r :: rs)
          end
      end
  end.

(** [r.last_execution_status === status] *)
Definition has_status (status : jsstring) (r : value) : bool :=
  match get_opt r (js "last_execution_status") with
  | JStr s => str_eqb s status
  | _ => false
  end.

(** From the response to the result: normalise, filter, count. Only an
    array has [map]. *)
Definition result_of (raw : value) (status : option jsstring) : Res ToolResult :=
  match get_prop raw (js "data") with
  | Throw e => Throw e
  | Ok data =>
      match coalesce data (JArr []) with
      | JArr items =>
          match normalize_all items with
          | Throw e => Throw e
          | Ok rules =>
              let rules :=
                match status with
                | Some s => if truthy (JStr s) then filter (has_status s) rules else rules
                | None => rules
                end in
              Ok (success
                    (JObj [(js "total",
                            coalesce (get_opt raw (js "total"))
                              (JNum (Z.of_nat (length rules))));
                           (js "returned", JNum (Z.of_nat (length rules)));
                           (js "rules", JArr rules)])
                    None None)
          end
      | _ => Throw (mkError (js "(raw.data ?? []).map is not a function"))
      end
  end.

(** [filterParts] *)
Definition filterParts (rule_type severity : option jsstring) : list jsstring :=
  match rule_type with
  | Some t =>
      if truthy (JStr t) then [js "rule_type_id: " ++ dquote ++ t ++ dquote] else []
  | None => []
  end ++
  match severity with
  | Some s => if truthy (JStr s) then [js "tags: " ++ dquote ++ s ++ dquote] else []
  | None => []
  end.

Definition params_of (rule_type severity : option jsstring) (max_results : Z)
  : list (jsstring * ParamValue) :=
  [(js "per_page", PNum max_results);
   (js "sort_field", PStr (js "name"));
   (js "sort_order", PStr (js "asc"))] ++
  match filterParts rule_type severity with
  | [] => []
  | parts => [(js "filter", PStr (join (js " AND ") parts))]
  end.

Section Host.
(** [new URLSearchParams(pairs).toString()], a function of the host. *)
Variable URLSearchParams_toString : list (jsstring * jsstring) -> jsstring.

Definition rules_request (params : list (jsstring * ParamValue)) : Request :=
  let query :=
    URLSearchParams_toString (map (fun kv => (fst kv, String_of (snd kv))) params) in
  {| client := Kibana; method := GET;
     path := js "/api/alerting/rules/_find" ++
             (if truthy (JStr query) then js "?" ++ query else []);
     body := None |}.

(** [ElasticsearchClient.findAlertingRules] *)
Definition findAlertingRules (config : ServerConfig)
    (params : list (jsstring * ParamValue)) : M value :=
  withRetry config (http (rules_request params)).

(** What the [try] statement of [execute] yields: the response, or the
    result the [catch] block returns. *)
Inductive Fetched := Raw (raw : value) | Returned (result : ToolResult).

(** [getAlertStatusTool]'s [execute]. *)
Definition execute (config : ServerConfig) (severity rule_type status : option jsstring)
    (max_results : Z) : M ToolResult :=
  let params := params_of rule_type severity max_results in
  fetched <- try_catch
               (raw <- findAlertingRules config params ;; ret (Raw raw))
               (fun error =>
                  response <- lift (get_prop error (js "response")) ;;
                  match get_opt response (js "status") with
                  | JNum httpStatus =>
                      if (httpStatus =? 404)%Z || (httpStatus =? 403)%Z
                      then ret (Returned (ToolWrapper.error (JStr not_available)))
                      else throw error
                  | _ => throw error
                  end) ;;
  match fetched with
  | Returned result => ret result
  | Raw raw => lift (result_of raw status)
  end.
End Host.

End GetAlertStatus.

(* ===================================================================== *)
(** * lib/config.ts: the loader *)
(* ===================================================================== *)

Module LoadConfig.

(** [process.env]: a variable is a string or is not set. *)
Definition Env := jsstring -> option jsstring.

(** [parseInt(text, 10)] *)
Definition parseInt (text : jsstring) : Number :=
  match DiscoverCluster.parseInt10 (JStr text) with
  | Ok n => n
  | Throw _ => NaN
  end.

(** [process.env.NAME || fallback] *)
Definition or_default (v : option jsstring) (fallback : jsstring) : jsstring :=
  match v with
  | Some s => if truthy (JStr s) then s else fallback
  | None => fallback
  end.

(** [s.trim()] *)
Definition trim (s : jsstring) : jsstring :=
  rev (DiscoverCluster.skip_spaces (rev (DiscoverCluster.skip_spaces s))).

(** [s.replace(regex, replacement)] for a regex without the [g] flag and a
    replacement text without [$]: the first match is replaced. *)
Fixpoint replace_first (r : Regex.regex) (replacement : jsstring)
    (prev : option char) (s : jsstring) : jsstring :=
  match match_at r prev s with
  | Some len => replacement ++ skipn len s
  | None =>
      match s with
      | [] => []
      | c :: s' => c :: replace_first r replacement (Some c) s'
      end
  end.

(** [/\.kb\./] *)
Definition kb_regex : Regex.regex := seq [lit "."; lit "k"; lit "b"; lit "."].

Definition missing_message (name : jsstring) : jsstring :=
  js "Missing required environment variable: " ++ name.

Definition requiredEnv (env : Env) (name : jsstring) : Res jsstring :=
  match env name with
  | Some v =>
      if truthy (JStr v) then Ok v else Throw (mkError (missing_message name))
  | None => Throw (mkError (missing_message name))
  end.

(** [ServerConfig] as the loader fills it: every field, the numbers as
    [parseInt] gives them. *)
Record LoadedConfig := {
  kibanaUrl : jsstring;
  elasticsearchUrl : jsstring;
  kibanaApiKey : jsstring;
  allowedIndexPatterns : list jsstring;
  maxSearchSize : Number;
  requestTimeoutMs : Number;
  retryAttempts : Number;
  retryDelayMs : Number;
  kibanaSpace : jsstring;
  auditEnabled : bool;
  piiRedactionEnabled : bool
}.

(** [value !== 'false'] for a variable that may be unset. *)
Definition not_false (v : option jsstring) : bool :=
  match v with
  | Some s => negb (str_eqb s (js "false"))
  | None => true
  end.

Definition loadConfig (env : Env) : Res LoadedConfig :=
  match requiredEnv env (js "KIBANA_URL") with
  | Throw e => Throw e
  | Ok kibanaUrl =>
      let elasticsearchUrl := replace_first kb_regex (js ".es.") None kibanaUrl in
      let maxSearchSizeRaw :=
        parseInt (or_default (env (js "MAX_SEARCH_SIZE")) (js "100")) in
      let maxSearchSize :=
        Math_min (Math_max (Int 1) maxSearchSizeRaw) (Int 500) in
      match requiredEnv env (js "KIBANA_API_KEY") with
      | Throw e => Throw e
      | Ok kibanaApiKey =>
          Ok {| kibanaUrl := kibanaUrl;
                elasticsearchUrl := elasticsearchUrl;
                kibanaApiKey := kibanaApiKey;
                allowedIndexPatterns :=
                  match env (js "ALLOWED_INDEX_PATTERNS") with
                  | Some patterns =>
                      if truthy (JStr patterns)
                      then filter (fun p => truthy (JStr p))
                             (map trim (split_on (ch ",") patterns))
                      else []
                  | None => []
                  end;
                maxSearchSize := maxSearchSize;
                requestTimeoutMs :=
                  parseInt (or_default (env (js "REQUEST_TIMEOUT_MS")) (js "30000"));
                retryAttempts :=
                  parseInt (or_default (env (js "RETRY_ATTEMPTS")) (js "3"));
                retryDelayMs :=
                  parseInt (or_default (env (js "RETRY_DELAY_MS")) (js "1000"));
                kibanaSpace := or_default (env (js "KIBANA_SPACE")) [];
                auditEnabled := not_false (env (js "AUDIT_ENABLED"));
                piiRedactionEnabled := not_false (env (js "PII_REDACTION_ENABLED")) |}
      end
  end.

(** The fields the modelled client and wrapper read, for a configuration
    whose cap and delay are finite numbers and whose number of attempts is
    not an infinity; see [Config.ServerConfig] for [retryAttempts]. *)
Definition ServerConfig_of (c : LoadedConfig) : option ServerConfig :=
  match maxSearchSize c, retryDelayMs c, retryAttempts c with
  | Int size, Int delay, (Int _ | NaN) =>
      Some {| Config.allowedIndexPatterns := allowedIndexPatterns c;
              Config.maxSearchSize := size;
              Config.retryAttempts :=
                match retryAttempts c with Int n => n | _ => 0%Z end;
              Config.retryDelayMs := delay;
              Config.auditEnabled := auditEnabled c;
              Config.piiRedactionEnabled := piiRedactionEnabled c |}
  | _, _, _ => None
  end.

End LoadConfig.
Section ValueInduction.
Variable P : value -> Prop.
Hypothesis Hu : P JUndefined.
Hypothesis Hn : P JNull.
Hypothesis Hb : forall b, P (JBool b).
Hypothesis Hz : forall n, P (JNum n).
Hypothesis Hs : forall s, P (JStr s).
Hypothesis Ha : forall items, Forall P items -> P (JArr items).
Hypothesis Ho : forall props, Forall (fun kv => P (snd kv)) props -> P (JObj props).
Hypothesis Hf : forall name, P (JFun name).

(** Induction over values, with the hypothesis for every element of an
    array and every property value of an object. *)
Fixpoint value_ind' (v : value) : P v :=
  match v with
  | JUndefined => Hu
  | JNull => Hn
  | JBool b => Hb b
  | JNum n => Hz n
  | JStr s => Hs s
  | JArr items =>
      Ha ((fix all (l : list value) : Forall P l :=
             match l with
             | [] => Forall_nil P
             | x :: rest => @Forall_cons _ P x rest (value_ind' x) (all rest)
             end) items)
  | JObj props =>
      Ho ((fix all (l : list (jsstring * value))
             : Forall (fun kv => P (snd kv)) l :=
             match l with
             | [] => Forall_nil _
             | kv :: rest =>
                 @Forall_cons _ (fun kv => P (snd kv)) kv rest
                   (value_ind' (snd kv)) (all rest)
             end) props)
  | JFun name => Hf name
  end.
End ValueInduction.


(* ===================================================================== *)
(** * Scenarios: the concrete inputs the properties below are tried on *)
(* ===================================================================== *)

Module Scenarios.
Import AuditLogger.

(** An entry whose serialised input has 501 characters. *)
Definition long_entry : AuditEntry :=
  {| timestamp := 0; tool_called := js "kibana_search";
     input_parameters := repeat (ch "x") 501;
     output_size_bytes := 0; redaction_count := 0; redacted_types := [];
     execution_time_ms := 0; status := success_status;
     error_message := JUndefined |}.

(** ** Query bodies for the time-range merge *)

(** Scenario B of the specification: [{ match_all: {} }]. *)
Definition body_match_all : list (jsstring * value) :=
  [(js "match_all", JObj [])].

(** [{ query: { bool: { must: [], filter: 0 } } }] *)
Definition body_falsy_filter : list (jsstring * value) :=
  [(js "query",
    JObj [(js "bool", JObj [(js "must", JArr []); (js "filter", JNum 0)])])].

(** [{ query: { bool: [1] } }] *)
Definition body_array_bool : list (jsstring * value) :=
  [(js "query", JObj [(js "bool", JArr [JNum 1])])].

(** [{ query: { bool: { must: [{match_all:{}}], filter: {exists:{field:"user"}} } }, size: 5 }] *)
Definition body_single_filter : list (jsstring * value) :=
  [(js "query",
    JObj [(js "bool",
           JObj [(js "must", JArr [JObj [(js "match_all", JObj [])]]);
                 (js "filter",
                  JObj [(js "exists", JObj [(js "field", JStr (js "user"))])])])]);
   (js "size", JNum 5)].

(** Reading the merged body back: the bool clause and its filter slot. *)
Definition bool_clause (body : list (jsstring * value)) : value :=
  get_opt (body_query body) (js "bool").
Definition filter_slot (body : list (jsstring * value)) : value :=
  get_opt (bool_clause body) (js "filter").

(** The filter entries a bool clause holds before the merge, in the words
    of the specification: none when the [filter] key is absent, the
    elements of a list, and one entry for any other single value. *)
Definition claimed_filters (bool : value) : list value :=
  match bool with
  | JObj props =>
      match lookup (js "filter") props with
      | None => []
      | Some (JArr items) => items
      | Some v => [v]
      end
  | _ => []
  end.

(** The same as the code counts them: a single value counts when truthy. *)
Definition own_filters (bool : value) : list value :=
  match bool with
  | JObj props =>
      match lookup (js "filter") props with
      | None => []
      | Some (JArr items) => items
      | Some v => if truthy v then [v] else []
      end
  | _ => []
  end.

(** ** Configurations, backends and worlds *)

(** The defaults of [loadConfig]: no allow-list, three attempts, a base
    delay of one second, auditing and redaction on. *)
Definition default_config : ServerConfig :=
  {| allowedIndexPatterns := []; maxSearchSize := 100;
     retryAttempts := 3; retryDelayMs := 1000;
     auditEnabled := true; piiRedactionEnabled := true |}.

(** [RETRY_ATTEMPTS=0] *)
Definition no_retry_config : ServerConfig :=
  {| allowedIndexPatterns := []; maxSearchSize := 100;
     retryAttempts := 0; retryDelayMs := 1000;
     auditEnabled := true; piiRedactionEnabled := true |}.

(** [ALLOWED_INDEX_PATTERNS=logs-*,transactions-*] *)
Definition scoped_config : ServerConfig :=
  {| allowedIndexPatterns := [js "logs-*"; js "transactions-*"];
     maxSearchSize := 100; retryAttempts := 3; retryDelayMs := 1000;
     auditEnabled := true; piiRedactionEnabled := true |}.

(** [ALLOWED_INDEX_PATTERNS=logs-?] *)
Definition question_config : ServerConfig :=
  {| allowedIndexPatterns := [js "logs-?"];
     maxSearchSize := 100; retryAttempts := 3; retryDelayMs := 1000;
     auditEnabled := true; piiRedactionEnabled := true |}.

(** A rejection that carries the HTTP status [s]. *)
Definition http_error (s : Z) : AxiosError :=
  {| message := js "Request failed";
     response := Some {| Runtime.status := s; data := JObj [] |} |}.

(** A rejection without a response: a network failure or a timeout. *)
Definition network_error : AxiosError :=
  {| message := js "Network Error"; response := None |}.

(** A fresh run against [backend]. *)
Definition fresh (backend : nat -> Request -> HttpOutcome value) : World :=
  {| backend := backend; http_log := []; sleeps := [];
     clock := fun n => Z.of_nat n; clock_reads := 0; stderr := [] |}.

(** A backend that answers every call with status 500. *)
Definition always_500 : nat -> Request -> HttpOutcome value :=
  fun _ _ => Rejected (http_error 500).

(** A backend that answers 503 twice and then succeeds. *)
Definition twice_503 : nat -> Request -> HttpOutcome value :=
  fun n _ => if n <? 2 then Rejected (http_error 503) else Resolved (JObj []).

Definition search_request (index : jsstring) (body : value) : Request :=
  {| client := Elasticsearch; method := POST;
     path := js "/" ++ index ++ js "/_search"; body := Some body |}.

(** ** The pipeline *)

(** The places the [catch] block of the wrapper looks a message up in. *)
Definition backend_reason (fault : value) : value :=
  get_opt (get_opt (get_opt (get_opt fault (js "response")) (js "data"))
             (js "error")) (js "reason").
Definition backend_message (fault : value) : value :=
  get_opt (get_opt (get_opt fault (js "response")) (js "data")) (js "message").
Definition fault_message (fault : value) : value :=
  get_opt fault (js "message").

(** The priority order of the specification. *)
Definition message_for (fault : value) : value :=
  js_or (backend_reason fault)
    (js_or (backend_message fault)
       (js_or (fault_message fault) (JStr (js "Unknown error")))).

(** The tag of a well-formed Outcome, [None] for any other value. *)
Definition outcome_tag (v : value) : option Status :=
  match dismatch v (fun _ => success_status) (fun _ => error_status) with
  | Ok tag => Some tag
  | Throw _ => None
  end.

(** The tool of the wrapper's own documentation: it searches [logs-*] and
    returns the hits,
    [const data = await esClient.search('logs-*', { query }, 10);
     return { type: 'success', data: data.hits.hits };]. *)
Definition example_logic (config : ServerConfig) (query : value) : M ToolResult :=
  data <- search config (js "logs-*") [(js "query", query)] 10 ;;
  hits <- lift (get_prop data (js "hits")) ;;
  hits_hits <- lift (get_prop hits (js "hits")) ;;
  ret (success hits_hits None None).

(** A backend whose every answer is an empty page of hits. *)
Definition empty_hits : nat -> Request -> HttpOutcome value :=
  fun _ _ => Resolved (JObj [(js "hits", JObj [(js "hits", JArr [])])]).

(** ** Access scope *)

(** The request [catIndices] issues. *)
Definition cat_request (pattern : option jsstring) : Request :=
  {| client := Elasticsearch; method := GET;
     path := js "/_cat/indices/" ++
             match pattern with Some p => p | None => js "*" end ++
             js "?format=json&h=index,health,status,docs.count,store.size";
     body := None |}.

(** The request [getMapping] issues. *)
Definition mapping_request (index : jsstring) : Request :=
  {| client := Elasticsearch; method := GET;
     path := js "/" ++ index ++ js "/_mapping"; body := None |}.

(** The [k]-th call of a run that starts in [w] is the last one: it was
    the request [req], and the backend answered it with [answer]. *)
Definition answered (w : World) (req : Request) (k : nat) (answer : value) : Prop :=
  1 <= k /\ backend w (length (http_log w) + (k - 1)) req = Resolved answer.

(** One row of the cat API. *)
Definition cat_row (index : string) (count : string) : value :=
  JObj [(js "index", JStr (js index)); (js "health", JStr (js "green"));
        (js "status", JStr (js "open")); (js "docs.count", JStr (js count));
        (js "store.size", JStr (js "1kb"))].

(** A backend with four indices, one of them hidden, two of them outside
    [logs-*] and [transactions-*]; mappings are empty. *)
Definition four_indices : nat -> Request -> HttpOutcome value :=
  fun n _ =>
    if n =? 0
    then Resolved (JArr [cat_row "logs-2024" "10"; cat_row ".kibana" "3";
                         cat_row "users" "7"; cat_row "transactions-eu" "25"])
    else Resolved (JObj []).

(** A backend whose only index is [logs]. *)
Definition only_logs : nat -> Request -> HttpOutcome value :=
  fun n _ =>
    if n =? 0 then Resolved (JArr [cat_row "logs" "1"]) else Resolved (JObj []).

(** A row the cat API can send: an index name, and a count that reads as
    text. *)
Definition well_formed_row (row : value) : Prop :=
  (exists s, get_prop row (js "index") = Ok (JStr s)) /\
  (exists t, ToString (get_opt row (js "docs.count")) = Ok t).

(** ** Redaction *)

(** The code units a regex can take into a match: those that pass one of
    its character tests. *)
Fixpoint consumes (r : Regex.regex) (c : char) : bool :=
  match r with
  | Cls neg cs => xorb neg (in_set cs c)
  | Seq r1 r2 => consumes r1 c || consumes r2 c
  | Rep _ _ _ r' => consumes r' c
  | Eps | WordB | Bol | Eol => false
  end.

(** The mask character. *)
Definition star : char := ch "*".

(** How many mask characters a string holds. *)
Definition count_stars (s : jsstring) : nat :=
  length (filter (N.eqb star) s).

(** The strings a value holds, as elements and property values at any
    depth (property names are not among them). *)
Fixpoint strings_of (v : value) : list jsstring :=
  match v with
  | JStr s => [s]
  | JArr items => flat_map strings_of items
  | JObj props => flat_map (fun kv => strings_of (snd kv)) props
  | _ => []
  end.

(** A string of the redacted copy is the redaction of a string of the original. *)
Definition from_strings_of (v : value) (s' : jsstring) : Prop :=
  exists s types, In s (strings_of v) /\ s' = fst (redactString s types).

(** *** Matching without telling digits apart *)

Definition is_digit (c : char) : bool := in_set digit_set c.

(** Every digit replaced by [0]. *)
Definition zero (c : char) : char := if is_digit c then ch "0" else c.
Definition zero_digits (s : jsstring) : jsstring := map zero s.

(** A set that holds all the digits or none. *)
Definition digit_blind_set (cs : cset) : bool :=
  forallb (fun r => (N.leb (fst r) (ch "0") && N.leb (ch "9") (snd r))
                    || N.ltb (ch "9") (fst r) || N.ltb (snd r) (ch "0")) cs.

(** A regex all of whose character tests are of that kind. *)
Fixpoint digit_blind (r : Regex.regex) : bool :=
  match r with
  | Cls _ cs => digit_blind_set cs
  | Seq r1 r2 => digit_blind r1 && digit_blind r2
  | Rep _ _ _ r' => digit_blind r'
  | Eps | WordB | Bol | Eol => true
  end.

(** The decisions [replace_from] takes along a string: at each position
    either the code unit belongs to the match under way, or a match is
    tried there. *)
Inductive Decision := Skip | Try (found : option nat).

Fixpoint plan (r : Regex.regex) (prev : option char) (s : jsstring) (skip : nat)
  : list Decision :=
  match skip with
  | S n =>
      match s with
      | [] => []
      | c :: s' => Skip :: plan r (Some c) s' n
      end
  | O =>
      Try (match_at r prev s) ::
      match s with
      | [] => []
      | c :: s' =>
          match match_at r prev s with
          | Some (S n) => plan r (Some c) s' n
          | _ => plan r (Some c) s' 0
          end
      end
  end.

(** [replace_from] once the decisions are known. *)
Fixpoint follow {St : Type} (cb : jsstring -> St -> jsstring * St)
    (decisions : list Decision) (s : jsstring) (st : St) : jsstring * St :=
  match decisions with
  | [] => ([], st)
  | Skip :: ds =>
      match s with
      | [] => ([], st)
      | _ :: s' => follow cb ds s' st
      end
  | Try (Some len) :: ds =>
      let (out, st1) := cb (firstn len s) st in
      match s with
      | [] => (out, st1)
      | c :: s' =>
          let (rest, st2) := follow cb ds s' st1 in
          (match len with O => out ++ c :: rest | S _ => out ++ rest end, st2)
      end
  | Try None :: ds =>
      match s with
      | [] => ([], st)
      | c :: s' =>
          let (rest, st2) := follow cb ds s' st in
          (c :: rest, st2)
      end
  end.

(** *** Card numbers *)

(** How two groups of a card number are joined. *)
Inductive Separator := Joined | Spaced | Hyphenated.

Definition separator_text (sep : Separator) : jsstring :=
  match sep with
  | Joined => []
  | Spaced => js " "
  | Hyphenated => js "-"
  end.

(** Sixteen digits written as four groups of four. *)
Definition card_text (digits : jsstring) (s1 s2 s3 : Separator) : jsstring :=
  firstn 4 digits ++ separator_text s1 ++
  firstn 4 (skipn 4 digits) ++ separator_text s2 ++
  firstn 4 (skipn 8 digits) ++ separator_text s3 ++
  skipn 12 digits.

(** The separator the mask is written with: a hyphen when the number holds
    one, else a space when it holds one, else nothing. *)
Definition mask_separator (s1 s2 s3 : Separator) : jsstring :=
  match s1, s2, s3 with
  | Hyphenated, _, _ | _, Hyphenated, _ | _, _, Hyphenated => js "-"
  | Spaced, _, _ | _, Spaced, _ | _, _, Spaced => js " "
  | _, _, _ => []
  end.

(** The masked form of a card number. *)
Definition masked_card (digits : jsstring) (s1 s2 s3 : Separator) : jsstring :=
  stars 4 ++ mask_separator s1 s2 s3 ++
  stars 4 ++ mask_separator s1 s2 s3 ++
  stars 4 ++ mask_separator s1 s2 s3 ++
  skipn 12 digits.

(** *** A card number inside a text *)

(** The last code unit of a text. *)
Fixpoint final (s : jsstring) : option char :=
  match s with
  | [] => None
  | [c] => Some c
  | _ :: s' => final s'
  end.

(** The code unit before the position that lies behind [s]. *)
Definition prev_after (prev : option char) (s : jsstring) : option char :=
  match final s with
  | Some c => Some c
  | None => prev
  end.

(** No match of [r] starts inside [s] when [rest] follows it. *)
Fixpoint no_match_in (r : Regex.regex) (prev : option char) (s rest : jsstring)
  : Prop :=
  match s with
  | [] => True
  | c :: s' => match_at r prev (s ++ rest) = None /\ no_match_in r (Some c) s' rest
  end.

(** Does the text open with one code unit of each of the sets, in order? *)
Fixpoint starts (sets : list cset) (s : jsstring) : bool :=
  match sets, s with
  | [], _ => true
  | cs :: sets', c :: s' => in_set cs c && starts sets' s'
  | _ :: _, [] => false
  end.

(** Text that holds no digit and no [@]. *)
Definition plain_char (c : char) : bool :=
  negb (is_digit c) && negb (N.eqb c (ch "@")).
Definition plain_text (s : jsstring) : bool := forallb plain_char s.

(** What stands between [before] and [after] stands apart: [before] does
    not end with a letter, a digit, an underscore or [+], and [after] does
    not begin with a letter, a digit or an underscore. *)
Definition set_apart (before after : jsstring) : bool :=
  match final before with
  | Some c => negb (is_word c) && negb (N.eqb c (ch "+"))
  | None => true
  end && negb (word_at (hd_error after)).

(** A 15-digit number that passes the Luhn check (a well-known test
    number), and a 16-digit one with mixed separators. *)
Definition fifteen_digits : jsstring := js "378282246310005".
Definition mixed_separators : jsstring := js "4111-1111 1111 1111".

(** The first pass of the counterexample to idempotence: an IBAN followed
    by three groups of four digits. *)
Definition iban_then_digits : jsstring := js "GB82WEST1234564111 1111 1111 1111".

(** ** Notions the statements are phrased with *)

(** *** Retry *)

(** The failure the loop has seen last after [n] rejected passes. *)
Definition last_seen (w : World) (req : Request) (n : nat)
    (before : option AxiosError) : option AxiosError :=
  match n with
  | O => before
  | S m =>
      match backend w (length (http_log w) + m) req with
      | Rejected e => Some e
      | Resolved _ => None
      end
  end.

(** *** The pipeline *)

(** What the logic ends with, after the [catch] block: a result, unless
    the fault is [undefined] or [null]. *)
Definition normalised (ended : Res ToolResult) : Res ToolResult :=
  match ended with
  | Ok result => Ok result
  | Throw fault =>
      match errorMessage_of fault with
      | Ok m => Ok (error m)
      | Throw e => Throw e
      end
  end.

Section Entry.
Variable JSON_stringify : value -> jsstring.
Variable config : ServerConfig.
Variables (id : jsstring) (input : value).

(** The entry built at the end of an invocation. *)
Definition entry_of (w w1 : World) (result : ToolResult) : AuditEntry :=
  {| timestamp := clock w1 (S (clock_reads w1));
     tool_called := id;
     input_parameters := JSON_stringify input;
     output_size_bytes :=
       length (JSON_stringify (fst (fst (redaction_step config result))));
     redaction_count := snd (fst (redaction_step config result));
     redacted_types := snd (redaction_step config result);
     execution_time_ms := (clock w1 (clock_reads w1) - clock w (clock_reads w))%Z;
     status := match result with
               | success _ _ _ => success_status
               | error _ => error_status
               end;
     error_message := match result with
                      | success _ _ _ => JUndefined
                      | error e => e
                      end |}.
End Entry.

(** *** Rows and requests *)

(** A row of the response as the tools copy it. *)
Definition info_of (row : value) : ListIndices.IndexInfo :=
  {| ListIndices.index := get_opt row (js "index");
     ListIndices.health := get_opt row (js "health");
     ListIndices.status := get_opt row (js "status");
     ListIndices.doc_count := get_opt row (js "docs.count");
     ListIndices.store_size := get_opt row (js "store.size") |}.

(** The name an entry is matched and looked up under: its index as text. *)
Definition name_of (idx : ListIndices.IndexInfo) : jsstring :=
  match ToString (ListIndices.index idx) with
  | Ok s => s
  | Throw _ => []
  end.

(** The requests of step 6: mapping lookups of the given indices. *)
Definition mapping_requests_of (indices : list ListIndices.IndexInfo)
    (requests : list Request) : Prop :=
  Forall (fun req => exists idx,
            In idx indices /\ req = mapping_request (name_of idx))
    requests.

(** *** Index patterns *)

(** The term a pattern character compiles to. *)
Definition glob_term (c : char) : Regex.regex :=
  if N.eqb c (ch "*") then Rep true 0 None (Cls true line_terminators)
  else Cls false [(c, c)].

(** A wildcard match, read off the words: the whole value is matched,
    [*] stands for any run of characters on one line, every other
    character stands for itself (so case matters). *)
Fixpoint wildcard (pattern : jsstring) : jsstring -> bool :=
  match pattern with
  | [] => fun v => match v with [] => true | _ :: _ => false end
  | c :: rest =>
      if N.eqb c (ch "*") then
        fix run (v : jsstring) : bool :=
          wildcard rest v ||
          match v with
          | x :: v' => negb (in_set line_terminators x) && run v'
          | [] => false
          end
      else
        fun v =>
          match v with
          | x :: v' => N.eqb x c && wildcard rest v'
          | [] => false
          end
  end.

(** A glob match in the words of the specification: the whole name is
    matched, [*] stands for any run of characters, every other character
    for itself (so case matters). *)
Fixpoint claimed_glob (pattern : jsstring) : jsstring -> bool :=
  match pattern with
  | [] => fun v => match v with [] => true | _ :: _ => false end
  | c :: rest =>
      if N.eqb c (ch "*") then
        fix run (v : jsstring) : bool :=
          claimed_glob rest v ||
          match v with
          | _ :: v' => run v'
          | [] => false
          end
      else
        fun v =>
          match v with
          | x :: v' => N.eqb x c && claimed_glob rest v'
          | [] => false
          end
  end.

(** A name is in scope when it glob-matches an entry of the allow-list. *)
Definition in_scope (patterns : list jsstring) (name : jsstring) : Prop :=
  exists p, In p patterns /\ claimed_glob p name = true.

(** An allow-list none of whose entries holds a question mark. *)
Definition no_question_mark (patterns : list jsstring) : Prop :=
  Forall (fun p => ~ In (ch "?") p) patterns.

(** *** Listings *)

(** Does an entry pass the filter on hidden indices, and the allow-list?
    An allow-list without a question mark is meant. *)
Definition shown (include_hidden : bool) (idx : ListIndices.IndexInfo) : bool :=
  include_hidden ||
  match ListIndices.index idx with
  | JStr s => negb (startsWith (js ".") s)
  | _ => false
  end.

Definition allowed (patterns : list jsstring) (idx : ListIndices.IndexInfo) : bool :=
  match patterns with
  | [] => true
  | _ :: _ => existsb (fun p => wildcard p (name_of idx)) patterns
  end.

(** The rows of a response that pass both, as the tools copy them, in the
    order of the response. *)
Definition post_filter (config : ServerConfig) (include_hidden : bool)
    (rows : list value) : list ListIndices.IndexInfo :=
  filter (fun idx => shown include_hidden idx &&
                     allowed (allowedIndexPatterns config) idx)
    (map info_of rows).

(** What the claim says of the indices returned: with an allow-list each
    glob-matches one of its entries, and unless hidden indices are asked
    for no name starts with a dot. *)
Definition listed (config : ServerConfig) (include_hidden : bool)
    (indices : list ListIndices.IndexInfo) : Prop :=
  (allowedIndexPatterns config <> [] ->
   Forall (fun idx => in_scope (allowedIndexPatterns config) (name_of idx)) indices) /\
  (include_hidden = false ->
   Forall (fun idx => exists s, ListIndices.index idx = JStr s /\
                                startsWith (js ".") s = false) indices).

(** Has the matcher reached its end? *)
Definition is_match (o : option nat) : bool :=
  match o with Some _ => true | None => false end.

(** *** The matcher *)

(** Two continuations that agree on every text of at most [n] code units. *)
Definition agree (n : nat) (k k' : cont) : Prop :=
  forall p t, length t <= n -> k p t = k' p t.

(** *** Digit-blind matching *)

(** Two continuations that cannot tell digits apart either. *)
Definition blind (k k' : cont) : Prop :=
  forall p t, k p t = k' (option_map zero p) (zero_digits t).

(** Is every decision a failed attempt? *)
Definition all_unmatched (decisions : list Decision) : bool :=
  forallb (fun d => match d with Try None => true | _ => false end) decisions.

End Scenarios.
Import Scenarios.


(* ===================================================================== *)
(** * Further notions the statements are phrased with *)
(* ===================================================================== *)

Module Notions.
Import ReadOnlyQuery MappingUtils.

(** What a digit adds to the sum of [luhnCheck]. *)
Definition luhn_term (alternate : bool) (c : char) : N :=
  let n := (c - ch "0")%N in
  if alternate then (if (9 <? n * 2)%N then n * 2 - 9 else n * 2)%N else n.

(** A social security number written [ddd-dd-dddd] from its nine digits. *)
Definition ssn_text (digits : jsstring) : jsstring :=
  firstn 3 digits ++ js "-" ++ firstn 2 (skipn 3 digits) ++ js "-" ++ skipn 5 digits.

(** How the set of types found relates to a count of redactions made
    meanwhile: nothing counted, nothing added; something counted,
    something in the set; what is added are names of patterns, each once. *)
Definition tracks (before : TypeSet) (count : nat) (after : TypeSet) : Prop :=
  (count = 0 -> after = before) /\
  (0 < count -> after <> []) /\
  (exists added,
     after = before ++ added /\
     Forall (fun x => In x (map name PATTERNS)) added) /\
  (NoDup before -> NoDup after).

(** A value as a parsed JSON text gives it: the keys of an object are
    distinct, and none is [__proto__]. *)
Fixpoint distinct_keys (keys : list jsstring) : bool :=
  match keys with
  | [] => true
  | k :: rest => negb (existsb (str_eqb k) rest) && distinct_keys rest
  end.

Fixpoint plain (v : value) : bool :=
  match v with
  | JArr items => forallb plain items
  | JObj props =>
      distinct_keys (map fst props) &&
      negb (existsb (str_eqb (js "__proto__")) (map fst props)) &&
      forallb (fun kv => plain (snd kv)) props
  | _ => true
  end.

(** Is the text a non-empty run of the characters an index name may hold? *)
Definition index_name_ok (index : jsstring) : bool :=
  match index with
  | [] => false
  | _ :: _ => forallb (in_set index_name_set) index
  end.

(** The waits of the first [n] retries: the base delay, doubled each time,
    counted from the attempt [from]. *)
Definition backoff (config : ServerConfig) (from : Z) (n : nat) : list Z :=
  map (fun i => (retryDelayMs config * 2 ^ (from + Z.of_nat i))%Z) (List.seq 0 n).

(** A value that holds no [null] and no [undefined], at any depth. *)
Fixpoint no_null (v : value) : bool :=
  match v with
  | JUndefined | JNull => false
  | JArr items => forallb no_null items
  | JObj props => forallb (fun kv => no_null (snd kv)) props
  | _ => true
  end.

(** Does the path lie under the prefix? Any path does under the empty one. *)
Definition under (prefix path : jsstring) : bool :=
  match prefix with
  | [] => true
  | _ :: _ => startsWith (prefix ++ js ".") path
  end.

(** [seenKeys] in hand, the fields of [fields] that bring a new path, in
    their order. *)
Fixpoint first_seen (seenKeys : list jsstring) (fields : list MappingUtils.FieldMapping)
  : list MappingUtils.FieldMapping :=
  match fields with
  | [] => []
  | f :: rest =>
      if existsb (str_eqb (MappingUtils.field f)) seenKeys
      then first_seen seenKeys rest
      else f :: first_seen (seenKeys ++ [MappingUtils.field f]) rest
  end.

(** Does the text hold the keyword somewhere? *)
Definition occurs (keyword text : jsstring) : Prop :=
  exists before after, text = before ++ keyword ++ after.

(** A value with its strings emptied: what is left is its shape. *)
Fixpoint blank (v : value) : value :=
  match v with
  | JStr _ => JStr []
  | JArr items => JArr (map blank items)
  | JObj props => JObj (map (fun kv => (fst kv, blank (snd kv))) props)
  | _ => v
  end.

(** The number the sort of discover_cluster reads in a row:
    [parseInt(idx.doc_count, 10) || 0]. *)
Definition doc_count_number (idx : ListIndices.IndexInfo) : Number :=
  match DiscoverCluster.count_of idx with
  | Ok n => n
  | Throw _ => Int 0
  end.

(** Does the index count as many documents as [n], for the sort? *)
Definition same_count (n : Number) (idx : ListIndices.IndexInfo) : bool :=
  leb n (doc_count_number idx) && leb (doc_count_number idx) n.

(** A list of indices, each with its count. *)
Definition keyed_by_count (keyed : list (Number * ListIndices.IndexInfo)) : Prop :=
  Forall (fun kv => fst kv = doc_count_number (snd kv)) keyed.

(** The outcome of a flattening, moved behind the fields already there. *)
Definition after_fields (result : list MappingUtils.FieldMapping)
    (o : option (Res (list MappingUtils.FieldMapping)))
  : option (Res (list MappingUtils.FieldMapping)) :=
  match o with
  | Some (Ok fields) => Some (Ok (result ++ fields))
  | other => other
  end.

(** ** Inputs the properties with a precondition are tried on *)

(** An object with nothing to redact. *)
Definition quiet_value : value :=
  JObj [(js "note", JStr (js "nothing to hide")); (js "count", JNum 3)].

(** A fault whose message holds a card number. *)
Definition card_fault : value := mkError (js "card 4111 1111 1111 1111 declined").

(** Stand-ins for the functions of the host. *)
Definition no_text : value -> jsstring := fun _ => [].
Definition as_it_is : jsstring -> jsstring := fun s => s.
Definition no_query_string : list (jsstring * jsstring) -> jsstring := fun _ => [].

(** A serialiser that gives every query the text [{"description":1}]. *)
Definition described : value -> jsstring :=
  fun _ => js "{" ++ dquote ++ js "description" ++ dquote ++ js ":1}".

(** A mapping with a multi-field and a nested object. *)
Definition example_mapping : value :=
  JObj [(js "customer_name",
         JObj [(js "type", JStr (js "text"));
               (js "fields",
                JObj [(js "keyword", JObj [(js "type", JStr (js "keyword"))])])]);
        (js "address",
         JObj [(js "properties",
                JObj [(js "city", JObj [(js "type", JStr (js "keyword"))])])])].

(** A backend that answers every call with status 404. *)
Definition always_404 : nat -> Request -> HttpOutcome value :=
  fun _ _ => Rejected (http_error 404).

(** A backend that answers every search with one hit. *)
Definition one_hit : nat -> Request -> HttpOutcome value :=
  fun _ _ =>
    Resolved
      (JObj [(js "hits",
              JObj [(js "total", JObj [(js "value", JNum 1)]);
                    (js "hits",
                     JArr [JObj [(js "_id", JStr (js "1"));
                                 (js "_source",
                                  JObj [(js "status", JStr (js "failed"))])]])])]).

(** Three alerting rules, one of each status. *)
Definition rule_with_status (id status : string) : value :=
  JObj [(js "id", JStr (js id));
        (js "execution_status", JObj [(js "status", JStr (js status))])].
Definition three_rules : value :=
  JObj [(js "total", JNum 3);
        (js "data",
         JArr [rule_with_status "r1" "active"; rule_with_status "r2" "ok";
               rule_with_status "r3" "error"])].

(** An environment with an oversized cap and a spaced allow-list. *)
Definition example_env : LoadConfig.Env :=
  fun name =>
    if str_eqb name (js "KIBANA_URL") then Some (js "https://bank.kb.eu.found.io")
    else if str_eqb name (js "KIBANA_API_KEY") then Some (js "secret")
    else if str_eqb name (js "MAX_SEARCH_SIZE") then Some (js "9000")
    else if str_eqb name (js "ALLOWED_INDEX_PATTERNS")
    then Some (js " logs-* , ,transactions-*")
    else None.

Definition example_loaded : LoadConfig.LoadedConfig :=
  {| LoadConfig.kibanaUrl := js "https://bank.kb.eu.found.io";
     LoadConfig.elasticsearchUrl := js "https://bank.es.eu.found.io";
     LoadConfig.kibanaApiKey := js "secret";
     LoadConfig.allowedIndexPatterns := [js "logs-*"; js "transactions-*"];
     LoadConfig.maxSearchSize := Int 500;
     LoadConfig.requestTimeoutMs := Int 30000;
     LoadConfig.retryAttempts := Int 3;
     LoadConfig.retryDelayMs := Int 1000;
     LoadConfig.kibanaSpace := [];
     LoadConfig.auditEnabled := true;
     LoadConfig.piiRedactionEnabled := true |}.

Definition example_server_config : ServerConfig :=
  {| allowedIndexPatterns := [js "logs-*"; js "transactions-*"];
     maxSearchSize := 500; retryAttempts := 3; retryDelayMs := 1000;
     auditEnabled := true; piiRedactionEnabled := true |}.

(** Three rows of the cat API, as the tools keep them. *)
Definition row (name count : string) : ListIndices.IndexInfo :=
  {| ListIndices.index := JStr (js name); ListIndices.health := JStr (js "green");
     ListIndices.status := JStr (js "open");
     ListIndices.doc_count := JStr (js count);
     ListIndices.store_size := JStr (js "1mb") |}.
Definition three_rows : list ListIndices.IndexInfo :=
  [row "logs-1" "10"; row "payments" "300"; row "audit" "20"].

(** Two counts above 2^53 that are one double, and a smaller one. *)
Definition large_rows : list ListIndices.IndexInfo :=
  [row "small" "5"; row "a" "9007199254740992"; row "b" "9007199254740993"].

(** An object that would lose a key in the copy. *)
Definition proto_keyed : value := JObj [(js "__proto__", JStr (js "x"))].

End Notions.
Import Notions.

(* ===================================================================== *)
(** * Properties *)
(* ===================================================================== *)

(** ** Strings and objects *)

Lemma str_eqb_refl (s : jsstring) : str_eqb s s = true.
Proof.
  induction s as [|c s IH]; simpl; [reflexivity|].
  rewrite N.eqb_refl, IH. reflexivity.
Qed.

Lemma str_eqb_eq (a b : jsstring) : str_eqb a b = true <-> a = b.
Proof.
  split.
  - revert b. induction a as [|x a IH]; intros [|y b] H; simpl in H;
      try discriminate; [reflexivity|].
    apply andb_true_iff in H. destruct H as [Hxy Hab].
    apply N.eqb_eq in Hxy. rewrite (IH _ Hab), Hxy. reflexivity.
  - intros ->. apply str_eqb_refl.
Qed.

Lemma str_eqb_neq (a b : jsstring) : a <> b -> str_eqb a b = false.
Proof.
  intros H. destruct (str_eqb a b) eqn:E; [|reflexivity].
  apply str_eqb_eq in E. contradiction.
Qed.

Lemma lookup_set_prop_same k v props : lookup k (set_prop k v props) = Some v.
Proof.
  induction props as [|[k' v'] rest IH]; simpl.
  - rewrite str_eqb_refl. reflexivity.
  - destruct (str_eqb k k') eqn:E; simpl; rewrite E; [reflexivity|exact IH].
Qed.

Lemma lookup_set_prop_other k k' v props :
  k' <> k -> lookup k' (set_prop k v props) = lookup k' props.
Proof.
  intros Hne. induction props as [|[k0 v0] rest IH]; simpl.
  - rewrite (str_eqb_neq Hne). reflexivity.
  - destruct (str_eqb k k0) eqn:E; simpl.
    + apply str_eqb_eq in E. subst k0.
      rewrite (str_eqb_neq Hne). reflexivity.
    + destruct (str_eqb k' k0); [reflexivity|exact IH].
Qed.

Lemma keys_set_prop_present k v props :
  lookup k props <> None -> map fst (set_prop k v props) = map fst props.
Proof.
  induction props as [|[k0 v0] rest IH]; simpl; intros H.
  - contradiction.
  - destruct (str_eqb k k0) eqn:E; simpl; [reflexivity|].
    rewrite IH; [reflexivity|exact H].
Qed.

(** ** The audit logger (lib/auditLogger.ts) *)

Module AuditLoggerFacts.
Import AuditLogger.

Lemma truncation_marker_length : length truncation_marker = 14.
Proof. reflexivity. Qed.

Lemma log_disabled entry sink : log false entry sink = sink.
Proof. reflexivity. Qed.

Lemma log_enabled entry sink : log true entry sink = sink ++ [sanitize entry].
Proof. reflexivity. Qed.

Lemma sanitize_input_parameters entry :
  input_parameters (sanitize entry)
  = if 500 <? length (input_parameters entry)
    then firstn 500 (input_parameters entry) ++ truncation_marker
    else input_parameters entry.
Proof. reflexivity. Qed.

(** C6, as stated, fails: a serialisation of 501 characters is logged as a
    string of 514 characters, the first 500 followed by the marker. *)
Lemma logged_input_longer_than_500 :
  exists logged,
    log true long_entry [] = [logged] /\
    length (input_parameters logged) = 514 /\
    ~ length (input_parameters logged) <= 500.
Proof.
  exists (sanitize long_entry). split; [reflexivity|].
  assert (H : length (input_parameters (sanitize long_entry)) = 514)
    by (vm_compute; reflexivity).
  split; [exact H|]. rewrite H. lia.
Qed.

(** C6, amended: every entry is logged once, after the ones already there;
    its [input_parameters] has at most 514 characters; a serialisation of
    at most 500 characters is logged as it is, a longer one as its first
    500 characters followed by the 14 characters of [...[truncated]]. *)
Theorem logged_input_parameters_bounded (entry : AuditEntry) (sink : list AuditEntry) :
  exists logged,
    log true entry sink = sink ++ [logged] /\
    length (input_parameters logged) <= 514 /\
    (length (input_parameters entry) <= 500 ->
       input_parameters logged = input_parameters entry) /\
    (500 < length (input_parameters entry) ->
       input_parameters logged
       = slice_to 500 (input_parameters entry) ++ truncation_marker /\
       length (input_parameters logged) = 514).
Proof.
  exists (sanitize entry). split; [reflexivity|].
  rewrite sanitize_input_parameters.
  destruct (500 <? length (input_parameters entry)) eqn:E.
  - apply Nat.ltb_lt in E.
    assert (L : length (firstn 500 (input_parameters entry) ++ truncation_marker) = 514).
    { rewrite length_app, firstn_length_le by lia.
      rewrite truncation_marker_length. reflexivity. }
    repeat split; intros; try lia; auto.
  - apply Nat.ltb_ge in E.
    repeat split; intros; try lia; auto.
Qed.

End AuditLoggerFacts.

(** ** The time-range merge (tools/kibanaSearch.ts) *)

Module KibanaSearchFacts.

(** What the classification [has_bool] says about the body. *)
Lemma classify_has_bool body bool body' :
  classifyQuery body = has_bool bool body' ->
  body' = body /\
  bool = get_opt (body_query body) (js "bool") /\
  truthy bool = true /\
  lookup (js "query") body <> None.
Proof.
  unfold classifyQuery.
  destruct (truthy (get_opt (body_query body) (js "bool"))) eqn:T.
  - intros H. injection H as <- <-. repeat split; auto.
    unfold body_query in T. intros L. rewrite L in T. discriminate.
  - destruct (truthy (body_query body)); discriminate.
Qed.

Lemma classify_no_query body body' :
  classifyQuery body = no_query body' ->
  body' = body /\ truthy (body_query body) = false.
Proof.
  unfold classifyQuery.
  destruct (truthy (get_opt (body_query body) (js "bool"))); [discriminate|].
  destruct (truthy (body_query body)) eqn:T; [discriminate|].
  intros H. injection H as <-. auto.
Qed.

(** Outside arrays, the filters the code reads are the own ones. *)
Lemma filters_of_own bool : isArray bool = false -> filters_of bool = own_filters bool.
Proof.
  destruct bool; simpl; intros H; try reflexivity; try discriminate.
  unfold filters_of, get_opt, get_prop.
  destruct (lookup (js "filter") props) as [v|]; [|reflexivity].
  destruct v; reflexivity.
Qed.

Lemma body_query_set_prop q body :
  body_query (set_prop (js "query") q body) = q.
Proof. unfold body_query. rewrite lookup_set_prop_same. reflexivity. Qed.

Lemma get_opt_single k v : get_opt (JObj [(k, v)]) k = v.
Proof. unfold get_opt, get_prop. simpl. rewrite str_eqb_refl. reflexivity. Qed.

Lemma get_opt_set_prop k v props : get_opt (JObj (set_prop k v props)) k = v.
Proof. unfold get_opt, get_prop. rewrite lookup_set_prop_same. reflexivity. Qed.

(** The NoClause case in general: the body gains a [query] holding a bool
    clause with the range filter as its only condition, and keeps every
    other key. *)
Lemma merge_no_query body time_range :
  classifyQuery body = no_query body ->
  mergeTimeRange body time_range
  = set_prop (js "query")
      (JObj [(js "bool", JObj [(js "filter", JArr [rangeFilter time_range])])])
      body /\
  forall k, k <> js "query" ->
    lookup k (mergeTimeRange body time_range) = lookup k body.
Proof.
  intros H. unfold mergeTimeRange. rewrite H. split; [reflexivity|].
  intros k Hk. apply lookup_set_prop_other. exact Hk.
Qed.

(** C7: the body [{ match_all: {} }] is classified NoClause, and merging
    it with ["now-24h"] yields
    [{ match_all: {}, query: { bool: { filter: [ { range: { "@timestamp":
    { gte: "now-24h", lte: "now" } } } ] } } }]: the boolean clause holds
    only the range filter, as its [filter] condition, and the original key
    [match_all] is kept with its value. *)
Theorem merge_match_all_now_24h :
  classifyQuery body_match_all = no_query body_match_all /\
  searchBody_of body_match_all (Some (js "now-24h"))
  = [(js "match_all", JObj []);
     (js "query",
      JObj [(js "bool",
             JObj [(js "filter",
                    JArr [JObj [(js "range",
                                 JObj [(js "@timestamp",
                                        JObj [(js "gte", JStr (js "now-24h"));
                                              (js "lte", JStr (js "now"))])])]])])])] /\
  bool_clause (searchBody_of body_match_all (Some (js "now-24h")))
  = JObj [(js "filter", JArr [rangeFilter (js "now-24h")])] /\
  lookup (js "match_all") (searchBody_of body_match_all (Some (js "now-24h")))
  = lookup (js "match_all") body_match_all.
Proof. repeat split. Qed.

(** C5, as stated, fails on two bodies classified HasBoolClause. A single
    filter value that is falsy (here [0]) is not normalised to a one-element
    list but dropped: the merged list holds the range filter alone. And a
    bool clause that is an array has no filter of its own, yet the merged
    list holds two entries, the inherited [Array.prototype.filter] first. *)
Lemma merge_has_bool_drops_falsy_filter :
  (exists bool,
     classifyQuery body_falsy_filter = has_bool bool body_falsy_filter /\
     claimed_filters bool = [JNum 0] /\
     filter_slot (mergeTimeRange body_falsy_filter (js "now-24h"))
     = JArr [rangeFilter (js "now-24h")] /\
     filter_slot (mergeTimeRange body_falsy_filter (js "now-24h"))
     <> JArr (claimed_filters bool ++ [rangeFilter (js "now-24h")])) /\
  (exists bool,
     classifyQuery body_array_bool = has_bool bool body_array_bool /\
     claimed_filters bool = [] /\
     filter_slot (mergeTimeRange body_array_bool (js "now-24h"))
     = JArr [JFun (js "filter"); rangeFilter (js "now-24h")]).
Proof.
  split.
  - exists (JObj [(js "must", JArr []); (js "filter", JNum 0)]).
    repeat split. vm_compute. discriminate.
  - exists (JArr [JNum 1]). repeat split.
Qed.

(** C5, amended: for a body classified HasBoolClause whose bool clause is
    not an array, the merged clause's filter is a list made of the filters
    the clause had (the elements of a list, a single truthy value as one
    element, nothing for an absent or falsy value) followed by exactly one
    entry, the range filter; the other keys of the clause, every top-level
    key other than [query], and the order of the top-level keys are
    unchanged. *)
Theorem merge_has_bool_appends_range
    (body : list (jsstring * value)) (time_range : jsstring) (bool : value) :
  classifyQuery body = has_bool bool body ->
  isArray bool = false ->
  filter_slot (mergeTimeRange body time_range)
  = JArr (own_filters bool ++ [rangeFilter time_range]) /\
  length (own_filters bool ++ [rangeFilter time_range])
  = S (length (own_filters bool)) /\
  (forall k, k <> js "filter" ->
     lookup k (spread (bool_clause (mergeTimeRange body time_range)))
     = lookup k (spread bool)) /\
  (forall k, k <> js "query" ->
     lookup k (mergeTimeRange body time_range) = lookup k body) /\
  map fst (mergeTimeRange body time_range) = map fst body.
Proof.
  intros Hc Harr.
  destruct (classify_has_bool _ Hc) as (_ & Hb & Ht & Hq).
  unfold mergeTimeRange. rewrite Hc.
  unfold filter_slot, bool_clause. rewrite body_query_set_prop.
  rewrite (filters_of_own _ Harr).
  rewrite get_opt_single.
  repeat split.
  - apply get_opt_set_prop.
  - rewrite length_app. simpl. lia.
  - intros k Hk. simpl spread. apply lookup_set_prop_other. exact Hk.
  - intros k Hk. apply lookup_set_prop_other. exact Hk.
  - apply keys_set_prop_present. exact Hq.
Qed.

(** The amended C5 at [body_single_filter]: the single [exists] filter
    becomes the first of two entries. *)
Lemma merge_has_bool_appends_range_witness :
  filter_slot (mergeTimeRange body_single_filter (js "now-24h"))
  = JArr [JObj [(js "exists", JObj [(js "field", JStr (js "user"))])];
          rangeFilter (js "now-24h")] /\
  lookup (js "size") (mergeTimeRange body_single_filter (js "now-24h"))
  = Some (JNum 5).
Proof.
  pose proof (@merge_has_bool_appends_range body_single_filter (js "now-24h")
                (JObj [(js "must", JArr [JObj [(js "match_all", JObj [])]]);
                       (js "filter",
                        JObj [(js "exists",
                              JObj [(js "field", JStr (js "user"))])])])
                eq_refl eq_refl) as (Hf & _ & _ & Hk & _).
  split.
  - exact Hf.
  - rewrite Hk; [reflexivity | vm_compute; discriminate].
Defined.

End KibanaSearchFacts.

(** ** The retry wrapper (lib/esClient.ts) *)

Module RetryFacts.

(** The failures the loop treats as final: a status from 400 to 499 other
    than 429. Every other failure, with or without a status, is retried
    while attempts remain. *)
Lemma client_error_iff (e : AxiosError) :
  client_error e = true <->
  exists r, response e = Some r /\
            (400 <= status r < 500)%Z /\ status r <> 429%Z.
Proof.
  unfold client_error. destruct (response e) as [r|].
  - rewrite !andb_true_iff, !negb_true_iff, Z.leb_le, Z.ltb_lt, !Z.eqb_neq.
    split.
    + intros (((H0 & H1) & H2) & H3). exists r. repeat split; auto.
    + intros (r' & Hr & (H1 & H2) & H3). injection Hr as <-.
      repeat split; auto; lia.
  - split; [discriminate|]. intros (r & Hr & _). discriminate.
Qed.

Lemma http_result req w :
  fst (http req w) = backend w (length (http_log w)) req /\
  backend (snd (http req w)) = backend w /\
  http_log (snd (http req w)) = http_log w ++ [req] /\
  sleeps (snd (http req w)) = sleeps w /\
  stderr (snd (http req w)) = stderr w.
Proof. repeat split. Qed.

(** A call rejected with a client error ends the loop at once: one call,
    no sleep, the rejection thrown. *)
Lemma withRetry_client_error_terminal config req w e :
  (0 < retryAttempts config)%Z ->
  backend w (length (http_log w)) req = Rejected e ->
  client_error e = true ->
  withRetry config (http req) w
  = (Throw (axios_error_value e), snd (http req w)).
Proof.
  intros Hn Hb Hc. unfold withRetry.
  destruct (Z.to_nat (retryAttempts config)) as [|n] eqn:E; [lia|].
  simpl. rewrite Hb, Hc. reflexivity.
Qed.

(** A call that succeeds ends the loop with its result. *)
Lemma withRetry_first_success config req w t :
  (0 < retryAttempts config)%Z ->
  backend w (length (http_log w)) req = Resolved t ->
  withRetry config (http req) w = (Ok t, snd (http req w)).
Proof.
  intros Hn Hb. unfold withRetry.
  destruct (Z.to_nat (retryAttempts config)) as [|n] eqn:E; [lia|].
  simpl. rewrite Hb. reflexivity.
Qed.

Lemma withRetry_loop_step config T (fn : World -> HttpOutcome T * World)
    n attempt before w :
  withRetry_loop config fn (S n) attempt before w
  = match fn w with
    | (Resolved t, w1) => (Ok t, w1)
    | (Rejected e, w1) =>
        if client_error e then (Throw (axios_error_value e), w1)
        else
          withRetry_loop config fn n (attempt + 1)%Z (Some e)
            (if (attempt <? retryAttempts config - 1)%Z
             then sleep (retryDelayMs config * 2 ^ attempt)%Z w1
             else w1)
    end.
Proof. reflexivity. Qed.

Lemma withRetry_loop_exhausted config req :
  forall n attempt before w,
    (forall i, i < n ->
       exists e, backend w (length (http_log w) + i) req = Rejected e /\
                 client_error e = false) ->
    exists w',
      withRetry_loop config (http req) n attempt before w
      = (Throw (thrown_lastError (last_seen w req n before)), w') /\
      http_log w' = http_log w ++ repeat req n /\
      backend w' = backend w /\
      stderr w' = stderr w.
Proof.
  induction n as [|n IH]; intros attempt before w H.
  - exists w. simpl. rewrite app_nil_r. repeat split.
  - destruct (H 0 ltac:(lia)) as (e & He & Hc).
    rewrite Nat.add_0_r in He.
    set (w1 := snd (http req w)).
    set (w2 := if (attempt <? retryAttempts config - 1)%Z
               then sleep (retryDelayMs config * 2 ^ attempt)%Z w1 else w1).
    assert (Hw2 : http_log w2 = http_log w ++ [req] /\ backend w2 = backend w /\
                  stderr w2 = stderr w).
    { unfold w2. destruct (attempt <? retryAttempts config - 1)%Z; repeat split. }
    destruct Hw2 as (Hl & Hb & Hs).
    destruct (IH (attempt + 1)%Z (Some e) w2) as (w' & Hr & Hl' & Hb' & Hs').
    { intros i Hi. rewrite Hl, Hb, length_app. simpl.
      replace (length (http_log w) + 1 + i) with (length (http_log w) + S i) by lia.
      apply H. lia. }
    exists w'. split; [|split; [|split]].
    + rewrite withRetry_loop_step.
      change (http req w) with (backend w (length (http_log w)) req, w1).
      rewrite He, Hc. fold w2. rewrite Hr.
      f_equal. f_equal. f_equal.
      destruct n as [|m]; simpl.
      * rewrite Nat.add_0_r, He. reflexivity.
      * rewrite Hl, Hb, length_app. simpl.
        replace (length (http_log w) + 1 + m) with (length (http_log w) + S m) by lia.
        reflexivity.
    + rewrite Hl', Hl, <- app_assoc. reflexivity.
    + congruence.
    + congruence.
Qed.

(** When every one of the [retryAttempts] calls is rejected with a failure
    that is not a client error, the loop makes exactly that many calls and
    throws the failure of the last one. *)
Lemma withRetry_exhausted config req w n :
  retryAttempts config = Z.of_nat (S n) ->
  (forall i, i <= n ->
     exists e, backend w (length (http_log w) + i) req = Rejected e /\
               client_error e = false) ->
  exists e w',
    backend w (length (http_log w) + n) req = Rejected e /\
    withRetry config (http req) w = (Throw (axios_error_value e), w') /\
    http_log w' = http_log w ++ repeat req (S n).
Proof.
  intros Hn H.
  destruct (H n (Nat.le_refl n)) as (e & He & _).
  destruct (@withRetry_loop_exhausted config req (S n) 0%Z None w) as (w' & Hr & Hl & _).
  { intros i Hi. apply H. lia. }
  exists e, w'. split; [exact He|]. split; [|exact Hl].
  unfold withRetry. rewrite Hn, Nat2Z.id, Hr.
  unfold last_seen. rewrite He. reflexivity.
Qed.

(** With no attempt allowed the loop body never runs: no call is made and
    [throw lastError] throws [undefined]. *)
Lemma withRetry_no_attempt config T (fn : World -> HttpOutcome T * World) w :
  (retryAttempts config <= 0)%Z ->
  withRetry config fn w = (Throw JUndefined, w).
Proof.
  intros H. unfold withRetry.
  replace (Z.to_nat (retryAttempts config)) with 0 by lia. reflexivity.
Qed.

(** C1 at a backend that answers 500 to every call, with the default three
    attempts: the status is neither 429 nor 503, yet the failure is not
    final for the loop. It is retried twice, after sleeps of 1000 and 2000
    milliseconds, and thrown only after the third call. *)
Theorem withRetry_retries_status_500 :
  client_error (http_error 500) = false /\
  exists w',
    withRetry default_config (http (search_request (js "logs") (JObj [])))
      (fresh always_500)
    = (Throw (axios_error_value (http_error 500)), w') /\
    http_log w' = repeat (search_request (js "logs") (JObj [])) 3 /\
    sleeps w' = [1000; 2000]%Z.
Proof.
  split; [reflexivity|].
  eexists. split; [reflexivity|]. split; reflexivity.
Qed.

(** The scenario of the specification: two answers 503, then success. The
    result is the successful one, after three calls and two sleeps, the
    second longer than the first. *)
Lemma withRetry_twice_503_then_success :
  exists w',
    withRetry default_config (http (search_request (js "logs") (JObj [])))
      (fresh twice_503)
    = (Ok (JObj []), w') /\
    length (http_log w') = 3 /\
    sleeps w' = [1000; 2000]%Z.
Proof. eexists. repeat split. Qed.

End RetryFacts.

(** ** The redaction engine (lib/piiRedaction.ts): unfolding equations *)

Module RedactionEquations.

Lemma redactRecursive_str s types :
  redactRecursive (JStr s) types
  = let '(r, (count, types')) := redactString s types in ((JStr r, count), types').
Proof. reflexivity. Qed.

Lemma redactRecursive_arr items types :
  redactRecursive (JArr items) types
  = let '((rs, total), types') := redact_items items types in
    ((JArr rs, total), types').
Proof.
  simpl.
  match goal with
  | |- (let '(_, _) := ?f items types in _) = _ =>
      assert (E : forall l t, f l t = redact_items l t)
  end.
  { induction l as [|x l IH]; intros t; simpl; [reflexivity|].
    destruct (redactRecursive x t) as [[r c] t1]. rewrite IH. reflexivity. }
  rewrite E. reflexivity.
Qed.

Lemma redactRecursive_obj props types :
  redactRecursive (JObj props) types
  = let '((result, total), types') := redact_entries props [] 0 types in
    ((JObj result, total), types').
Proof.
  simpl.
  match goal with
  | |- (let '(_, _) := ?f props [] 0 types in _) = _ =>
      assert (E : forall l acc n t, f l acc n t = redact_entries l acc n t)
  end.
  { induction l as [|[k v] l IH]; intros acc n t; simpl; [reflexivity|].
    destruct (redactRecursive v t) as [[r c] t1]. rewrite IH. reflexivity. }
  rewrite E. reflexivity.
Qed.

Lemma redactRecursive_other v types :
  match v with JStr _ | JArr _ | JObj _ => False | _ => True end ->
  redactRecursive v types = ((v, 0), types).
Proof. destruct v; simpl; intros H; try contradiction; reflexivity. Qed.

End RedactionEquations.

(** ** The matcher: what a match is made of *)

Module RegexFacts.
Lemma rep_sound (step : cont -> cont) (P : char -> Prop) :
  (forall k prev s n, step k prev s = Some n ->
     exists u t p', s = u ++ t /\ Forall P u /\ k p' t = Some n) ->
  forall fuel g lo hi k prev s n,
    rep step fuel g lo hi k prev s = Some n ->
    exists u t p', s = u ++ t /\ Forall P u /\ k p' t = Some n.
Proof.
  intros Hstep. induction fuel as [|f IH]; intros g lo hi k prev s n H;
    [discriminate|].
  simpl in H.
  set (more := match hi with
               | Some 0 => None
               | _ => step (fun p' s' =>
                        if (length s' <? length s) || (0 <? lo)
                        then rep step f g (Nat.pred lo) (option_map Nat.pred hi) k p' s'
                        else None) prev s
               end) in H.
  set (stop := if lo =? 0 then k prev s else None) in H.
  assert (Hmore : forall n, more = Some n ->
            exists u t p', s = u ++ t /\ Forall P u /\ k p' t = Some n).
  { intros n0 Hm. unfold more in Hm.
    assert (Hs : step (fun p' s' =>
                        if (length s' <? length s) || (0 <? lo)
                        then rep step f g (Nat.pred lo) (option_map Nat.pred hi) k p' s'
                        else None) prev s = Some n0).
    { destruct hi as [[|h]|]; [discriminate|exact Hm|exact Hm]. }
    apply Hstep in Hs. destruct Hs as (u & t & p' & -> & Hu & Hk).
    destruct ((length t <? length (u ++ t)) || (0 <? lo)); [|discriminate].
    apply IH in Hk. destruct Hk as (u2 & t2 & p2 & -> & Hu2 & Hk2).
    exists (u ++ u2), t2, p2. rewrite app_assoc. repeat split; auto.
    apply Forall_app; auto. }
  assert (Hstop : forall n, stop = Some n ->
            exists u t p', s = u ++ t /\ Forall P u /\ k p' t = Some n).
  { intros n0 Hs. unfold stop in Hs. destruct (lo =? 0); [|discriminate].
    exists [], s, prev. repeat split; auto. }
  destruct g.
  - destruct more as [n0|]; [injection H as <-; apply Hmore; reflexivity|].
    apply Hstop. exact H.
  - destruct stop as [n0|]; [injection H as <-; apply Hstop; reflexivity|].
    apply Hmore. exact H.
Qed.

Lemma m_sound : forall r k prev s n,
  m r k prev s = Some n ->
  exists u t p', s = u ++ t /\ Forall (fun c => consumes r c = true) u /\ k p' t = Some n.
Proof.
  induction r as [|neg cs|r1 IH1 r2 IH2|g lo hi r' IH| | |]; intros k prev s n H; simpl in H.
  - exists [], s, prev. repeat split; auto.
  - destruct s as [|c s']; [discriminate|].
    destruct (xorb neg (in_set cs c)) eqn:E; [|discriminate].
    exists [c], s', (Some c). repeat split; auto.
  - apply IH1 in H. destruct H as (u1 & t1 & p1 & -> & Hu1 & H).
    apply IH2 in H. destruct H as (u2 & t2 & p2 & -> & Hu2 & H).
    exists (u1 ++ u2), t2, p2. rewrite app_assoc. repeat split; auto.
    apply Forall_app. split.
    + eapply Forall_impl; [|exact Hu1]. simpl. intros c ->. reflexivity.
    + eapply Forall_impl; [|exact Hu2]. simpl. intros c ->. apply orb_true_r.
  - exact (@rep_sound (m r') (fun c => consumes r' c = true) IH _ _ _ _ _ _ _ _ H).
  - destruct (xorb _ _); [|discriminate]. exists [], s, prev. repeat split; auto.
  - destruct prev; [discriminate|]. exists [], s, None. repeat split; auto.
  - destruct s; [|discriminate]. exists [], [], prev. repeat split; auto.
Qed.

Lemma match_at_sound r prev s len :
  match_at r prev s = Some len ->
  len <= length s /\ Forall (fun c => consumes r c = true) (firstn len s).
Proof.
  unfold match_at. destruct (m r done prev s) as [n|] eqn:E; [|discriminate].
  intros H. injection H as <-.
  apply m_sound in E. destruct E as (u & t & p' & -> & Hu & Hd).
  unfold done in Hd. injection Hd as <-.
  rewrite length_app. replace (length u + length t - length t) with (length u) by lia.
  split; [lia|].
  rewrite firstn_app, Nat.sub_diag, firstn_all. simpl. rewrite app_nil_r. exact Hu.
Qed.


(** *** The fuel of [rep] never runs out *)

(** A matcher reads its continuation only at texts no longer than its own:
    two continuations that agree there give the same result, whatever fuel
    (above the bound) each repetition is given. *)
Lemma agree_le n n' k k' : n' <= n -> agree n k k' -> agree n' k k'.
Proof. intros Hn H p t Ht. apply H. lia. Qed.

Lemma rep_agree (step step' : cont -> cont) :
  (forall k k' prev s, agree (length s) k k' -> step k prev s = step' k' prev s) ->
  forall f1 f2 g lo hi k k' prev s,
    lo + length s < f1 -> lo + length s < f2 ->
    agree (length s) k k' ->
    rep step f1 g lo hi k prev s = rep step' f2 g lo hi k' prev s.
Proof.
  intros Hstep. induction f1 as [|f1 IH]; intros f2 g lo hi k k' prev s H1 H2 Hk;
    [lia|]. destruct f2 as [|f2]; [lia|]. cbn [rep].
  rewrite (Hk prev s) by lia.
  assert (Hmore :
    step (fun p' s' =>
            if (length s' <? length s) || (0 <? lo)
            then rep step f1 g (pred lo) (option_map pred hi) k p' s'
            else None) prev s
    = step' (fun p' s' =>
            if (length s' <? length s) || (0 <? lo)
            then rep step' f2 g (pred lo) (option_map pred hi) k' p' s'
            else None) prev s).
  { apply Hstep. intros p t Ht.
    destruct ((length t <? length s) || (0 <? lo)) eqn:E; [|reflexivity].
    apply IH.
    - apply orb_true_iff in E. destruct E as [E|E];
        [apply Nat.ltb_lt in E|apply Nat.ltb_lt in E]; lia.
    - apply orb_true_iff in E. destruct E as [E|E];
        [apply Nat.ltb_lt in E|apply Nat.ltb_lt in E]; lia.
    - apply agree_le with (n := length s); assumption. }
  destruct hi as [[|h]|]; [reflexivity| |]; rewrite Hmore; reflexivity.
Qed.

Lemma m_agree r :
  forall k k' prev s, agree (length s) k k' -> m r k prev s = m r k' prev s.
Proof.
  induction r as [|neg cs|r1 IH1 r2 IH2|g lo hi r IH| | |]; intros k k' prev s Hk;
    cbn [m].
  - apply Hk. lia.
  - destruct s as [|c s]; [reflexivity|].
    destruct (xorb neg (in_set cs c)); [|reflexivity]. apply Hk. simpl. lia.
  - apply IH1. intros p t Ht. apply IH2.
    apply agree_le with (n := length s); assumption.
  - apply rep_agree; [exact IH|lia|lia|exact Hk].
  - destruct (xorb _ _); [|reflexivity]. apply Hk. lia.
  - destruct prev; [reflexivity|]. apply Hk. lia.
  - destruct s; [|reflexivity]. apply Hk. simpl. lia.
Qed.

(** With any fuel above the bound a repetition gives what [m] gives: the
    bound [m] passes is enough. *)
Lemma rep_fuel_stable r g lo hi k prev s fuel :
  lo + length s < fuel ->
  rep (m r) fuel g lo hi k prev s = m (Rep g lo hi r) k prev s.
Proof.
  intros H. cbn [m]. apply rep_agree.
  - apply m_agree.
  - exact H.
  - lia.
  - intros p t _. reflexivity.
Qed.

End RegexFacts.

(** ** The matcher does not tell digits apart *)

Module BlindFacts.
Import RegexFacts.

Lemma is_digit_range c : is_digit c = true <-> (ch "0" <= c <= ch "9")%N.
Proof.
  unfold is_digit, in_set, digit_set. simpl existsb.
  rewrite orb_false_r, andb_true_iff, !N.leb_le. reflexivity.
Qed.

Lemma in_set_zero cs c : digit_blind_set cs = true -> in_set cs (zero c) = in_set cs c.
Proof.
  unfold zero. destruct (is_digit c) eqn:Ed; [|reflexivity].
  apply is_digit_range in Ed. intros Hb.
  unfold in_set, digit_blind_set in *.
  induction cs as [|[lo hi] cs IH]; simpl in *; [reflexivity|].
  apply andb_true_iff in Hb. destruct Hb as [Hr Hb].
  rewrite (IH Hb). f_equal.
  apply orb_true_iff in Hr. destruct Hr as [Hr|Hr].
  - apply orb_true_iff in Hr. destruct Hr as [Hr|Hr].
    + apply andb_true_iff in Hr. destruct Hr as [H1 H2].
      apply N.leb_le in H1, H2.
      transitivity true; [|symmetry]; apply andb_true_iff; split; apply N.leb_le; lia.
    + apply N.ltb_lt in Hr.
      transitivity false; [|symmetry]; apply andb_false_iff; left; apply N.leb_gt; lia.
  - apply N.ltb_lt in Hr.
    transitivity false; [|symmetry]; apply andb_false_iff; right; apply N.leb_gt; lia.
Qed.

Lemma is_word_zero c : is_word (zero c) = is_word c.
Proof. apply in_set_zero. reflexivity. Qed.

Lemma word_at_zero o : word_at (option_map zero o) = word_at o.
Proof. destruct o; simpl; [apply is_word_zero|reflexivity]. Qed.

Lemma hd_error_zero s : hd_error (zero_digits s) = option_map zero (hd_error s).
Proof. destruct s; reflexivity. Qed.

Lemma length_zero_digits s : length (zero_digits s) = length s.
Proof. apply length_map. Qed.

Lemma rep_zero (step step' : cont -> cont) :
  (forall k k', blind k k' -> blind (step k) (step' k')) ->
  forall fuel g lo hi k k', blind k k' ->
    blind (rep step fuel g lo hi k) (rep step' fuel g lo hi k').
Proof.
  intros Hstep. induction fuel as [|f IH]; intros g lo hi k k' Hk prev s;
    [reflexivity|].
  simpl. rewrite length_zero_digits.
  assert (Hmore :
    step (fun p' s' =>
            if (length s' <? length s) || (0 <? lo)
            then rep step f g (Nat.pred lo) (option_map Nat.pred hi) k p' s'
            else None) prev s
    = step' (fun p' s' =>
            if (length s' <? length s) || (0 <? lo)
            then rep step' f g (Nat.pred lo) (option_map Nat.pred hi) k' p' s'
            else None) (option_map zero prev) (zero_digits s)).
  { apply Hstep. intros p t. rewrite length_zero_digits.
    destruct ((length t <? length s) || (0 <? lo)); [|reflexivity].
    apply IH. exact Hk. }
  rewrite <- (Hk prev s).
  destruct hi as [[|h]|]; try rewrite Hmore; reflexivity.
Qed.

Lemma m_zero : forall r, digit_blind r = true ->
  forall k k', blind k k' -> blind (m r k) (m r k').
Proof.
  induction r as [|neg cs|r1 IH1 r2 IH2|g lo hi r' IH| | |];
    intros Hb k k' Hk prev s; simpl in *.
  - apply Hk.
  - destruct s as [|c s']; simpl; [reflexivity|].
    rewrite (@in_set_zero cs c Hb).
    destruct (xorb neg (in_set cs c)); [apply (Hk (Some c) s')|reflexivity].
  - apply andb_true_iff in Hb. destruct Hb as [H1 H2].
    apply IH1; [exact H1|]. apply IH2; assumption.
  - rewrite length_zero_digits.
    apply rep_zero; [|exact Hk]. intros k1 k1' Hk1. apply IH; assumption.
  - rewrite hd_error_zero, !word_at_zero.
    destruct (xorb _ _); [apply Hk|reflexivity].
  - destruct prev; simpl; [reflexivity|apply (Hk None s)].
  - destruct s; simpl; [apply (Hk prev [])|reflexivity].
Qed.

Lemma match_at_zero r prev s :
  digit_blind r = true ->
  match_at r prev s = match_at r (option_map zero prev) (zero_digits s).
Proof.
  intros Hb. unfold match_at.
  rewrite <- (@m_zero r Hb done done); [rewrite length_zero_digits; reflexivity|].
  intros p t. unfold done. rewrite length_zero_digits. reflexivity.
Qed.

Lemma plan_zero r : digit_blind r = true ->
  forall s prev skip,
    plan r prev s skip = plan r (option_map zero prev) (zero_digits s) skip.
Proof.
  intros Hb. induction s as [|c s' IH]; intros prev skip.
  - destruct skip; simpl; [|reflexivity].
    rewrite (@match_at_zero r prev [] Hb). reflexivity.
  - destruct skip as [|n]; simpl.
    + rewrite (@match_at_zero r prev (c :: s') Hb). simpl.
      f_equal. destruct (match_at r _ _) as [[|n]|]; apply (IH (Some c)).
    + f_equal. apply (IH (Some c)).
Qed.

Lemma replace_from_follow (St : Type) (cb : jsstring -> St -> jsstring * St) r :
  forall s prev skip st,
    replace_from cb r prev s skip st = follow cb (plan r prev s skip) s st.
Proof.
  induction s as [|c s' IH]; intros prev skip st.
  - destruct skip; simpl; [|reflexivity].
    destruct (match_at r prev []) as [len|]; [|reflexivity].
    destruct (cb (firstn len []) st); reflexivity.
  - destruct skip as [|n]; simpl.
    + destruct (match_at r prev (c :: s')) as [[|n]|].
      * destruct (cb _ st) as [out st1]. rewrite IH. reflexivity.
      * destruct (cb _ st) as [out st1]. rewrite IH. reflexivity.
      * rewrite IH. reflexivity.
    + apply IH.
Qed.

Lemma replace_all_blind (St : Type) (cb : jsstring -> St -> jsstring * St) r s st :
  digit_blind r = true ->
  replace_all cb r s st = follow cb (plan r None (zero_digits s) 0) s st.
Proof.
  intros Hb. unfold replace_all. rewrite replace_from_follow.
  rewrite (@plan_zero r Hb s None 0). reflexivity.
Qed.

(** *** Following a plan *)

Lemma follow_unmatched (St : Type) (cb : jsstring -> St -> jsstring * St) :
  forall decisions s st,
    Forall (fun d => d = Try None) decisions ->
    length s < length decisions ->
    follow cb decisions s st = (s, st).
Proof.
  induction decisions as [|d ds IH]; intros s st Hall Hlen; [simpl in Hlen; lia|].
  inversion Hall as [|x l Hd Hds]; subst. simpl.
  destruct s as [|c s']; [reflexivity|].
  rewrite IH; [reflexivity|exact Hds|simpl in Hlen; lia].
Qed.

Lemma follow_skips (St : Type) (cb : jsstring -> St -> jsstring * St) :
  forall s st, follow cb (repeat Skip (length s) ++ [Try None]) s st = ([], st).
Proof. induction s as [|c s' IH]; intros st; simpl; [reflexivity|apply IH]. Qed.

Lemma follow_whole (St : Type) (cb : jsstring -> St -> jsstring * St) c s st :
  follow cb (Try (Some (S (length s))) :: repeat Skip (length s) ++ [Try None])
    (c :: s) st
  = cb (c :: s) st.
Proof.
  cbn [follow]. rewrite firstn_all2 by (simpl; lia).
  destruct (cb (c :: s) st) as [out st1].
  rewrite follow_skips, app_nil_r. reflexivity.
Qed.

Lemma all_unmatched_spec decisions :
  all_unmatched decisions = true -> Forall (fun d => d = Try None) decisions.
Proof.
  unfold all_unmatched. rewrite forallb_forall, Forall_forall.
  intros H d Hd. specialize (H d Hd). destruct d as [|[n|]]; congruence.
Qed.

(** A regex that finds nothing in the digit-blind image of a string leaves
    the string as it is. *)
Lemma replace_all_unmatched (St : Type) (cb : jsstring -> St -> jsstring * St) r s st :
  digit_blind r = true ->
  all_unmatched (plan r None (zero_digits s) 0) = true ->
  length s < length (plan r None (zero_digits s) 0) ->
  replace_all cb r s st = (s, st).
Proof.
  intros Hb Hall Hlen. rewrite (@replace_all_blind St cb r s st Hb).
  apply follow_unmatched; [apply all_unmatched_spec; exact Hall|exact Hlen].
Qed.

(** A regex whose only match in the digit-blind image is the whole string
    hands the whole string to the callback. *)
Lemma replace_all_whole (St : Type) (cb : jsstring -> St -> jsstring * St) r s st :
  digit_blind r = true ->
  0 < length s ->
  plan r None (zero_digits s) 0
  = Try (Some (length s)) :: repeat Skip (length s - 1) ++ [Try None] ->
  replace_all cb r s st = cb s st.
Proof.
  intros Hb Hs Hp. rewrite (@replace_all_blind St cb r s st Hb), Hp.
  destruct s as [|c s']; [simpl in Hs; lia|].
  simpl length. rewrite Nat.sub_succ, Nat.sub_0_r. apply follow_whole.
Qed.


End BlindFacts.

(** ** The pipeline (lib/toolWrapper.ts) *)

Module ToolWrapperFacts.
Import AuditLogger RedactionEquations.

(** *** The message of a caught fault *)

(** Reading [error.response] of [undefined] or [null] throws inside the
    [catch] block. *)
Lemma errorMessage_of_nullish fault :
  nullish fault = true ->
  errorMessage_of fault
  = Throw (mkError (js "Cannot read properties of undefined")).
Proof. destruct fault; simpl; intros H; try discriminate; reflexivity. Qed.

Lemma get_prop_not_nullish v k :
  nullish v = false -> get_prop v k = Ok (get_opt v k).
Proof.
  unfold get_opt. destruct v; simpl; intros H; try discriminate; reflexivity.
Qed.

(** For every other fault the message is chosen in the priority order
    reason, backend message, fault message, fixed text; a candidate counts
    when it is truthy. *)
Lemma errorMessage_of_priority fault :
  nullish fault = false ->
  errorMessage_of fault = Ok (message_for fault).
Proof.
  intros H. unfold errorMessage_of, message_for, backend_reason,
    backend_message, fault_message, js_or.
  rewrite !(@get_prop_not_nullish fault _ H).
  destruct (truthy _); [reflexivity|].
  destruct (truthy _); reflexivity.
Qed.

Lemma message_for_truthy fault : truthy (message_for fault) = true.
Proof.
  unfold message_for, js_or.
  destruct (truthy (backend_reason fault)) eqn:E1; [exact E1|].
  destruct (truthy (backend_message fault)) eqn:E2; [exact E2|].
  destruct (truthy (fault_message fault)) eqn:E3; [exact E3|reflexivity].
Qed.

(** *** Redaction keeps the tag *)

Lemma redactString_success :
  redactString (js "success") [] = (js "success", (0, [])).
Proof. vm_compute. reflexivity. Qed.

Lemma redacted_success_is_success data total aggregations :
  exists props,
    redactedData (redactPII (toJS (success data total aggregations))) = JObj props /\
    lookup (js "type") props = Some (JStr (js "success")).
Proof.
  unfold redactPII, toJS. rewrite redactRecursive_obj.
  cbn [app redact_entries]. rewrite redactRecursive_str, redactString_success.
  cbn iota beta.
  destruct (redactRecursive data []) as [[r c] t1].
  destruct total as [vt|], aggregations as [va|]; cbn [optional app redact_entries];
    repeat match goal with
           | |- context [redactRecursive ?v ?t] =>
               destruct (redactRecursive v t) as [[? ?] ?]
           end;
    eexists; split; reflexivity.
Qed.

(** The final result of the redaction step is a well-formed Outcome with
    the tag of the result it was made from. *)
Lemma redaction_step_tag config result :
  let final := fst (fst (redaction_step config result)) in
  dismatch final (fun _ => (success_status, JUndefined))
    (fun r => (error_status, get_opt r (js "error")))
  = Ok match result with
       | success _ _ _ => (success_status, JUndefined)
       | error e => (error_status, e)
       end.
Proof.
  destruct result as [d t a|e]; unfold redaction_step.
  - destruct (piiRedactionEnabled config); cbv beta iota zeta delta [negb fst].
    + destruct (redacted_success_is_success d t a) as (props & -> & Hl).
      unfold dismatch, get_prop. rewrite Hl. reflexivity.
    + reflexivity.
  - reflexivity.
Qed.

(** With redaction off, or for a Failure, nothing is counted. *)
Lemma redaction_step_counts config result :
  piiRedactionEnabled config = false \/ (exists e, result = error e) ->
  redaction_step config result = (toJS result, 0, []).
Proof.
  intros [H|[e ->]]; [|reflexivity].
  destruct result; unfold redaction_step; [rewrite H|]; reflexivity.
Qed.

(** With redaction on, the final result of a Success is the redacted copy
    and the counts are the engine's. *)
Lemma redaction_step_success config data total aggregations :
  piiRedactionEnabled config = true ->
  redaction_step config (success data total aggregations)
  = (redactedData (redactPII (toJS (success data total aggregations))),
     redactionCount (redactPII (toJS (success data total aggregations))),
     redactedTypes (redactPII (toJS (success data total aggregations)))).
Proof. intros H. unfold redaction_step. rewrite H. reflexivity. Qed.

(** *** One invocation *)

Section Invocation.
Variable JSON_stringify : value -> jsstring.
Variable config : ServerConfig.
Variables (id : jsstring) (input : value) (logic : M ToolResult).

(** The second half of [execute] never throws: it returns the final result
    of the redaction step and hands [log] the one entry it builds. *)
Lemma redact_audit_return_result startTime result w1 :
  exists w',
    redact_audit_return JSON_stringify config id input startTime result w1
    = (Ok (fst (fst (redaction_step config result))), w') /\
    stderr w'
    = log (auditEnabled config)
        {| timestamp := clock w1 (S (clock_reads w1));
           tool_called := id;
           input_parameters := JSON_stringify input;
           output_size_bytes :=
             length (JSON_stringify (fst (fst (redaction_step config result))));
           redaction_count := snd (fst (redaction_step config result));
           redacted_types := snd (redaction_step config result);
           execution_time_ms := (clock w1 (clock_reads w1) - startTime)%Z;
           status := match result with
                     | success _ _ _ => success_status
                     | error _ => error_status
                     end;
           error_message := match result with
                            | success _ _ _ => JUndefined
                            | error e => e
                            end |} (stderr w1) /\
    http_log w' = http_log w1 /\ sleeps w' = sleeps w1 /\
    backend w' = backend w1.
Proof.
  pose proof (redaction_step_tag config result) as Ht. cbv zeta in Ht.
  unfold redact_audit_return.
  destruct (redaction_step config result) as [[final count] types].
  simpl fst in *. simpl snd.
  unfold bind, now, lift, write_stderr, ret. rewrite Ht.
  eexists. split; [reflexivity|]. simpl. repeat split.
  destruct result; reflexivity.
Qed.

Lemma execute_unfold w :
  execute JSON_stringify config id input logic w
  = match logic (snd (now w)) with
    | (ended, w1) =>
        match normalised ended with
        | Ok result =>
            redact_audit_return JSON_stringify config id input
              (clock w (clock_reads w)) result w1
        | Throw e => (Throw e, w1)
        end
    end.
Proof.
  unfold execute, bind, try_catch, now. cbn [snd].
  destruct (logic _) as [[r|fault] w1]; [reflexivity|].
  unfold normalised, lift, ret.
  destruct (errorMessage_of fault); reflexivity.
Qed.

(** When the logic returns, or throws anything but [undefined] and [null],
    the invocation returns the final result of the redaction step, and
    standard error receives what [log] makes of the one entry built. *)
Lemma execute_returns w ended w1 result :
  logic (snd (now w)) = (ended, w1) ->
  normalised ended = Ok result ->
  exists w',
    execute JSON_stringify config id input logic w
    = (Ok (fst (fst (redaction_step config result))), w') /\
    stderr w' = log (auditEnabled config) (entry_of JSON_stringify config id input w w1 result) (stderr w1) /\
    http_log w' = http_log w1 /\ sleeps w' = sleeps w1.
Proof.
  intros Hl Hn. rewrite execute_unfold, Hl, Hn.
  destruct (redact_audit_return_result (clock w (clock_reads w)) result w1)
    as (w' & He & Hs & Hh & Hz & _).
  exists w'. repeat split; assumption.
Qed.

(** In that case exactly one entry is emitted when auditing is on and none
    when it is off. *)
Lemma execute_emits_one_entry w ended w1 result :
  logic (snd (now w)) = (ended, w1) ->
  normalised ended = Ok result ->
  exists w',
    execute JSON_stringify config id input logic w
    = (Ok (fst (fst (redaction_step config result))), w') /\
    outcome_tag (fst (fst (redaction_step config result)))
    = Some (status (entry_of JSON_stringify config id input w w1 result)) /\
    stderr w'
    = if auditEnabled config
      then stderr w1 ++ [sanitize (entry_of JSON_stringify config id input w w1 result)]
      else stderr w1.
Proof.
  intros Hl Hn.
  destruct (execute_returns Hl Hn) as (w' & He & Hs & _).
  exists w'. split; [exact He|]. split.
  - pose proof (redaction_step_tag config result) as Ht. cbv zeta in Ht.
    unfold outcome_tag, dismatch in *.
    destruct (get_prop _ _) as [[| | | |t| | |]|]; try discriminate.
    destruct (str_eqb t (js "success")).
    + destruct result; simpl; first [reflexivity | congruence].
    + destruct (str_eqb t (js "error")); [|discriminate].
      destruct result; simpl; first [reflexivity | congruence].
  - rewrite Hs. unfold log. destruct (auditEnabled config); reflexivity.
Qed.

(** When the logic throws [undefined] or [null], the [catch] block throws
    in its turn: the invocation ends with an uncaught TypeError, and
    nothing is written to standard error. *)
Lemma execute_nullish_fault w fault w1 :
  logic (snd (now w)) = (Throw fault, w1) ->
  nullish fault = true ->
  execute JSON_stringify config id input logic w
  = (Throw (mkError (js "Cannot read properties of undefined")), w1).
Proof.
  intros Hl Hn. rewrite execute_unfold, Hl. unfold normalised.
  rewrite (errorMessage_of_nullish _ Hn). reflexivity.
Qed.

End Invocation.

(** *** The two claims on a run with [RETRY_ATTEMPTS=0] *)

(** With no attempt allowed, the search makes no call and throws
    [undefined]; so does the example tool. *)
Lemma example_logic_throws_undefined config query w :
  allowedIndexPatterns config = [] ->
  (retryAttempts config <= 0)%Z ->
  example_logic config query w = (Throw JUndefined, w).
Proof.
  intros Ha Hr. unfold example_logic, search, bind at 1.
  unfold bind at 1, lift, validateIndex. rewrite Ha.
  change (validateIndexName (js "logs-*")) with (Ok tt). simpl length. simpl Nat.ltb.
  cbv iota. rewrite (RetryFacts.withRetry_no_attempt config _ w Hr). reflexivity.
Qed.

(** C3 on the example tool with [RETRY_ATTEMPTS=0]: the search throws
    [undefined], the [catch] block of the wrapper fails on
    [error.response], and the caller receives an uncaught TypeError in
    place of a Failure Outcome; no backend call was made. *)
Theorem execute_undefined_fault_uncaught
    (JSON_stringify : value -> jsstring) (id : jsstring) (input query : value)
    (backend : nat -> Request -> HttpOutcome value) :
  exists w',
    execute JSON_stringify no_retry_config id input
      (example_logic no_retry_config query) (fresh backend)
    = (Throw (mkError (js "Cannot read properties of undefined")), w') /\
    http_log w' = [].
Proof.
  eexists. split.
  - apply execute_nullish_fault with (fault := JUndefined); [|reflexivity].
    apply example_logic_throws_undefined; [reflexivity | simpl; lia].
  - reflexivity.
Qed.

(** C4 on the same run: auditing is on, and the invocation ends without
    any entry on standard error. *)
Theorem execute_undefined_fault_unaudited
    (JSON_stringify : value -> jsstring) (id : jsstring) (input query : value)
    (backend : nat -> Request -> HttpOutcome value) :
  auditEnabled no_retry_config = true /\
  stderr (snd (execute JSON_stringify no_retry_config id input
                 (example_logic no_retry_config query) (fresh backend)))
  = [].
Proof.
  split; [reflexivity|].
  rewrite (@execute_nullish_fault JSON_stringify no_retry_config id input
             (example_logic no_retry_config query) (fresh backend) JUndefined
             (snd (now (fresh backend)))).
  - reflexivity.
  - apply example_logic_throws_undefined; [reflexivity | simpl; lia].
  - reflexivity.
Qed.

(** The same tool against a backend that answers 500 with the default
    configuration: the fault is an object, the Outcome is a Failure with
    its message, and one entry with status [error] is written. *)
Lemma execute_example_status_500 (JSON_stringify : value -> jsstring) :
  let run :=
    execute JSON_stringify default_config (js "example") (JObj [])
      (example_logic default_config (JObj [(js "match_all", JObj [])]))
      (fresh always_500) in
  fst run = Ok (toJS (error (JStr (js "Request failed")))) /\
  map status (stderr (snd run)) = [error_status] /\
  map error_message (stderr (snd run)) = [JStr (js "Request failed")] /\
  map redaction_count (stderr (snd run)) = [0] /\
  map redacted_types (stderr (snd run)) = [[]].
Proof. repeat split. Qed.

End ToolWrapperFacts.
(** ** Index patterns (lib/esClient.ts: globMatch) *)

Module GlobFacts.

(** *** Character sets *)

Lemma in_set_cons r cs c :
  in_set (r :: cs) c = (N.leb (fst r) c && N.leb c (snd r)) || in_set cs c.
Proof. reflexivity. Qed.

Lemma in_set_app cs cs' c : in_set (cs ++ cs') c = in_set cs c || in_set cs' c.
Proof. unfold in_set. apply existsb_app. Qed.

Lemma in_set_single a c : in_set [(a, a)] c = N.eqb c a.
Proof.
  unfold in_set. simpl. rewrite orb_false_r.
  destruct (N.eqb_spec c a) as [->|Hn].
  - rewrite N.leb_refl. reflexivity.
  - destruct (N.leb_spec a c), (N.leb_spec c a); simpl; try reflexivity. lia.
Qed.

Lemma in_set_false cs c a :
  in_set cs c = false -> In (a, a) cs -> N.eqb c a = false.
Proof.
  unfold in_set. intros H Hin.
  destruct (N.eqb_spec c a) as [->|]; [|reflexivity].
  assert (E : existsb (fun r => N.leb (fst r) a && N.leb a (snd r)) cs = true).
  { apply existsb_exists. exists (a, a). split; [exact Hin|].
    simpl. rewrite N.leb_refl. reflexivity. }
  congruence.
Qed.

Lemma special_is_syntax c : in_set special_set c = true -> in_set syntax_set c = true.
Proof. intros H. unfold syntax_set. rewrite in_set_app, H. reflexivity. Qed.

Lemma special_not_star c : in_set special_set c = true -> N.eqb c (ch "*") = false.
Proof.
  intros H. destruct (N.eqb_spec c (ch "*")) as [->|]; [|reflexivity].
  discriminate H.
Qed.

(** *** What [new RegExp] reads in the source of a pattern *)

(** An escaped syntax character stands for itself. *)
Lemma parse_escaped e rest acc last :
  in_set syntax_set e = true ->
  parse (ch "\" :: e :: rest) acc last = parse rest (Cls false [(e, e)] :: acc) Atom.
Proof.
  intros H.
  change (parse (ch "\" :: e :: rest) acc last)
    with (if in_set syntax_set e
          then parse rest (Cls false [(e, e)] :: acc) Atom else Unsupported).
  rewrite H. reflexivity.
Qed.

(** [.*] is a greedy run of characters other than line terminators. *)
Lemma parse_dot_star rest acc last :
  parse (ch "." :: ch "*" :: rest) acc last
  = parse rest (Rep true 0 None (Cls true line_terminators) :: acc) Quantified.
Proof. reflexivity. Qed.

(** A character without a meaning of its own stands for itself. *)
Lemma parse_literal c rest acc last :
  in_set special_set c = false -> N.eqb c (ch "*") = false ->
  N.eqb c (ch "?") = false ->
  parse (c :: rest) acc last = parse rest (Cls false [(c, c)] :: acc) Atom.
Proof.
  intros Hs Hstar Hq. cbn [parse].
  rewrite (@in_set_false special_set c (ch "\") Hs) by (simpl; tauto).
  rewrite (@in_set_false special_set c (ch "^") Hs) by (simpl; tauto).
  rewrite (@in_set_false special_set c (ch "$") Hs) by (simpl; tauto).
  rewrite (@in_set_false special_set c (ch ".") Hs) by (simpl; tauto).
  rewrite Hstar, Hq, Hs. reflexivity.
Qed.

(** The closing [$] ends the pattern. *)
Lemma parse_dollar acc last : parse (js "$") acc last = Pattern (seq (rev acc ++ [Eol])).
Proof. reflexivity. Qed.

(** The source of one pattern character. *)
Lemma glob_source_cons c p :
  stars_to_dotstar (escape_specials (c :: p))
  = (if in_set special_set c then [ch "\"; c]
     else if N.eqb c (ch "*") then js ".*" else [c])
    ++ stars_to_dotstar (escape_specials p).
Proof.
  unfold stars_to_dotstar, escape_specials. cbn [flat_map].
  rewrite flat_map_app. f_equal.
  destruct (in_set special_set c) eqn:E.
  - cbn [flat_map]. rewrite (special_not_star _ E). reflexivity.
  - cbn [flat_map]. rewrite app_nil_r. reflexivity.
Qed.

(** A pattern without [?] compiles term by term. *)
Lemma parse_glob p :
  ~ In (ch "?") p ->
  forall acc last,
    parse (stars_to_dotstar (escape_specials p) ++ js "$") acc last
    = Pattern (seq (rev acc ++ map glob_term p ++ [Eol])).
Proof.
  induction p as [|c p IH]; intros Hq acc last.
  - apply parse_dollar.
  - assert (Hc : N.eqb c (ch "?") = false).
    { destruct (N.eqb_spec c (ch "?")) as [->|]; [|reflexivity].
      exfalso. apply Hq. left. reflexivity. }
    assert (Hp : ~ In (ch "?") p) by (intros H; apply Hq; right; exact H).
    rewrite glob_source_cons.
    destruct (in_set special_set c) eqn:Es.
    + cbn [app]. rewrite parse_escaped by (apply special_is_syntax; exact Es).
      rewrite IH by exact Hp. cbn [rev map]. unfold glob_term at 2.
      rewrite (special_not_star _ Es). rewrite <- app_assoc. reflexivity.
    + destruct (N.eqb c (ch "*")) eqn:Estar.
      * cbn [app js]. 
        change (js ".*") with [ch "."; ch "*"]. cbn [app].
        rewrite parse_dot_star, IH by exact Hp.
        cbn [rev map]. unfold glob_term at 2. rewrite Estar.
        rewrite <- app_assoc. reflexivity.
      * cbn [app]. rewrite parse_literal by assumption.
        rewrite IH by exact Hp. cbn [rev map]. unfold glob_term at 2.
        rewrite Estar, <- app_assoc. reflexivity.
Qed.

(** No pattern compiles to syntax outside the parser's reach. *)
Lemma parse_glob_supported p :
  forall acc last,
    parse (stars_to_dotstar (escape_specials p) ++ js "$") acc last <> Unsupported.
Proof.
  induction p as [|c p IH]; intros acc last.
  - rewrite parse_dollar. discriminate.
  - rewrite glob_source_cons.
    destruct (in_set special_set c) eqn:Es.
    + cbn [app]. rewrite parse_escaped by (apply special_is_syntax; exact Es).
      apply IH.
    + destruct (N.eqb c (ch "*")) eqn:Estar.
      * change (js ".*") with [ch "."; ch "*"]. cbn [app].
        rewrite parse_dot_star. apply IH.
      * destruct (N.eqb c (ch "?")) eqn:Eq.
        -- apply N.eqb_eq in Eq. subst c. cbn [app].
           change (parse (ch "?" :: stars_to_dotstar (escape_specials p) ++ js "$") acc last)
             with (match last, acc with
                   | Atom, t :: acc' =>
                       parse (stars_to_dotstar (escape_specials p) ++ js "$")
                         (Rep true 0 (Some 1) t :: acc') Quantified
                   | Quantified, Rep _ lo hi t :: acc' =>
                       parse (stars_to_dotstar (escape_specials p) ++ js "$")
                         (Rep false lo hi t :: acc') LazyQuantified
                   | _, _ => SyntaxError
                   end).
           destruct last; try discriminate; destruct acc as [|t acc'];
             try discriminate; try apply IH.
           destruct t; try discriminate; apply IH.
        -- cbn [app]. rewrite parse_literal by assumption. apply IH.
Qed.

Lemma globMatch_supported p :
  RegExp_new (glob_source p) <> Unsupported.
Proof.
  unfold RegExp_new, glob_source. change (js "^") with [ch "^"]. cbn [app].
  change (parse (ch "^" :: stars_to_dotstar (escape_specials p) ++ js "$") [] NoTerm)
    with (parse (stars_to_dotstar (escape_specials p) ++ js "$") [Bol] Assertion).
  apply parse_glob_supported.
Qed.

(** *** Matching the compiled pattern *)

Lemma m_seq_cons r rs k prev s :
  m (seq (r :: rs)) k prev s = m r (m (seq rs) k) prev s.
Proof. destruct rs; reflexivity. Qed.

(** A pattern that opens with [^] matches at the start of the text only. *)
Lemma test_from_anchored rs s :
  forall c, test_from (seq (Bol :: rs)) (Some c) s = false.
Proof.
  induction s as [|x s IH]; intros c; cbn [test_from]; unfold match_at;
    rewrite m_seq_cons; cbn [m]; [reflexivity|apply IH].
Qed.

Lemma test_anchored rs s :
  test (seq (Bol :: rs)) s = is_match (m (seq rs) done None s).
Proof.
  unfold test. destruct s as [|x s]; cbn [test_from]; unfold match_at;
    rewrite m_seq_cons; cbn [m];
    destruct (m (seq rs) done None _); try reflexivity.
  apply test_from_anchored.
Qed.

(** [.*] before a continuation. *)
Lemma rep_dot_star (k : cont) (f : jsstring -> bool) :
  (forall p t, is_match (k p t) = f t) ->
  forall s fuel prev,
    length s < fuel ->
    is_match (rep (m (Cls true line_terminators)) fuel true 0 None k prev s)
    = (fix run (v : jsstring) : bool :=
         f v || match v with
                | x :: v' => negb (in_set line_terminators x) && run v'
                | [] => false
                end) s.
Proof.
  intros Hk. induction s as [|x s IH]; intros fuel prev Hf.
  - destruct fuel as [|fuel]; [simpl in Hf; lia|].
    cbn [rep m Nat.eqb]. rewrite Hk, orb_false_r. reflexivity.
  - destruct fuel as [|fuel]; [simpl in Hf; lia|].
    cbn [rep m Nat.eqb option_map pred].
    replace (length s <? length (x :: s)) with true
      by (symmetry; apply Nat.ltb_lt; simpl; lia).
    cbn [orb xorb].
    destruct (in_set line_terminators x); cbn [negb andb xorb].
    + rewrite Hk, orb_false_r. reflexivity.
    + specialize (IH fuel (Some x)). rewrite <- IH by (simpl in Hf; lia).
      destruct (rep _ fuel true 0 None k (Some x) s); cbn [is_match].
      * rewrite orb_true_r. reflexivity.
      * rewrite Hk, orb_false_r. reflexivity.
Qed.

(** The compiled terms, up to the closing [$], decide the wildcard match. *)
Lemma m_glob_terms p :
  forall prev v, is_match (m (seq (map glob_term p ++ [Eol])) done prev v) = wildcard p v.
Proof.
  induction p as [|c p IH]; intros prev v.
  - destruct v; reflexivity.
  - cbn [map app]. rewrite m_seq_cons. cbn [wildcard]. unfold glob_term at 1.
    destruct (N.eqb c (ch "*")) eqn:E.
    + cbn [m]. apply rep_dot_star; [exact IH|simpl; lia].
    + destruct v as [|x v]; cbn [m]; [reflexivity|].
      cbn [xorb]. rewrite in_set_single.
      destruct (N.eqb x c); cbn [andb]; [apply IH|reflexivity].
Qed.

(** [globMatch] is the wildcard match of its pattern. *)
Lemma globMatch_wildcard p v :
  ~ In (ch "?") p -> globMatch p v = Ok (wildcard p v).
Proof.
  intros Hq. unfold globMatch, RegExp_new, glob_source.
  change (js "^") with [ch "^"]. cbn [app].
  change (parse (ch "^" :: stars_to_dotstar (escape_specials p) ++ js "$") [] NoTerm)
    with (parse (stars_to_dotstar (escape_specials p) ++ js "$") [Bol] Assertion).
  rewrite parse_glob by exact Hq. cbn [rev app].
  rewrite test_anchored, m_glob_terms. reflexivity.
Qed.

(** X22: for patterns without [?], the allow-list test
    [patterns.some((p) => globMatch(p, index))] holds exactly when some
    pattern matches the whole name as a wildcard: [*] stands for any run
    of characters other than line terminators, every other character for
    itself, so that case matters. *)
Lemma some_globMatch_wildcard patterns index :
  Forall (fun p => ~ In (ch "?") p) patterns ->
  some_globMatch patterns index = Ok (existsb (fun p => wildcard p index) patterns).
Proof.
  induction 1 as [|p ps Hp _ IH]; [reflexivity|].
  cbn [some_globMatch existsb]. rewrite globMatch_wildcard by exact Hp.
  destruct (wildcard p index); [reflexivity|exact IH].
Qed.

Lemma some_globMatch_wildcard_witness :
  some_globMatch [js "logs-*"; js "transactions-*"] (js "transactions-2024")
  = Ok true /\
  some_globMatch [js "logs-*"; js "transactions-*"] (js "Logs-2024") = Ok false.
Proof.
  split.
  - rewrite (@some_globMatch_wildcard [js "logs-*"; js "transactions-*"]
               (js "transactions-2024")); [reflexivity|].
    repeat (apply Forall_cons || apply Forall_nil);
      intros H; repeat (destruct H as [H|H]; [discriminate H|]); exact H.
  - rewrite (@some_globMatch_wildcard [js "logs-*"; js "transactions-*"]
               (js "Logs-2024")); [reflexivity|].
    repeat (apply Forall_cons || apply Forall_nil);
      intros H; repeat (destruct H as [H|H]; [discriminate H|]); exact H.
Defined.

(** The match is anchored at both ends and tells upper case from lower; a
    dot stands for itself; a pattern that is a lone [?] is no regular
    expression. *)
Example globMatch_examples :
  globMatch (js "logs-*") (js "logs-2024.01") = Ok true /\
  globMatch (js "logs-*") (js "Logs-2024.01") = Ok false /\
  globMatch (js "logs-*") (js "metrics-logs-1") = Ok false /\
  globMatch (js "a.b") (js "axb") = Ok false /\
  globMatch (js "?") (js "x") = Throw (mkError (js "Invalid regular expression")).
Proof. repeat split; reflexivity. Qed.

End GlobFacts.

(** ** Index names (lib/inputSanitizer.ts) *)

Module IndexNameFacts.
Import GlobFacts.

Lemma m_class_cons cs k prev x s :
  m (Cls false cs) k prev (x :: s) = if in_set cs x then k (Some x) s else None.
Proof. reflexivity. Qed.

(** A greedy run of one class up to the end of the text. *)
Lemma rep_class_to_end cs :
  forall s fuel lo prev,
    lo + length s < fuel ->
    is_match (rep (m (Cls false cs)) fuel true lo None (m Eol done) prev s)
    = forallb (in_set cs) s && (lo <=? length s).
Proof.
  induction s as [|x s IH]; intros fuel lo prev Hf.
  - destruct fuel as [|fuel]; [lia|]. cbn [rep forallb length andb].
    change (m (Cls false cs) _ prev []) with (@None nat).
    change (m Eol done prev []) with (Some 0).
    destruct lo; reflexivity.
  - destruct fuel as [|fuel]; [simpl in Hf; lia|].
    cbn [rep forallb option_map]. rewrite m_class_cons.
    change (m Eol done prev (x :: s)) with (@None nat).
    replace (length s <? length (x :: s)) with true
      by (symmetry; apply Nat.ltb_lt; simpl; lia).
    cbn [orb]. destruct (in_set cs x); cbn [andb].
    + specialize (IH fuel (pred lo) (Some x)).
      assert (E : (lo <=? length (x :: s)) = (pred lo <=? length s)).
      { cbn [length]. destruct lo; [reflexivity|]. reflexivity. }
      rewrite E, <- IH by (simpl in Hf; lia).
      destruct (rep (m (Cls false cs)) fuel true (pred lo) None (m Eol done) (Some x) s);
        [reflexivity|].
      destruct (lo =? 0); reflexivity.
    + destruct (lo =? 0); reflexivity.
Qed.

Lemma test_INDEX_NAME_REGEX index :
  test INDEX_NAME_REGEX index = index_name_ok index.
Proof.
  unfold INDEX_NAME_REGEX. rewrite test_anchored.
  change (seq [at_least 1 (Cls false index_name_set); Eol])
    with (Seq (Rep true 1 None (Cls false index_name_set)) Eol).
  change (m (Seq (Rep true 1 None (Cls false index_name_set)) Eol) done None index)
    with (rep (m (Cls false index_name_set)) (1 + length index + 1) true 1 None
            (m Eol done) None index).
  rewrite rep_class_to_end by lia.
  destruct index as [|c s]; [reflexivity|].
  cbn [index_name_ok length]. change (1 <=? S (length s)) with true.
  apply andb_true_r.
Qed.

(** X5: [validateIndexName] accepts exactly the non-empty names made of
    letters, digits and [-], [.], [*], [,], [_]; any other name is rejected
    with the message that quotes it. *)
Theorem validateIndexName_accepts (index : jsstring) :
  validateIndexName index
  = if index_name_ok index then Ok tt
    else Throw (mkError (invalid_index_message index)).
Proof.
  unfold validateIndexName. rewrite test_INDEX_NAME_REGEX.
  destruct index as [|c s]; [reflexivity|].
  cbn [truthy negb orb]. destruct (index_name_ok (c :: s)); reflexivity.
Qed.

End IndexNameFacts.

(** ** Access scope (lib/esClient.ts, tools/listIndices.ts, tools/discoverCluster.ts) *)

Module AccessFacts.
Import ListIndices GlobFacts IndexNameFacts.

(** *** The wrapper's traffic *)

(** Whatever the outcome, the calls [withRetry] makes are repetitions of
    the one request; a result needs at least one of them. *)
Lemma withRetry_loop_log config req :
  forall n attempt before w r w',
    withRetry_loop config (http req) n attempt before w = (r, w') ->
    exists k,
      http_log w' = http_log w ++ repeat req k /\
      backend w' = backend w /\ stderr w' = stderr w /\
      (forall t, r = Ok t -> 1 <= k).
Proof.
  induction n as [|n IH]; intros attempt before w r w' H.
  - simpl in H. injection H as <- <-. exists 0. rewrite app_nil_r.
    repeat split. intros t Ht. discriminate.
  - rewrite RetryFacts.withRetry_loop_step in H.
    change (http req w) with (backend w (length (http_log w)) req, snd (http req w)) in H.
    destruct (backend w (length (http_log w)) req) as [t|e].
    + injection H as <- <-. exists 1. repeat split. intros; lia.
    + destruct (client_error e).
      * injection H as <- <-. exists 1. repeat split. intros t Ht. discriminate.
      * apply IH in H. destruct H as (k & Hl & Hb & Hs & Hk).
        exists (S k). split; [|split; [|split]].
        -- rewrite Hl.
           destruct (attempt <? retryAttempts config - 1)%Z; simpl;
             rewrite <- app_assoc; reflexivity.
        -- rewrite Hb. destruct (attempt <? retryAttempts config - 1)%Z; reflexivity.
        -- rewrite Hs. destruct (attempt <? retryAttempts config - 1)%Z; reflexivity.
        -- intros; lia.
Qed.

Lemma withRetry_log config req w r w' :
  withRetry config (http req) w = (r, w') ->
  exists k,
    http_log w' = http_log w ++ repeat req k /\
    backend w' = backend w /\ stderr w' = stderr w /\
    (forall t, r = Ok t -> 1 <= k).
Proof. apply withRetry_loop_log. Qed.

(** What [withRetry] returns is the backend's answer to its last call. *)
Lemma withRetry_loop_answer config req :
  forall n attempt before w t w',
    withRetry_loop config (http req) n attempt before w = (Ok t, w') ->
    exists k,
      http_log w' = http_log w ++ repeat req k /\ answered w req k t.
Proof.
  induction n as [|n IH]; intros attempt before w t w' H; [discriminate|].
  rewrite RetryFacts.withRetry_loop_step in H.
  change (http req w) with (backend w (length (http_log w)) req, snd (http req w)) in H.
  destruct (backend w (length (http_log w)) req) as [t0|e] eqn:Eb.
  - injection H as <- <-. exists 1. split; [reflexivity|].
    split; [lia|]. rewrite Nat.add_0_r. exact Eb.
  - destruct (client_error e); [discriminate|].
    apply IH in H. destruct H as (k & Hl & Hk1 & Hk2).
    exists (S k). split.
    + rewrite Hl.
      destruct (attempt <? retryAttempts config - 1)%Z; simpl;
        rewrite <- app_assoc; reflexivity.
    + split; [lia|].
      replace (length (http_log w) + (S k - 1))
        with (length (http_log w ++ [req]) + (k - 1))
        by (rewrite length_app; simpl; lia).
      destruct (attempt <? retryAttempts config - 1)%Z; exact Hk2.
Qed.

Lemma withRetry_answer config req w t w' :
  withRetry config (http req) w = (Ok t, w') ->
  exists k, http_log w' = http_log w ++ repeat req k /\ answered w req k t.
Proof. apply withRetry_loop_answer. Qed.

(** *** The two readings of a pattern *)

(** What the code matches, the specification's reading matches as well. *)
Lemma wildcard_claimed p : forall v, wildcard p v = true -> claimed_glob p v = true.
Proof.
  induction p as [|c p IH]; intros v; [trivial|].
  cbn [wildcard claimed_glob]. destruct (N.eqb c (ch "*")).
  - induction v as [|x v IHv]; intros H.
    + rewrite orb_false_r in *. apply IH. exact H.
    + apply orb_true_iff in H. apply orb_true_iff. destruct H as [H|H].
      * left. apply IH. exact H.
      * right. apply andb_true_iff in H. apply IHv. apply H.
  - destruct v as [|x v]; [trivial|]. intros H.
    apply andb_true_iff in H. destruct H as [-> H]. apply IH. exact H.
Qed.

(** On one line of text the two readings are one. *)
Lemma claimed_wildcard p :
  forall v, Forall (fun c => in_set line_terminators c = false) v ->
            wildcard p v = claimed_glob p v.
Proof.
  induction p as [|c p IH]; intros v Hv; [reflexivity|].
  cbn [wildcard claimed_glob]. destruct (N.eqb c (ch "*")).
  - induction Hv as [|x v Hx Hv IHv].
    + rewrite (IH [] (Forall_nil _)). reflexivity.
    + rewrite (IH (x :: v) (Forall_cons _ Hx Hv)), Hx. cbn [negb andb].
      rewrite IHv. reflexivity.
  - destruct Hv as [|x v Hx Hv]; [reflexivity|]. rewrite (IH v Hv). reflexivity.
Qed.

Lemma index_name_on_one_line c :
  in_set index_name_set c = true -> in_set line_terminators c = false.
Proof.
  intros H. destruct (in_set line_terminators c) eqn:E; [|reflexivity].
  exfalso. unfold in_set, line_terminators in E. cbn [existsb fst snd] in E.
  rewrite !orb_true_iff, !andb_true_iff, !N.leb_le in E.
  assert (C : c = 10%N \/ c = 13%N \/ c = 8232%N \/ c = 8233%N) by lia.
  destruct C as [-> | [-> | [-> | ->]]]; discriminate H.
Qed.

Lemma valid_name_on_one_line index :
  validateIndexName index = Ok tt ->
  Forall (fun c => in_set line_terminators c = false) index.
Proof.
  unfold validateIndexName. rewrite test_INDEX_NAME_REGEX.
  destruct index as [|c s]; [constructor|].
  cbn [truthy negb orb]. destruct (index_name_ok (c :: s)) eqn:E; [|discriminate].
  intros _. unfold index_name_ok in E. rewrite forallb_forall in E.
  apply Forall_forall. intros x Hx. apply index_name_on_one_line. apply E. exact Hx.
Qed.

(** *** [validateIndex] *)

(** The allow-list test, for patterns without a question mark. *)
Lemma some_globMatch_plain patterns index :
  no_question_mark patterns ->
  some_globMatch patterns index = Ok (existsb (fun p => wildcard p index) patterns).
Proof.
  induction 1 as [|p ps Hp _ IH]; [reflexivity|].
  cbn [some_globMatch existsb]. rewrite globMatch_wildcard by exact Hp.
  destruct (wildcard p index); [reflexivity|exact IH].
Qed.

Lemma in_scope_wildcard patterns index :
  existsb (fun p => wildcard p index) patterns = true -> in_scope patterns index.
Proof.
  intros H. apply existsb_exists in H. destruct H as (p & Hp & Hm).
  exists p. split; [exact Hp|apply wildcard_claimed; exact Hm].
Qed.

Lemma wildcard_in_scope patterns index :
  Forall (fun c => in_set line_terminators c = false) index ->
  in_scope patterns index ->
  existsb (fun p => wildcard p index) patterns = true.
Proof.
  intros Hl (p & Hp & Hm). apply existsb_exists. exists p.
  split; [exact Hp|]. rewrite claimed_wildcard by exact Hl. exact Hm.
Qed.

(** A name outside a non-empty allow-list is rejected by [validateIndex]. *)
Lemma validateIndex_out_of_scope config index :
  no_question_mark (allowedIndexPatterns config) ->
  allowedIndexPatterns config <> [] ->
  ~ in_scope (allowedIndexPatterns config) index ->
  exists e, validateIndex config index = Throw e.
Proof.
  intros Hq Hne Hout. unfold validateIndex.
  destruct (validateIndexName index) as [[]|e]; [|exists e; reflexivity].
  rewrite some_globMatch_plain by exact Hq.
  destruct (allowedIndexPatterns config) as [|p ps] eqn:Ep; [contradiction|].
  cbn [length Nat.ltb Nat.leb].
  destruct (existsb (fun p0 => wildcard p0 index) (p :: ps)) eqn:Es.
  - exfalso. apply Hout. apply in_scope_wildcard. exact Es.
  - cbn [negb]. eexists. reflexivity.
Qed.

(** A valid name in scope is accepted. *)
Lemma validateIndex_in_scope config index :
  no_question_mark (allowedIndexPatterns config) ->
  validateIndexName index = Ok tt ->
  in_scope (allowedIndexPatterns config) index ->
  validateIndex config index = Ok tt.
Proof.
  intros Hq Hname Hin. unfold validateIndex. rewrite Hname.
  rewrite some_globMatch_plain by exact Hq.
  rewrite (wildcard_in_scope (valid_name_on_one_line _ Hname) Hin).
  destruct (0 <? length (allowedIndexPatterns config)); reflexivity.
Qed.

(** With an empty allow-list only the character set decides. *)
Lemma validateIndex_unrestricted config index :
  allowedIndexPatterns config = [] ->
  validateIndex config index = validateIndexName index.
Proof.
  intros He. unfold validateIndex. rewrite He.
  destruct (validateIndexName index) as [[]|e]; reflexivity.
Qed.

(** [search] and [getMapping] validate before they touch the backend. *)
Lemma search_unfold config index body size w :
  search config index body size w
  = match validateIndex config index with
    | Ok _ =>
        withRetry config
          (http (search_request index
                   (JObj (set_prop (js "size")
                            (JNum (Z.min size (maxSearchSize config))) body)))) w
    | Throw e => (Throw e, w)
    end.
Proof.
  unfold search, bind, lift. destruct (validateIndex config index); reflexivity.
Qed.

Lemma getMapping_unfold config index w :
  getMapping config index w
  = match validateIndex config index with
    | Ok _ => withRetry config (http (mapping_request index)) w
    | Throw e => (Throw e, w)
    end.
Proof.
  unfold getMapping, bind, lift. destruct (validateIndex config index); reflexivity.
Qed.

(** C8 fails as stated when an entry of the allow-list holds a question
    mark: the code leaves it unescaped, so in [logs-?] it makes the hyphen
    optional. The name [logs] glob-matches no entry of the allow-list
    [logs-?], yet [validateIndex] accepts it and [search] and [getMapping]
    call the backend. *)
Lemma question_mark_widens_the_scope :
  allowedIndexPatterns question_config <> [] /\
  ~ in_scope (allowedIndexPatterns question_config) (js "logs") /\
  validateIndex question_config (js "logs") = Ok tt /\
  http_log (snd (search question_config (js "logs") [] 10 (fresh empty_hits)))
  = [search_request (js "logs") (JObj [(js "size", JNum 10)])] /\
  http_log (snd (getMapping question_config (js "logs") (fresh empty_hits)))
  = [mapping_request (js "logs")].
Proof.
  split; [discriminate|]. split; [|repeat split].
  intros (p & [<-|[]] & Hm). discriminate Hm.
Qed.

(** C8, amended: let no entry of the allow-list hold a question mark.
    With a non-empty allow-list none of whose entries the name
    glob-matches (the whole name, case kept, [*] for any run of
    characters), [search] and [getMapping] throw the rejection of
    [validateIndex] and leave the world as it was, so no HTTP call is
    made. A name that passes the character-set validation is accepted
    when the allow-list is empty or one of its entries glob-matches the
    name, and both operations go on to their backend call. *)
Theorem out_of_scope_rejected_before_any_call
    (config : ServerConfig) (index : jsstring)
    (body : list (jsstring * value)) (size : Z) (w : World) :
  no_question_mark (allowedIndexPatterns config) ->
  (allowedIndexPatterns config <> [] ->
   ~ in_scope (allowedIndexPatterns config) index ->
   exists e,
     validateIndex config index = Throw e /\
     search config index body size w = (Throw e, w) /\
     getMapping config index w = (Throw e, w)) /\
  (validateIndexName index = Ok tt ->
   allowedIndexPatterns config = [] \/
   in_scope (allowedIndexPatterns config) index ->
   validateIndex config index = Ok tt /\
   search config index body size w
   = withRetry config
       (http (search_request index
                (JObj (set_prop (js "size")
                         (JNum (Z.min size (maxSearchSize config))) body)))) w /\
   getMapping config index w
   = withRetry config (http (mapping_request index)) w).
Proof.
  intros Hq. split.
  - intros Hne Hout.
    destruct (@validateIndex_out_of_scope config index Hq Hne Hout) as (e & He).
    exists e. rewrite search_unfold, getMapping_unfold, He. auto.
  - intros Hname Hscope.
    assert (Hv : validateIndex config index = Ok tt).
    { destruct Hscope as [Hempty|Hin].
      - rewrite (@validateIndex_unrestricted config index Hempty). exact Hname.
      - apply validateIndex_in_scope; assumption. }
    rewrite search_unfold, getMapping_unfold, Hv. auto.
Qed.

(** C8 tried on the allow-list [logs-*], [transactions-*]: the index
    [users] is out of scope, [logs-2024] is in scope, and without an
    allow-list [users] is free to use. *)
Lemma out_of_scope_rejected_before_any_call_witness :
  (exists e,
     search scoped_config (js "users") [] 10 (fresh four_indices)
     = (Throw e, fresh four_indices)) /\
  search scoped_config (js "logs-2024") [] 10 (fresh four_indices)
  = withRetry scoped_config
      (http (search_request (js "logs-2024") (JObj [(js "size", JNum 10)])))
      (fresh four_indices) /\
  search default_config (js "users") [] 10 (fresh four_indices)
  = withRetry default_config
      (http (search_request (js "users") (JObj [(js "size", JNum 10)])))
      (fresh four_indices).
Proof.
  assert (Hq : no_question_mark (allowedIndexPatterns scoped_config)).
  { repeat (apply Forall_cons || apply Forall_nil);
      intros H; repeat (destruct H as [H|H]; [discriminate H|]); exact H. }
  pose proof (@out_of_scope_rejected_before_any_call scoped_config (js "users")
                [] 10%Z (fresh four_indices) Hq) as [Hout _].
  pose proof (@out_of_scope_rejected_before_any_call scoped_config (js "logs-2024")
                [] 10%Z (fresh four_indices) Hq) as [_ Hin].
  pose proof (@out_of_scope_rejected_before_any_call default_config (js "users")
                [] 10%Z (fresh four_indices) (Forall_nil _)) as [_ Hfree].
  split; [|split].
  - destruct Hout as (e & _ & Hs & _).
    + simpl. discriminate.
    + intros (p & [<-|[<-|[]]] & Hm); vm_compute in Hm; discriminate.
    + exists e. exact Hs.
  - destruct Hin as (_ & Hs & _); [reflexivity| |exact Hs].
    right. exists (js "logs-*"). split; [left; reflexivity|reflexivity].
  - destruct Hfree as (_ & Hs & _); [reflexivity|left; reflexivity|exact Hs].
Defined.

End AccessFacts.

(** ** The indices discover_cluster looks into (tools/discoverCluster.ts) *)

Module SelectionFacts.
Import ListIndices DiscoverCluster.

(** *** Numbers *)

Lemma double_of_positive z : positive (double_of z) = (0 <? z)%Z.
Proof.
  unfold double_of.
  destruct (Z.ltb_spec (Z.abs z) (2 ^ 53)) as [Hs|Hb]; [reflexivity|].
  set (a := Z.abs z) in *.
  assert (Hl : (53 <= Z.log2 a)%Z).
  { change 53%Z with (Z.log2 (2 ^ 53)). apply Z.log2_le_mono. exact Hb. }
  set (e := (Z.log2 a - 52)%Z).
  assert (He : (0 <= e)%Z) by (unfold e; lia).
  assert (Hp : (0 < 2 ^ e)%Z) by (apply Z.pow_pos_nonneg; lia).
  assert (Hq : (1 <= a / 2 ^ e)%Z).
  { apply Z.div_le_lower_bound; [exact Hp|]. rewrite Z.mul_1_r.
    apply Z.le_trans with (2 ^ Z.log2 a)%Z.
    - apply Z.pow_le_mono_r; unfold e; lia.
    - apply Z.log2_spec. lia. }
  set (q := if _ : bool then (a / 2 ^ e + 1)%Z else (a / 2 ^ e)%Z).
  assert (Hq' : (1 <= q)%Z) by (unfold q; destruct (_ || _); lia).
  assert (Hr : (0 < q * 2 ^ e)%Z) by nia.
  assert (Hz : z <> 0%Z) by (unfold a in Hb; lia).
  destruct (2 ^ 1024 <=? q * 2 ^ e)%Z; cbn [positive].
  - destruct (Z.ltb_spec z 0), (Z.ltb_spec 0 z); cbn; try reflexivity; lia.
  - destruct (Z.ltb_spec z 0), (Z.ltb_spec 0 (- (q * 2 ^ e))),
      (Z.ltb_spec 0 (q * 2 ^ e)), (Z.ltb_spec 0 z); try reflexivity; lia.
Qed.

(** The comparator is positive exactly for a pair out of order. *)
Lemma positive_compare x y :
  x <> NaN -> y <> NaN ->
  positive (compare_counts x y) = negb (leb y x).
Proof.
  unfold compare_counts.
  destruct x as [|a|n], y as [|b|n']; try congruence; intros _ _; cbn [subtract leb].
  - rewrite double_of_positive.
    destruct (Z.ltb_spec 0 (b - a)), (Z.leb_spec b a); cbn; try reflexivity; lia.
  - reflexivity.
  - cbn [positive]. rewrite negb_involutive. reflexivity.
  - destruct n, n'; reflexivity.
Qed.

Lemma leb_total x y : x <> NaN -> y <> NaN -> leb x y = true \/ leb y x = true.
Proof.
  destruct x as [|a|n], y as [|b|n']; try congruence; intros _ _; cbn [leb].
  - destruct (Z.leb_spec a b), (Z.leb_spec b a); auto; lia.
  - destruct n'; auto.
  - destruct n; auto.
  - destruct n, n'; auto.
Qed.

Lemma leb_trans x y z : leb x y = true -> leb y z = true -> leb x z = true.
Proof.
  destruct x as [|a|[|]], y as [|b|[|]], z as [|c|[|]]; cbn [leb orb negb];
    try discriminate; try reflexivity; rewrite ?Z.leb_le; intros; lia.
Qed.

Lemma or_zero_number n : or_zero n <> NaN.
Proof. destruct n as [|z|b]; unfold or_zero; cbn; try discriminate. destruct (z =? 0)%Z; discriminate. Qed.

Lemma doc_count_number_is_number idx : doc_count_number idx <> NaN.
Proof.
  unfold doc_count_number, count_of.
  destruct (parseInt10 (doc_count idx)); [apply or_zero_number|discriminate].
Qed.

(** *** The sort *)

Lemma counts_of_numbers indices :
  (forall idx, In idx indices -> exists n, count_of idx = Ok n) ->
  counts_of indices = Ok (map (fun idx => (doc_count_number idx, idx)) indices).
Proof.
  induction indices as [|idx rest IH]; intros H; [reflexivity|].
  cbn [counts_of map]. unfold doc_count_number at 1.
  destruct (H idx (or_introl eq_refl)) as [n ->].
  rewrite IH by (intros i Hi; apply H; right; exact Hi). reflexivity.
Qed.

Lemma insert_desc_perm x l : Permutation (x :: l) (insert_desc x l).
Proof.
  induction l as [|y l IH]; cbn [insert_desc]; [apply Permutation_refl|].
  destruct (positive _); [|apply Permutation_refl].
  eapply Permutation_trans; [apply perm_swap|]. apply perm_skip. exact IH.
Qed.

Lemma sort_desc_perm l : Permutation l (sort_desc l).
Proof.
  unfold sort_desc. induction l as [|x l IH]; cbn [fold_right]; [constructor|].
  eapply Permutation_trans; [apply perm_skip; exact IH|apply insert_desc_perm].
Qed.

Lemma keyed_number keyed kv : keyed_by_count keyed -> In kv keyed -> fst kv <> NaN.
Proof.
  intros Hk Hin. unfold keyed_by_count in Hk. rewrite Forall_forall in Hk.
  rewrite (Hk kv Hin). apply doc_count_number_is_number.
Qed.

Lemma insert_desc_sorted x l :
  fst x <> NaN -> (forall kv, In kv l -> fst kv <> NaN) ->
  StronglySorted (fun a b : Number * IndexInfo => leb (fst b) (fst a) = true) l ->
  StronglySorted (fun a b : Number * IndexInfo => leb (fst b) (fst a) = true)
    (insert_desc x l).
Proof.
  intros Hx Hl Hs. induction Hs as [|y l Hs IH Hy]; cbn [insert_desc].
  - constructor; constructor.
  - assert (Hyn : fst y <> NaN) by (apply Hl; left; reflexivity).
    rewrite (positive_compare Hx Hyn).
    destruct (leb (fst y) (fst x)) eqn:E; cbn [negb].
    + constructor; [constructor; assumption|].
      constructor; [exact E|]. eapply Forall_impl; [|exact Hy].
      intros a Ha. cbv beta in *. eapply leb_trans; eassumption.
    + constructor; [apply IH; intros kv Hkv; apply Hl; right; exact Hkv|].
      eapply Permutation_Forall; [apply insert_desc_perm|].
      constructor; [|exact Hy].
      destruct (leb_total Hx Hyn) as [H|H]; [exact H|congruence].
Qed.

Lemma sort_desc_sorted l :
  (forall kv, In kv l -> fst kv <> NaN) ->
  StronglySorted (fun a b : Number * IndexInfo => leb (fst b) (fst a) = true)
    (sort_desc l).
Proof.
  unfold sort_desc. induction l as [|x l IH]; intros Hl; cbn [fold_right];
    [constructor|].
  apply insert_desc_sorted.
  - apply Hl. left. reflexivity.
  - intros kv Hkv. apply Hl. right.
    eapply Permutation_in; [apply Permutation_sym; apply sort_desc_perm|exact Hkv].
  - apply IH. intros kv Hkv. apply Hl. right. exact Hkv.
Qed.

Lemma sorted_keys (keyed : list (Number * IndexInfo)) :
  keyed_by_count keyed ->
  StronglySorted (fun a b : Number * IndexInfo => leb (fst b) (fst a) = true) keyed ->
  StronglySorted (fun a b => leb (doc_count_number b) (doc_count_number a) = true)
    (map snd keyed).
Proof.
  intros Hk Hs. induction Hs as [|y l Hl IH Hy]; cbn [map]; [constructor|].
  inversion Hk as [|? ? Ky Kl]; subst. constructor; [apply IH; exact Kl|].
  apply Forall_map. rewrite Forall_forall in *. intros z Hz.
  rewrite <- Ky, <- (Kl z Hz). apply Hy. exact Hz.
Qed.

(** The sort is stable: among the indices with one count nothing moves. *)
Lemma insert_desc_stable n x l :
  fst x <> NaN -> (forall kv, In kv l -> fst kv <> NaN) ->
  filter (fun kv => leb n (fst kv) && leb (fst kv) n) (insert_desc x l)
  = filter (fun kv => leb n (fst kv) && leb (fst kv) n) (x :: l).
Proof.
  intros Hx Hl. induction l as [|y l IH]; [reflexivity|].
  cbn [insert_desc].
  assert (Hyn : fst y <> NaN) by (apply Hl; left; reflexivity).
  rewrite (positive_compare Hx Hyn).
  destruct (leb (fst y) (fst x)) eqn:E; cbn [negb]; [reflexivity|].
  cbn [filter] in *. rewrite IH by (intros kv Hkv; apply Hl; right; exact Hkv).
  destruct (leb n (fst x) && leb (fst x) n) eqn:Ex; [|reflexivity].
  destruct (leb n (fst y) && leb (fst y) n) eqn:Ey; [|reflexivity].
  exfalso. apply andb_true_iff in Ex, Ey. destruct Ex as [Ex1 Ex2], Ey as [Ey1 Ey2].
  rewrite (@leb_trans _ _ _ Ey2 Ex1) in E. discriminate.
Qed.

Lemma sort_desc_stable n l :
  (forall kv, In kv l -> fst kv <> NaN) ->
  filter (fun kv => leb n (fst kv) && leb (fst kv) n) (sort_desc l)
  = filter (fun kv => leb n (fst kv) && leb (fst kv) n) l.
Proof.
  unfold sort_desc. induction l as [|x l IH]; intros Hl; [reflexivity|].
  cbn [fold_right]. rewrite insert_desc_stable.
  - cbn [filter]. rewrite IH by (intros kv Hkv; apply Hl; right; exact Hkv).
    reflexivity.
  - apply Hl. left. reflexivity.
  - intros kv Hkv. apply Hl. right.
    eapply Permutation_in; [apply Permutation_sym; apply sort_desc_perm|exact Hkv].
Qed.

Lemma filter_keyed n (keyed : list (Number * IndexInfo)) :
  keyed_by_count keyed ->
  filter (same_count n) (map snd keyed)
  = map snd (filter (fun kv => leb n (fst kv) && leb (fst kv) n) keyed).
Proof.
  induction 1 as [|kv l Hkv Hl IH]; [reflexivity|].
  cbn [map filter]. unfold same_count at 1. rewrite <- Hkv, IH.
  destruct (leb n (fst kv) && leb (fst kv) n); reflexivity.
Qed.

(** What the sort does to a list whose counts can all be read. *)
Lemma sort_by_count_spec indices :
  (forall idx, In idx indices -> exists n, count_of idx = Ok n) ->
  exists sorted,
    sort_by_count indices = Ok sorted /\
    Permutation indices sorted /\
    StronglySorted
      (fun a b => leb (doc_count_number b) (doc_count_number a) = true) sorted /\
    (forall n, filter (same_count n) sorted = filter (same_count n) indices).
Proof.
  intros Hc. destruct indices as [|i1 [|i2 rest]].
  - exists []. repeat split; constructor.
  - exists [i1]. repeat split; [apply Permutation_refl|].
    constructor; constructor.
  - set (l := i1 :: i2 :: rest) in *.
    set (keyed := map (fun idx => (doc_count_number idx, idx)) l).
    assert (Hk : keyed_by_count keyed).
    { unfold keyed_by_count, keyed. apply Forall_map. apply Forall_forall.
      intros; reflexivity. }
    assert (Hsk : keyed_by_count (sort_desc keyed)).
    { unfold keyed_by_count. eapply Permutation_Forall; [apply sort_desc_perm|exact Hk]. }
    assert (Hsnd : map snd keyed = l).
    { unfold keyed. rewrite map_map. apply map_id. }
    exists (map snd (sort_desc keyed)). split; [|split; [|split]].
    + change (sort_by_count l)
        with (match counts_of l with
              | Throw e => Throw e
              | Ok keyed => Ok (map snd (sort_desc keyed))
              end).
      rewrite (counts_of_numbers l Hc). reflexivity.
    + rewrite <- Hsnd at 1. apply Permutation_map. apply sort_desc_perm.
    + apply sorted_keys; [exact Hsk|]. apply sort_desc_sorted.
      intros kv Hkv. exact (@keyed_number _ _ Hk Hkv).
    + intros n. rewrite (filter_keyed n Hsk), sort_desc_stable.
      * rewrite <- (filter_keyed n Hk), Hsnd. reflexivity.
      * intros kv Hkv. exact (@keyed_number _ _ Hk Hkv).
Qed.

(** X23: when every doc count converts to text, the sort of
    discover_cluster returns the indices it was given, in descending order
    of [parseInt(doc_count, 10) || 0] as the double it is, and indices
    whose counts are the same double keep their order; with a limit that
    is not negative the indices kept are the first so many, and none of
    them has a smaller count than an index left out. *)
Theorem largest_indices_are_selected
    (indices : list IndexInfo) (max_indices : Z) :
  (forall idx, In idx indices -> exists n, count_of idx = Ok n) ->
  (0 <= max_indices)%Z ->
  exists sorted,
    sort_by_count indices = Ok sorted /\
    Permutation indices sorted /\
    StronglySorted
      (fun a b => leb (doc_count_number b) (doc_count_number a) = true) sorted /\
    (forall n, filter (same_count n) sorted = filter (same_count n) indices) /\
    slice0 max_indices sorted = firstn (Z.to_nat max_indices) sorted /\
    (forall a b,
       In a (slice0 max_indices sorted) ->
       In b (skipn (Z.to_nat max_indices) sorted) ->
       leb (doc_count_number b) (doc_count_number a) = true).
Proof.
  intros Hc Hm.
  destruct (sort_by_count_spec indices Hc) as (sorted & Hs & Hp & Hso & Hst).
  exists sorted. split; [exact Hs|]. split; [exact Hp|]. split; [exact Hso|].
  split; [exact Hst|].
  assert (Hsl : slice0 max_indices sorted = firstn (Z.to_nat max_indices) sorted).
  { unfold slice0. replace (0 <=? max_indices)%Z with true; [reflexivity|].
    symmetry. apply Z.leb_le. exact Hm. }
  split; [exact Hsl|]. rewrite Hsl.
  generalize (Z.to_nat max_indices) as k. clear - Hso.
  induction Hso as [|y l Hl IH Hy]; intros k a b Ha Hb.
  - destruct k; destruct Ha.
  - destruct k as [|k]; [destruct Ha|].
    cbn [firstn skipn] in *. destruct Ha as [<-|Ha].
    + rewrite Forall_forall in Hy. apply Hy.
      rewrite <- (firstn_skipn k l). apply in_or_app. right. exact Hb.
    + eapply IH; eauto.
Qed.

(** X23 tried on three rows of which two hold counts above 2^53 that are
    one double: they come first, in the order they had. *)
Lemma largest_indices_are_selected_witness :
  exists sorted,
    sort_by_count large_rows = Ok sorted /\
    Permutation large_rows sorted /\
    StronglySorted
      (fun a b => leb (doc_count_number b) (doc_count_number a) = true) sorted /\
    (forall n, filter (same_count n) sorted = filter (same_count n) large_rows) /\
    slice0 2 sorted = firstn (Z.to_nat 2) sorted /\
    (forall a b,
       In a (slice0 2 sorted) ->
       In b (skipn (Z.to_nat 2) sorted) ->
       leb (doc_count_number b) (doc_count_number a) = true).
Proof.
  apply (@largest_indices_are_selected large_rows 2).
  - intros idx [<-|[<-|[<-|[]]]]; eexists; reflexivity.
  - lia.
Defined.

End SelectionFacts.

(** ** Listing and discovery: the allow-list as a filter on the response *)

Module ListingFacts.
Import ListIndices DiscoverCluster AccessFacts GlobFacts SelectionFacts.

(** [catIndices] validates nothing and reads no allow-list: its whole
    traffic is the one listing request, built from the pattern as given. *)
Lemma catIndices_unfold config pattern :
  catIndices config pattern = withRetry config (http (cat_request pattern)).
Proof. destruct pattern; reflexivity. Qed.

(** *** Copying the rows *)

Lemma to_IndexInfo_info_of row i : to_IndexInfo row = Ok i -> i = info_of row.
Proof.
  unfold to_IndexInfo, info_of.
  destruct (get_prop row (js "index")) as [name|e] eqn:E; [|discriminate].
  intros H. injection H as <-.
  replace (get_opt row (js "index")) with name
    by (unfold get_opt; rewrite E; reflexivity).
  reflexivity.
Qed.

Lemma map_rows_info_of rows :
  forall infos, map_rows rows = Ok infos -> infos = map info_of rows.
Proof.
  induction rows as [|row rows IH]; cbn [map_rows map]; intros infos H.
  - injection H as <-. reflexivity.
  - destruct (to_IndexInfo row) as [i|e] eqn:E; [|discriminate].
    destruct (map_rows rows) as [infos0|e]; [|discriminate].
    injection H as <-. rewrite (to_IndexInfo_info_of _ E), (IH infos0 eq_refl).
    reflexivity.
Qed.

Lemma map_rows_well_formed rows :
  Forall well_formed_row rows -> map_rows rows = Ok (map info_of rows).
Proof.
  induction 1 as [|row rows [[s Hs] _] _ IH]; [reflexivity|].
  cbn [map_rows map]. rewrite IH.
  unfold to_IndexInfo, info_of. rewrite Hs.
  replace (get_opt row (js "index")) with (JStr s)
    by (unfold get_opt; rewrite Hs; reflexivity).
  reflexivity.
Qed.

Lemma info_of_well_formed row :
  well_formed_row row ->
  (exists s, index (info_of row) = JStr s) /\
  (exists n, count_of (info_of row) = Ok n).
Proof.
  intros [[s Hs] [t Ht]]. split.
  - exists s. unfold info_of, get_opt. cbn [index]. rewrite Hs. reflexivity.
  - unfold count_of, parseInt10, info_of. cbn [doc_count]. rewrite Ht.
    destruct (match skip_spaces t with
              | [] => (false, skip_spaces t)
              | c :: s' => _
              end) as [negative digits].
    destruct (leading_digits digits); eexists; reflexivity.
Qed.

(** *** The two filters *)

Lemma filter_twice {A} (f g : A -> bool) (l : list A) :
  filter f (filter g l) = filter (fun x => g x && f x) l.
Proof.
  induction l as [|x l IH]; [reflexivity|]. cbn [filter].
  destruct (g x); cbn [andb filter]; rewrite IH; reflexivity.
Qed.

Lemma startsWith_dot_ok v hidden :
  startsWith_dot v = Ok hidden ->
  exists s, v = JStr s /\ hidden = startsWith (js ".") s.
Proof.
  destruct v; cbn; try discriminate.
  intros H. injection H as <-. eexists. split; reflexivity.
Qed.

Lemma filter_hidden_spec indices :
  forall kept, filter_hidden indices = Ok kept -> kept = filter (shown false) indices.
Proof.
  induction indices as [|idx rest IH]; cbn [filter_hidden filter]; intros kept H.
  - injection H as <-. reflexivity.
  - destruct (startsWith_dot (index idx)) as [hidden|e] eqn:E; [|discriminate].
    destruct (filter_hidden rest) as [kept'|e]; [|discriminate].
    injection H as <-. rewrite (IH kept' eq_refl).
    apply startsWith_dot_ok in E. destruct E as (s & Es & ->).
    replace (shown false idx) with (negb (startsWith (js ".") s))
      by (unfold shown; rewrite Es; reflexivity).
    destruct (startsWith (js ".") s); reflexivity.
Qed.

Lemma filter_hidden_strings indices :
  Forall (fun idx => exists s, index idx = JStr s) indices ->
  filter_hidden indices = Ok (filter (shown false) indices).
Proof.
  induction 1 as [|idx rest [s Hs] _ IH]; [reflexivity|].
  cbn [filter_hidden filter]. rewrite IH.
  replace (shown false idx) with (negb (startsWith (js ".") s))
    by (unfold shown; rewrite Hs; reflexivity).
  rewrite Hs. cbn [startsWith_dot]. destruct (startsWith (js ".") s); reflexivity.
Qed.

(** A pattern without a question mark is a regular expression. *)
Lemma RegExp_new_plain p :
  ~ In (ch "?") p -> exists r, RegExp_new (glob_source p) = Pattern r.
Proof.
  intros Hq. unfold RegExp_new, glob_source. change (js "^") with [ch "^"].
  cbn [app].
  change (parse (ch "^" :: stars_to_dotstar (escape_specials p) ++ js "$") [] NoTerm)
    with (parse (stars_to_dotstar (escape_specials p) ++ js "$") [Bol] Assertion).
  rewrite parse_glob by exact Hq. eexists. reflexivity.
Qed.

(** The tools' own [globMatch] on a value is the client's on its text. *)
Lemma globMatch_value_text p v s :
  ToString v = Ok s -> globMatch_value p v = globMatch p s.
Proof.
  intros H. unfold globMatch_value, globMatch. rewrite H.
  destruct (RegExp_new (glob_source p)); reflexivity.
Qed.

Lemma some_globMatch_value_text patterns v s :
  ToString v = Ok s -> some_globMatch_value patterns v = some_globMatch patterns s.
Proof.
  intros H. induction patterns as [|p ps IH]; [reflexivity|].
  cbn [some_globMatch_value some_globMatch]. rewrite (globMatch_value_text p _ H), IH.
  reflexivity.
Qed.

Lemma some_globMatch_value_plain patterns idx keep :
  no_question_mark patterns -> patterns <> [] ->
  some_globMatch_value patterns (index idx) = Ok keep ->
  (exists s, ToString (index idx) = Ok s) /\ keep = allowed patterns idx.
Proof.
  intros Hq Hne H. unfold allowed, name_of.
  destruct (ToString (index idx)) as [s|e] eqn:E.
  - rewrite (some_globMatch_value_text _ _ E), some_globMatch_plain in H by exact Hq.
    injection H as <-. split; [eauto|]. destruct patterns; [contradiction|reflexivity].
  - exfalso. destruct patterns as [|p ps]; [contradiction|].
    inversion Hq as [|? ? Hp _]; subst. cbn [some_globMatch_value] in H.
    unfold globMatch_value in H. destruct (RegExp_new_plain p Hp) as [r Hr].
    rewrite Hr, E in H. discriminate.
Qed.

Lemma filter_allowed_spec patterns :
  no_question_mark patterns -> patterns <> [] ->
  forall indices kept,
    filter_allowed patterns indices = Ok kept ->
    kept = filter (allowed patterns) indices.
Proof.
  intros Hq Hne. induction indices as [|idx rest IH]; cbn [filter_allowed filter];
    intros kept H.
  - injection H as <-. reflexivity.
  - destruct (some_globMatch_value patterns (index idx)) as [keep|e] eqn:E;
      [|discriminate].
    destruct (filter_allowed patterns rest) as [kept'|e]; [|discriminate].
    injection H as <-. rewrite (IH kept' eq_refl).
    destruct (some_globMatch_value_plain idx Hq Hne E) as [_ ->]. reflexivity.
Qed.

Lemma filter_allowed_texts patterns :
  no_question_mark patterns -> patterns <> [] ->
  forall indices,
    Forall (fun idx => exists s, ToString (index idx) = Ok s) indices ->
    filter_allowed patterns indices = Ok (filter (allowed patterns) indices).
Proof.
  intros Hq Hne indices H. induction H as [|idx rest [s Hs] _ IH]; [reflexivity|].
  cbn [filter_allowed filter]. rewrite IH.
  rewrite (some_globMatch_value_text _ _ Hs), some_globMatch_plain by exact Hq.
  replace (allowed patterns idx) with (existsb (fun p => wildcard p s) patterns)
    by (unfold allowed, name_of; rewrite Hs; destruct patterns;
        [contradiction|reflexivity]).
  reflexivity.
Qed.

(** What passes the two filters is as the claim has it. *)
Lemma post_filter_listed config include_hidden rows :
  listed config include_hidden (post_filter config include_hidden rows).
Proof.
  unfold listed, post_filter. split.
  - intros Hne. apply Forall_forall. intros idx Hin.
    apply filter_In in Hin. destruct Hin as [_ Hk].
    apply andb_true_iff in Hk. destruct Hk as [_ Ha]. unfold allowed in Ha.
    destruct (allowedIndexPatterns config) as [|p ps]; [contradiction|].
    apply in_scope_wildcard. exact Ha.
  - intros ->. apply Forall_forall. intros idx Hin.
    apply filter_In in Hin. destruct Hin as [_ Hk].
    apply andb_true_iff in Hk. destruct Hk as [Hs _]. unfold shown in Hs.
    cbn [orb] in Hs. destruct (index idx); try discriminate.
    eexists. split; [reflexivity|]. apply negb_true_iff. exact Hs.
Qed.

(** *** Steps 1 to 4 *)

Lemma list_and_filter_unfold config pattern include_hidden w :
  list_and_filter config pattern include_hidden w
  = match validateIndexName (match pattern with Some p => p | None => js "*" end) with
    | Throw e => (Throw e, w)
    | Ok _ =>
        match withRetry config (http (cat_request pattern)) w with
        | (Throw e, w1) => (Throw e, w1)
        | (Ok rawIndices, w1) =>
            (match map_rawIndices rawIndices with
             | Throw e => Throw e
             | Ok indices =>
                 match (if negb include_hidden then filter_hidden indices
                        else Ok indices) with
                 | Throw e => Throw e
                 | Ok indices =>
                     if 0 <? length (allowedIndexPatterns config)
                     then filter_allowed (allowedIndexPatterns config) indices
                     else Ok indices
                 end
             end, w1)
        end
    end.
Proof.
  unfold list_and_filter, bind at 1, lift at 1.
  destruct (validateIndexName _) as [[]|e]; [|reflexivity].
  unfold bind at 1. rewrite catIndices_unfold.
  destruct (withRetry config (http (cat_request pattern)) w) as [[raw|e] w1];
    [|reflexivity].
  unfold bind at 1, lift at 1.
  destruct (map_rawIndices raw) as [indices|e]; [|reflexivity].
  unfold bind, lift.
  destruct (if negb include_hidden then filter_hidden indices else Ok indices)
    as [shown|e]; [|reflexivity].
  destruct (0 <? length (allowedIndexPatterns config)); reflexivity.
Qed.

(** What the filters make of a response. *)
Lemma filtered_response config include_hidden rawIndices indices :
  no_question_mark (allowedIndexPatterns config) ->
  match map_rawIndices rawIndices with
  | Throw e => Throw e
  | Ok indices =>
      match (if negb include_hidden then filter_hidden indices else Ok indices) with
      | Throw e => Throw e
      | Ok indices =>
          if 0 <? length (allowedIndexPatterns config)
          then filter_allowed (allowedIndexPatterns config) indices
          else Ok indices
      end
  end = Ok indices ->
  exists rows,
    rawIndices = JArr rows /\ indices = post_filter config include_hidden rows.
Proof.
  intros Hq H. destruct rawIndices; try discriminate H. cbn [map_rawIndices] in H.
  exists items. split; [reflexivity|].
  destruct (map_rows items) as [infos|e] eqn:Em; [|discriminate].
  apply map_rows_info_of in Em. subst infos. unfold post_filter.
  assert (Hs : forall shown0,
             (if negb include_hidden then filter_hidden (map info_of items)
              else Ok (map info_of items)) = Ok shown0 ->
             shown0 = filter (shown include_hidden) (map info_of items)).
  { intros shown0 E. destruct include_hidden; cbn [negb] in E.
    - injection E as <-. symmetry. apply forallb_filter_id.
      apply forallb_forall. intros; reflexivity.
    - apply filter_hidden_spec. exact E. }
  destruct (if negb include_hidden then _ else _) as [shown0|e]; [|discriminate].
  rewrite (Hs shown0 eq_refl) in H. rewrite <- filter_twice.
  destruct (allowedIndexPatterns config) as [|p ps] eqn:Ep.
  - cbn [length Nat.ltb Nat.leb] in H. injection H as <-.
    symmetry. apply forallb_filter_id. apply forallb_forall. intros; reflexivity.
  - cbn [length Nat.ltb Nat.leb] in H.
    apply filter_allowed_spec in H; [exact H|exact Hq|discriminate].
Qed.

Lemma filtered_rows config include_hidden rows :
  no_question_mark (allowedIndexPatterns config) ->
  Forall well_formed_row rows ->
  match map_rawIndices (JArr rows) with
  | Throw e => Throw e
  | Ok indices =>
      match (if negb include_hidden then filter_hidden indices else Ok indices) with
      | Throw e => Throw e
      | Ok indices =>
          if 0 <? length (allowedIndexPatterns config)
          then filter_allowed (allowedIndexPatterns config) indices
          else Ok indices
      end
  end = Ok (post_filter config include_hidden rows).
Proof.
  intros Hq Hrows. cbn [map_rawIndices]. rewrite (map_rows_well_formed Hrows).
  assert (Hstr : Forall (fun idx => exists s, index idx = JStr s) (map info_of rows)).
  { apply Forall_map. eapply Forall_impl; [|exact Hrows].
    intros row Hr. apply (info_of_well_formed Hr). }
  assert (Hs : (if negb include_hidden then filter_hidden (map info_of rows)
                else Ok (map info_of rows))
               = Ok (filter (shown include_hidden) (map info_of rows))).
  { destruct include_hidden; cbn [negb].
    - f_equal. symmetry. apply forallb_filter_id.
      apply forallb_forall. intros; reflexivity.
    - apply filter_hidden_strings. exact Hstr. }
  rewrite Hs. unfold post_filter. rewrite <- filter_twice.
  destruct (allowedIndexPatterns config) as [|p ps] eqn:Ep.
  - cbn [length Nat.ltb Nat.leb]. f_equal. symmetry. apply forallb_filter_id.
    apply forallb_forall. intros; reflexivity.
  - cbn [length Nat.ltb Nat.leb]. apply filter_allowed_texts;
      [exact Hq|discriminate|].
    apply Forall_forall. intros idx Hin. apply filter_In in Hin.
    destruct Hin as [Hin _]. rewrite Forall_forall in Hstr.
    destruct (Hstr idx Hin) as [s Hs']. exists s. rewrite Hs'. reflexivity.
Qed.

(** Steps 1 to 4: the only traffic is the listing request, repeated as the
    retry loop decides; what is returned are the rows of the last answer
    that pass the two filters. *)
Lemma list_and_filter_spec config pattern include_hidden w r w' :
  no_question_mark (allowedIndexPatterns config) ->
  list_and_filter config pattern include_hidden w = (r, w') ->
  exists k,
    http_log w' = http_log w ++ repeat (cat_request pattern) k /\
    forall indices, r = Ok indices ->
      exists rows,
        answered w (cat_request pattern) k (JArr rows) /\
        indices = post_filter config include_hidden rows.
Proof.
  intros Hq. rewrite list_and_filter_unfold.
  destruct (validateIndexName _) as [[]|e].
  2:{ intros H. injection H as <- <-. exists 0. rewrite app_nil_r.
      split; [reflexivity|discriminate]. }
  destruct (withRetry config (http (cat_request pattern)) w) as [[raw|e] w1] eqn:Ec.
  - apply withRetry_answer in Ec. destruct Ec as (k & Hl & Ha).
    intros H. injection H as <- <-. exists k. split; [exact Hl|].
    intros indices Hi. apply filtered_response in Hi; [|exact Hq].
    destruct Hi as (rows & -> & ->). exists rows. split; [exact Ha|reflexivity].
  - apply withRetry_log in Ec. destruct Ec as (k & Hl & _).
    intros H. injection H as <- <-. exists k. split; [exact Hl|discriminate].
Qed.

(** With rows as the cat API sends them, steps 1 to 4 return. *)
Lemma list_and_filter_returns config pattern include_hidden w rows w1 :
  no_question_mark (allowedIndexPatterns config) ->
  validateIndexName (match pattern with Some p => p | None => js "*" end) = Ok tt ->
  catIndices config pattern w = (Ok (JArr rows), w1) ->
  Forall well_formed_row rows ->
  list_and_filter config pattern include_hidden w
  = (Ok (post_filter config include_hidden rows), w1).
Proof.
  intros Hq Hv Hc Hrows. rewrite list_and_filter_unfold, Hv.
  rewrite catIndices_unfold in Hc. rewrite Hc.
  rewrite (@filtered_rows config include_hidden rows Hq Hrows). reflexivity.
Qed.

(** *** Sorting and cutting *)

Lemma counts_of_snd indices :
  forall keyed, counts_of indices = Ok keyed -> map snd keyed = indices.
Proof.
  induction indices as [|idx rest IH]; simpl; intros keyed H.
  - injection H as <-. reflexivity.
  - destruct (count_of idx); [|discriminate].
    destruct (counts_of rest) as [ks|]; [|discriminate].
    injection H as <-. simpl. rewrite (IH ks eq_refl). reflexivity.
Qed.

Lemma sort_by_count_perm indices sorted :
  sort_by_count indices = Ok sorted -> Permutation indices sorted.
Proof.
  unfold sort_by_count.
  destruct indices as [|a [|b rest]].
  - intros H. injection H as <-. apply Permutation_refl.
  - intros H. injection H as <-. apply Permutation_refl.
  - destruct (counts_of (a :: b :: rest)) as [keyed|e] eqn:Ek; [|discriminate].
    intros H. injection H as <-.
    rewrite <- (counts_of_snd _ Ek). apply Permutation_map. apply sort_desc_perm.
Qed.

Lemma slice0_incl {A} (end_ : Z) (l : list A) : incl (slice0 end_ l) l.
Proof.
  unfold slice0. intros x Hx.
  destruct (0 <=? end_)%Z;
    match type of Hx with
    | In _ (firstn ?n _) =>
        rewrite <- (firstn_skipn n l); apply in_or_app; left; exact Hx
    end.
Qed.

Lemma selected_unfold config pattern include_hidden max_indices w :
  selected config pattern include_hidden max_indices w
  = match list_and_filter config pattern include_hidden w with
    | (Throw e, w1) => (Throw e, w1)
    | (Ok indices, w1) =>
        (match sort_by_count indices with
         | Throw e => Throw e
         | Ok sorted => Ok (length indices, slice0 max_indices sorted)
         end, w1)
    end.
Proof.
  unfold selected, bind at 1.
  destruct (list_and_filter config pattern include_hidden w) as [[indices|e] w1];
    [|reflexivity].
  unfold bind, lift, ret. destruct (sort_by_count indices); reflexivity.
Qed.

(** *** Step 6 *)

Lemma getMapping_log config index w r w' :
  getMapping config index w = (r, w') ->
  exists k, http_log w' = http_log w ++ repeat (mapping_request index) k.
Proof.
  rewrite getMapping_unfold. destruct (validateIndex config index).
  - intros H. apply withRetry_log in H. destruct H as (k & Hl & _). eauto.
  - intros H. injection H as <- <-. exists 0. rewrite app_nil_r. reflexivity.
Qed.

Lemma getMapping_value_log config idx w r w' :
  getMapping_value config (index idx) w = (r, w') ->
  exists k, http_log w' = http_log w ++ repeat (mapping_request (name_of idx)) k.
Proof.
  unfold getMapping_value, name_of, bind, lift.
  destruct (ToString (index idx)) as [name|e].
  - destruct (truthy (index idx)); [apply getMapping_log|].
    intros H. injection H as <- <-. exists 0. rewrite app_nil_r. reflexivity.
  - intros H. injection H as <- <-. exists 0. rewrite app_nil_r. reflexivity.
Qed.

(** An index that is a string is looked up under that string. *)
Lemma getMapping_value_string config name :
  getMapping_value config (JStr name) = getMapping config name.
Proof.
  unfold getMapping_value, bind, lift. cbn [ToString].
  destruct name as [|c name]; [|reflexivity].
  cbn [truthy]. unfold getMapping, bind, lift, validateIndex, validateIndexName.
  reflexivity.
Qed.

Section Discover.
Variable fields_of_mapping : value -> Res value.

Lemma discover_one_spec config idx w :
  exists d w' k,
    discover_one fields_of_mapping config idx w = (Ok d, w') /\
    get_opt d (js "index") = index idx /\
    http_log w' = http_log w ++ repeat (mapping_request (name_of idx)) k.
Proof.
  unfold discover_one, bind at 1, try_catch, bind at 1.
  destruct (getMapping_value config (index idx) w) as [r w1] eqn:Eg.
  apply getMapping_value_log in Eg. destruct Eg as (k & Hk).
  assert (Hidx : forall fields,
    get_opt (JObj (set_prop (js "fields") fields (spread (IndexInfo_value idx))))
      (js "index") = index idx).
  { intros fields. unfold get_opt, get_prop.
    rewrite lookup_set_prop_other; [reflexivity|]. vm_compute. discriminate. }
  destruct r as [data|e].
  - unfold lift. destruct (fields_of_mapping data) as [fields|e];
      unfold ret; do 3 eexists; (split; [reflexivity|]);
      (split; [apply Hidx | exact Hk]).
  - unfold ret. do 3 eexists. split; [reflexivity|].
    split; [apply Hidx | exact Hk].
Qed.

Lemma discover_all_spec config :
  forall indices w,
    exists ds w' requests,
      discover_all fields_of_mapping config indices w = (Ok ds, w') /\
      Forall2 (fun d idx => get_opt d (js "index") = index idx) ds indices /\
      http_log w' = http_log w ++ requests /\
      mapping_requests_of indices requests.
Proof.
  induction indices as [|idx rest IH]; intros w.
  - exists [], w, []. simpl. rewrite app_nil_r. repeat split; constructor.
  - destruct (discover_one_spec config idx w) as (d & w1 & k & Hd & Hi & Hl).
    destruct (IH w1) as (ds & w2 & reqs & Hds & Hf & Hl2 & Hm).
    exists (d :: ds), w2, (repeat (mapping_request (name_of idx)) k ++ reqs).
    split; [|split; [|split]].
    + simpl. unfold bind at 1. rewrite Hd. unfold bind at 1. rewrite Hds. reflexivity.
    + constructor; assumption.
    + rewrite Hl2, Hl, app_assoc. reflexivity.
    + unfold mapping_requests_of in *. apply Forall_app. split.
      * apply Forall_forall. intros req Hreq. apply repeat_spec in Hreq.
        exists idx. split; [left; reflexivity|exact Hreq].
      * rewrite Forall_forall in *. intros req Hreq.
        destruct (Hm req Hreq) as (i & Hin & He). exists i. split; [right|]; assumption.
Qed.

End Discover.

(** C10 fails as stated when an entry of the allow-list holds a question
    mark: with the allow-list [logs-?] both tools return the index [logs]
    of the response, which glob-matches no entry, and discover_cluster
    looks up its mapping. *)
Lemma question_mark_lists_out_of_scope :
  let names (r : Res ToolResult) :=
    match r with
    | Ok (success (JArr rows) _ _) => map (fun row => get_opt row (js "index")) rows
    | Ok (success (JObj [_; (_, JArr rows)]) _ _) =>
        map (fun row => get_opt row (js "index")) rows
    | _ => []
    end in
  let listing := ListIndices.execute question_config (Some (js "*")) false
                   (fresh only_logs) in
  let discovery := DiscoverCluster.execute (fun _ => Ok (JArr [])) question_config
                     (Some (js "*")) false 50 (fresh only_logs) in
  allowedIndexPatterns question_config <> [] /\
  ~ in_scope (allowedIndexPatterns question_config) (js "logs") /\
  names (fst listing) = [JStr (js "logs")] /\
  names (fst discovery) = [JStr (js "logs")] /\
  http_log (snd discovery)
  = [cat_request (Some (js "*")); mapping_request (js "logs")].
Proof.
  cbv zeta. split; [discriminate|]. split; [|repeat split].
  intros (p & [<-|[]] & Hm). discriminate Hm.
Qed.

(** C10, amended: let no entry of the allow-list hold a question mark.
    Both tools send the backend the listing request built from the
    caller's pattern as given, whatever the allow-list, and nothing else
    before the response is filtered. What list_indices returns are the
    rows of the backend's last answer that pass the two filters, in the
    order of the answer, and their number; discover_cluster counts the
    same rows, describes the first [max_indices] of them in the order of
    its sort, and looks up only their mappings. Of the rows that pass,
    with a non-empty allow-list each has a name that glob-matches one of
    its entries, and unless [include_hidden] is set each has a name that
    does not start with a dot. On rows as the cat API sends them both
    tools return. *)
Theorem listings_are_post_filtered
    (fields_of_mapping : value -> Res value) (config : ServerConfig)
    (pattern : option jsstring) (include_hidden : bool) (max_indices : Z)
    (w : World) :
  no_question_mark (allowedIndexPatterns config) ->
  (forall r w',
     ListIndices.execute config pattern include_hidden w = (r, w') ->
     exists k,
       http_log w' = http_log w ++ repeat (cat_request pattern) k /\
       forall result, r = Ok result ->
         exists rows,
           answered w (cat_request pattern) k (JArr rows) /\
           result
           = success
               (JArr (map IndexInfo_value (post_filter config include_hidden rows)))
               (Some (JNum (Z.of_nat
                              (length (post_filter config include_hidden rows)))))
               None) /\
  (forall r w',
     DiscoverCluster.execute fields_of_mapping config pattern include_hidden
       max_indices w = (r, w') ->
     exists k requests,
       http_log w' = http_log w ++ repeat (cat_request pattern) k ++ requests /\
       forall result, r = Ok result ->
         exists rows sorted discovered,
           answered w (cat_request pattern) k (JArr rows) /\
           Permutation (post_filter config include_hidden rows) sorted /\
           mapping_requests_of (slice0 max_indices sorted) requests /\
           Forall2 (fun d idx => get_opt d (js "index") = index idx)
             discovered (slice0 max_indices sorted) /\
           result
           = success
               (JObj [(js "cluster_summary",
                       JObj [(js "total_indices",
                              JNum (Z.of_nat
                                      (length
                                         (post_filter config include_hidden rows))));
                             (js "discovered",
                              JNum (Z.of_nat (length discovered)))]);
                      (js "indices", JArr discovered)])
               None None) /\
  (forall rows, listed config include_hidden (post_filter config include_hidden rows)) /\
  (forall rows w1,
     validateIndexName (match pattern with Some p => p | None => js "*" end) = Ok tt ->
     catIndices config pattern w = (Ok (JArr rows), w1) ->
     Forall well_formed_row rows ->
     ListIndices.execute config pattern include_hidden w
     = (Ok (success
              (JArr (map IndexInfo_value (post_filter config include_hidden rows)))
              (Some (JNum (Z.of_nat
                             (length (post_filter config include_hidden rows)))))
              None), w1) /\
     exists result w2,
       DiscoverCluster.execute fields_of_mapping config pattern include_hidden
         max_indices w = (Ok result, w2)).
Proof.
  intros Hq. split; [|split; [|split]].
  - intros r w'. unfold ListIndices.execute, bind.
    destruct (list_and_filter config pattern include_hidden w) as [r1 w1] eqn:El.
    apply list_and_filter_spec in El; [|exact Hq]. destruct El as (k & Hl & Hi).
    destruct r1 as [indices|e]; unfold ret; intros H; injection H as <- <-;
      exists k; (split; [exact Hl|]); [|discriminate].
    intros result Hr. injection Hr as <-.
    destruct (Hi indices eq_refl) as (rows & Ha & ->).
    exists rows. split; [exact Ha|reflexivity].
  - intros r w'. unfold DiscoverCluster.execute, bind at 1.
    rewrite selected_unfold.
    destruct (list_and_filter config pattern include_hidden w) as [r1 w1] eqn:El.
    apply list_and_filter_spec in El; [|exact Hq]. destruct El as (k & Hl & Hi).
    destruct r1 as [indices|e].
    + destruct (sort_by_count indices) as [sorted|e] eqn:Es.
      * destruct (discover_all_spec fields_of_mapping config
                    (slice0 max_indices sorted) w1)
          as (ds & w2 & requests & Hd & Hf & Hl2 & Hm).
        cbn [fst snd]. unfold bind. rewrite Hd. unfold ret.
        intros H. injection H as <- <-. exists k, requests. split.
        -- rewrite Hl2, Hl, <- app_assoc. reflexivity.
        -- intros result Hr. injection Hr as <-.
           destruct (Hi indices eq_refl) as (rows & Ha & ->).
           exists rows, sorted, ds. split; [exact Ha|].
           split; [apply sort_by_count_perm; exact Es|].
           split; [exact Hm|]. split; [exact Hf|reflexivity].
      * intros H. injection H as <- <-. exists k, []. rewrite app_nil_r.
        split; [exact Hl|discriminate].
    + intros H. injection H as <- <-. exists k, []. rewrite app_nil_r.
      split; [exact Hl|discriminate].
  - intros rows. apply post_filter_listed.
  - intros rows w1 Hv Hc Hrows.
    pose proof (@list_and_filter_returns config pattern include_hidden w rows w1
                  Hq Hv Hc Hrows) as Hl.
    split.
    + unfold ListIndices.execute, bind. rewrite Hl. reflexivity.
    + unfold DiscoverCluster.execute, bind at 1. rewrite selected_unfold, Hl.
      destruct (@sort_by_count_spec (post_filter config include_hidden rows))
        as (sorted & Hs & _).
      { intros idx Hin. unfold post_filter in Hin. apply filter_In in Hin.
        destruct Hin as [Hin _]. apply in_map_iff in Hin.
        destruct Hin as (row & <- & Hrow). rewrite Forall_forall in Hrows.
        apply (info_of_well_formed (Hrows row Hrow)). }
      rewrite Hs. cbn [fst snd].
      destruct (discover_all_spec fields_of_mapping config
                  (slice0 max_indices sorted) w1)
        as (ds & w2 & requests & Hd & _).
      unfold bind. rewrite Hd. unfold ret. eexists. eexists. reflexivity.
Qed.

(** C10 tried on the backend of four indices, with the allow-list
    [logs-*], [transactions-*] and hidden indices left out: [.kibana] and
    [users] are gone from what list_indices returns, and discover_cluster
    returns as well. *)
Lemma listings_are_post_filtered_witness :
  fst (ListIndices.execute scoped_config (Some (js "*")) false (fresh four_indices))
  = Ok (success
          (JArr [IndexInfo_value (info_of (cat_row "logs-2024" "10"));
                 IndexInfo_value (info_of (cat_row "transactions-eu" "25"))])
          (Some (JNum 2)) None) /\
  exists result w2,
    DiscoverCluster.execute (fun _ => Ok (JArr [])) scoped_config (Some (js "*"))
      false 50 (fresh four_indices) = (Ok result, w2).
Proof.
  assert (Hq : no_question_mark (allowedIndexPatterns scoped_config)).
  { repeat (apply Forall_cons || apply Forall_nil);
      intros H; repeat (destruct H as [H|H]; [discriminate H|]); exact H. }
  destruct (@listings_are_post_filtered (fun _ => Ok (JArr [])) scoped_config
              (Some (js "*")) false 50 (fresh four_indices) Hq)
    as (_ & _ & _ & Hreturns).
  destruct (Hreturns
              [cat_row "logs-2024" "10"; cat_row ".kibana" "3";
               cat_row "users" "7"; cat_row "transactions-eu" "25"]
              (snd (catIndices scoped_config (Some (js "*")) (fresh four_indices))))
    as [Hlist Hdiscover].
  - reflexivity.
  - reflexivity.
  - repeat (apply Forall_cons || apply Forall_nil);
      (split; eexists; reflexivity).
  - split; [rewrite Hlist; reflexivity|exact Hdiscover].
Defined.

(** The two tools against the backend of four indices, with the allow-list
    [logs-*], [transactions-*] and hidden indices left out: [.kibana] and
    [users] are gone, and the listing request was sent for [*] as asked. *)
Lemma listings_of_four_indices :
  let names (r : Res ToolResult) :=
    match r with
    | Ok (success (JArr rows) _ _) => map (fun row => get_opt row (js "index")) rows
    | Ok (success (JObj [_; (_, JArr rows)]) _ _) =>
        map (fun row => get_opt row (js "index")) rows
    | _ => []
    end in
  let listing := ListIndices.execute scoped_config (Some (js "*")) false
                   (fresh four_indices) in
  let discovery := DiscoverCluster.execute (fun _ => Ok (JArr [])) scoped_config
                     (Some (js "*")) false 50 (fresh four_indices) in
  names (fst listing) = [JStr (js "logs-2024"); JStr (js "transactions-eu")] /\
  http_log (snd listing) = [cat_request (Some (js "*"))] /\
  names (fst discovery) = [JStr (js "transactions-eu"); JStr (js "logs-2024")] /\
  http_log (snd discovery)
  = [cat_request (Some (js "*")); mapping_request (js "transactions-eu");
     mapping_request (js "logs-2024")].
Proof. repeat split. Qed.

(** A row whose index is no string is returned as it came when hidden
    indices are asked for and there is no allow-list; when they are not,
    the filter on hidden indices fails on it. *)
Example row_without_a_name :
  let numbered := fun (_ : nat) (_ : Request) =>
                    Resolved (JArr [JObj [(js "index", JNum 7)]]) in
  fst (ListIndices.execute default_config (Some (js "*")) true (fresh numbered))
  = Ok (success (JArr [IndexInfo_value (info_of (JObj [(js "index", JNum 7)]))])
          (Some (JNum 1)) None) /\
  exists e,
    fst (ListIndices.execute default_config (Some (js "*")) false (fresh numbered))
    = Throw e.
Proof. split; [reflexivity|eexists; reflexivity]. Qed.

End ListingFacts.


(** ** Running the redaction on redacted data *)

Module MaskFacts.
Import RegexFacts RedactionEquations.

Lemma count_stars_app a b : count_stars (a ++ b) = count_stars a + count_stars b.
Proof. unfold count_stars. rewrite filter_app, length_app. reflexivity. Qed.

Lemma count_stars_cons c s :
  count_stars (c :: s) = (if N.eqb star c then 1 else 0) + count_stars s.
Proof. unfold count_stars. cbn [filter]. destruct (N.eqb star c); reflexivity. Qed.

Lemma count_stars_other c s : c <> star -> count_stars (c :: s) = count_stars s.
Proof.
  intros H. rewrite count_stars_cons.
  destruct (N.eqb_spec star c); [congruence|reflexivity].
Qed.

Lemma consumed_not_star r c :
  consumes r star = false -> consumes r c = true -> c <> star.
Proof. intros H1 H2 ->. congruence. Qed.

Lemma replace_from_keeps_stars (St : Type) (cb : jsstring -> St -> jsstring * St) r :
  consumes r star = false ->
  forall s prev skip st,
    Forall (fun c => c <> star) (firstn skip s) ->
    count_stars s <= count_stars (fst (replace_from cb r prev s skip st)).
Proof.
  intros Hr. induction s as [|c s' IH]; intros prev skip st Hskip.
  - unfold count_stars at 1. simpl. lia.
  - destruct skip as [|n].
    + simpl replace_from.
      destruct (match_at r prev (c :: s')) as [len|] eqn:Em.
      * apply match_at_sound in Em. destruct Em as [Hlen Hm].
        destruct (cb (firstn len (c :: s')) st) as [out st1].
        destruct len as [|n].
        -- specialize (IH (Some c) 0 st1 (Forall_nil _)).
           destruct (replace_from cb r (Some c) s' 0 st1) as [rest st2].
           simpl fst in *. rewrite count_stars_app, !count_stars_cons. lia.
        -- simpl in Hm. inversion Hm as [|x l Hc Hrest]; subst.
           assert (Hns : Forall (fun c => c <> star) (firstn n s')).
           { eapply Forall_impl; [|exact Hrest]. intros a Ha.
             eapply consumed_not_star; eauto. }
           specialize (IH (Some c) n st1 Hns).
           destruct (replace_from cb r (Some c) s' n st1) as [rest st2].
           simpl fst in *. rewrite count_stars_app.
           rewrite count_stars_other by (eapply consumed_not_star; eauto). lia.
      * specialize (IH (Some c) 0 st (Forall_nil _)).
        destruct (replace_from cb r (Some c) s' 0 st) as [rest st2].
        simpl fst in *. rewrite !count_stars_cons. lia.
    + simpl replace_from. simpl in Hskip. inversion Hskip as [|x l Hc Hrest]; subst.
      specialize (IH (Some c) n st Hrest).
      rewrite count_stars_other by assumption. exact IH.
Qed.

Lemma patterns_never_match_star :
  Forall (fun p => consumes (regex p) star = false) PATTERNS.
Proof. repeat constructor. Qed.

Lemma fold_patterns_keeps_stars (patterns : list RedactionPattern) :
  Forall (fun p => consumes (regex p) star = false) patterns ->
  forall s st,
    count_stars s
    <= count_stars
         (fst (fold_left
                 (fun acc pattern =>
                    replace_all (redact_callback pattern) (regex pattern)
                      (fst acc) (snd acc))
                 patterns (s, st))).
Proof.
  induction 1 as [|p ps Hp Hps IH]; intros s st; simpl; [lia|].
  unfold replace_all.
  pose proof (@replace_from_keeps_stars _ (redact_callback p) (regex p) Hp s None 0 st
                (Forall_nil _)) as H.
  destruct (replace_from (redact_callback p) (regex p) None s 0 st) as [s1 st1].
  simpl fst in *. simpl snd. etransitivity; [exact H|apply IH].
Qed.

Lemma redactString_keeps_stars s types :
  count_stars s <= count_stars (fst (redactString s types)).
Proof. apply fold_patterns_keeps_stars. apply patterns_never_match_star. Qed.

Lemma strings_of_set_prop k v props s :
  In s (strings_of (JObj (set_prop k v props))) ->
  In s (strings_of v) \/ In s (strings_of (JObj props)).
Proof.
  simpl. induction props as [|[k' v'] rest IH]; simpl.
  - rewrite app_nil_r. auto.
  - destruct (str_eqb k k'); simpl; rewrite !in_app_iff.
    + tauto.
    + intros [H|H]; [tauto|]. apply IH in H. tauto.
Qed.

Lemma strings_of_assign k v props s :
  In s (strings_of (JObj (assign k v props))) ->
  In s (strings_of v) \/ In s (strings_of (JObj props)).
Proof.
  unfold assign. destruct (str_eqb k (js "__proto__")); [auto|].
  apply strings_of_set_prop.
Qed.

Lemma redactRecursive_strings : forall v types s',
  In s' (strings_of (fst (fst (redactRecursive v types)))) ->
  from_strings_of v s'.
Proof.
  induction v as [| | | |s|items IHitems|props IHprops|] using value_ind';
    intros types s' Hin; try (simpl in Hin; contradiction).
  - rewrite redactRecursive_str in Hin.
    destruct (redactString s types) as [r [c t]] eqn:E. simpl in Hin.
    destruct Hin as [<-|[]]. exists s, types. split; [left; reflexivity|].
    rewrite E. reflexivity.
  - rewrite redactRecursive_arr in Hin.
    assert (G : forall items, Forall (fun v => forall types s',
                  In s' (strings_of (fst (fst (redactRecursive v types)))) ->
                  from_strings_of v s') items ->
                forall types s',
                  In s' (flat_map strings_of (fst (fst (redact_items items types)))) ->
                  exists s t, In s (flat_map strings_of items) /\ s' = fst (redactString s t)).
    { clear. induction 1 as [|x rest Hx Hrest IH]; intros types s' H; simpl in H.
      - contradiction.
      - destruct (redactRecursive x types) as [[r c] t1] eqn:E1.
        destruct (redact_items rest t1) as [[rs total] t2] eqn:E2.
        simpl in H. apply in_app_iff in H. destruct H as [H|H].
        + specialize (Hx types s'). rewrite E1 in Hx. destruct (Hx H) as (s & t & Hs & ->).
          exists s, t. split; [|reflexivity]. simpl. apply in_app_iff. left. exact Hs.
        + specialize (IH t1 s'). rewrite E2 in IH. destruct (IH H) as (s & t & Hs & ->).
          exists s, t. split; [|reflexivity]. simpl. apply in_app_iff. right. exact Hs. }
    specialize (G items IHitems types s').
    destruct (redact_items items types) as [[rs total] t]. simpl in *. apply G. exact Hin.
  - rewrite redactRecursive_obj in Hin.
    assert (G : forall props, Forall (fun kv => forall types s',
                  In s' (strings_of (fst (fst (redactRecursive (snd kv) types)))) ->
                  from_strings_of (snd kv) s') props ->
                forall acc n types s',
                  In s' (strings_of (JObj (fst (fst (redact_entries props acc n types))))) ->
                  In s' (strings_of (JObj acc)) \/
                  exists s t, In s (strings_of (JObj props)) /\ s' = fst (redactString s t)).
    { clear. induction 1 as [|[k x] rest Hx Hrest IH]; intros acc n types s' H.
      - left. exact H.
      - cbn [redact_entries] in H.
        destruct (redactRecursive x types) as [[r c] t1] eqn:E1.
        apply IH in H. destruct H as [H|H].
        + apply strings_of_assign in H. destruct H as [H|H]; [|left; exact H].
          right. specialize (Hx types s'). simpl snd in Hx. rewrite E1 in Hx.
          destruct (Hx H) as (s & t & Hs & ->).
          exists s, t. split; [|reflexivity]. simpl. apply in_app_iff. left. exact Hs.
        + right. destruct H as (s & t & Hs & ->).
          exists s, t. split; [|reflexivity]. simpl. apply in_app_iff. right. exact Hs. }
    specialize (G props IHprops [] 0 types s').
    destruct (redact_entries props [] 0 types) as [[res total] t]. simpl fst in *.
    destruct (G Hin) as [[]|G']. exact G'.
Qed.

(** No pattern ever matches a mask character. *)
Lemma matches_hold_no_star p prev s len :
  In p PATTERNS ->
  match_at (regex p) prev s = Some len ->
  Forall (fun c => c <> star) (firstn len s).
Proof.
  intros Hp Hm. apply match_at_sound in Hm. destruct Hm as [_ Hm].
  pose proof patterns_never_match_star as Hall.
  rewrite Forall_forall in Hall. specialize (Hall p Hp).
  eapply Forall_impl; [|exact Hm]. intros c Hc.
  eapply consumed_not_star; eauto.
Qed.

(** C9, as stated, fails. The first run masks the IBAN of
    [GB82WEST1234564111 1111 1111 1111] and leaves its last four digits
    visible, next to twelve digits that were no card number on their own.
    The second run finds a match that the first did not: the sixteen
    digits [4111 1111 1111 1111], none of them a mask character, now pass
    as a card number and are masked. *)
Lemma second_redaction_finds_new_match :
  redactedData (redactPII (JStr iban_then_digits))
  = JStr (js "GB82****4111 1111 1111 1111") /\
  redactionCount (redactPII (redactedData (redactPII (JStr iban_then_digits)))) = 1 /\
  redactedTypes (redactPII (redactedData (redactPII (JStr iban_then_digits))))
  = [js "credit_card"] /\
  redactedData (redactPII (redactedData (redactPII (JStr iban_then_digits))))
  = JStr (js "GB82******** **** **** 1111") /\
  match_at credit_card_regex (Some star) (js "4111 1111 1111 1111") = Some 19 /\
  count_stars (js "4111 1111 1111 1111") = 0.
Proof. repeat split; vm_compute; reflexivity. Qed.

(** C9, amended: a second run never un-masks. No pattern matches a mask
    character, so a match of the second run lies in text that is not mask;
    every string of the second result is the redaction of a string of the
    first, and holds at least as many mask characters. (It may hold more:
    the second run can find new matches.) *)
Theorem second_redaction_keeps_masks (v : value) :
  (forall p prev s len,
     In p PATTERNS -> match_at (regex p) prev s = Some len ->
     Forall (fun c => c <> star) (firstn len s)) /\
  (forall s',
     In s' (strings_of (redactedData (redactPII (redactedData (redactPII v))))) ->
     exists s types,
       In s (strings_of (redactedData (redactPII v))) /\
       s' = fst (redactString s types) /\
       count_stars s <= count_stars s').
Proof.
  split.
  - intros p prev s len. apply matches_hold_no_star.
  - intros s' H.
    set (once := redactedData (redactPII v)) in *.
    unfold redactPII in H at 1.
    destruct (redactRecursive once []) as [[r c] t] eqn:E. simpl in H.
    pose proof (@redactRecursive_strings once [] s') as G. rewrite E in G.
    destruct (G H) as (s & types & Hs & ->).
    exists s, types. repeat split; auto. apply redactString_keeps_stars.
Qed.

End MaskFacts.
(** ** Matches inside a text (lib/piiRedaction.ts) *)

Module ContextFacts.
Import RegexFacts BlindFacts.

(** *** The scan of [replace] *)

Lemma final_cons c c' s : final (c :: c' :: s) = final (c' :: s).
Proof. reflexivity. Qed.

Lemma final_some c s : exists x, final (c :: s) = Some x.
Proof.
  revert c. induction s as [|c' s IH]; intros c; [exists c; reflexivity|].
  rewrite final_cons. apply IH.
Qed.

Lemma prev_after_nil p : prev_after p [] = p.
Proof. reflexivity. Qed.

Lemma prev_after_cons p c s : prev_after p (c :: s) = prev_after (Some c) s.
Proof.
  unfold prev_after. destruct s as [|c' s]; [reflexivity|].
  rewrite final_cons. destruct (final_some c' s) as [x ->]. reflexivity.
Qed.

Lemma prev_after_app p a b : prev_after p (a ++ b) = prev_after (prev_after p a) b.
Proof.
  revert p. induction a as [|c a IH]; intros p; [reflexivity|].
  cbn [app]. rewrite !prev_after_cons. apply IH.
Qed.

Lemma prev_after_nonempty p c s : prev_after p (c :: s) = final (c :: s).
Proof. unfold prev_after. destruct (final_some c s) as [x ->]. reflexivity. Qed.

Section Scan.
Variable St : Type.
Variable cb : jsstring -> St -> jsstring * St.
Variable r : Regex.regex.

(** The code units of a match are dropped one by one. *)
Lemma replace_from_skip :
  forall u rest p st,
    replace_from cb r p (u ++ rest) (length u) st
    = replace_from cb r (prev_after p u) rest 0 st.
Proof.
  induction u as [|c u IH]; intros rest p st; [reflexivity|].
  cbn [app length replace_from]. rewrite IH, prev_after_cons. reflexivity.
Qed.

(** The scan passes over a text in which no match starts. *)
Lemma replace_from_no_match :
  forall s rest p st,
    no_match_in r p s rest ->
    replace_from cb r p (s ++ rest) 0 st
    = let (out, st') := replace_from cb r (prev_after p s) rest 0 st in
      (s ++ out, st').
Proof.
  induction s as [|c s IH]; intros rest p st H.
  - cbn [app]. rewrite prev_after_nil.
    destruct (replace_from cb r p rest 0 st); reflexivity.
  - destruct H as [Hm Hs]. cbn [app] in *. cbn [replace_from]. rewrite Hm.
    rewrite (IH rest (Some c) st Hs), prev_after_cons.
    destruct (replace_from cb r (prev_after (Some c) s) rest 0 st); reflexivity.
Qed.

(** A match is handed to the callback, and the scan goes on behind it. *)
Lemma replace_from_match x rest p st :
  x <> [] ->
  match_at r p (x ++ rest) = Some (length x) ->
  replace_from cb r p (x ++ rest) 0 st
  = let (out, st1) := cb x st in
    let (rest', st2) := replace_from cb r (prev_after p x) rest 0 st1 in
    (out ++ rest', st2).
Proof.
  intros Hx Hm. destruct x as [|c x]; [contradiction|].
  cbn [app length] in *. cbn [replace_from]. rewrite Hm.
  replace (firstn (S (length x)) (c :: x ++ rest)) with (c :: x).
  2:{ cbn [firstn]. f_equal. rewrite firstn_app, Nat.sub_diag, firstn_all.
      cbn [firstn]. rewrite app_nil_r. reflexivity. }
  destruct (cb (c :: x) st) as [out st1].
  rewrite replace_from_skip, prev_after_cons. reflexivity.
Qed.

Lemma no_match_in_app :
  forall a b rest p,
    no_match_in r p a (b ++ rest) ->
    no_match_in r (prev_after p a) b rest ->
    no_match_in r p (a ++ b) rest.
Proof.
  induction a as [|c a IH]; intros b rest p Ha Hb; [exact Hb|].
  destruct Ha as [Hm Ha]. cbn [app no_match_in]. split.
  - rewrite <- app_assoc. exact Hm.
  - apply IH; [exact Ha|]. rewrite prev_after_cons in Hb. exact Hb.
Qed.

(** A text in which no match starts is left as it is. *)
Lemma replace_all_no_match s st :
  no_match_in r None s [] ->
  match_at r (prev_after None s) [] = None ->
  replace_all cb r s st = (s, st).
Proof.
  intros Hs He. unfold replace_all. rewrite <- (app_nil_r s) at 1.
  rewrite (replace_from_no_match s [] None st Hs).
  cbn [replace_from]. rewrite He, app_nil_r. reflexivity.
Qed.

(** A pattern that needs a first code unit of a set finds nothing in a
    text without one. *)
Lemma first_unit_needed cs :
  (forall prev s, starts [cs] s = false -> match_at r prev s = None) ->
  forall s rest p,
    Forall (fun c => in_set cs c = false) s ->
    no_match_in r p s rest.
Proof.
  intros Hneeds. induction s as [|c s IH]; intros rest p Hs; [exact I|].
  inversion Hs as [|? ? Hc Hs']; subst. split.
  - apply Hneeds. cbn [app starts]. rewrite Hc. reflexivity.
  - apply IH. exact Hs'.
Qed.

End Scan.

(** *** How the matcher reads a pattern *)

Lemma m_seq r1 r2 k prev s : m (Seq r1 r2) k prev s = m r1 (m r2 k) prev s.
Proof. reflexivity. Qed.

Lemma m_WordB k prev s :
  m WordB k prev s
  = if xorb (word_at prev) (word_at (hd_error s)) then k prev s else None.
Proof. reflexivity. Qed.

Lemma m_lit a k prev s :
  m (lit a) k prev s
  = match s with
    | c :: s' => if in_set [one a] c then k (Some c) s' else None
    | [] => None
    end.
Proof. destruct s; reflexivity. Qed.

Lemma starts_repeat cs :
  forall n s,
    starts (repeat cs n) s = (n <=? length s) && forallb (in_set cs) (firstn n s).
Proof.
  induction n as [|n IH]; intros s; [reflexivity|].
  destruct s as [|c s]; [reflexivity|].
  cbn [repeat starts length firstn forallb]. rewrite IH.
  change (S n <=? S (length s)) with (n <=? length s).
  destruct (in_set cs c), (n <=? length s); reflexivity.
Qed.

(** Exactly [n] code units of one set. *)
Lemma rep_exactly cs (k : cont) :
  forall n fuel prev s,
    n < fuel ->
    rep (m (Cls false cs)) fuel true n (Some n) k prev s
    = if starts (repeat cs n) s
      then k (prev_after prev (firstn n s)) (skipn n s)
      else None.
Proof.
  induction n as [|n IH]; intros fuel prev s Hf;
    (destruct fuel as [|fuel]; [lia|]).
  - reflexivity.
  - cbn [rep option_map pred Nat.eqb]. destruct s as [|c s]; [reflexivity|].
    cbn [m repeat starts firstn skipn xorb].
    replace ((length s <? length (c :: s)) || (0 <? S n)) with true
      by (rewrite orb_true_r; reflexivity).
    destruct (in_set cs c); cbn [andb]; [|reflexivity].
    rewrite IH by lia. rewrite prev_after_cons.
    destruct (starts (repeat cs n) s); [|reflexivity].
    destruct (k _ _); reflexivity.
Qed.

Lemma m_exactly cs n k prev s :
  m (exactly n (Cls false cs)) k prev s
  = if starts (repeat cs n) s
    then k (prev_after prev (firstn n s)) (skipn n s)
    else None.
Proof. unfold exactly. cbn [m]. apply rep_exactly. lia. Qed.

(** [n] code units of the set, then the rest. *)
Lemma m_exactly_app cs k prev g rest :
  Forall (fun c => in_set cs c = true) g ->
  m (exactly (length g) (Cls false cs)) k prev (g ++ rest)
  = k (prev_after prev g) rest.
Proof.
  intros Hg. rewrite m_exactly, starts_repeat.
  rewrite firstn_app, Nat.sub_diag, firstn_all. cbn [firstn]. rewrite app_nil_r.
  rewrite skipn_app, Nat.sub_diag, skipn_all. cbn [skipn app].
  replace (length g <=? length (g ++ rest)) with true
    by (symmetry; apply Nat.leb_le; rewrite length_app; lia).
  replace (forallb (in_set cs) g) with true
    by (symmetry; apply forallb_forall; rewrite Forall_forall in Hg; exact Hg).
  reflexivity.
Qed.

(** An optional code unit of one set. *)
Lemma m_opt cs k prev s :
  m (opt (Cls false cs)) k prev s
  = match s with
    | c :: s' =>
        if in_set cs c
        then match k (Some c) s' with
             | Some n => Some n
             | None => k prev s
             end
        else k prev s
    | [] => k prev s
    end.
Proof.
  unfold opt. cbn [m]. destruct s as [|c s]; [reflexivity|].
  cbn [length Nat.add]. rewrite Nat.add_1_r. cbn [rep m xorb Nat.eqb option_map pred].
  destruct (in_set cs c); [|reflexivity].
  replace (length s <? length (c :: s)) with true
    by (symmetry; apply Nat.ltb_lt; cbn [length]; lia).
  cbn [orb]. reflexivity.
Qed.

(** A repetition that needs one code unit of its set fails without it. *)
Lemma rep_needs_first cs fuel g lo hi (k : cont) prev s :
  0 < lo -> starts [cs] s = false ->
  rep (m (Cls false cs)) fuel g lo hi k prev s = None.
Proof.
  intros Hlo Hs. destruct fuel as [|fuel]; [reflexivity|].
  cbn [rep]. replace (lo =? 0) with false by (symmetry; apply Nat.eqb_neq; lia).
  assert (Hm : forall k', m (Cls false cs) k' prev s = None).
  { intros k'. destruct s as [|c s]; [reflexivity|]. cbn [starts] in Hs.
    rewrite andb_true_r in Hs. cbn [m xorb]. rewrite Hs. reflexivity. }
  rewrite Hm. destruct hi as [[|h]|], g; reflexivity.
Qed.

(** *** What a pattern needs where it starts *)

Lemma starts_app a b :
  forall s, starts (a ++ b) s = starts a s && starts b (skipn (length a) s).
Proof.
  induction a as [|cs a IH]; intros s; [reflexivity|].
  destruct s as [|c s]; [reflexivity|].
  cbn [app starts length skipn]. rewrite IH, andb_assoc. reflexivity.
Qed.

Lemma starts_first cs sets s : starts [cs] s = false -> starts (cs :: sets) s = false.
Proof.
  destruct s as [|c s]; [reflexivity|]. cbn [starts]. rewrite andb_true_r.
  intros ->. reflexivity.
Qed.

Lemma m_exactly_none cs n k prev s :
  starts (repeat cs n) s = false -> m (exactly n (Cls false cs)) k prev s = None.
Proof. intros H. rewrite m_exactly, H. reflexivity. Qed.

Lemma m_lit_none a k prev s :
  starts [[one a]] s = false -> m (lit a) k prev s = None.
Proof.
  rewrite m_lit. destruct s as [|c s]; [reflexivity|]. cbn [starts].
  rewrite andb_true_r. intros ->. reflexivity.
Qed.

(** Sets of characters *)

Lemma digit_is_word c : is_digit c = true -> is_word c = true.
Proof.
  intros H. unfold is_word, word_set. rewrite !GlobFacts.in_set_app.
  unfold is_digit in H. rewrite H. rewrite !orb_true_r. reflexivity.
Qed.

Lemma upper_is_word c : in_set upper_set c = true -> is_word c = true.
Proof.
  intros H. unfold is_word, word_set. rewrite !GlobFacts.in_set_app, H. reflexivity.
Qed.

Lemma digit_not_upper c : is_digit c = true -> in_set upper_set c = false.
Proof.
  intros H. apply is_digit_range in H. unfold in_set, upper_set. cbn [existsb fst snd].
  rewrite orb_false_r. apply andb_false_iff. left. apply N.leb_gt.
  change (ch "A") with 65%N. change (ch "0") with 48%N in H.
  change (ch "9") with 57%N in H. lia.
Qed.

Lemma digit_not c (a : ascii) :
  is_digit c = true -> (ch a < ch "0" \/ ch "9" < ch a)%N ->
  in_set [one a] c = false.
Proof.
  intros H Ha. apply is_digit_range in H. unfold one.
  rewrite GlobFacts.in_set_single. apply N.eqb_neq. lia.
Qed.

Lemma starts_word cs c s :
  (forall x, in_set cs x = true -> is_word x = true) ->
  starts [cs] (c :: s) = true -> word_at (hd_error (c :: s)) = true.
Proof.
  intros Hw H. cbn [starts] in H. rewrite andb_true_r in H.
  cbn [hd_error word_at]. apply Hw. exact H.
Qed.

(** A pattern that opens with [\b] and a word character needs a
    position that does not follow one. *)
Lemma boundary_needed cs (body : Regex.regex) (k : cont) prev s :
  (forall x, in_set cs x = true -> is_word x = true) ->
  (starts [cs] s = false -> m body k prev s = None) ->
  word_at prev = true ->
  m (Seq WordB body) k prev s = None.
Proof.
  intros Hw Hbody Hp. rewrite m_seq, m_WordB, Hp.
  destruct (starts [cs] s) eqn:E.
  - destruct s as [|c s]; [discriminate|].
    rewrite (@starts_word cs c s Hw E). reflexivity.
  - rewrite (Hbody eq_refl). destruct (xorb _ _); reflexivity.
Qed.

Lemma body_needed (body : Regex.regex) (k : cont) prev s :
  m body k prev s = None -> m (Seq WordB body) k prev s = None.
Proof. intros H. rewrite m_seq, m_WordB, H. destruct (xorb _ _); reflexivity. Qed.

Lemma match_at_none r prev s : m r done prev s = None -> match_at r prev s = None.
Proof. unfold match_at. intros ->. reflexivity. Qed.

(** The card pattern: a first digit, not behind a word character. *)
Lemma card_body_needs (k : cont) prev s rest :
  starts [digit_set] s = false ->
  m (Seq (exactly 4 digit) rest) k prev s = None.
Proof.
  intros H. rewrite m_seq. apply m_exactly_none. apply starts_first. exact H.
Qed.

Lemma card_needs prev s :
  negb (word_at prev) && starts [digit_set] s = false ->
  match_at credit_card_regex prev s = None.
Proof.
  intros H. apply match_at_none. unfold credit_card_regex. cbn [seq].
  apply andb_false_iff in H. destruct H as [H|H].
  - apply (@boundary_needed digit_set); [exact digit_is_word| |].
    + apply card_body_needs.
    + apply negb_false_iff. exact H.
  - apply body_needed. apply card_body_needs. exact H.
Qed.

(** The SSN pattern: three digits and a hyphen, not behind a word
    character. *)
Lemma ssn_body_needs (k : cont) prev s rest :
  starts [digit_set; digit_set; digit_set; [one "-"]] s = false ->
  m (Seq (exactly 3 digit) (Seq (lit "-") rest)) k prev s = None.
Proof.
  intros H. rewrite m_seq. unfold digit. rewrite m_exactly.
  change [digit_set; digit_set; digit_set; [one "-"]]
    with (repeat digit_set 3 ++ [[one "-"]]) in H.
  rewrite starts_app in H.
  destruct (starts (repeat digit_set 3) s); [|reflexivity].
  cbn [andb] in H. rewrite repeat_length in H.
  rewrite m_seq. apply m_lit_none. exact H.
Qed.

Lemma ssn_needs prev s :
  negb (word_at prev) && starts [digit_set; digit_set; digit_set; [one "-"]] s = false ->
  match_at ssn_regex prev s = None.
Proof.
  intros H. apply match_at_none. unfold ssn_regex. cbn [seq].
  apply andb_false_iff in H. destruct H as [H|H].
  - apply (@boundary_needed digit_set); [exact digit_is_word| |].
    + intros E. apply ssn_body_needs. apply starts_first. exact E.
    + apply negb_false_iff. exact H.
  - apply body_needed. apply ssn_body_needs. exact H.
Qed.

(** The IBAN pattern: two capitals and two digits, not behind a word
    character. *)
Lemma iban_body_needs (k : cont) prev s rest :
  starts [upper_set; upper_set; digit_set; digit_set] s = false ->
  m (Seq (exactly 2 (Cls false upper_set)) (Seq (exactly 2 digit) rest)) k prev s
  = None.
Proof.
  intros H. rewrite m_seq, m_exactly.
  change [upper_set; upper_set; digit_set; digit_set]
    with (repeat upper_set 2 ++ repeat digit_set 2) in H.
  rewrite starts_app in H.
  destruct (starts (repeat upper_set 2) s); [|reflexivity].
  cbn [andb] in H. rewrite repeat_length in H.
  rewrite m_seq. apply m_exactly_none. exact H.
Qed.

Lemma iban_needs prev s :
  negb (word_at prev) && starts [upper_set; upper_set; digit_set; digit_set] s = false ->
  match_at iban_regex prev s = None.
Proof.
  intros H. apply match_at_none. unfold iban_regex. cbn [seq].
  apply andb_false_iff in H. destruct H as [H|H].
  - apply (@boundary_needed upper_set); [exact upper_is_word| |].
    + intros E. apply iban_body_needs. apply starts_first. exact E.
    + apply negb_false_iff. exact H.
  - apply body_needed. apply iban_body_needs. exact H.
Qed.

(** The phone pattern: a plus sign and a digit. *)
Lemma phone_needs prev s :
  starts [[one "+"]; digit_set] s = false -> match_at phone_regex prev s = None.
Proof.
  intros H. apply match_at_none. unfold phone_regex. cbn [seq].
  rewrite m_seq, m_lit. destruct s as [|c s]; [reflexivity|].
  cbn [starts] in H. destruct (in_set [one "+"] c); [|reflexivity].
  cbn [andb] in H. rewrite m_seq. unfold times, digit. cbn [m].
  apply rep_needs_first; [lia|]. destruct s; cbn [starts] in *; [reflexivity|].
  rewrite andb_true_r in *. exact H.
Qed.

(** The email pattern: an [@] somewhere. *)
Lemma email_needs prev s :
  ~ In (ch "@") s -> match_at email_regex prev s = None.
Proof.
  intros Hat. apply match_at_none. unfold email_regex. cbn [seq].
  apply body_needed. rewrite m_seq.
  destruct (m (at_least 1 (Cls false local_set)) _ prev s) as [n|] eqn:E;
    [|reflexivity].
  exfalso. apply m_sound in E. destruct E as (u & t & p' & -> & _ & Hk).
  rewrite m_seq, m_lit in Hk. destruct t as [|c t]; [discriminate|].
  destruct (in_set [one "@"] c) eqn:Ec; [|discriminate].
  unfold one in Ec. rewrite GlobFacts.in_set_single in Ec. apply N.eqb_eq in Ec.
  apply Hat. apply in_or_app. right. left. exact Ec.
Qed.

Lemma email_quiet :
  forall s rest p, ~ In (ch "@") (s ++ rest) -> no_match_in email_regex p s rest.
Proof.
  induction s as [|c s IH]; intros rest p H; [exact I|]. split.
  - apply email_needs. exact H.
  - apply IH. intros Hin. apply H. right. exact Hin.
Qed.

End ContextFacts.

(** ** Card numbers (lib/piiRedaction.ts) *)

Module CardFacts.
Import RegexFacts BlindFacts ContextFacts.

(** *** Card numbers *)

Lemma zero_digit c : is_digit c = true -> zero c = ch "0".
Proof. unfold zero. intros ->. reflexivity. Qed.

Lemma zero_digits_all l :
  Forall (fun c => is_digit c = true) l ->
  zero_digits l = repeat (ch "0") (length l).
Proof.
  induction 1 as [|c l Hc Hl IH]; simpl; [reflexivity|].
  rewrite (@zero_digit c Hc), IH. reflexivity.
Qed.

Lemma card_text_length digits s1 s2 s3 :
  length digits = 16 ->
  length (card_text digits s1 s2 s3)
  = 16 + length (separator_text s1) + length (separator_text s2)
    + length (separator_text s3).
Proof.
  intros H. unfold card_text.
  rewrite !length_app, !length_firstn, !length_skipn, H. simpl. lia.
Qed.

Lemma masked_card_length digits s1 s2 s3 :
  length digits = 16 ->
  length (masked_card digits s1 s2 s3)
  = 16 + 3 * length (mask_separator s1 s2 s3).
Proof.
  intros H. unfold masked_card.
  rewrite !length_app, !length_skipn, H. simpl. lia.
Qed.

Lemma digits_of_all l :
  Forall (fun c => is_digit c = true) l -> digits_of l = l.
Proof.
  induction 1 as [|c l Hc Hl IH]; [reflexivity|].
  unfold digits_of in *. cbn [filter].
  change (in_set digit_set c) with (is_digit c). rewrite Hc. f_equal. exact IH.
Qed.

Lemma digits_of_separator s : digits_of (separator_text s) = [].
Proof. destruct s; reflexivity. Qed.

Lemma Forall_firstn {A} (P : A -> Prop) n (l : list A) :
  Forall P l -> Forall P (firstn n l).
Proof.
  intros H. rewrite Forall_forall in *. intros x Hx. apply H.
  rewrite <- (firstn_skipn n l). apply in_or_app. left. exact Hx.
Qed.

Lemma Forall_skipn {A} (P : A -> Prop) n (l : list A) :
  Forall P l -> Forall P (skipn n l).
Proof.
  intros H. rewrite Forall_forall in *. intros x Hx. apply H.
  rewrite <- (firstn_skipn n l). apply in_or_app. right. exact Hx.
Qed.

Lemma digit_is_not c x :
  is_digit c = true -> (x < ch "0" \/ ch "9" < x)%N -> N.eqb x c = false.
Proof.
  intros Hc Hx. apply is_digit_range in Hc. apply N.eqb_neq. lia.
Qed.

Lemma includes_char_digits x l :
  Forall (fun c => is_digit c = true) l ->
  (x < ch "0" \/ ch "9" < x)%N ->
  includes_char x l = false.
Proof.
  intros Hl Hx. unfold includes_char.
  induction Hl as [|c l Hc Hl IH]; simpl; [reflexivity|].
  rewrite (@digit_is_not c x Hc Hx). exact IH.
Qed.

Lemma includes_char_app x a b :
  includes_char x (a ++ b) = includes_char x a || includes_char x b.
Proof. apply existsb_app. Qed.

Section Card.
Variable digits : jsstring.
Variables s1 s2 s3 : Separator.
Hypothesis Hlen : length digits = 16.
Hypothesis Hdigits : Forall (fun c => is_digit c = true) digits.

(** *** The mask of a card number *)

Lemma groups_of_digits :
  firstn 4 digits ++ firstn 4 (skipn 4 digits) ++ firstn 4 (skipn 8 digits)
  ++ skipn 12 digits = digits.
Proof.
  transitivity (firstn 4 digits ++ skipn 4 digits); [|apply firstn_skipn].
  f_equal.
  transitivity (firstn 4 (skipn 4 digits) ++ skipn 4 (skipn 4 digits));
    [|apply firstn_skipn].
  f_equal. rewrite skipn_skipn. simpl (4 + 4).
  transitivity (firstn 4 (skipn 8 digits) ++ skipn 4 (skipn 8 digits));
    [|apply firstn_skipn].
  f_equal. rewrite skipn_skipn. reflexivity.
Qed.

Lemma digits_of_card : digits_of (card_text digits s1 s2 s3) = digits.
Proof.
  unfold card_text, digits_of. rewrite !filter_app.
  fold (digits_of (separator_text s1)) (digits_of (separator_text s2))
       (digits_of (separator_text s3)).
  rewrite !digits_of_separator.
  fold (digits_of (firstn 4 digits)) (digits_of (firstn 4 (skipn 4 digits)))
       (digits_of (firstn 4 (skipn 8 digits))) (digits_of (skipn 12 digits)).
  rewrite !digits_of_all
    by (try apply Forall_firstn; try apply Forall_skipn; exact Hdigits).
  simpl. apply groups_of_digits.
Qed.

Lemma includes_char_card x :
  (x < ch "0" \/ ch "9" < x)%N ->
  includes_char x (card_text digits s1 s2 s3)
  = includes_char x (separator_text s1) || includes_char x (separator_text s2)
    || includes_char x (separator_text s3).
Proof.
  intros Hx. unfold card_text. rewrite !includes_char_app.
  rewrite (@includes_char_digits x (firstn 4 digits)),
          (@includes_char_digits x (firstn 4 (skipn 4 digits))),
          (@includes_char_digits x (firstn 4 (skipn 8 digits))),
          (@includes_char_digits x (skipn 12 digits))
    by (try apply Forall_firstn; try apply Forall_skipn; assumption).
  destruct (includes_char x (separator_text s1)),
           (includes_char x (separator_text s2)),
           (includes_char x (separator_text s3)); reflexivity.
Qed.

Lemma credit_card_mask_card :
  credit_card_mask (card_text digits s1 s2 s3)
  = if luhnCheck digits then masked_card digits s1 s2 s3
    else card_text digits s1 s2 s3.
Proof.
  unfold credit_card_mask. rewrite digits_of_card, Hlen.
  simpl (negb (16 =? 16)). cbv beta iota. simpl orb.
  destruct (luhnCheck digits); [|reflexivity]. simpl negb. cbv iota.
  unfold masked_card, slice_last. rewrite Hlen. simpl (16 - 4).
  rewrite !includes_char_card by (vm_compute; auto).
  destruct s1, s2, s3; reflexivity.
Qed.

Lemma mask_differs :
  str_eqb (masked_card digits s1 s2 s3) (card_text digits s1 s2 s3) = false.
Proof.
  destruct digits as [|d rest]; [discriminate|].
  inversion Hdigits as [|x l Hd Hrest]; subst.
  assert (H1 : exists a, masked_card (d :: rest) s1 s2 s3 = ch "*" :: a)
    by (eexists; reflexivity).
  assert (H2 : exists b, card_text (d :: rest) s1 s2 s3 = d :: b)
    by (eexists; reflexivity).
  destruct H1 as [a ->], H2 as [b ->]. cbn [str_eqb].
  rewrite (@digit_is_not d (ch "*") Hd) by (left; reflexivity). reflexivity.
Qed.

Lemma redact_callback_card count types :
  redact_callback
    {| name := js "credit_card"; regex := credit_card_regex; mask := credit_card_mask |}
    (card_text digits s1 s2 s3) (count, types)
  = if luhnCheck digits
    then (masked_card digits s1 s2 s3, (S count, set_add (js "credit_card") types))
    else (card_text digits s1 s2 s3, (count, types)).
Proof.
  unfold redact_callback. cbn [mask name fst snd]. rewrite credit_card_mask_card.
  destruct (luhnCheck digits).
  - rewrite mask_differs. reflexivity.
  - rewrite str_eqb_refl. reflexivity.
Qed.

(** What is visible in the mask: the last four digits, and no other. *)
Lemma masked_card_digits : digits_of (masked_card digits s1 s2 s3) = skipn 12 digits.
Proof.
  unfold masked_card, digits_of. rewrite !filter_app.
  replace (filter (in_set digit_set) (mask_separator s1 s2 s3)) with (@nil char)
    by (destruct s1, s2, s3; reflexivity).
  replace (filter (in_set digit_set) (stars 4)) with (@nil char) by reflexivity.
  rewrite !app_nil_l. apply digits_of_all. apply Forall_skipn. exact Hdigits.
Qed.

Lemma skipn_length_app {A} (a b : list A) : skipn (length a) (a ++ b) = b.
Proof. induction a; simpl; auto. Qed.

Lemma masked_card_last4 :
  slice_last 4 (masked_card digits s1 s2 s3) = skipn 12 digits /\
  slice_last 4 (card_text digits s1 s2 s3) = skipn 12 digits.
Proof.
  unfold slice_last.
  rewrite (@masked_card_length digits s1 s2 s3 Hlen),
          (@card_text_length digits s1 s2 s3 Hlen).
  split.
  - unfold masked_card. rewrite !app_assoc.
    match goal with
    | |- skipn ?n (?a ++ _) = _ =>
        replace n with (length a); [apply skipn_length_app|]
    end.
    rewrite !length_app. simpl. lia.
  - unfold card_text. rewrite !app_assoc.
    match goal with
    | |- skipn ?n (?a ++ _) = _ =>
        replace n with (length a); [apply skipn_length_app|]
    end.
    rewrite !length_app, !length_firstn, !length_skipn, Hlen. simpl. lia.
Qed.

End Card.

(** *** Texts around a card number *)

Lemma plain_text_digits s :
  plain_text s = true -> Forall (fun c => in_set digit_set c = false) s.
Proof.
  unfold plain_text. rewrite forallb_forall, Forall_forall. intros H c Hc.
  specialize (H c Hc). unfold plain_char in H. apply andb_true_iff in H.
  destruct H as [H _]. apply negb_true_iff in H. exact H.
Qed.

Lemma plain_text_at s : plain_text s = true -> ~ In (ch "@") s.
Proof.
  unfold plain_text. rewrite forallb_forall. intros H Hin.
  specialize (H _ Hin). unfold plain_char in H. apply andb_true_iff in H.
  destruct H as [_ H]. discriminate H.
Qed.

Lemma final_in : forall s x, final s = Some x -> In x s.
Proof.
  induction s as [|c s IH]; intros x H; [discriminate|].
  destruct s as [|c' s]; [injection H as <-; left; reflexivity|].
  rewrite final_cons in H. right. apply IH. exact H.
Qed.

(** *** The card pattern on a card number inside a text *)

Section Group.
Variable g : jsstring.
Hypothesis Hg : length g = 4.
Hypothesis Hd : Forall (fun c => is_digit c = true) g.

Lemma group_word p : word_at (prev_after p g) = true.
Proof.
  destruct g as [|c g']; [discriminate|]. rewrite prev_after_nonempty.
  destruct (final_some c g') as [x Hx]. rewrite Hx. cbn [word_at].
  apply digit_is_word. rewrite Forall_forall in Hd. apply Hd.
  apply final_in. exact Hx.
Qed.

Lemma group_head : exists c g', g = c :: g' /\ is_digit c = true.
Proof.
  destruct g as [|c g']; [discriminate|]. inversion Hd; subst. eauto.
Qed.

Lemma group_then (rest : Regex.regex) (k : cont) p t :
  m (Seq (exactly 4 digit) rest) k p (g ++ t) = m rest k (prev_after p g) t.
Proof.
  rewrite m_seq. pose proof (@m_exactly_app digit_set (m rest k) p g t Hd) as E.
  rewrite Hg in E. exact E.
Qed.

(** An optional separator before the group. *)
Lemma separator_then (rest : Regex.regex) (k : cont) sep p t n :
  (forall p', m rest k p' (g ++ t) = Some n) ->
  m (Seq (opt (Cls false sep_set)) rest) k p (separator_text sep ++ g ++ t) = Some n.
Proof.
  intros H. rewrite m_seq, m_opt.
  destruct group_head as (c & g' & Eg & Hc).
  destruct sep; cbn [separator_text app].
  - pose proof (H p) as Hp. rewrite Eg in Hp |- *. cbn [app] in Hp |- *.
    replace (in_set sep_set c) with false; [exact Hp|].
    symmetry. apply is_digit_range in Hc. unfold in_set, sep_set, space_set, one.
    cbn [app existsb fst snd]. change (ch "-") with 45%N.
    change (ch "0") with 48%N in Hc. change (ch "9") with 57%N in Hc.
    repeat (apply orb_false_iff; split); try reflexivity;
      apply andb_false_iff;
      try (left; apply N.leb_gt; lia); right; apply N.leb_gt; lia.
  - change (js " ") with [32%N]. cbn [app].
    change (in_set sep_set 32%N) with true. cbv iota. rewrite H. reflexivity.
  - change (js "-") with [45%N]. cbn [app].
    change (in_set sep_set 45%N) with true. cbv iota. rewrite H. reflexivity.
Qed.

(** No SSN starts inside a group of four digits. *)
Lemma ssn_group p t : no_match_in ssn_regex p g t.
Proof.
  destruct g as [|a [|b [|c [|d [|]]]]]; try discriminate.
  inversion Hd as [|? ? Ha H1]; subst. inversion H1 as [|? ? Hb H2]; subst.
  inversion H2 as [|? ? Hc H3]; subst. inversion H3 as [|? ? Hdd _]; subst.
  cbn [no_match_in app]. repeat split; apply ssn_needs; cbn [starts word_at].
  - rewrite (@digit_not d "-" Hdd) by (left; reflexivity).
    rewrite !andb_false_r. reflexivity.
  - rewrite (@digit_is_word _ Ha). reflexivity.
  - rewrite (@digit_is_word _ Hb). reflexivity.
  - rewrite (@digit_is_word _ Hc). reflexivity.
Qed.

End Group.

(** *** Around the match *)

Section Around.
Variable St : Type.
Variable cb : jsstring -> St -> jsstring * St.
Variable r : Regex.regex.

(** A text with one match: the callback receives it, the rest stays. *)
Lemma replace_all_one_match before x after st :
  no_match_in r None before (x ++ after) ->
  x <> [] ->
  match_at r (prev_after None before) (x ++ after) = Some (length x) ->
  no_match_in r (prev_after (prev_after None before) x) after [] ->
  (forall p, match_at r p [] = None) ->
  replace_all cb r (before ++ x ++ after) st
  = let (out, st1) := cb x st in (before ++ out ++ after, st1).
Proof.
  intros Hb Hx Hm Ha He. unfold replace_all.
  rewrite (replace_from_no_match cb r before (x ++ after) None st Hb).
  rewrite (@replace_from_match St cb r x after (prev_after None before) st Hx Hm).
  destruct (cb x st) as [out st1].
  rewrite <- (app_nil_r after) at 1.
  rewrite (replace_from_no_match cb r after [] _ st1 Ha).
  cbn [replace_from]. rewrite He, app_nil_r. reflexivity.
Qed.

(** A text in three parts in none of which a match starts. *)
Lemma replace_all_three before x after st :
  no_match_in r None before (x ++ after) ->
  no_match_in r (prev_after None before) x after ->
  no_match_in r (prev_after (prev_after None before) x) after [] ->
  (forall p, match_at r p [] = None) ->
  replace_all cb r (before ++ x ++ after) st = (before ++ x ++ after, st).
Proof.
  intros Hb Hx Ha He. apply replace_all_no_match; [|apply He].
  apply no_match_in_app; [rewrite app_nil_r; exact Hb|].
  apply no_match_in_app; [rewrite app_nil_r; exact Hx|exact Ha].
Qed.

End Around.

(** *** The other patterns around a card number *)

Lemma not_word_not_upper c : is_word c = false -> in_set upper_set c = false.
Proof.
  intros H. destruct (in_set upper_set c) eqn:E; [|reflexivity].
  rewrite (@upper_is_word _ E) in H. discriminate.
Qed.

Lemma starts_cons cs sets c s :
  starts (cs :: sets) (c :: s) = in_set cs c && starts sets s.
Proof. reflexivity. Qed.

Lemma starts_nil cs sets : starts (cs :: sets) [] = false.
Proof. reflexivity. Qed.

Lemma iban_before :
  forall s p rest,
    plain_text s = true ->
    match final s with Some c => is_word c = false | None => True end ->
    starts [upper_set] rest = false ->
    no_match_in iban_regex p s rest.
Proof.
  induction s as [|c s IH]; intros p rest Hs Hf Hr; [exact I|].
  pose proof (@plain_text_digits _ Hs) as Hd.
  assert (Hs' : plain_text s = true).
  { unfold plain_text in *. cbn [forallb] in Hs. apply andb_true_iff in Hs. apply Hs. }
  split.
  - apply iban_needs. apply andb_false_iff. right.
    destruct s as [|c2 [|c3 s]]; cbn [app]; rewrite !starts_cons.
    + rewrite (@starts_first _ _ _ Hr). apply andb_false_r.
    + cbn [final] in Hf. rewrite (@not_word_not_upper _ Hf).
      apply andb_false_r.
    + inversion Hd as [|? ? _ H1]; subst. inversion H1 as [|? ? _ H2]; subst.
      inversion H2 as [|? ? H3 _]; subst. rewrite H3.
      rewrite !andb_false_r. reflexivity.
  - apply IH; [exact Hs'| |exact Hr].
    destruct s as [|c2 s]; [exact I|]. rewrite final_cons in Hf. exact Hf.
Qed.

Lemma iban_end :
  forall s p, plain_text s = true -> no_match_in iban_regex p s [].
Proof.
  induction s as [|c s IH]; intros p Hs; [exact I|].
  pose proof (@plain_text_digits _ Hs) as Hd.
  assert (Hs' : plain_text s = true).
  { unfold plain_text in *. cbn [forallb] in Hs. apply andb_true_iff in Hs. apply Hs. }
  split; [|apply IH; exact Hs'].
  apply iban_needs. apply andb_false_iff. right. rewrite app_nil_r.
  destruct s as [|c2 [|c3 s]]; rewrite ?starts_cons, ?starts_nil.
  - apply andb_false_r.
  - rewrite !andb_false_r. reflexivity.
  - inversion Hd as [|? ? _ H1]; subst. inversion H1 as [|? ? _ H2]; subst.
    inversion H2 as [|? ? H3 _]; subst. rewrite H3.
    rewrite !andb_false_r. reflexivity.
Qed.

Lemma phone_before :
  forall s p rest,
    plain_text s = true ->
    match final s with Some c => N.eqb c (ch "+") = false | None => True end ->
    no_match_in phone_regex p s rest.
Proof.
  induction s as [|c s IH]; intros p rest Hs Hf; [exact I|].
  pose proof (@plain_text_digits _ Hs) as Hd.
  assert (Hs' : plain_text s = true).
  { unfold plain_text in *. cbn [forallb] in Hs. apply andb_true_iff in Hs. apply Hs. }
  split.
  - apply phone_needs. destruct s as [|c2 s]; cbn [app]; rewrite ?starts_cons.
    + cbn [final] in Hf. unfold one. rewrite GlobFacts.in_set_single, Hf. reflexivity.
    + inversion Hd as [|? ? _ H1]; subst. inversion H1 as [|? ? H2 _]; subst.
      rewrite H2. rewrite andb_false_r. reflexivity.
  - apply IH; [exact Hs'|].
    destruct s as [|c2 s]; [exact I|]. rewrite final_cons in Hf. exact Hf.
Qed.

Lemma phone_end :
  forall s p, plain_text s = true -> no_match_in phone_regex p s [].
Proof.
  induction s as [|c s IH]; intros p Hs; [exact I|].
  pose proof (@plain_text_digits _ Hs) as Hd.
  assert (Hs' : plain_text s = true).
  { unfold plain_text in *. cbn [forallb] in Hs. apply andb_true_iff in Hs. apply Hs. }
  split; [|apply IH; exact Hs'].
  apply phone_needs. rewrite app_nil_r.
  destruct s as [|c2 s]; rewrite ?starts_cons, ?starts_nil.
  - apply andb_false_r.
  - inversion Hd as [|? ? _ H1]; subst. inversion H1 as [|? ? H2 _]; subst.
    rewrite H2. rewrite andb_false_r. reflexivity.
Qed.

Lemma card_pattern_needs_digit prev s :
  starts [digit_set] s = false -> match_at credit_card_regex prev s = None.
Proof. intros H. apply card_needs. rewrite H. apply andb_false_r. Qed.

Lemma ssn_pattern_needs_digit prev s :
  starts [digit_set] s = false -> match_at ssn_regex prev s = None.
Proof.
  intros H. apply ssn_needs. rewrite (@starts_first _ _ _ H). apply andb_false_r.
Qed.

Lemma iban_pattern_needs_upper prev s :
  starts [upper_set] s = false -> match_at iban_regex prev s = None.
Proof.
  intros H. apply iban_needs. rewrite (@starts_first _ _ _ H). apply andb_false_r.
Qed.

Lemma phone_pattern_needs_plus prev s :
  starts [[one "+"]] s = false -> match_at phone_regex prev s = None.
Proof. intros H. apply phone_needs. apply starts_first. exact H. Qed.

(** What stands in the middle: a card number or its mask. *)
Section Middle.
Variables before x after : jsstring.
Hypothesis Hbefore : plain_text before = true.
Hypothesis Hafter : plain_text after = true.
Hypothesis Hapart : set_apart before after = true.
Hypothesis Hx_head : starts [upper_set] (x ++ after) = false.
Hypothesis Hx_upper : Forall (fun c => in_set upper_set c = false) x.
Hypothesis Hx_plus : Forall (fun c => in_set [one "+"] c = false) x.
Hypothesis Hx_at : ~ In (ch "@") x.
Hypothesis Hx_ssn : forall p t, no_match_in ssn_regex p x t.

Lemma apart_final :
  match final before with
  | Some c => is_word c = false /\ N.eqb c (ch "+") = false
  | None => True
  end.
Proof.
  unfold set_apart in Hapart. apply andb_true_iff in Hapart.
  destruct Hapart as [H _]. destruct (final before); [|exact I].
  apply andb_true_iff in H. destruct H as [H1 H2].
  apply negb_true_iff in H1, H2. split; assumption.
Qed.

Lemma others_leave (St : Type) (cb : jsstring -> St -> jsstring * St) r st :
  In r [iban_regex; ssn_regex; email_regex; phone_regex] ->
  replace_all cb r (before ++ x ++ after) st = (before ++ x ++ after, st).
Proof.
  intros Hr. pose proof apart_final as Hf.
  cbn [In] in Hr. destruct Hr as [<-|[<-|[<-|[<-|[]]]]]; apply replace_all_three.
  - apply iban_before; [exact Hbefore| |exact Hx_head].
    destruct (final before); [apply Hf|exact I].
  - apply first_unit_needed with (cs := upper_set);
      [exact iban_pattern_needs_upper|exact Hx_upper].
  - apply iban_end. exact Hafter.
  - intros p. apply iban_pattern_needs_upper. reflexivity.
  - apply first_unit_needed with (cs := digit_set);
      [exact ssn_pattern_needs_digit|apply plain_text_digits; exact Hbefore].
  - apply Hx_ssn.
  - apply first_unit_needed with (cs := digit_set);
      [exact ssn_pattern_needs_digit|apply plain_text_digits; exact Hafter].
  - intros p. apply ssn_pattern_needs_digit. reflexivity.
  - apply email_quiet. intros H. apply in_app_or in H. destruct H as [H|H].
    + exact (@plain_text_at _ Hbefore H).
    + apply in_app_or in H. destruct H as [H|H]; [exact (Hx_at H)|].
      exact (@plain_text_at _ Hafter H).
  - apply email_quiet. intros H. apply in_app_or in H. destruct H as [H|H].
    + exact (Hx_at H).
    + exact (@plain_text_at _ Hafter H).
  - apply email_quiet. rewrite app_nil_r. apply plain_text_at. exact Hafter.
  - intros p. apply email_needs. intros [].
  - apply phone_before; [exact Hbefore|].
    destruct (final before); [apply Hf|exact I].
  - apply first_unit_needed with (cs := [one "+"]);
      [exact phone_pattern_needs_plus|exact Hx_plus].
  - apply phone_end. exact Hafter.
  - intros p. apply phone_pattern_needs_plus. reflexivity.
Qed.

End Middle.

(** *** A card number and its mask as the middle of a text *)

Lemma card_text_Forall (P : char -> Prop) digits s1 s2 s3 :
  Forall P digits -> P 32%N -> P 45%N ->
  Forall P (card_text digits s1 s2 s3).
Proof.
  intros Hd Hs Hh.
  assert (Hsep : forall s, Forall P (separator_text s)).
  { intros s. destruct s; repeat constructor; assumption. }
  unfold card_text.
  repeat (apply Forall_app; split);
    try apply Hsep; try apply Forall_firstn; try apply Forall_skipn; exact Hd.
Qed.

Lemma masked_card_Forall (P : char -> Prop) digits s1 s2 s3 :
  Forall P digits -> P 32%N -> P 45%N -> P 42%N ->
  Forall P (masked_card digits s1 s2 s3).
Proof.
  intros Hd Hs Hh Hstar.
  assert (Hsep : Forall P (mask_separator s1 s2 s3)).
  { destruct s1, s2, s3; repeat constructor; assumption. }
  unfold masked_card.
  repeat (apply Forall_app; split);
    try exact Hsep; try (repeat constructor; exact Hstar).
  apply Forall_skipn. exact Hd.
Qed.

Lemma ssn_nondigits s p t :
  Forall (fun c => in_set digit_set c = false) s -> no_match_in ssn_regex p s t.
Proof.
  apply first_unit_needed with (cs := digit_set). exact ssn_pattern_needs_digit.
Qed.

Lemma digits_of_none s :
  Forall (fun c => in_set digit_set c = false) s -> digits_of s = [].
Proof.
  induction 1 as [|c s Hc _ IH]; [reflexivity|].
  unfold digits_of in *. cbn [filter]. rewrite Hc. exact IH.
Qed.

Section InText.
Variable digits : jsstring.
Variables s1 s2 s3 : Separator.
Variables before after : jsstring.
Hypothesis Hlen : length digits = 16.
Hypothesis Hdigits : Forall (fun c => is_digit c = true) digits.
Hypothesis Hbefore : plain_text before = true.
Hypothesis Hafter : plain_text after = true.
Hypothesis Hapart : set_apart before after = true.

Lemma group_lengths :
  length (firstn 4 digits) = 4 /\ length (firstn 4 (skipn 4 digits)) = 4 /\
  length (firstn 4 (skipn 8 digits)) = 4 /\ length (skipn 12 digits) = 4.
Proof.
  rewrite !length_firstn, !length_skipn, Hlen. repeat split.
Qed.

Lemma group_digits :
  Forall (fun c => is_digit c = true) (firstn 4 digits) /\
  Forall (fun c => is_digit c = true) (firstn 4 (skipn 4 digits)) /\
  Forall (fun c => is_digit c = true) (firstn 4 (skipn 8 digits)) /\
  Forall (fun c => is_digit c = true) (skipn 12 digits).
Proof.
  repeat split; try apply Forall_firstn; try apply Forall_skipn; exact Hdigits.
Qed.

Lemma card_text_nonempty : card_text digits s1 s2 s3 <> [].
Proof.
  intros E. pose proof (@card_text_length digits s1 s2 s3 Hlen) as L.
  rewrite E in L. cbn [length] in L. lia.
Qed.

(** The card pattern finds the card number where it stands. *)
Lemma card_found :
  match_at credit_card_regex (prev_after None before)
    (card_text digits s1 s2 s3 ++ after)
  = Some (length (card_text digits s1 s2 s3)).
Proof.
  destruct group_lengths as (L1 & L2 & L3 & L4).
  destruct group_digits as (D1 & D2 & D3 & D4).
  assert (Hm : m credit_card_regex done (prev_after None before)
                 (card_text digits s1 s2 s3 ++ after) = Some (length after)).
  { unfold credit_card_regex, card_text. cbn [seq]. rewrite <- !app_assoc.
    rewrite m_seq, m_WordB.
    assert (Hp : word_at (prev_after None before) = false).
    { pose proof (@apart_final before after Hapart) as Hf. unfold prev_after.
      destruct (final before); [apply Hf|reflexivity]. }
    destruct (@group_head _ L1 D1) as (c & g' & Eg & Hc).
    rewrite Hp, Eg. cbn [app hd_error word_at]. rewrite (@digit_is_word _ Hc).
    cbn [xorb]. change (c :: g' ++ ?t) with ((c :: g') ++ t). rewrite <- Eg.
    rewrite (@group_then _ L1 D1).
    apply (@separator_then _ L2 D2). intros p2. rewrite (@group_then _ L2 D2).
    apply (@separator_then _ L3 D3). intros p3. rewrite (@group_then _ L3 D3).
    apply (@separator_then _ L4 D4). intros p4. rewrite (@group_then _ L4 D4).
    rewrite m_WordB, (@group_word _ L4 D4).
    unfold set_apart in Hapart. apply andb_true_iff in Hapart.
    destruct Hapart as [_ Ha]. apply negb_true_iff in Ha. rewrite Ha.
    reflexivity. }
  unfold match_at. rewrite Hm, length_app, Nat.add_sub. reflexivity.
Qed.

(** The pass of the card pattern. *)
Lemma card_pass (St : Type) (cb : jsstring -> St -> jsstring * St) st :
  replace_all cb credit_card_regex (before ++ card_text digits s1 s2 s3 ++ after) st
  = let (out, st1) := cb (card_text digits s1 s2 s3) st in
    (before ++ out ++ after, st1).
Proof.
  apply replace_all_one_match.
  - apply first_unit_needed with (cs := digit_set);
      [exact card_pattern_needs_digit|apply plain_text_digits; exact Hbefore].
  - exact card_text_nonempty.
  - exact card_found.
  - apply first_unit_needed with (cs := digit_set);
      [exact card_pattern_needs_digit|apply plain_text_digits; exact Hafter].
  - intros p. apply card_pattern_needs_digit. reflexivity.
Qed.

Lemma digits_no_upper : Forall (fun c => in_set upper_set c = false) digits.
Proof. eapply Forall_impl; [|exact Hdigits]. exact digit_not_upper. Qed.

Lemma digits_no_plus : Forall (fun c => in_set [one "+"] c = false) digits.
Proof.
  eapply Forall_impl; [|exact Hdigits]. intros c Hc.
  apply digit_not; [exact Hc|left; reflexivity].
Qed.

Lemma digits_no_at : Forall (fun c => c <> ch "@") digits.
Proof.
  eapply Forall_impl; [|exact Hdigits]. intros c Hc ->. discriminate Hc.
Qed.

Lemma no_at x : Forall (fun c => c <> ch "@") x -> ~ In (ch "@") x.
Proof.
  intros H Hin. rewrite Forall_forall in H. exact (H _ Hin eq_refl).
Qed.

Lemma head_not_upper x :
  x <> [] -> Forall (fun c => in_set upper_set c = false) x ->
  starts [upper_set] (x ++ after) = false.
Proof.
  intros Hx H. destruct x as [|c x]; [contradiction|].
  inversion H; subst. cbn [app]. rewrite starts_cons.
  replace (in_set upper_set c) with false by (symmetry; assumption). reflexivity.
Qed.

Lemma ssn_in_card p t : no_match_in ssn_regex p (card_text digits s1 s2 s3) t.
Proof.
  destruct group_lengths as (L1 & L2 & L3 & L4).
  destruct group_digits as (D1 & D2 & D3 & D4).
  assert (Hsep : forall s q u, no_match_in ssn_regex q (separator_text s) u).
  { intros s q u. apply ssn_nondigits. destruct s; repeat constructor. }
  unfold card_text.
  apply no_match_in_app; [apply (@ssn_group _ L1 D1)|].
  apply no_match_in_app; [apply Hsep|].
  apply no_match_in_app; [apply (@ssn_group _ L2 D2)|].
  apply no_match_in_app; [apply Hsep|].
  apply no_match_in_app; [apply (@ssn_group _ L3 D3)|].
  apply no_match_in_app; [apply Hsep|].
  apply (@ssn_group _ L4 D4).
Qed.

Lemma ssn_in_mask p t : no_match_in ssn_regex p (masked_card digits s1 s2 s3) t.
Proof.
  destruct group_lengths as (_ & _ & _ & L4).
  destruct group_digits as (_ & _ & _ & D4).
  assert (Hsep : forall q u, no_match_in ssn_regex q (mask_separator s1 s2 s3) u).
  { intros q u. apply ssn_nondigits. destruct s1, s2, s3; repeat constructor. }
  assert (Hstars : forall q u, no_match_in ssn_regex q (stars 4) u).
  { intros q u. apply ssn_nondigits. repeat constructor. }
  unfold masked_card.
  apply no_match_in_app; [apply Hstars|].
  apply no_match_in_app; [apply Hsep|].
  apply no_match_in_app; [apply Hstars|].
  apply no_match_in_app; [apply Hsep|].
  apply no_match_in_app; [apply Hstars|].
  apply no_match_in_app; [apply Hsep|].
  apply (@ssn_group _ L4 D4).
Qed.

Lemma masked_card_nonempty : masked_card digits s1 s2 s3 <> [].
Proof. discriminate. Qed.

(** The later patterns leave the text as the card pattern left it. *)
Lemma others_leave_card (St : Type) (cb : jsstring -> St -> jsstring * St) r st :
  In r [iban_regex; ssn_regex; email_regex; phone_regex] ->
  replace_all cb r (before ++ card_text digits s1 s2 s3 ++ after) st
  = (before ++ card_text digits s1 s2 s3 ++ after, st).
Proof.
  apply others_leave; try assumption.
  - apply head_not_upper; [exact card_text_nonempty|].
    apply card_text_Forall; [exact digits_no_upper|reflexivity|reflexivity].
  - apply card_text_Forall; [exact digits_no_upper|reflexivity|reflexivity].
  - apply card_text_Forall; [exact digits_no_plus|reflexivity|reflexivity].
  - apply no_at. apply card_text_Forall; [exact digits_no_at|discriminate|discriminate].
  - exact ssn_in_card.
Qed.

Lemma others_leave_mask (St : Type) (cb : jsstring -> St -> jsstring * St) r st :
  In r [iban_regex; ssn_regex; email_regex; phone_regex] ->
  replace_all cb r (before ++ masked_card digits s1 s2 s3 ++ after) st
  = (before ++ masked_card digits s1 s2 s3 ++ after, st).
Proof.
  apply others_leave; try assumption.
  - apply head_not_upper; [exact masked_card_nonempty|].
    apply masked_card_Forall;
      [exact digits_no_upper|reflexivity|reflexivity|reflexivity].
  - apply masked_card_Forall;
      [exact digits_no_upper|reflexivity|reflexivity|reflexivity].
  - apply masked_card_Forall;
      [exact digits_no_plus|reflexivity|reflexivity|reflexivity].
  - apply no_at. apply masked_card_Forall;
      [exact digits_no_at|discriminate|discriminate|discriminate].
  - exact ssn_in_mask.
Qed.

(** The redaction of a text that holds a card number. *)
Lemma redactString_card_in_text (types : TypeSet) :
  redactString (before ++ card_text digits s1 s2 s3 ++ after) types
  = if luhnCheck digits
    then (before ++ masked_card digits s1 s2 s3 ++ after,
          (1, set_add (js "credit_card") types))
    else (before ++ card_text digits s1 s2 s3 ++ after, (0, types)).
Proof.
  unfold redactString, PATTERNS. cbn [fold_left regex fst snd].
  rewrite card_pass, (@redact_callback_card digits s1 s2 s3 Hlen Hdigits).
  destruct (luhnCheck digits); cbn [fst snd].
  - rewrite !others_leave_mask; cbn [fst snd]; simpl; auto 6.
  - rewrite !others_leave_card; cbn [fst snd]; simpl; auto 6.
Qed.

(** The digits left in the text are those the mask shows. *)
Lemma digits_left :
  digits_of (before ++ masked_card digits s1 s2 s3 ++ after) = skipn 12 digits.
Proof.
  unfold digits_of. rewrite !filter_app.
  fold (digits_of before) (digits_of after) (digits_of (masked_card digits s1 s2 s3)).
  rewrite (digits_of_none (plain_text_digits _ Hbefore)),
          (digits_of_none (plain_text_digits _ Hafter)),
          (@masked_card_digits digits s1 s2 s3 Hdigits).
  rewrite app_nil_r. reflexivity.
Qed.

End InText.


(** C2, as stated, fails in several ways. A 15-digit number that passes
    the Luhn check is not recognised at all: it is left unmodified and
    counts for nothing. A 16-digit number with mixed separators is masked
    with hyphens throughout, so its grouping is not preserved. A valid
    16-digit number that follows a letter is not matched, and neither is
    one that follows another group of digits, which the pattern takes
    into a match that fails the check. Behind a masked number an [@] makes
    the email pattern take its last four digits, and before a number that
    fails the check a [+] makes the phone pattern mask it. *)
Lemma card_numbers_left_or_regrouped :
  (length fifteen_digits = 15 /\
   luhnCheck fifteen_digits = true /\
   redactPII (JStr fifteen_digits)
   = {| redactedData := JStr fifteen_digits; redactionCount := 0;
        redactedTypes := [] |}) /\
  (luhnCheck mixed_separators = true /\
   redactedData (redactPII (JStr mixed_separators))
   = JStr (js "****-****-****-1111")) /\
  (luhnCheck (js "4111111111111111") = true /\
   redactPII (JStr (js "x4111111111111111"))
   = {| redactedData := JStr (js "x4111111111111111"); redactionCount := 0;
        redactedTypes := [] |} /\
   redactPII (JStr (js "1234 4111 1111 1111 1111"))
   = {| redactedData := JStr (js "1234 4111 1111 1111 1111"); redactionCount := 0;
        redactedTypes := [] |} /\
   redactedData (redactPII (JStr (js "4111 1111 1111 1111@x.com")))
   = JStr (js "**** **** **** 1***@x.com")) /\
  (luhnCheck (js "4111111111111112") = false /\
   redactPII (JStr (js "+4111 1111 1111 1112"))
   = {| redactedData := JStr (js "+41***11 1112"); redactionCount := 1;
        redactedTypes := [js "phone"] |}).
Proof. repeat split; vm_compute; reflexivity. Qed.

(** C2, amended: take a text that holds sixteen digits in four groups of
    four, neighbouring groups written together or joined by one space or
    one hyphen; let the rest of the text hold no digit and no [@], let no
    letter, underscore or [+] stand directly before the number and no
    letter or underscore directly behind it. The engine decides by the
    Luhn check. When the number fails it the text is returned unmodified,
    with count 0 and no category. When the number passes it, it is
    replaced by three groups of four mask characters and its last group as
    it was, the rest of the text stays, the count is 1 and the category
    [credit_card]; the groups are joined by a hyphen if the number holds a
    hyphen, else by a space if it holds a space, else by nothing, so a
    number grouped the same way throughout keeps its separator. The only
    digits left in the text are the last four of the number, which are
    also the last four characters of the mask. *)
Theorem card_number_redaction
    (digits : jsstring) (s1 s2 s3 : Separator) (before after : jsstring) :
  length digits = 16 ->
  Forall (fun c => is_digit c = true) digits ->
  plain_text before = true ->
  plain_text after = true ->
  set_apart before after = true ->
  redactPII (JStr (before ++ card_text digits s1 s2 s3 ++ after))
  = (if luhnCheck digits
     then {| redactedData := JStr (before ++ masked_card digits s1 s2 s3 ++ after);
             redactionCount := 1; redactedTypes := [js "credit_card"] |}
     else {| redactedData := JStr (before ++ card_text digits s1 s2 s3 ++ after);
             redactionCount := 0; redactedTypes := [] |}) /\
  digits_of (before ++ masked_card digits s1 s2 s3 ++ after) = slice_last 4 digits /\
  slice_last 4 (masked_card digits s1 s2 s3)
  = slice_last 4 (card_text digits s1 s2 s3) /\
  (s1 = s2 -> s2 = s3 ->
   masked_card digits s1 s2 s3
   = stars 4 ++ separator_text s1 ++ stars 4 ++ separator_text s1 ++
     stars 4 ++ separator_text s1 ++ slice_last 4 digits).
Proof.
  intros Hlen Hdigits Hbefore Hafter Hapart.
  assert (Hlast : slice_last 4 digits = skipn 12 digits)
    by (unfold slice_last; rewrite Hlen; reflexivity).
  split; [|split; [|split]].
  - unfold redactPII. rewrite RedactionEquations.redactRecursive_str.
    rewrite (@redactString_card_in_text digits s1 s2 s3 before after Hlen Hdigits
               Hbefore Hafter Hapart []).
    destruct (luhnCheck digits); reflexivity.
  - rewrite Hlast. apply digits_left; assumption.
  - destruct (@masked_card_last4 digits s1 s2 s3 Hlen) as [-> ->]. reflexivity.
  - intros <- <-. rewrite Hlast. destruct s1; reflexivity.
Qed.

(** C2 tried on two messages: [4111 1111 1111 1111] passes the check and
    is masked where it stands, [4111 1111 1111 1112] fails it and stays. *)
Lemma card_number_redaction_witness :
  redactPII (JStr (js "card 4111 1111 1111 1111 declined"))
  = {| redactedData := JStr (js "card **** **** **** 1111 declined");
       redactionCount := 1; redactedTypes := [js "credit_card"] |} /\
  redactPII (JStr (js "order 4111-1111-1111-1112, shipped"))
  = {| redactedData := JStr (js "order 4111-1111-1111-1112, shipped");
       redactionCount := 0; redactedTypes := [] |}.
Proof.
  split.
  - exact (proj1 (@card_number_redaction (js "4111111111111111")
                    Spaced Spaced Spaced (js "card ") (js " declined") eq_refl
                    ltac:(repeat constructor) eq_refl eq_refl eq_refl)).
  - exact (proj1 (@card_number_redaction (js "4111111111111112")
                    Hyphenated Hyphenated Hyphenated (js "order ") (js ", shipped")
                    eq_refl ltac:(repeat constructor) eq_refl eq_refl eq_refl)).
Defined.

End CardFacts.

(** ** The Luhn check (lib/piiRedaction.ts) *)

Module LuhnFacts.
Import BlindFacts CardFacts.

Lemma luhn_loop_sum l : forall alt sum,
  luhn_loop l alt sum = (sum + luhn_loop l alt 0)%N.
Proof.
  induction l as [|c l IH]; intros alt sum; cbn [luhn_loop].
  - lia.
  - rewrite IH. rewrite (IH (negb alt) (0 + _)%N). lia.
Qed.

Lemma luhn_loop_app l1 : forall l2 alt sum,
  luhn_loop (l1 ++ l2) alt sum
  = luhn_loop l2 (if Nat.even (length l1) then alt else negb alt)
      (luhn_loop l1 alt sum).
Proof.
  induction l1 as [|c l1 IH]; intros l2 alt sum; [reflexivity|].
  cbn [app luhn_loop length]. rewrite IH. rewrite Nat.even_succ, <- Nat.negb_even.
  destruct (Nat.even (length l1)); cbn [negb]; [reflexivity|].
  rewrite negb_involutive. reflexivity.
Qed.

Lemma luhn_term_lt alt c : is_digit c = true -> (luhn_term alt c < 10)%N.
Proof.
  intros H. apply is_digit_range in H. unfold luhn_term.
  change (ch "0") with 48%N in *. change (ch "9") with 57%N in *.
  destruct alt; [|lia].
  destruct (N.ltb_spec 9 ((c - 48) * 2)); lia.
Qed.

Lemma luhn_term_inj alt x y :
  is_digit x = true -> is_digit y = true ->
  luhn_term alt x = luhn_term alt y -> x = y.
Proof.
  intros Hx Hy. apply is_digit_range in Hx, Hy. unfold luhn_term.
  change (ch "0") with 48%N in *. change (ch "9") with 57%N in *.
  destruct alt; [|lia].
  destruct (N.ltb_spec 9 ((x - 48) * 2)), (N.ltb_spec 9 ((y - 48) * 2)); lia.
Qed.

Lemma digits_of_app a b : digits_of (a ++ b) = digits_of a ++ digits_of b.
Proof. apply filter_app. Qed.

Lemma digits_of_digit c b :
  is_digit c = true -> digits_of (c :: b) = c :: digits_of b.
Proof.
  intros H. unfold digits_of. cbn [filter].
  change (in_set digit_set c) with (is_digit c). rewrite H. reflexivity.
Qed.

(** The sum of a number with one digit singled out. *)
Lemma luhn_sum_split a x b :
  is_digit x = true ->
  luhn_loop (rev (digits_of (a ++ x :: b))) false 0
  = (luhn_loop (rev (digits_of b)) false 0
     + luhn_term (negb (Nat.even (length (digits_of b)))) x
     + luhn_loop (rev (digits_of a)) (Nat.even (length (digits_of b))) 0)%N.
Proof.
  intros Hx. rewrite digits_of_app, (@digits_of_digit x b Hx).
  rewrite rev_app_distr. cbn [rev]. rewrite <- app_assoc. cbn [app].
  rewrite luhn_loop_app, length_rev. cbn [luhn_loop].
  rewrite luhn_loop_sum. fold (luhn_term (if Nat.even (length (digits_of b)) then false else negb false) x).
  destruct (Nat.even (length (digits_of b))); cbn [negb]; lia.
Qed.

(** X1: [luhnCheck] tells a number from the same number with one digit
    replaced by another: if the first passes, the second fails. Characters
    that are no digits, anywhere in the text, play no part. *)
Theorem luhnCheck_detects_one_wrong_digit (a b : jsstring) (x y : char) :
  is_digit x = true -> is_digit y = true -> x <> y ->
  luhnCheck (a ++ x :: b) = true ->
  luhnCheck (a ++ y :: b) = false.
Proof.
  intros Hx Hy Hxy. unfold luhnCheck. cbv zeta.
  rewrite !luhn_sum_split by assumption.
  set (alt := negb (Nat.even (length (digits_of b)))).
  pose proof (@luhn_term_lt alt x Hx) as Lx.
  pose proof (@luhn_term_lt alt y Hy) as Ly.
  assert (Hne : luhn_term alt x <> luhn_term alt y)
    by (intros E; apply Hxy; eapply luhn_term_inj; eauto).
  set (tx := luhn_term alt x) in *. set (ty := luhn_term alt y) in *.
  set (B := luhn_loop (rev (digits_of b)) false 0).
  set (A := luhn_loop (rev (digits_of a)) _ 0).
  intros H. apply N.eqb_eq in H. apply N.eqb_neq. intros H'.
  clearbody tx ty A B.
  pose proof (N.div_mod' (B + tx + A) 10) as D1.
  pose proof (N.div_mod' (B + ty + A) 10) as D2.
  rewrite H in D1. rewrite H' in D2. lia.
Qed.

Lemma luhnCheck_detects_one_wrong_digit_witness :
  luhnCheck (js "4111 1111 1111 1111") = true /\
  luhnCheck (js "4111 1171 1111 1111") = false.
Proof.
  split; [reflexivity|].
  apply (@luhnCheck_detects_one_wrong_digit (js "4111 11") (js "1 1111 1111") (ch "1") (ch "7"));
    [reflexivity|reflexivity|discriminate|reflexivity].
Defined.

End LuhnFacts.

(** ** Social security numbers (lib/piiRedaction.ts) *)

Module SsnFacts.
Import BlindFacts CardFacts.

Section Ssn.
Variable digits : jsstring.
Hypothesis Hlen : length digits = 9.
Hypothesis Hdigits : Forall (fun c => is_digit c = true) digits.

Lemma ssn_text_length : length (ssn_text digits) = 11.
Proof.
  unfold ssn_text. rewrite !length_app, !length_firstn, !length_skipn, Hlen.
  reflexivity.
Qed.

Lemma zero_ssn : zero_digits (ssn_text digits) = js "000-00-0000".
Proof.
  unfold ssn_text, zero_digits. rewrite !map_app, <- !firstn_map, <- !skipn_map.
  fold (zero_digits digits). rewrite (@zero_digits_all digits Hdigits), Hlen.
  reflexivity.
Qed.

Lemma earlier_patterns_leave_ssn (St : Type) (cb : jsstring -> St -> jsstring * St) r st :
  In r [credit_card_regex; iban_regex] ->
  replace_all cb r (ssn_text digits) st = (ssn_text digits, st).
Proof.
  intros Hr. apply replace_all_unmatched.
  - simpl in Hr. decompose [or] Hr; subst; try reflexivity; contradiction.
  - rewrite zero_ssn.
    simpl in Hr. decompose [or] Hr; subst; try contradiction; vm_compute; reflexivity.
  - rewrite zero_ssn, ssn_text_length.
    simpl in Hr. decompose [or] Hr; subst; try contradiction; vm_compute; lia.
Qed.

Lemma ssn_pattern_takes_ssn (St : Type) (cb : jsstring -> St -> jsstring * St) st :
  replace_all cb ssn_regex (ssn_text digits) st = cb (ssn_text digits) st.
Proof.
  apply replace_all_whole.
  - reflexivity.
  - rewrite ssn_text_length. lia.
  - rewrite zero_ssn, ssn_text_length. vm_compute. reflexivity.
Qed.

Lemma ssn_mask_differs : str_eqb (js "***-**-****") (ssn_text digits) = false.
Proof.
  destruct digits as [|d rest]; [discriminate|].
  inversion Hdigits as [|x l Hd Hrest]; subst.
  assert (H : exists b, ssn_text (d :: rest) = d :: b) by (eexists; reflexivity).
  destruct H as [b ->].
  change (js "***-**-****") with (ch "*" :: js "**-**-****"). cbn [str_eqb].
  rewrite (@digit_is_not d (ch "*") Hd) by (left; reflexivity). reflexivity.
Qed.

Lemma redact_callback_ssn count types :
  redact_callback
    {| name := js "ssn"; regex := ssn_regex; mask := ssn_mask |}
    (ssn_text digits) (count, types)
  = (js "***-**-****", (S count, set_add (js "ssn") types)).
Proof.
  unfold redact_callback. cbn [mask name fst snd]. unfold ssn_mask.
  rewrite ssn_mask_differs. reflexivity.
Qed.

Lemma later_patterns_leave_ssn_mask (St : Type) (cb : jsstring -> St -> jsstring * St) r st :
  In r [email_regex; phone_regex] ->
  replace_all cb r (js "***-**-****") st = (js "***-**-****", st).
Proof.
  intros Hr. apply replace_all_unmatched.
  - simpl in Hr. decompose [or] Hr; subst; try reflexivity; contradiction.
  - simpl in Hr. decompose [or] Hr; subst; try contradiction; vm_compute; reflexivity.
  - simpl in Hr. decompose [or] Hr; subst; try contradiction; vm_compute; lia.
Qed.

Lemma redactString_ssn (types : TypeSet) :
  redactString (ssn_text digits) types
  = (js "***-**-****", (1, set_add (js "ssn") types)).
Proof.
  unfold redactString, PATTERNS. cbn [fold_left regex fst snd].
  rewrite !earlier_patterns_leave_ssn by (simpl; auto).
  cbn [fst snd]. rewrite ssn_pattern_takes_ssn, redact_callback_ssn.
  cbn [fst snd].
  rewrite !later_patterns_leave_ssn_mask by (simpl; auto). reflexivity.
Qed.
End Ssn.

(** X2: a string that is a social security number written [ddd-dd-dddd]
    is redacted to [***-**-****], counted once, under the one type [ssn]. *)
Theorem ssn_redaction (digits : jsstring) :
  length digits = 9 ->
  Forall (fun c => is_digit c = true) digits ->
  redactPII (JStr (ssn_text digits))
  = {| redactedData := JStr (js "***-**-****");
       redactionCount := 1;
       redactedTypes := [js "ssn"] |}.
Proof.
  intros Hlen Hd. unfold redactPII. cbn [redactRecursive].
  rewrite (@redactString_ssn digits Hlen Hd). reflexivity.
Qed.

Lemma ssn_redaction_witness :
  redactPII (JStr (js "123-45-6789"))
  = {| redactedData := JStr (js "***-**-****");
       redactionCount := 1;
       redactedTypes := [js "ssn"] |}.
Proof.
  apply (@ssn_redaction (js "123456789")); [reflexivity|].
  repeat constructor.
Defined.

End SsnFacts.

(** ** Counts and types of a redaction (lib/piiRedaction.ts) *)

Module RedactionFacts.
Import RedactionEquations.

Lemma tracks_refl t : tracks t 0 t.
Proof.
  repeat split; try tauto; try lia.
  exists []. rewrite app_nil_r. split; [reflexivity|constructor].
Qed.

Lemma tracks_trans t0 n1 t1 n2 t2 :
  tracks t0 n1 t1 -> tracks t1 n2 t2 -> tracks t0 (n1 + n2) t2.
Proof.
  intros (Z1 & P1 & (a1 & E1 & F1) & D1) (Z2 & P2 & (a2 & E2 & F2) & D2).
  repeat split.
  - intros H. rewrite Z2, Z1 by lia. reflexivity.
  - intros H. destruct n2 as [|n2].
    + rewrite Z2 by reflexivity. apply P1. lia.
    + apply P2. lia.
  - exists (a1 ++ a2). split.
    + rewrite E2, E1, app_assoc. reflexivity.
    + apply Forall_app. split; assumption.
  - auto.
Qed.

Lemma existsb_str_eqb x l : existsb (str_eqb x) l = true <-> In x l.
Proof.
  rewrite existsb_exists. split.
  - intros (y & Hy & E). apply str_eqb_eq in E. subst. exact Hy.
  - intros H. exists x. split; [exact H|apply str_eqb_refl].
Qed.

Lemma tracks_add p t : In p PATTERNS -> tracks t 1 (set_add (name p) t).
Proof.
  intros Hp. unfold set_add, tracks.
  destruct (existsb (str_eqb (name p)) t) eqn:E.
  - apply existsb_str_eqb in E. split; [|split; [|split]].
    + reflexivity.
    + intros _ H. rewrite H in E. destruct E.
    + exists []. rewrite app_nil_r. split; [reflexivity|constructor].
    + tauto.
  - split; [|split; [|split]].
    + discriminate.
    + intros _ H. destruct t; discriminate.
    + exists [name p]. split; [reflexivity|].
      constructor; [apply in_map; exact Hp|constructor].
    + intros Hd. apply NoDup_app; [exact Hd|repeat constructor; auto|].
      intros x Hx [<-|[]]. apply existsb_str_eqb in Hx. congruence.
Qed.

(** One call of the callback: it counts exactly when it changes the match. *)
Lemma redact_callback_tracks p match_ c t :
  In p PATTERNS ->
  exists n,
    fst (snd (redact_callback p match_ (c, t))) = c + n /\
    tracks t n (snd (snd (redact_callback p match_ (c, t)))) /\
    (n = 0 -> fst (redact_callback p match_ (c, t)) = match_).
Proof.
  intros Hp. unfold redact_callback.
  destruct (str_eqb (mask p match_) match_) eqn:E; cbn [negb fst snd].
  - exists 0. split; [lia|]. split; [apply tracks_refl|].
    intros _. apply str_eqb_eq. exact E.
  - exists 1. split; [lia|]. split; [apply tracks_add; exact Hp|discriminate].
Qed.

(** One pattern over one string. *)
Lemma replace_from_tracks p :
  In p PATTERNS ->
  forall s prev skip c t,
    exists n,
      fst (snd (replace_from (redact_callback p) (regex p) prev s skip (c, t))) = c + n /\
      tracks t n (snd (snd (replace_from (redact_callback p) (regex p) prev s skip (c, t)))) /\
      (n = 0 ->
       fst (replace_from (redact_callback p) (regex p) prev s skip (c, t)) = skipn skip s).
Proof.
  intros Hp. induction s as [|x s IH]; intros prev skip c t.
  - destruct skip as [|k]; cbn [replace_from].
    + destruct (match_at (regex p) prev []) as [len|].
      * destruct (redact_callback_tracks [] c t Hp) as (n & Hc & Ht & Hs).
        rewrite firstn_nil.
        destruct (redact_callback p [] (c, t)) as [out [c1 t1]]. cbn [fst snd] in *.
        exists n. split; [exact Hc|]. split; [exact Ht|exact Hs].
      * exists 0. cbn [fst snd]. split; [lia|]. split; [apply tracks_refl|reflexivity].
    + exists 0. cbn [fst snd]. split; [lia|]. split; [apply tracks_refl|reflexivity].
  - destruct skip as [|k]; cbn [replace_from].
    + destruct (match_at (regex p) prev (x :: s)) as [len|].
      * destruct (redact_callback_tracks (firstn len (x :: s)) c t Hp)
          as (n & Hc & Ht & Hs).
        destruct (redact_callback p (firstn len (x :: s)) (c, t)) as [out [c1 t1]].
        cbn [fst snd] in *. subst c1.
        destruct len as [|len].
        -- destruct (IH (Some x) 0 (c + n) t1) as (n' & Hc' & Ht' & Hs').
           destruct (replace_from _ _ (Some x) s 0 (c + n, t1)) as [rest [c2 t2]].
           cbn [fst snd] in *. exists (n + n'). split; [lia|].
           split; [eapply tracks_trans; eassumption|].
           intros H0. rewrite Hs, Hs' by lia. reflexivity.
        -- destruct (IH (Some x) len (c + n) t1) as (n' & Hc' & Ht' & Hs').
           destruct (replace_from _ _ (Some x) s len (c + n, t1)) as [rest [c2 t2]].
           cbn [fst snd] in *. exists (n + n'). split; [lia|].
           split; [eapply tracks_trans; eassumption|].
           intros H0. rewrite Hs, Hs' by lia. cbn [firstn skipn app].
           rewrite firstn_skipn. reflexivity.
      * destruct (IH (Some x) 0 c t) as (n' & Hc' & Ht' & Hs').
        destruct (replace_from _ _ (Some x) s 0 (c, t)) as [rest [c2 t2]].
        cbn [fst snd] in *. exists n'. split; [lia|]. split; [exact Ht'|].
        intros H0. rewrite Hs' by exact H0. reflexivity.
    + destruct (IH (Some x) k c t) as (n' & Hc' & Ht' & Hs').
      exists n'. split; [exact Hc'|]. split; [exact Ht'|]. exact Hs'.
Qed.

(** All the patterns over one string. *)
Lemma fold_patterns_tracks (patterns : list RedactionPattern) :
  incl patterns PATTERNS ->
  forall s c t,
    let res := fold_left
                 (fun acc pattern =>
                    replace_all (redact_callback pattern) (regex pattern)
                      (fst acc) (snd acc))
                 patterns (s, (c, t)) in
    exists n,
      fst (snd res) = c + n /\ tracks t n (snd (snd res)) /\
      (n = 0 -> fst res = s).
Proof.
  induction patterns as [|p ps IH]; intros Hincl s c t; cbv zeta; cbn [fold_left].
  - exists 0. cbn [fst snd]. split; [lia|]. split; [apply tracks_refl|reflexivity].
  - cbn [fst snd].
    change (replace_all (redact_callback p) (regex p) s (c, t))
      with (replace_from (redact_callback p) (regex p) None s 0 (c, t)).
    assert (Hp : In p PATTERNS) by (apply Hincl; left; reflexivity).
    destruct (replace_from_tracks Hp s None 0 c t) as (n & Hc & Ht & Hs).
    destruct (replace_from (redact_callback p) (regex p) None s 0 (c, t))
      as [s1 [c1 t1]]. cbn [fst snd] in *. subst c1.
    destruct (IH (fun x Hx => Hincl x (or_intror Hx)) s1 (c + n) t1)
      as (n' & Hc' & Ht' & Hs').
    exists (n + n'). split; [rewrite Hc'; lia|].
    split; [eapply tracks_trans; eassumption|].
    intros H0. rewrite Hs', Hs by lia. reflexivity.
Qed.

Lemma redactString_tracks s t :
  tracks t (fst (snd (redactString s t))) (snd (snd (redactString s t))) /\
  (fst (snd (redactString s t)) = 0 -> fst (redactString s t) = s).
Proof.
  destruct (@fold_patterns_tracks PATTERNS (fun x H => H) s 0 t) as (n & Hc & Ht & Hs).
  cbv zeta in Hc, Ht, Hs. unfold redactString. rewrite Hc.
  change (0 + n) with n. split; assumption.
Qed.

Lemma distinct_keys_app keys k :
  distinct_keys keys = true -> ~ In k keys -> distinct_keys (keys ++ [k]) = true.
Proof.
  induction keys as [|x keys IH]; intros Hd Hk; [reflexivity|].
  cbn [distinct_keys app] in *. apply andb_true_iff in Hd. destruct Hd as [Hx Hd].
  rewrite IH by (auto; intros H; apply Hk; right; exact H).
  rewrite existsb_app. apply negb_true_iff in Hx. rewrite Hx. cbn [existsb orb].
  rewrite orb_false_r, str_eqb_neq; [reflexivity|].
  intros ->. apply Hk. left. reflexivity.
Qed.

Lemma set_prop_fresh k v props :
  existsb (str_eqb k) (map fst props) = false ->
  set_prop k v props = props ++ [(k, v)].
Proof.
  induction props as [|[k' v'] rest IH]; intros H; [reflexivity|].
  cbn [map fst existsb] in H. apply orb_false_iff in H. destruct H as [H1 H2].
  cbn [set_prop app]. rewrite H1, IH by exact H2. reflexivity.
Qed.

(** The recursion over a value. *)
Lemma redactRecursive_tracks : forall v t,
  tracks t (snd (fst (redactRecursive v t))) (snd (redactRecursive v t)) /\
  (plain v = true -> snd (fst (redactRecursive v t)) = 0 ->
   fst (fst (redactRecursive v t)) = v).
Proof.
  induction v as [| | | |s|items IHitems|props IHprops|] using value_ind';
    intros t; try (split; [apply tracks_refl|reflexivity]).
  - rewrite redactRecursive_str.
    destruct (redactString_tracks s t) as [Ht Hs].
    destruct (redactString s t) as [r [c t1]]. cbn [fst snd] in *.
    split; [exact Ht|]. intros _ H. rewrite Hs by exact H. reflexivity.
  - rewrite redactRecursive_arr.
    assert (G : forall t,
               tracks t (snd (fst (redact_items items t))) (snd (redact_items items t)) /\
               (forallb plain items = true -> snd (fst (redact_items items t)) = 0 ->
                fst (fst (redact_items items t)) = items)).
    { clear t. induction IHitems as [|x rest Hx Hrest IH]; intros t.
      - split; [apply tracks_refl|reflexivity].
      - cbn [redact_items forallb].
        destruct (Hx t) as [Ht1 Hs1].
        destruct (redactRecursive x t) as [[r c] t1]. cbn [fst snd] in *.
        destruct (IH t1) as [Ht2 Hs2].
        destruct (redact_items rest t1) as [[rs total] t2]. cbn [fst snd] in *.
        split; [eapply tracks_trans; eassumption|].
        intros Hp H0. apply andb_true_iff in Hp. destruct Hp as [Hp1 Hp2].
        rewrite Hs1, Hs2 by (auto; lia). reflexivity. }
    destruct (G t) as [Ht Hs].
    destruct (redact_items items t) as [[rs total] t1]. cbn [fst snd] in *.
    split; [exact Ht|]. intros Hp H0. cbn [plain] in Hp.
    rewrite Hs by assumption. reflexivity.
  - rewrite redactRecursive_obj.
    assert (G : forall acc n t,
               exists n',
                 snd (fst (redact_entries props acc n t)) = n + n' /\
                 tracks t n' (snd (redact_entries props acc n t)) /\
                 (distinct_keys (map fst acc ++ map fst props) = true ->
                  existsb (str_eqb (js "__proto__")) (map fst props) = false ->
                  forallb (fun kv => plain (snd kv)) props = true ->
                  n' = 0 ->
                  fst (fst (redact_entries props acc n t)) = acc ++ props)).
    { clear t. induction IHprops as [|[k x] rest Hx Hrest IH]; intros acc n t.
      - exists 0. cbn [redact_entries fst snd]. split; [lia|].
        split; [apply tracks_refl|]. intros. rewrite app_nil_r. reflexivity.
      - cbn [redact_entries].
        destruct (Hx t) as [Ht1 Hs1]. cbn [snd] in Ht1, Hs1.
        destruct (redactRecursive x t) as [[r c] t1]. cbn [fst snd] in *.
        destruct (IH (assign k r acc) (n + c) t1) as (n' & Hc & Ht2 & Hs2).
        exists (c + n'). split; [rewrite Hc; lia|].
        split; [eapply tracks_trans; eassumption|].
        intros Hd Hproto Hp H0. cbn [map fst existsb forallb snd] in *.
        apply orb_false_iff in Hproto. destruct Hproto as [Hk Hproto].
        apply andb_true_iff in Hp. destruct Hp as [Hpx Hp].
        assert (Hfresh : existsb (str_eqb k) (map fst acc) = false).
        { clear - Hd. induction acc as [|[a b] acc IHa]; [reflexivity|].
          cbn [map fst app distinct_keys existsb] in *.
          apply andb_true_iff in Hd. destruct Hd as [Ha Hd].
          rewrite IHa by exact Hd. rewrite orb_false_r.
          apply negb_true_iff in Ha. rewrite existsb_app in Ha.
          apply orb_false_iff in Ha. destruct Ha as [_ Ha].
          cbn [existsb] in Ha. apply orb_false_iff in Ha. destruct Ha as [Ha _].
          destruct (str_eqb k a) eqn:E; [|reflexivity].
          apply str_eqb_eq in E. subst. rewrite str_eqb_refl in Ha. discriminate. }
        assert (Ea : assign k r acc = acc ++ [(k, x)]).
        { unfold assign.
          replace (str_eqb k (js "__proto__")) with false.
          - rewrite set_prop_fresh by exact Hfresh.
            rewrite Hs1 by (auto; lia). reflexivity.
          - symmetry. destruct (str_eqb k (js "__proto__")) eqn:E; [|reflexivity].
            apply str_eqb_eq in E. subst. rewrite str_eqb_refl in Hk. discriminate. }
        rewrite Hs2; try assumption; try lia.
        + rewrite Ea, <- app_assoc. reflexivity.
        + rewrite Ea, map_app, <- app_assoc. exact Hd. }
    destruct (G [] 0 t) as (n' & Hc & Ht & Hs).
    destruct (redact_entries props [] 0 t) as [[res total] t1]. cbn [fst snd] in *.
    subst total. split; [exact Ht|].
    intros Hp H0. cbn [plain] in Hp.
    apply andb_true_iff in Hp. destruct Hp as [Hp Hp3].
    apply andb_true_iff in Hp. destruct Hp as [Hp1 Hp2].
    apply negb_true_iff in Hp2.
    rewrite Hs by assumption. reflexivity.
Qed.

(** X3: in the result of [redactPII] the count is zero exactly when no
    type is reported; the types reported are names of [PATTERNS], each at
    most once. *)
Theorem redaction_count_and_types_agree (data : value) :
  (redactionCount (redactPII data) = 0 <-> redactedTypes (redactPII data) = []) /\
  NoDup (redactedTypes (redactPII data)) /\
  incl (redactedTypes (redactPII data)) (map name PATTERNS).
Proof.
  unfold redactPII.
  destruct (redactRecursive_tracks data []) as [(Z & P & (a & E & F) & D) _].
  destruct (redactRecursive data []) as [[r c] t]. cbn [fst snd] in *.
  cbn [redactionCount redactedTypes]. repeat split.
  - exact Z.
  - intros Ht. destruct c as [|c]; [reflexivity|]. exfalso. apply P; [lia|exact Ht].
  - apply D. constructor.
  - rewrite E. cbn [app]. intros x Hx. rewrite Forall_forall in F. apply F. exact Hx.
Qed.

(** X4: when [redactPII] counts nothing, it returns the data as it was,
    for data whose objects have distinct keys, none of them [__proto__]. *)
Theorem nothing_counted_nothing_changed (data : value) :
  plain data = true ->
  redactionCount (redactPII data) = 0 ->
  redactedData (redactPII data) = data.
Proof.
  intros Hp. unfold redactPII.
  destruct (redactRecursive_tracks data []) as [_ H].
  destruct (redactRecursive data []) as [[r c] t]. cbn [fst snd] in *.
  cbn [redactionCount redactedData]. intros H0. apply H; assumption.
Qed.

Lemma nothing_counted_nothing_changed_witness :
  redactedData (redactPII quiet_value) = quiet_value.
Proof.
  apply (@nothing_counted_nothing_changed quiet_value);
    [reflexivity | vm_compute; reflexivity].
Defined.

End RedactionFacts.

(** ** Calls and waits of the retry wrapper (lib/esClient.ts) *)

Module BackoffFacts.
Import RetryFacts.

Lemma backoff_cons config from n :
  backoff config from (S n)
  = (retryDelayMs config * 2 ^ from)%Z :: backoff config (from + 1) n.
Proof.
  unfold backoff. cbn [List.seq map]. rewrite Z.add_0_r. f_equal.
  rewrite <- seq_shift, map_map. apply map_ext. intros i.
  do 2 f_equal. lia.
Qed.

Lemma withRetry_loop_schedule config req :
  forall n attempt before w,
    (Z.of_nat n + attempt = retryAttempts config)%Z ->
    exists k,
      k <= n /\ (0 < n -> 1 <= k) /\
      http_log (snd (withRetry_loop config (http req) n attempt before w))
      = http_log w ++ repeat req k /\
      sleeps (snd (withRetry_loop config (http req) n attempt before w))
      = sleeps w ++ backoff config attempt (k - 1).
Proof.
  induction n as [|n IH]; intros attempt before w Hn.
  - exists 0. cbn [withRetry_loop snd repeat]. rewrite !app_nil_r.
    repeat split; lia.
  - rewrite withRetry_loop_step.
    change (http req w) with (backend w (length (http_log w)) req, snd (http req w)).
    destruct (backend w (length (http_log w)) req) as [t|e].
    + exists 1. cbn [snd http_log sleeps http repeat]. unfold backoff. cbn [List.seq map Nat.sub].
      rewrite app_nil_r. repeat split; lia.
    + destruct (client_error e).
      * exists 1. cbn [snd http_log sleeps http repeat]. unfold backoff.
        cbn [List.seq map Nat.sub]. rewrite app_nil_r. repeat split; lia.
      * destruct n as [|n'].
        -- exists 1. replace (attempt <? retryAttempts config - 1)%Z with false
             by (symmetry; apply Z.ltb_ge; lia).
           cbn [withRetry_loop snd http_log sleeps http repeat]. unfold backoff.
           cbn [List.seq map Nat.sub]. rewrite app_nil_r. repeat split; lia.
        -- replace (attempt <? retryAttempts config - 1)%Z with true
             by (symmetry; apply Z.ltb_lt; lia).
           destruct (IH (attempt + 1)%Z (Some e)
                       (sleep (retryDelayMs config * 2 ^ attempt) (snd (http req w))))
             as (k & Hk & Hpos & Hlog & Hsl); [lia|].
           exists (S k). split; [lia|]. split; [lia|]. split.
           ++ rewrite Hlog. cbn [sleep http_log http snd repeat].
              rewrite <- app_assoc. reflexivity.
           ++ rewrite Hsl. cbn [sleep sleeps http snd].
              destruct k as [|k]; [lia|]. cbn [Nat.sub]. rewrite Nat.sub_0_r.
              rewrite backoff_cons, <- app_assoc. reflexivity.
Qed.

(** X6: [withRetry] makes at most [retryAttempts] calls, all of them the
    one call it was given, and at least one when [retryAttempts] is
    positive; between two calls it waits, first [retryDelayMs], then twice
    as long each time, and it does not wait after the last call. *)
Theorem withRetry_calls_and_backoff
    (config : ServerConfig) (req : Request) (w : World) :
  exists k,
    k <= Z.to_nat (retryAttempts config) /\
    ((0 < retryAttempts config)%Z -> 1 <= k) /\
    http_log (snd (withRetry config (http req) w)) = http_log w ++ repeat req k /\
    sleeps (snd (withRetry config (http req) w))
    = sleeps w ++ backoff config 0 (k - 1).
Proof.
  unfold withRetry.
  destruct (Z.le_gt_cases 0 (retryAttempts config)) as [Hpos|Hneg].
  - destruct (@withRetry_loop_schedule config req (Z.to_nat (retryAttempts config))
                0%Z None w) as (k & Hk & Hp & Hl & Hs); [lia|].
    exists k. repeat split; try assumption. intros H.
    assert (0 < Z.to_nat (retryAttempts config)) by lia. auto.
  - replace (Z.to_nat (retryAttempts config)) with 0 by lia.
    exists 0. cbn [withRetry_loop snd repeat backoff]. unfold backoff.
    cbn [List.seq map Nat.sub]. rewrite !app_nil_r. repeat split; lia.
Qed.

End BackoffFacts.

(** ** Search requests, merged queries, failures (lib/esClient.ts, tools/kibanaSearch.ts, lib/toolWrapper.ts) *)

Module SearchFacts.
Import KibanaSearchFacts AccessFacts.

(** X8: whatever the shape of the body, merging a time range leaves every
    top-level key but [query] as it was and yields a [bool] query, whose
    [filter] list ends with the range filter; a query without a [bool]
    clause becomes the one [must] entry, and a body without a query gets
    the filter alone. *)
Theorem merged_query_ends_with_range
    (body : list (jsstring * value)) (time_range : jsstring) :
  (forall k, k <> js "query" ->
     lookup k (mergeTimeRange body time_range) = lookup k body) /\
  (exists earlier,
     get_opt (get_opt (body_query (mergeTimeRange body time_range)) (js "bool"))
       (js "filter")
     = JArr (earlier ++ [rangeFilter time_range])) /\
  (exists bool,
     classifyQuery (mergeTimeRange body time_range)
     = has_bool bool (mergeTimeRange body time_range)) /\
  match classifyQuery body with
  | has_bool _ _ => True
  | has_query query _ =>
      query = body_query body /\
      body_query (mergeTimeRange body time_range)
      = JObj [(js "bool",
               JObj [(js "must", JArr [query]);
                     (js "filter", JArr [rangeFilter time_range])])]
  | no_query _ =>
      body_query (mergeTimeRange body time_range)
      = JObj [(js "bool", JObj [(js "filter", JArr [rangeFilter time_range])])]
  end.
Proof.
  assert (K : forall q k, k <> js "query" ->
                lookup k (set_prop (js "query") q body) = lookup k body)
    by (intros; apply lookup_set_prop_other; assumption).
  assert (C : forall b, truthy b = true ->
                classifyQuery (set_prop (js "query") (JObj [(js "bool", b)]) body)
                = has_bool b (set_prop (js "query") (JObj [(js "bool", b)]) body)).
  { intros b Hb. unfold classifyQuery.
    rewrite body_query_set_prop, get_opt_single, Hb. reflexivity. }
  unfold mergeTimeRange, classifyQuery.
  destruct (truthy (get_opt (body_query body) (js "bool"))) eqn:Tb;
    [|destruct (truthy (body_query body)) eqn:Tq].
  - split; [apply K|]. split; [|split; [|exact I]].
    + exists (filters_of (get_opt (body_query body) (js "bool"))).
      rewrite body_query_set_prop, get_opt_single, get_opt_set_prop. reflexivity.
    + eexists. apply C. reflexivity.
  - split; [apply K|]. split; [|split].
    + exists []. rewrite body_query_set_prop, get_opt_single. reflexivity.
    + eexists. apply C. reflexivity.
    + split; [reflexivity|apply body_query_set_prop].
  - split; [apply K|]. split; [|split].
    + exists []. rewrite body_query_set_prop, get_opt_single. reflexivity.
    + eexists. apply C. reflexivity.
    + apply body_query_set_prop.
Qed.

(** The requests of a search: the one request, its [size] the smaller of
    the size asked for and the configured cap, whatever [size] the query
    body holds itself; the other keys of the body are sent as they are. *)
(** X7: the requests of a search are repetitions of one request, whose
    [size] is the smaller of the size asked for and [maxSearchSize],
    whatever [size] the query body holds itself; the other keys of the body
    are sent as they are. *)
Theorem search_sends_capped_size
    (config : ServerConfig) (index : jsstring)
    (body : list (jsstring * value)) (size : Z) (w : World) :
  exists sent k,
    http_log (snd (search config index body size w))
    = http_log w ++ repeat (search_request index (JObj sent)) k /\
    lookup (js "size") sent = Some (JNum (Z.min size (maxSearchSize config))) /\
    (Z.min size (maxSearchSize config) <= maxSearchSize config)%Z /\
    (forall key, key <> js "size" -> lookup key sent = lookup key body).
Proof.
  exists (set_prop (js "size") (JNum (Z.min size (maxSearchSize config))) body).
  rewrite search_unfold.
  destruct (validateIndex config index).
  - destruct (withRetry config _ w) as [r w'] eqn:E.
    apply withRetry_log in E. destruct E as (k & Hl & _).
    exists k. cbn [snd]. split; [exact Hl|]. split; [apply lookup_set_prop_same|].
    split; [lia|]. intros key Hk. apply lookup_set_prop_other. exact Hk.
  - exists 0. cbn [snd repeat]. rewrite app_nil_r. split; [reflexivity|].
    split; [apply lookup_set_prop_same|]. split; [lia|].
    intros key Hk. apply lookup_set_prop_other. exact Hk.
Qed.

End SearchFacts.

Module FailureFacts.
Import AuditLogger ToolWrapperFacts.

(** X9: when the logic ends in a failure, whether it returns one or throws
    a fault with a message, the wrapper returns the message as it is, with
    or without redaction enabled, and the audit entry repeats it with a
    redaction count of zero. *)
Theorem failure_is_returned_as_it_is
    (JSON_stringify : value -> jsstring) (config : ServerConfig)
    (id : jsstring) (input : value) (logic : M ToolResult)
    (w w1 : World) (ended : Res ToolResult) (message : value) :
  logic (snd (now w)) = (ended, w1) ->
  normalised ended = Ok (error message) ->
  fst (execute JSON_stringify config id input logic w)
  = Ok (JObj [(js "type", JStr (js "error")); (js "error", message)]) /\
  stderr (snd (execute JSON_stringify config id input logic w))
  = if auditEnabled config
    then stderr w1 ++
         [sanitize
            {| timestamp := clock w1 (S (clock_reads w1));
               tool_called := id;
               input_parameters := JSON_stringify input;
               output_size_bytes :=
                 length (JSON_stringify
                           (JObj [(js "type", JStr (js "error"));
                                  (js "error", message)]));
               redaction_count := 0;
               redacted_types := [];
               execution_time_ms :=
                 (clock w1 (clock_reads w1) - clock w (clock_reads w))%Z;
               status := error_status;
               error_message := message |}]
    else stderr w1.
Proof.
  intros Hl Hn.
  destruct (@execute_returns JSON_stringify config id input logic w ended w1
              (error message) Hl Hn) as (w' & He & Hs & _).
  rewrite He. cbn [fst snd]. split; [reflexivity|].
  rewrite Hs. unfold log. destruct (auditEnabled config); reflexivity.
Qed.

Lemma failure_is_returned_as_it_is_witness :
  fst (ToolWrapper.execute no_text default_config (js "kibana_search") (JObj [])
         (throw card_fault) (fresh always_500))
  = Ok (JObj [(js "type", JStr (js "error"));
              (js "error", JStr (js "card 4111 1111 1111 1111 declined"))]) /\
  redactedData (redactPII (JStr (js "card 4111 1111 1111 1111 declined")))
  = JStr (js "card **** **** **** 1111 declined").
Proof.
  split; [|vm_compute; reflexivity].
  apply (proj1 (@failure_is_returned_as_it_is no_text default_config
                  (js "kibana_search") (JObj []) (throw card_fault)
                  (fresh always_500) (snd (now (fresh always_500)))
                  (Throw card_fault)
                  (JStr (js "card 4111 1111 1111 1111 declined"))
                  eq_refl eq_refl)).
Defined.

End FailureFacts.

(** ** Flattened mappings (lib/mappingUtils.ts) *)

Module MappingFacts.
Import MappingUtils.

(** *** Unfolding *)

Lemma flatten_unfold fuel properties prefix result :
  flatten (S fuel) properties prefix result
  = flatten_entries fuel prefix (spread properties) result.
Proof.
  cbn [flatten]. generalize (spread properties) as es. intros es. revert result.
  induction es as [|[name mapping] rest IH]; intros result; [reflexivity|].
  cbn [flatten_entries]. unfold flatten_entry. cbn [fst snd].
  destruct (get_prop mapping (js "type")) as [type_|e]; [|reflexivity].
  destruct (if truthy (get_opt mapping (js "properties")) then _ else _)
    as [[r1|e1]|]; try reflexivity.
  destruct (if truthy (get_opt mapping (js "fields")) then _ else _)
    as [[r2|e2]|]; try reflexivity.
  apply IH.
Qed.

(** *** Depth *)

Lemma list_max_In n l : In n l -> n <= list_max l.
Proof.
  intros H. pose proof (list_max_le l (list_max l)) as [L _].
  specialize (L (Nat.le_refl _)). rewrite Forall_forall in L. auto.
Qed.

Lemma depth_lookup k props v :
  lookup k props = Some v -> depth v < depth (JObj props).
Proof.
  intros H. cbn [depth]. apply Nat.lt_succ_r. apply list_max_In.
  induction props as [|[k' v'] rest IH]; [discriminate|].
  cbn [lookup] in H. cbn [map snd].
  destruct (str_eqb k k').
  - injection H as ->. left. reflexivity.
  - right. auto.
Qed.

Lemma depth_get_opt m k :
  truthy (get_opt m k) = true -> depth (get_opt m k) < depth m.
Proof.
  unfold get_opt, get_prop. destruct m; try discriminate.
  - destruct (str_eqb k (js "filter")); [|discriminate]. intros _. cbn [depth]. lia.
  - destruct (lookup k props) as [v|] eqn:E; [|discriminate].
    intros _. eapply depth_lookup; eauto.
Qed.

Lemma depth_index_props items : forall i name m,
  In (name, m) (index_props_from i items) -> In m items.
Proof.
  induction items as [|x rest IH]; intros i name m H; [destruct H|].
  cbn [index_props_from] in H. destruct H as [H|H].
  - injection H as _ ->. left. reflexivity.
  - right. eapply IH; eauto.
Qed.

Lemma depth_spread p name m : In (name, m) (spread p) -> depth m <= depth p.
Proof.
  destruct p; cbn [spread]; intros H; try destruct H.
  - apply depth_index_props in H. apply in_map_iff in H.
    destruct H as (c & <- & _). cbn [depth]. lia.
  - apply depth_index_props in H. cbn [depth].
    apply Nat.le_le_succ_r. apply list_max_In. apply in_map. exact H.
  - cbn [depth]. apply Nat.le_le_succ_r. apply list_max_In.
    apply in_map_iff. exists (name, m). split; [reflexivity|exact H].
Qed.

(** *** The bound is enough *)

Lemma flatten_fuel : forall f1 f2 p prefix result,
  depth p < f1 -> depth p < f2 ->
  flatten f1 p prefix result = flatten f2 p prefix result /\
  flatten f1 p prefix result <> None.
Proof.
  induction f1 as [|f1 IH]; intros f2 p prefix result H1 H2; [lia|].
  destruct f2 as [|f2]; [lia|]. rewrite !flatten_unfold.
  assert (G : forall es result,
             (forall name m, In (name, m) es -> depth m <= depth p) ->
             flatten_entries f1 prefix es result = flatten_entries f2 prefix es result /\
             flatten_entries f1 prefix es result <> None).
  { clear result. induction es as [|[name m] rest IHes]; intros result Hes.
    - split; [reflexivity|discriminate].
    - assert (Hm : depth m <= depth p) by (eapply Hes; left; reflexivity).
      assert (Hrest : forall name m, In (name, m) rest -> depth m <= depth p)
        by (intros; eapply Hes; right; eauto).
      cbn [flatten_entries]. unfold flatten_entry. cbn [fst snd].
      destruct (get_prop m (js "type")) as [type_|e]; [|split; [reflexivity|discriminate]].
      set (r0 := if truthy type_ then _ else result).
      assert (S1 : forall k r,
                 (if truthy (get_opt m k)
                  then flatten f1 (get_opt m k) (fieldPath_of prefix name) r
                  else Some (Ok r))
                 = (if truthy (get_opt m k)
                    then flatten f2 (get_opt m k) (fieldPath_of prefix name) r
                    else Some (Ok r)) /\
                 (if truthy (get_opt m k)
                  then flatten f1 (get_opt m k) (fieldPath_of prefix name) r
                  else Some (Ok r)) <> None).
      { intros k r. destruct (truthy (get_opt m k)) eqn:T;
          [|split; [reflexivity|discriminate]].
        apply depth_get_opt in T. apply IH; lia. }
      destruct (S1 (js "properties") r0) as [E1 N1]. rewrite <- E1.
      destruct (if truthy (get_opt m (js "properties")) then _ else _)
        as [[r1|e1]|]; [|split; [reflexivity|discriminate]|contradiction].
      destruct (S1 (js "fields") r1) as [E2 N2]. rewrite <- E2.
      destruct (if truthy (get_opt m (js "fields")) then _ else _)
        as [[r2|e2]|]; [|split; [reflexivity|discriminate]|contradiction].
      apply IHes. exact Hrest. }
  apply G. intros name m. apply depth_spread.
Qed.

Lemma flattenProperties_fuel fuel p prefix result :
  depth p < fuel ->
  flatten fuel p prefix result = Some (flattenProperties p prefix result).
Proof.
  intros H. unfold flattenProperties.
  destruct (@flatten_fuel fuel (S (depth p)) p prefix result H (Nat.lt_succ_diag_r _))
    as [E N].
  rewrite <- E. destruct (flatten fuel p prefix result); [reflexivity|contradiction].
Qed.

(** *** What is pushed *)

Lemma startsWith_app a b : startsWith a (a ++ b) = true.
Proof.
  induction a as [|x a IH]; [destruct b; reflexivity|].
  cbn [app startsWith]. rewrite N.eqb_refl. exact IH.
Qed.

Lemma startsWith_shorter a b s :
  startsWith (a ++ b) s = true -> startsWith a s = true.
Proof.
  revert s. induction a as [|x a IH]; intros s H; [destruct s; reflexivity|].
  destruct s as [|y s]; [discriminate|]. cbn [app startsWith] in *.
  apply andb_true_iff in H. destruct H as [-> H]. apply (IH _ H).
Qed.

Lemma under_fieldPath prefix name : under prefix (fieldPath_of prefix name) = true.
Proof.
  unfold under, fieldPath_of. destruct prefix as [|c prefix]; [reflexivity|].
  cbn [truthy]. rewrite app_assoc. apply startsWith_app.
Qed.

Lemma under_deeper prefix name path :
  under (fieldPath_of prefix name) path = true -> under prefix path = true.
Proof.
  unfold under at 2. destruct prefix as [|c prefix]; [reflexivity|].
  unfold fieldPath_of. cbn [truthy]. unfold under.
  destruct ((c :: prefix) ++ js "." ++ name) as [|d rest] eqn:E; [discriminate|].
  rewrite <- E. clear E. intros H.
  rewrite app_assoc, <- app_assoc in H. apply startsWith_shorter in H. exact H.
Qed.

Lemma flatten_pushes : forall fuel p prefix result out,
  flatten fuel p prefix result = Some (Ok out) ->
  exists added,
    out = result ++ added /\
    Forall (fun f => under prefix (field f) = true /\ truthy (type f) = true) added.
Proof.
  induction fuel as [|fuel IH]; intros p prefix result out H; [discriminate|].
  rewrite flatten_unfold in H. revert result out H.
  generalize (spread p) as es.
  induction es as [|[name m] rest IHes]; intros result out H.
  - injection H as <-. exists []. rewrite app_nil_r. split; [reflexivity|constructor].
  - cbn [flatten_entries] in H. unfold flatten_entry in H. cbn [fst snd] in H.
    destruct (get_prop m (js "type")) as [type_|e]; [|discriminate].
    set (r0 := if truthy type_ then _ else result) in H.
    assert (H0 : exists a0, r0 = result ++ a0 /\
                   Forall (fun f => under prefix (field f) = true /\
                                    truthy (type f) = true) a0).
    { subst r0. destruct (truthy type_) eqn:T.
      - eexists. split; [reflexivity|]. constructor; [|constructor].
        cbn [field type]. split; [apply under_fieldPath|exact T].
      - exists []. rewrite app_nil_r. split; [reflexivity|constructor]. }
    clearbody r0.
    assert (S1 : forall k r r',
               (if truthy (get_opt m k)
                then flatten fuel (get_opt m k) (fieldPath_of prefix name) r
                else Some (Ok r)) = Some (Ok r') ->
               exists a, r' = r ++ a /\
                 Forall (fun f => under prefix (field f) = true /\
                                  truthy (type f) = true) a).
    { intros k r r' Hk. destruct (truthy (get_opt m k)).
      - apply IH in Hk. destruct Hk as (a & -> & Fa). exists a. split; [reflexivity|].
        eapply Forall_impl; [|exact Fa]. intros f [U T]. split; [|exact T].
        eapply under_deeper; eauto.
      - injection Hk as <-. exists []. rewrite app_nil_r.
        split; [reflexivity|constructor]. }
    destruct (if truthy (get_opt m (js "properties")) then _ else _)
      as [[r1|e1]|] eqn:E1; try discriminate.
    destruct (if truthy (get_opt m (js "fields")) then _ else _)
      as [[r2|e2]|] eqn:E2; try discriminate.
    apply S1 in E1. apply S1 in E2. apply IHes in H.
    destruct H0 as (a0 & -> & F0), E1 as (a1 & -> & F1), E2 as (a2 & -> & F2),
             H as (a3 & -> & F3).
    exists (a0 ++ a1 ++ a2 ++ a3). split; [rewrite <- !app_assoc; reflexivity|].
    repeat (apply Forall_app; split); assumption.
Qed.

(** *** When it succeeds *)

Lemma no_null_lookup k props v :
  forallb (fun kv => no_null (snd kv)) props = true ->
  lookup k props = Some v -> no_null v = true.
Proof.
  induction props as [|[k' v'] rest IH]; [discriminate|].
  cbn [forallb lookup snd]. intros H. apply andb_true_iff in H. destruct H as [H1 H2].
  destruct (str_eqb k k'); [intros E; injection E as <-; exact H1|auto].
Qed.

Lemma no_null_get_opt m k :
  no_null m = true -> truthy (get_opt m k) = true -> no_null (get_opt m k) = true.
Proof.
  unfold get_opt, get_prop. destruct m; try discriminate.
  - destruct (str_eqb k (js "filter")); [reflexivity|discriminate].
  - cbn [no_null]. destruct (lookup k props) as [v|] eqn:E; [|discriminate].
    intros H _. eapply no_null_lookup; eauto.
Qed.

Lemma no_null_spread p name m :
  no_null p = true -> In (name, m) (spread p) -> no_null m = true.
Proof.
  destruct p; cbn [spread no_null]; intros Hp H; try destruct H.
  - apply depth_index_props in H. apply in_map_iff in H.
    destruct H as (c & <- & _). reflexivity.
  - apply depth_index_props in H. rewrite forallb_forall in Hp. auto.
  - rewrite forallb_forall in Hp. apply (Hp (name, m)). exact H.
Qed.

Lemma flatten_no_null : forall fuel p prefix result,
  depth p < fuel -> no_null p = true ->
  exists out, flatten fuel p prefix result = Some (Ok out).
Proof.
  induction fuel as [|fuel IH]; intros p prefix result Hd Hn; [lia|].
  rewrite flatten_unfold.
  assert (G : forall es result,
             (forall name m, In (name, m) es ->
                depth m <= depth p /\ no_null m = true) ->
             exists out, flatten_entries fuel prefix es result = Some (Ok out)).
  { clear result. induction es as [|[name m] rest IHes]; intros result Hes.
    - eexists. reflexivity.
    - destruct (Hes name m (or_introl eq_refl)) as [Hm Hnm].
      cbn [flatten_entries]. unfold flatten_entry. cbn [fst snd].
      destruct (get_prop m (js "type")) as [type_|e] eqn:Et;
        [|destruct m; discriminate].
      set (r0 := if truthy type_ then _ else result). clearbody r0.
      assert (S1 : forall k r, exists r',
                 (if truthy (get_opt m k)
                  then flatten fuel (get_opt m k) (fieldPath_of prefix name) r
                  else Some (Ok r)) = Some (Ok r')).
      { intros k r. destruct (truthy (get_opt m k)) eqn:T; [|eexists; reflexivity].
        apply IH.
        - apply depth_get_opt in T. lia.
        - apply no_null_get_opt; assumption. }
      destruct (S1 (js "properties") r0) as [r1 ->].
      destruct (S1 (js "fields") r1) as [r2 ->].
      apply IHes. intros n' m' H'. apply (Hes n' m'). right. exact H'. }
  apply G. intros name m H. split; [eapply depth_spread; exact H|].
  eapply no_null_spread; [exact Hn|exact H].
Qed.

(** X10: when [flattenProperties] returns, the array holds what it held
    before, followed by the new fields; each of them has a truthy type and,
    under a non-empty prefix, a path that starts with the prefix and a
    dot. *)
Theorem flattenProperties_appends_fields_under_prefix
    (properties : value) (prefix : jsstring) (result : list FieldMapping) :
  match flattenProperties properties prefix result with
  | Ok out =>
      exists added,
        out = result ++ added /\
        Forall (fun f => under prefix (field f) = true /\ truthy (type f) = true)
          added
  | Throw _ => True
  end.
Proof.
  pose proof (@flattenProperties_fuel (S (depth properties)) properties prefix result
                (Nat.lt_succ_diag_r _)) as E.
  destruct (flattenProperties properties prefix result) as [out|e]; [|exact I].
  eapply flatten_pushes. exact E.
Qed.

(** X11: on a mapping that holds no [null] and no [undefined],
    [flattenProperties] returns, however deep the mapping nests. *)
Theorem flattenProperties_succeeds_without_null
    (properties : value) (prefix : jsstring) (result : list FieldMapping) :
  no_null properties = true ->
  exists added, flattenProperties properties prefix result = Ok (result ++ added).
Proof.
  intros Hn.
  destruct (@flatten_no_null (S (depth properties)) properties prefix result
              (Nat.lt_succ_diag_r _) Hn) as [out E].
  pose proof E as E'. apply flatten_pushes in E'. destruct E' as (added & -> & _).
  exists added. rewrite flattenProperties_fuel in E by apply Nat.lt_succ_diag_r.
  injection E as ->. reflexivity.
Qed.

Lemma flattenProperties_succeeds_without_null_witness :
  (exists added, flattenProperties example_mapping [] [] = Ok ([] ++ added)) /\
  flattenProperties example_mapping [] []
  = Ok [ {| field := js "customer_name"; type := JStr (js "text") |};
         {| field := js "customer_name.keyword"; type := JStr (js "keyword") |};
         {| field := js "address.city"; type := JStr (js "keyword") |} ] /\
  flattenProperties (JObj [(js "broken", JNull)]) [] []
  = Throw (mkError (js "Cannot read properties of undefined")).
Proof.
  split; [|split; reflexivity].
  apply (@flattenProperties_succeeds_without_null example_mapping [] []).
  reflexivity.
Defined.

End MappingFacts.

(** ** Deduplicated fields (tools/discoverCluster.ts) *)

Module DedupFacts.
Import MappingUtils DiscoverFields RedactionFacts.

Lemma has_keys key seen : has key seen = existsb (str_eqb key) (map fst seen).
Proof.
  unfold has. induction seen as [|kv seen IH]; [reflexivity|].
  cbn [existsb map]. rewrite IH. reflexivity.
Qed.

Lemma fold_seen fields : forall seen,
  fold_left
    (fun seen f =>
       if negb (has (field f) seen) then seen ++ [(field f, type f)] else seen)
    fields seen
  = seen ++ map (fun f => (field f, type f)) (first_seen (map fst seen) fields).
Proof.
  induction fields as [|f rest IH]; intros seen; cbn [fold_left first_seen].
  - rewrite app_nil_r. reflexivity.
  - rewrite IH, has_keys.
    destruct (existsb (str_eqb (field f)) (map fst seen)); cbn [negb].
    + reflexivity.
    + rewrite map_app, <- app_assoc. reflexivity.
Qed.

Lemma deduplicateFields_first_seen fields :
  deduplicateFields fields = first_seen [] fields.
Proof.
  unfold deduplicateFields. rewrite fold_seen. cbn [app map].
  rewrite map_map. rewrite <- (map_id (first_seen [] fields)) at 2.
  apply map_ext. intros [p t]. reflexivity.
Qed.

Lemma first_seen_paths fields : forall keys p,
  In p (map field (first_seen keys fields))
  <-> In p (map field fields) /\ ~ In p keys.
Proof.
  induction fields as [|f rest IH]; intros keys p; cbn [first_seen map].
  - simpl. tauto.
  - destruct (existsb (str_eqb (field f)) keys) eqn:E.
    + apply existsb_str_eqb in E. rewrite IH. cbn [In]. split.
      * intros [H1 H2]. auto.
      * intros [[<-|H1] H2]; [contradiction|auto].
    + assert (Hf : ~ In (field f) keys).
      { intros H. apply existsb_str_eqb in H. congruence. }
      cbn [map In]. rewrite IH. rewrite in_app_iff. cbn [In]. split.
      * intros [<-|[H1 H2]]; [auto|]. split; [auto|tauto].
      * intros [[<-|H1] H2]; [auto|].
        destruct (str_eqb (field f) p) eqn:Ep.
        -- apply str_eqb_eq in Ep. auto.
        -- right. split; [exact H1|]. intros [H|[H|[]]]; [contradiction|].
           subst. rewrite str_eqb_refl in Ep. discriminate.
Qed.

Lemma first_seen_NoDup fields : forall keys,
  NoDup (map field (first_seen keys fields)).
Proof.
  induction fields as [|f rest IH]; intros keys; cbn [first_seen map].
  - constructor.
  - destruct (existsb (str_eqb (field f)) keys); [apply IH|].
    cbn [map]. constructor; [|apply IH].
    rewrite first_seen_paths. intros [_ H]. apply H.
    apply in_or_app. right. left. reflexivity.
Qed.

Lemma first_seen_first fields : forall keys f,
  In f (first_seen keys fields) ->
  find (fun g => str_eqb (field g) (field f)) fields = Some f.
Proof.
  induction fields as [|g rest IH]; intros keys f H; [destruct H|].
  cbn [first_seen] in H. cbn [find].
  destruct (existsb (str_eqb (field g)) keys) eqn:E.
  - apply existsb_str_eqb in E.
    destruct (str_eqb (field g) (field f)) eqn:Eg.
    + apply str_eqb_eq in Eg.
      assert (Hin : In (field f) (map field (first_seen keys rest)))
        by (apply in_map; exact H).
      apply first_seen_paths in Hin. destruct Hin as [_ Hn].
      rewrite <- Eg in Hn. contradiction.
    + eapply IH; eauto.
  - destruct H as [<-|H].
    + rewrite str_eqb_refl. reflexivity.
    + destruct (str_eqb (field g) (field f)) eqn:Eg.
      * apply str_eqb_eq in Eg.
        assert (Hin : In (field f) (map field (first_seen (keys ++ [field g]) rest)))
          by (apply in_map; exact H).
        apply first_seen_paths in Hin. destruct Hin as [_ Hn].
        exfalso. apply Hn. apply in_or_app. right. left. exact Eg.
      * eapply IH; eauto.
Qed.

Lemma first_seen_again fields : forall keys,
  first_seen keys (first_seen keys fields) = first_seen keys fields.
Proof.
  induction fields as [|g rest IH]; intros keys; cbn [first_seen]; [reflexivity|].
  destruct (existsb (str_eqb (field g)) keys) eqn:E; [apply IH|].
  cbn [first_seen]. rewrite E. f_equal. apply IH.
Qed.

(** X12: [deduplicateFields] returns the paths of its input, each once; the
    field kept for a path is the first one with that path; doing it again
    changes nothing. *)
Theorem deduplicateFields_keeps_first_of_each_path (fields : list FieldMapping) :
  NoDup (map field (deduplicateFields fields)) /\
  (forall p, In p (map field (deduplicateFields fields)) <-> In p (map field fields)) /\
  (forall f, In f (deduplicateFields fields) ->
     find (fun g => str_eqb (field g) (field f)) fields = Some f) /\
  deduplicateFields (deduplicateFields fields) = deduplicateFields fields.
Proof.
  rewrite !deduplicateFields_first_seen. split; [apply first_seen_NoDup|].
  split; [|split].
  - intros p. rewrite first_seen_paths. simpl. tauto.
  - apply first_seen_first.
  - apply first_seen_again.
Qed.

End DedupFacts.

(** ** The guards of the tools (lib/inputSanitizer.ts and the tools) *)

Module GuardFacts.
Import ReadOnlyQuery KibanaSearchTool IndexNameFacts AccessFacts.

(** *** Index names *)

Lemma validateIndexName_rejects index :
  index_name_ok index = false ->
  validateIndexName index = Throw (mkError (invalid_index_message index)).
Proof.
  intros H. unfold validateIndexName. rewrite test_INDEX_NAME_REGEX, H.
  destruct index; reflexivity.
Qed.

Lemma validateIndexName_passes index :
  index_name_ok index = true -> validateIndexName index = Ok tt.
Proof.
  intros H. unfold validateIndexName. rewrite test_INDEX_NAME_REGEX, H.
  destruct index; [discriminate|reflexivity].
Qed.

(** X13: kibana_search, get_index_mappings, list_indices and
    discover_cluster throw the rejection of [validateIndexName] for a name
    it does not accept, and leave the world as it was: no call is made. *)
Theorem invalid_name_stops_every_tool
    (JSON_stringify : value -> jsstring) (toLowerCase : jsstring -> jsstring)
    (config : ServerConfig) (name : jsstring) (query : value) (size : option Z)
    (time_range : option jsstring) (include_hidden : bool) (max_indices : Z)
    (w : World) :
  index_name_ok name = false ->
  KibanaSearchTool.execute JSON_stringify toLowerCase config name query size
    time_range w
  = (Throw (mkError (invalid_index_message name)), w) /\
  GetIndexMappings.execute config name w
  = (Throw (mkError (invalid_index_message name)), w) /\
  ListIndices.execute config (Some name) include_hidden w
  = (Throw (mkError (invalid_index_message name)), w) /\
  DiscoverFields.execute config (Some name) include_hidden max_indices w
  = (Throw (mkError (invalid_index_message name)), w).
Proof.
  intros H. apply validateIndexName_rejects in H.
  unfold KibanaSearchTool.execute, GetIndexMappings.execute, ListIndices.execute,
    DiscoverFields.execute, DiscoverCluster.execute, DiscoverCluster.selected,
    ListIndices.list_and_filter, bind, lift.
  rewrite H. repeat split.
Qed.

Lemma invalid_name_stops_every_tool_witness :
  GetIndexMappings.execute default_config (js "../etc/passwd") (fresh always_500)
  = (Throw (mkError (invalid_index_message (js "../etc/passwd"))), fresh always_500).
Proof.
  apply (proj1 (proj2 (@invalid_name_stops_every_tool no_text as_it_is
                         default_config (js "../etc/passwd") (JObj []) None None
                         false 50 (fresh always_500) eq_refl))).
Defined.

(** *** Blocked keywords *)

Lemma startsWith_iff needle hay :
  startsWith needle hay = true <-> exists after, hay = needle ++ after.
Proof.
  revert hay. induction needle as [|x needle IH]; intros hay.
  - split; [intros _; exists hay; reflexivity|destruct hay; reflexivity].
  - destruct hay as [|y hay]; cbn [startsWith app].
    + split; [discriminate|intros [after H]; discriminate].
    + rewrite andb_true_iff, N.eqb_eq, IH. split.
      * intros [-> [after ->]]. exists after. reflexivity.
      * intros [after H]. injection H as -> ->. split; [reflexivity|eauto].
Qed.

Lemma includes_iff needle hay : includes needle hay = true <-> occurs needle hay.
Proof.
  unfold occurs. induction hay as [|y hay IH]; cbn [includes].
  - rewrite orb_false_r, startsWith_iff. split.
    + intros [after H]. exists [], after. exact H.
    + intros (before & after & H). destruct before as [|b before]; [|discriminate].
      exists after. exact H.
  - rewrite orb_true_iff, startsWith_iff, IH. split.
    + intros [[after H]|(before & after & H)].
      * exists [], after. exact H.
      * exists (y :: before), after. rewrite H. reflexivity.
    + intros (before & after & H). destruct before as [|b before].
      * left. exists after. exact H.
      * right. injection H as -> H. exists before, after. exact H.
Qed.

Lemma scan_spec keywords text :
  match scan keywords text with
  | Ok _ => forall k, In k keywords -> ~ occurs k text
  | Throw e =>
      exists earlier k later,
        keywords = earlier ++ k :: later /\
        e = mkError (blocked_message k) /\
        occurs k text /\
        forall k', In k' earlier -> ~ occurs k' text
  end.
Proof.
  induction keywords as [|k rest IH]; cbn [scan].
  - intros k [].
  - destruct (includes k text) eqn:E.
    + exists [], k, rest. repeat split; [apply includes_iff; exact E|intros k' []].
    + assert (Hk : ~ occurs k text).
      { intros H. apply includes_iff in H. congruence. }
      destruct (scan rest text) as [u|e].
      * intros k' [<-|H]; auto.
      * destruct IH as (earlier & k' & later & -> & -> & Ho & He).
        exists (k :: earlier), k', later. repeat split; [exact Ho|].
        intros k'' [<-|H]; auto.
Qed.

(** X14: [validateReadOnlyQuery] returns exactly when none of the blocked
    keywords occurs in the lower-cased serialisation of the query; when it
    throws, the message names the first keyword of the list that occurs. *)
Theorem validateReadOnlyQuery_finds_first_keyword
    (JSON_stringify : value -> jsstring) (toLowerCase : jsstring -> jsstring)
    (props : list (jsstring * value)) :
  match validateReadOnlyQuery JSON_stringify toLowerCase (JObj props) with
  | Ok _ =>
      forall k, In k BLOCKED_KEYWORDS ->
        ~ occurs k (toLowerCase (JSON_stringify (JObj props)))
  | Throw e =>
      exists earlier k later,
        BLOCKED_KEYWORDS = earlier ++ k :: later /\
        e = mkError (blocked_message k) /\
        occurs k (toLowerCase (JSON_stringify (JObj props))) /\
        forall k', In k' earlier ->
          ~ occurs k' (toLowerCase (JSON_stringify (JObj props)))
  end.
Proof. apply scan_spec. Qed.

(** X15: kibana_search, given a valid index name and a query whose
    lower-cased serialisation holds a blocked keyword, throws the rejection
    for a blocked keyword and leaves the world as it was: no call is
    made. *)
Theorem blocked_keyword_stops_the_search
    (JSON_stringify : value -> jsstring) (toLowerCase : jsstring -> jsstring)
    (config : ServerConfig) (index : jsstring) (props : list (jsstring * value))
    (size : option Z) (time_range : option jsstring) (w : World)
    (keyword : jsstring) :
  index_name_ok index = true ->
  In keyword BLOCKED_KEYWORDS ->
  occurs keyword (toLowerCase (JSON_stringify (JObj props))) ->
  exists k,
    In k BLOCKED_KEYWORDS /\
    KibanaSearchTool.execute JSON_stringify toLowerCase config index (JObj props)
      size time_range w
    = (Throw (mkError (blocked_message k)), w).
Proof.
  intros Hi Hk Ho. apply validateIndexName_passes in Hi.
  unfold KibanaSearchTool.execute, bind, lift. rewrite Hi.
  cbn [validateReadOnlyQuery].
  pose proof (scan_spec BLOCKED_KEYWORDS (toLowerCase (JSON_stringify (JObj props))))
    as S.
  destruct (scan BLOCKED_KEYWORDS (toLowerCase (JSON_stringify (JObj props))))
    as [u|e].
  - exfalso. apply (S keyword Hk Ho).
  - destruct S as (earlier & k & later & E & -> & _ & _).
    exists k. split; [|reflexivity]. rewrite E. apply in_or_app. right. left. reflexivity.
Qed.

Lemma blocked_keyword_stops_the_search_witness :
  exists k,
    In k BLOCKED_KEYWORDS /\
    KibanaSearchTool.execute described as_it_is default_config (js "logs-*")
      (JObj [(js "description", JNum 1)]) None None (fresh always_500)
    = (Throw (mkError (blocked_message k)), fresh always_500).
Proof.
  apply (@blocked_keyword_stops_the_search described as_it_is default_config
           (js "logs-*") [(js "description", JNum 1)] None None
           (fresh always_500) (js "script")).
  - reflexivity.
  - simpl. auto.
  - exists (js "{" ++ dquote ++ js "de"), (js "ion" ++ dquote ++ js ":1}").
    reflexivity.
Defined.

End GuardFacts.

(** ** Alerting rules (tools/getAlertStatus.ts) *)

Module AlertFacts.
Import GetAlertStatus RetryFacts.

Lemma has_status_spec s r :
  has_status s r = true -> get_opt r (js "last_execution_status") = JStr s.
Proof.
  unfold has_status. destruct (get_opt r (js "last_execution_status")); try discriminate.
  intros H. apply str_eqb_eq in H. subst. reflexivity.
Qed.

(** X17: when the first call for the alerting rules is rejected with
    status 404 or 403, get_alert_status returns a failure result with the
    fixed message, after that one call and without waiting. *)
Theorem alerting_unavailable_is_a_result
    (URLSearchParams_toString : list (jsstring * jsstring) -> jsstring)
    (config : ServerConfig) (severity rule_type status_ : option jsstring)
    (max_results : Z) (w : World) (e : AxiosError) (r : AxiosResponse) :
  (0 < retryAttempts config)%Z ->
  backend w (length (http_log w))
    (rules_request URLSearchParams_toString (params_of rule_type severity max_results))
  = Rejected e ->
  response e = Some r ->
  status r = 404%Z \/ status r = 403%Z ->
  execute URLSearchParams_toString config severity rule_type status_ max_results w
  = (Ok (ToolWrapper.error (JStr not_available)),
     snd (http (rules_request URLSearchParams_toString
                  (params_of rule_type severity max_results)) w)).
Proof.
  intros Hn Hb Hr Hs.
  assert (Hc : client_error e = true).
  { apply client_error_iff. exists r. split; [exact Hr|]. lia. }
  unfold execute, bind, try_catch, findAlertingRules.
  rewrite (@withRetry_client_error_terminal config _ w e Hn Hb Hc).
  unfold axios_error_value. rewrite Hr. unfold lift.
  change (get_prop (JObj ((js "message", JStr (message e)) ::
                          [(js "response",
                            JObj [(js "status", JNum (status r));
                                  (js "data", data r)])]))
            (js "response"))
    with (Ok (JObj [(js "status", JNum (status r)); (js "data", data r)])).
  cbv beta iota.
  change (get_opt (JObj [(js "status", JNum (status r)); (js "data", data r)])
            (js "status")) with (JNum (status r)).
  cbv beta iota.
  replace ((status r =? 404)%Z || (status r =? 403)%Z) with true.
  - reflexivity.
  - symmetry. apply orb_true_iff. rewrite !Z.eqb_eq. exact Hs.
Qed.

Lemma alerting_unavailable_is_a_result_witness :
  fst (GetAlertStatus.execute no_query_string default_config None None None 20
         (fresh always_404))
  = Ok (ToolWrapper.error (JStr not_available)) /\
  length (http_log (snd (GetAlertStatus.execute no_query_string default_config
                           None None None 20 (fresh always_404)))) = 1.
Proof.
  rewrite (@alerting_unavailable_is_a_result no_query_string default_config
             None None None 20 (fresh always_404) (http_error 404)
             {| Runtime.status := 404; data := JObj [] |}).
  - split; reflexivity.
  - simpl. lia.
  - reflexivity.
  - reflexivity.
  - left. reflexivity.
Defined.

(** X18: with a status given, get_alert_status returns, of the rules it
    would return without one, those whose last execution status is that
    status, in the same order, and [returned] is their number; it throws
    with a status exactly when it throws without. *)
Theorem status_filter_keeps_the_rules_of_that_status (raw : value) (s : jsstring) :
  s <> [] ->
  match result_of raw None, result_of raw (Some s) with
  | Ok (success all _ _), Ok (success kept _ _) =>
      exists rules,
        get_opt all (js "rules") = JArr rules /\
        get_opt kept (js "rules") = JArr (filter (has_status s) rules) /\
        get_opt kept (js "returned")
        = JNum (Z.of_nat (length (filter (has_status s) rules))) /\
        Forall (fun r => get_opt r (js "last_execution_status") = JStr s)
          (filter (has_status s) rules)
  | Throw e, Throw e' => e = e'
  | _, _ => False
  end.
Proof.
  intros Hs. unfold result_of.
  destruct (get_prop raw (js "data")) as [data|e]; [|reflexivity].
  destruct (coalesce data (JArr [])); try reflexivity.
  destruct (normalize_all items) as [rules|e]; [|reflexivity].
  destruct s as [|c s]; [contradiction|]. cbn [truthy].
  exists rules. split; [reflexivity|]. split; [reflexivity|]. split; [reflexivity|].
  apply Forall_forall. intros r Hr. apply filter_In in Hr.
  apply has_status_spec. tauto.
Qed.

Lemma status_filter_keeps_the_rules_of_that_status_witness :
  match result_of three_rules None, result_of three_rules (Some (js "error")) with
  | Ok (success all _ _), Ok (success kept _ _) =>
      exists rules,
        get_opt all (js "rules") = JArr rules /\
        get_opt kept (js "rules") = JArr (filter (has_status (js "error")) rules) /\
        get_opt kept (js "returned")
        = JNum (Z.of_nat (length (filter (has_status (js "error")) rules))) /\
        Forall (fun r => get_opt r (js "last_execution_status") = JStr (js "error"))
          (filter (has_status (js "error")) rules)
  | Throw e, Throw e' => e = e'
  | _, _ => False
  end.
Proof.
  apply (@status_filter_keeps_the_rules_of_that_status three_rules (js "error")).
  discriminate.
Defined.

End AlertFacts.

(** ** The loaded configuration (lib/config.ts) *)

Module ConfigFacts.
Import LoadConfig GlobFacts GuardFacts AccessFacts.

(** *** The cap on the search size *)

Lemma clamp_bounds (raw : Number) :
  match Math_min (Math_max (Int 1) raw) (Int 500) with
  | Int n => (1 <= n <= 500)%Z
  | NaN => raw = NaN
  | Infinity _ => False
  end.
Proof.
  destruct raw as [|z|[|]].
  - reflexivity.
  - unfold Math_max, Math_min, leb.
    destruct (Z.leb_spec 1 z) as [H|H].
    + destruct (Z.leb_spec z 500); lia.
    + cbn. lia.
  - cbn. lia.
  - cbn. lia.
Qed.

(** X19: with a configuration that [loadConfig] has loaded, the cap on
    the search size lies between 1 and 500, and no search request asks for
    more than 500 documents. *)
Theorem loaded_cap_bounds_every_search
    (env : Env) (c : LoadedConfig) (config : ServerConfig)
    (index : jsstring) (body : list (jsstring * value)) (size : Z) (w : World) :
  loadConfig env = Ok c ->
  ServerConfig_of c = Some config ->
  (1 <= Config.maxSearchSize config <= 500)%Z /\
  exists sent n k,
    http_log (snd (search config index body size w))
    = http_log w ++ repeat (search_request index (JObj sent)) k /\
    lookup (js "size") sent = Some (JNum n) /\ (n <= 500)%Z.
Proof.
  intros Hl Hc.
  assert (Hb : (1 <= Config.maxSearchSize config <= 500)%Z).
  { unfold loadConfig in Hl.
    destruct (requiredEnv env (js "KIBANA_URL")) as [url|e]; [|discriminate].
    destruct (requiredEnv env (js "KIBANA_API_KEY")) as [key|e]; [|discriminate].
    injection Hl as <-. unfold ServerConfig_of in Hc. cbn [maxSearchSize] in Hc.
    pose proof (clamp_bounds
                  (parseInt (or_default (env (js "MAX_SEARCH_SIZE")) (js "100")))) as B.
    destruct (Math_min _ _) as [|n|]; [discriminate| |discriminate].
    cbn [retryDelayMs retryAttempts] in Hc.
    destruct (parseInt (or_default (env (js "RETRY_DELAY_MS")) (js "1000")));
      [discriminate| |discriminate].
    destruct (parseInt (or_default (env (js "RETRY_ATTEMPTS")) (js "3")));
      [| |discriminate]; injection Hc as <-; exact B. }
  split; [exact Hb|].
  exists (set_prop (js "size") (JNum (Z.min size (Config.maxSearchSize config))) body),
         (Z.min size (Config.maxSearchSize config)).
  rewrite search_unfold. destruct (validateIndex config index).
  - destruct (withRetry config _ w) as [r w'] eqn:E.
    apply withRetry_log in E. destruct E as (k & Hlog & _).
    exists k. cbn [snd]. split; [exact Hlog|].
    split; [apply lookup_set_prop_same|lia].
  - exists 0. cbn [snd repeat]. rewrite app_nil_r. split; [reflexivity|].
    split; [apply lookup_set_prop_same|lia].
Qed.

Lemma loaded_cap_bounds_every_search_witness :
  (1 <= Config.maxSearchSize example_server_config <= 500)%Z /\
  exists sent n k,
    http_log (snd (search example_server_config (js "logs-1")
                     [(js "size", JNum 100000)] 9000 (fresh one_hit)))
    = http_log (fresh one_hit)
      ++ repeat (search_request (js "logs-1") (JObj sent)) k /\
    lookup (js "size") sent = Some (JNum n) /\ (n <= 500)%Z.
Proof.
  apply (@loaded_cap_bounds_every_search example_env example_loaded
           example_server_config (js "logs-1") [(js "size", JNum 100000)] 9000
           (fresh one_hit)); reflexivity.
Defined.

(** *** The allow-list *)

Lemma skip_spaces_suffix s : exists spaces, s = spaces ++ DiscoverCluster.skip_spaces s.
Proof.
  induction s as [|c s IH]; [exists []; reflexivity|].
  cbn [DiscoverCluster.skip_spaces]. destruct (in_set space_set c).
  - destruct IH as [sp IH]. exists (c :: sp). cbn [app]. rewrite <- IH. reflexivity.
  - exists []. reflexivity.
Qed.

Lemma skip_spaces_head s c rest :
  DiscoverCluster.skip_spaces s = c :: rest -> in_set space_set c = false.
Proof.
  induction s as [|x s IH]; [discriminate|].
  cbn [DiscoverCluster.skip_spaces]. destruct (in_set space_set x) eqn:E.
  - exact IH.
  - intros H. injection H as <- _. exact E.
Qed.

Lemma skip_spaces_fixed c rest :
  in_set space_set c = false -> DiscoverCluster.skip_spaces (c :: rest) = c :: rest.
Proof. intros H. cbn [DiscoverCluster.skip_spaces]. rewrite H. reflexivity. Qed.

Lemma skip_spaces_app_keep s c :
  in_set space_set c = false ->
  exists kept, DiscoverCluster.skip_spaces (s ++ [c]) = kept ++ [c].
Proof.
  intros Hc. induction s as [|x s IH].
  - exists []. cbn [app]. rewrite skip_spaces_fixed by exact Hc. reflexivity.
  - cbn [app DiscoverCluster.skip_spaces]. destruct (in_set space_set x).
    + exact IH.
    + exists (x :: s). reflexivity.
Qed.

Lemma In_trim c s : In c (trim s) -> In c s.
Proof.
  unfold trim. intros H. apply in_rev in H.
  destruct (skip_spaces_suffix (rev (DiscoverCluster.skip_spaces s))) as [sp1 E1].
  assert (H1 : In c (rev (DiscoverCluster.skip_spaces s))).
  { rewrite E1. apply in_or_app. right. exact H. }
  apply in_rev in H1.
  destruct (skip_spaces_suffix s) as [sp2 E2]. rewrite E2.
  apply in_or_app. right. exact H1.
Qed.

Lemma trim_trim s : trim (trim s) = trim s.
Proof.
  unfold trim at 2 3.
  destruct (DiscoverCluster.skip_spaces s) as [|c rest] eqn:E; [reflexivity|].
  pose proof (@skip_spaces_head s c rest E) as Hc.
  cbn [rev].
  destruct (@skip_spaces_app_keep (rev rest) c Hc) as [kept Ek]. rewrite Ek.
  rewrite rev_app_distr. cbn [rev app].
  unfold trim. rewrite skip_spaces_fixed by exact Hc.
  change (c :: rev kept) with ([c] ++ rev kept).
  rewrite rev_app_distr, rev_involutive. cbn [rev app].
  assert (F : DiscoverCluster.skip_spaces (kept ++ [c]) = kept ++ [c]).
  { destruct (DiscoverCluster.skip_spaces (rev rest ++ [c])) as [|d more] eqn:Ed.
    - destruct kept; discriminate.
    - pose proof (@skip_spaces_head (rev rest ++ [c]) d more Ed) as Hd. rewrite <- Ek.
      apply skip_spaces_fixed. exact Hd. }
  rewrite F, rev_app_distr. reflexivity.
Qed.

Lemma split_on_nonempty c s : split_on c s <> [].
Proof.
  destruct s as [|x s]; cbn [split_on]; [discriminate|].
  destruct (split_on c s) as [|piece pieces]; [discriminate|].
  destruct (N.eqb x c); discriminate.
Qed.

Lemma split_on_pieces c s : Forall (fun piece => ~ In c piece) (split_on c s).
Proof.
  induction s as [|x s IH]; cbn [split_on].
  - constructor; [intros []|constructor].
  - pose proof (split_on_nonempty c s) as Hne.
    destruct (split_on c s) as [|piece pieces]; [contradiction|].
    inversion IH as [|p ps Hp Hps]; subst.
    destruct (N.eqb x c) eqn:E.
    + constructor; [intros []|]. constructor; assumption.
    + constructor; [|assumption]. intros [H|H]; [|contradiction].
      subst. rewrite N.eqb_refl in E. discriminate.
Qed.

(** X20: the patterns of the allow-list that [loadConfig] loads are not
    empty, hold no comma, and have no white space at either end. *)
Theorem loaded_patterns_are_trimmed_pieces (env : Env) (c : LoadedConfig) :
  loadConfig env = Ok c ->
  Forall (fun p => p <> [] /\ ~ In (ch ",") p /\ trim p = p)
    (allowedIndexPatterns c).
Proof.
  unfold loadConfig.
  destruct (requiredEnv env (js "KIBANA_URL")) as [url|e]; [|discriminate].
  destruct (requiredEnv env (js "KIBANA_API_KEY")) as [key|e]; [|discriminate].
  intros H. injection H as <-. cbn [allowedIndexPatterns].
  destruct (env (js "ALLOWED_INDEX_PATTERNS")) as [patterns|]; [|constructor].
  destruct patterns as [|x0 ps]; [constructor|].
  generalize (x0 :: ps) as patterns. intros patterns. cbv beta iota.
  apply Forall_forall. intros p Hp. apply filter_In in Hp. destruct Hp as [Hp Ht].
  apply in_map_iff in Hp. destruct Hp as (piece & <- & Hpiece).
  split; [|split].
  - intros E. rewrite E in Ht. discriminate.
  - intros Hc. apply In_trim in Hc.
    pose proof (split_on_pieces (ch ",") patterns) as F.
    rewrite Forall_forall in F. apply (F piece Hpiece Hc).
  - apply trim_trim.
Qed.

Lemma loaded_patterns_are_trimmed_pieces_witness :
  Forall (fun p => p <> [] /\ ~ In (ch ",") p /\ LoadConfig.trim p = p)
    (LoadConfig.allowedIndexPatterns example_loaded).
Proof.
  apply (@loaded_patterns_are_trimmed_pieces example_env example_loaded).
  reflexivity.
Defined.

(** *** The Elasticsearch URL *)

Lemma match_at_kb prev s :
  match_at kb_regex prev s = if startsWith (js ".kb.") s then Some 4 else None.
Proof.
  unfold match_at, kb_regex.
  change (seq [lit "."; lit "k"; lit "b"; lit "."])
    with (Seq (lit ".") (Seq (lit "k") (Seq (lit "b") (lit ".")))).
  unfold lit, one. cbn [m].
  destruct s as [|c1 s]; [reflexivity|]. rewrite in_set_single, (N.eqb_sym c1).
  cbn [startsWith js map list_ascii_of_string].
  change (N_of_ascii ".") with (ch "."). change (N_of_ascii "k") with (ch "k").
  change (N_of_ascii "b") with (ch "b").
  destruct (N.eqb (ch ".") c1); [|reflexivity]. cbn [xorb andb].
  destruct s as [|c2 s]; [reflexivity|]. rewrite in_set_single, (N.eqb_sym c2).
  destruct (N.eqb (ch "k") c2); [|reflexivity]. cbn [xorb andb].
  destruct s as [|c3 s]; [reflexivity|]. rewrite in_set_single, (N.eqb_sym c3).
  destruct (N.eqb (ch "b") c3); [|reflexivity]. cbn [xorb andb].
  destruct s as [|c4 s]; [reflexivity|]. rewrite in_set_single, (N.eqb_sym c4).
  destruct (N.eqb (ch ".") c4); [|reflexivity]. cbn [xorb andb done length].
  destruct s; cbn [startsWith]; f_equal; lia.
Qed.

Lemma replace_first_absent s : forall prev,
  ~ occurs (js ".kb.") s -> replace_first kb_regex (js ".es.") prev s = s.
Proof.
  induction s as [|c s IH]; intros prev H.
  - cbn [replace_first]. rewrite match_at_kb. reflexivity.
  - cbn [replace_first]. rewrite match_at_kb.
    destruct (startsWith (js ".kb.") (c :: s)) eqn:E.
    + exfalso. apply H. apply includes_iff. cbn [ReadOnlyQuery.includes].
      rewrite E. reflexivity.
    + f_equal. apply IH. intros (a & b & Hab). apply H.
      exists (c :: a), b. rewrite Hab. reflexivity.
Qed.

Lemma startsWith_within n : forall s t,
  startsWith n (s ++ t) = true -> length n <= length s -> startsWith n s = true.
Proof.
  induction n as [|x n IH]; intros s t H L; [destruct s; reflexivity|].
  destruct s as [|y s]; [simpl in L; lia|].
  cbn [app startsWith] in *. apply andb_true_iff in H. destruct H as [-> H].
  cbn [andb]. eapply IH; [exact H|simpl in L; lia].
Qed.

Lemma replace_first_at a : forall prev b,
  ~ occurs (js ".kb.") (a ++ js ".kb") ->
  replace_first kb_regex (js ".es.") prev (a ++ js ".kb." ++ b)
  = a ++ js ".es." ++ b.
Proof.
  induction a as [|c a IH]; intros prev b H.
  - cbn [app]. destruct (js ".kb." ++ b) as [|x rest] eqn:E; [discriminate|].
    cbn [replace_first]. rewrite match_at_kb, <- E.
    rewrite (proj2 (startsWith_iff (js ".kb.") (js ".kb." ++ b)))
      by (exists b; reflexivity).
    reflexivity.
  - cbn [app replace_first]. rewrite match_at_kb.
    destruct (startsWith (js ".kb.") (c :: a ++ js ".kb." ++ b)) eqn:E.
    + exfalso. apply H.
      assert (L : startsWith (js ".kb.") ((c :: a) ++ js ".kb") = true).
      { apply startsWith_within with (t := js "." ++ b).
        - rewrite <- app_assoc. exact E.
        - rewrite length_app. cbn [length js map list_ascii_of_string]. lia. }
      apply includes_iff.
      destruct ((c :: a) ++ js ".kb") as [|y rest] eqn:Ey; [discriminate|].
      cbn [ReadOnlyQuery.includes]. rewrite L. reflexivity.
    + f_equal. apply IH. intros (x & y & Hxy). apply H.
      exists (c :: x), y. cbn [app]. rewrite Hxy. reflexivity.
Qed.

(** X21: the Elasticsearch URL that [loadConfig] derives is the Kibana URL
    with its first [.kb.] replaced by [.es.], and the Kibana URL itself
    when it holds no [.kb.]. *)
Theorem elasticsearchUrl_replaces_first_kb (env : Env) (c : LoadedConfig) :
  loadConfig env = Ok c ->
  (~ occurs (js ".kb.") (kibanaUrl c) -> elasticsearchUrl c = kibanaUrl c) /\
  (forall a b,
     kibanaUrl c = a ++ js ".kb." ++ b ->
     ~ occurs (js ".kb.") (a ++ js ".kb") ->
     elasticsearchUrl c = a ++ js ".es." ++ b).
Proof.
  unfold loadConfig.
  destruct (requiredEnv env (js "KIBANA_URL")) as [url|e]; [|discriminate].
  destruct (requiredEnv env (js "KIBANA_API_KEY")) as [key|e]; [|discriminate].
  intros H. injection H as <-. cbn [kibanaUrl elasticsearchUrl]. split.
  - apply replace_first_absent.
  - intros a b -> Ha. apply replace_first_at. exact Ha.
Qed.

Lemma elasticsearchUrl_replaces_first_kb_witness :
  (~ occurs (js ".kb.") (LoadConfig.kibanaUrl example_loaded) ->
   LoadConfig.elasticsearchUrl example_loaded = LoadConfig.kibanaUrl example_loaded) /\
  (forall a b,
     LoadConfig.kibanaUrl example_loaded = a ++ js ".kb." ++ b ->
     ~ occurs (js ".kb.") (a ++ js ".kb") ->
     LoadConfig.elasticsearchUrl example_loaded = a ++ js ".es." ++ b).
Proof.
  apply (@elasticsearchUrl_replaces_first_kb example_env example_loaded).
  reflexivity.
Defined.

End ConfigFacts.

(** ** The search tool answered at once (tools/kibanaSearch.ts) *)

Module SearchToolFacts.
Import ReadOnlyQuery KibanaSearchTool RetryFacts AccessFacts.

Lemma get_opt_defined v k x :
  get_opt v k = x -> x <> JUndefined -> get_prop v k = Ok x.
Proof.
  unfold get_opt. destruct (get_prop v k) as [y|e]; congruence.
Qed.

Lemma sources_of_map items :
  Forall (fun hit => nullish hit = false) items ->
  sources_of items = Ok (map (fun hit => get_opt hit (js "_source")) items).
Proof.
  induction 1 as [|hit rest Hh Hr IH]; [reflexivity|].
  cbn [sources_of map]. rewrite IH. unfold get_opt.
  destruct (get_prop hit (js "_source")) as [s|e] eqn:E; [reflexivity|].
  destruct hit; discriminate.
Qed.

Lemma validateIndex_name config index :
  validateIndex config index = Ok tt -> validateIndexName index = Ok tt.
Proof.
  unfold validateIndex. destruct (validateIndexName index) as [[]|e];
    [reflexivity|discriminate].
Qed.

(** X16: a search that passes the guards and is answered at the first
    call: kibana_search makes that one call, with the capped size and the
    merged body, and returns the [_source] of every hit in order, the total
    ([hits.total.value] when there is one, else [hits.total]) and the
    aggregations when there are any. *)
Theorem search_tool_returns_the_sources
    (JSON_stringify : value -> jsstring) (toLowerCase : jsstring -> jsstring)
    (config : ServerConfig) (index : jsstring) (props : list (jsstring * value))
    (size : option Z) (time_range : option jsstring) (w : World)
    (data : value) (items : list value) :
  let request :=
    search_request index
      (JObj (set_prop (js "size")
               (JNum (Z.min (match size with Some n => n | None => 10%Z end)
                        (maxSearchSize config)))
               (searchBody_of props time_range))) in
  let total := get_opt (get_opt data (js "hits")) (js "total") in
  validateIndex config index = Ok tt ->
  validateReadOnlyQuery JSON_stringify toLowerCase (JObj props) = Ok tt ->
  (0 < retryAttempts config)%Z ->
  backend w (length (http_log w)) request = Resolved data ->
  get_opt (get_opt data (js "hits")) (js "hits") = JArr items ->
  Forall (fun hit => nullish hit = false) items ->
  KibanaSearchTool.execute JSON_stringify toLowerCase config index (JObj props)
    size time_range w
  = (Ok (success
           (JArr (map (fun hit => get_opt hit (js "_source")) items))
           (Some (if nullish (get_opt total (js "value")) then total
                  else get_opt total (js "value")))
           (if truthy (get_opt data (js "aggregations"))
            then Some (get_opt data (js "aggregations")) else None)),
     snd (http request w)).
Proof.
  intros request total Hv Hq Hn Hb Hh Hi.
  unfold KibanaSearchTool.execute, bind, lift.
  rewrite (validateIndex_name _ _ Hv), Hq. cbn [spread].
  rewrite search_unfold, Hv.
  fold request. rewrite (@withRetry_first_success config request w data Hn Hb).
  unfold result_of.
  assert (H1 : get_prop data (js "hits") = Ok (get_opt data (js "hits"))).
  { apply get_opt_defined; [reflexivity|]. intros E. rewrite E in Hh. discriminate. }
  rewrite H1.
  rewrite (@get_opt_defined (get_opt data (js "hits")) (js "hits") (JArr items) Hh)
    by discriminate.
  rewrite (sources_of_map Hi). reflexivity.
Qed.

Lemma search_tool_returns_the_sources_witness :
  fst (KibanaSearchTool.execute no_text as_it_is default_config (js "payments")
         (JObj [(js "query", JObj [(js "match_all", JObj [])])])
         (Some 500%Z) None (fresh one_hit))
  = Ok (success (JArr [JObj [(js "status", JStr (js "failed"))]])
          (Some (JNum 1)) None) /\
  http_log (snd (KibanaSearchTool.execute no_text as_it_is default_config
                   (js "payments")
                   (JObj [(js "query", JObj [(js "match_all", JObj [])])])
                   (Some 500%Z) None (fresh one_hit)))
  = [search_request (js "payments")
       (JObj [(js "query", JObj [(js "match_all", JObj [])]);
              (js "size", JNum 100)])].
Proof.
  rewrite (@search_tool_returns_the_sources no_text as_it_is default_config
             (js "payments") [(js "query", JObj [(js "match_all", JObj [])])]
             (Some 500%Z) None (fresh one_hit)
             (JObj [(js "hits",
                     JObj [(js "total", JObj [(js "value", JNum 1)]);
                           (js "hits",
                            JArr [JObj [(js "_id", JStr (js "1"));
                                        (js "_source",
                                         JObj [(js "status", JStr (js "failed"))])]])])])
             [JObj [(js "_id", JStr (js "1"));
                    (js "_source", JObj [(js "status", JStr (js "failed"))])]]).
  - split; reflexivity.
  - reflexivity.
  - reflexivity.
  - simpl. lia.
  - reflexivity.
  - reflexivity.
  - repeat constructor.
Defined.

End SearchToolFacts.

(** ** The shape of redacted data (lib/piiRedaction.ts) *)

Module ShapeFacts.
Import RedactionEquations RedactionFacts.

Lemma fresh_key k (acc : list (jsstring * value)) keys :
  distinct_keys (map fst acc ++ k :: keys) = true ->
  existsb (str_eqb k) (map fst acc) = false.
Proof.
  induction acc as [|[a b] acc IH]; [reflexivity|].
  cbn [map fst app distinct_keys existsb]. intros Hd.
  apply andb_true_iff in Hd. destruct Hd as [Ha Hd].
  rewrite IH by exact Hd. rewrite orb_false_r.
  apply negb_true_iff in Ha. rewrite existsb_app in Ha.
  apply orb_false_iff in Ha. destruct Ha as [_ Ha].
  cbn [existsb] in Ha. apply orb_false_iff in Ha. destruct Ha as [Ha _].
  destruct (str_eqb k a) eqn:E; [|reflexivity].
  apply str_eqb_eq in E. subst. rewrite str_eqb_refl in Ha. discriminate.
Qed.

Lemma redactRecursive_shape : forall v t,
  plain v = true -> blank (fst (fst (redactRecursive v t))) = blank v.
Proof.
  induction v as [| | | |s|items IHitems|props IHprops|] using value_ind';
    intros t Hp; try reflexivity.
  - rewrite redactRecursive_str.
    destruct (redactString s t) as [r [c t1]]. reflexivity.
  - rewrite redactRecursive_arr. cbn [plain] in Hp.
    assert (G : forall t, map blank (fst (fst (redact_items items t))) = map blank items).
    { revert Hp. clear t. induction IHitems as [|x rest Hx Hrest IH]; intros Hp t.
      - reflexivity.
      - cbn [forallb] in Hp. apply andb_true_iff in Hp. destruct Hp as [Hp1 Hp2].
        cbn [redact_items]. specialize (Hx t Hp1).
        destruct (redactRecursive x t) as [[r c] t1]. cbn [fst] in Hx.
        specialize (IH Hp2 t1).
        destruct (redact_items rest t1) as [[rs total] t2]. cbn [fst] in *.
        cbn [map]. rewrite Hx, IH. reflexivity. }
    specialize (G t). destruct (redact_items items t) as [[rs total] t1].
    cbn [fst blank] in *. rewrite G. reflexivity.
  - rewrite redactRecursive_obj. cbn [plain] in Hp.
    apply andb_true_iff in Hp. destruct Hp as [Hp Hp3].
    apply andb_true_iff in Hp. destruct Hp as [Hp1 Hp2].
    apply negb_true_iff in Hp2.
    assert (G : forall acc n t,
               distinct_keys (map fst acc ++ map fst props) = true ->
               existsb (str_eqb (js "__proto__")) (map fst props) = false ->
               forallb (fun kv => plain (snd kv)) props = true ->
               map (fun kv => (fst kv, blank (snd kv)))
                 (fst (fst (redact_entries props acc n t)))
               = map (fun kv => (fst kv, blank (snd kv))) (acc ++ props)).
    { clear t Hp1 Hp2 Hp3.
      induction IHprops as [|[k x] rest Hx Hrest IH]; intros acc n t Hd Hk Hp.
      - cbn [redact_entries fst]. rewrite app_nil_r. reflexivity.
      - cbn [map fst existsb forallb snd] in *.
        apply orb_false_iff in Hk. destruct Hk as [Hk Hproto].
        apply andb_true_iff in Hp. destruct Hp as [Hpx Hp].
        cbn [redact_entries]. specialize (Hx t Hpx).
        destruct (redactRecursive x t) as [[r c] t1]. cbn [fst] in Hx.
        assert (Ea : assign k r acc = acc ++ [(k, r)]).
        { unfold assign.
          replace (str_eqb k (js "__proto__")) with false.
          - apply set_prop_fresh. eapply fresh_key. exact Hd.
          - symmetry. destruct (str_eqb k (js "__proto__")) eqn:E; [|reflexivity].
            apply str_eqb_eq in E. subst. rewrite str_eqb_refl in Hk. discriminate. }
        rewrite IH; try assumption.
        + rewrite Ea, <- app_assoc, !map_app. cbn [map app fst snd].
          rewrite Hx. reflexivity.
        + rewrite Ea, map_app, <- app_assoc. exact Hd. }
    specialize (G [] 0 t Hp1 Hp2 Hp3).
    destruct (redact_entries props [] 0 t) as [[res total] t1].
    cbn [fst blank app] in *. rewrite G. reflexivity.
Qed.

(** X24: [redactPII] changes strings only: emptying every string of its
    result and of the data gives the same value, for data whose objects
    have distinct keys, none of them [__proto__]. *)
Theorem redaction_keeps_the_shape (data : value) :
  plain data = true ->
  blank (redactedData (redactPII data)) = blank data.
Proof.
  intros Hp. unfold redactPII.
  pose proof (redactRecursive_shape data [] Hp) as H.
  destruct (redactRecursive data []) as [[r c] t]. exact H.
Qed.

Lemma redaction_keeps_the_shape_witness :
  blank (redactedData (redactPII (JObj [(js "card", JStr (js "4111 1111 1111 1111"));
                                        (js "tags", JArr [JStr (js "a"); JNum 1])])))
  = JObj [(js "card", JStr []); (js "tags", JArr [JStr []; JNum 1])] /\
  redactedData (redactPII proto_keyed) = JObj [].
Proof.
  split; [|reflexivity].
  apply (@redaction_keeps_the_shape
           (JObj [(js "card", JStr (js "4111 1111 1111 1111"));
                  (js "tags", JArr [JStr (js "a"); JNum 1])])).
  reflexivity.
Defined.

End ShapeFacts.

(** ** What flattenProperties appends and what step 6 of discover_cluster
       returns (lib/mappingUtils.ts, tools/discoverCluster.ts) *)

Module DiscoveryFacts.
Import MappingUtils MappingFacts DiscoverFields DedupFacts ListIndices DiscoverCluster.

Lemma after_fields_after a b o :
  after_fields a (after_fields b o) = after_fields (a ++ b) o.
Proof. destruct o as [[fs|e]|]; cbn [after_fields]; [rewrite app_assoc|..]; reflexivity. Qed.

Lemma flatten_after_fields : forall fuel p prefix result,
  flatten fuel p prefix result = after_fields result (flatten fuel p prefix []).
Proof.
  induction fuel as [|fuel IH]; intros p prefix result; [reflexivity|].
  rewrite !flatten_unfold. generalize (spread p) as es. intros es. revert result.
  assert (S1 : forall m k path r,
             (if truthy (get_opt m k) then flatten fuel (get_opt m k) path r
              else Some (Ok r))
             = after_fields r
                 (if truthy (get_opt m k) then flatten fuel (get_opt m k) path []
                  else Some (Ok []))).
  { intros m k path r. destruct (truthy (get_opt m k)); [apply IH|].
    cbn [after_fields]. rewrite app_nil_r. reflexivity. }
  assert (E : forall entry result,
             flatten_entry fuel prefix entry result
             = after_fields result (flatten_entry fuel prefix entry [])).
  { intros [name m] result. unfold flatten_entry. cbn [fst snd].
    destruct (get_prop m (js "type")) as [type_|e]; [|reflexivity].
    set (t0 := if truthy type_
               then [{| field := fieldPath_of prefix name; type := type_ |}]
               else []).
    replace (if truthy type_
             then result ++ [{| field := fieldPath_of prefix name; type := type_ |}]
             else result) with (result ++ t0)
      by (subst t0; destruct (truthy type_); [reflexivity|apply app_nil_r]).
    replace (if truthy type_
             then [] ++ [{| field := fieldPath_of prefix name; type := type_ |}]
             else []) with t0
      by (subst t0; destruct (truthy type_); reflexivity).
    rewrite (S1 m (js "properties") _ (result ++ t0)).
    rewrite (S1 m (js "properties") _ t0).
    destruct (if truthy (get_opt m (js "properties")) then _ else _)
      as [[f1|e1]|]; cbn [after_fields]; try reflexivity.
    rewrite (S1 m (js "fields") _ ((result ++ t0) ++ f1)).
    rewrite (S1 m (js "fields") _ (t0 ++ f1)).
    rewrite after_fields_after, app_assoc. reflexivity. }
  induction es as [|entry rest IHes]; intros result.
  - cbn [flatten_entries after_fields]. rewrite app_nil_r. reflexivity.
  - cbn [flatten_entries]. rewrite (E entry result).
    destruct (flatten_entry fuel prefix entry []) as [[f1|e1]|];
      cbn [after_fields]; try reflexivity.
    rewrite (IHes (result ++ f1)), (IHes f1), after_fields_after. reflexivity.
Qed.

(** X25: flattenProperties pushes the same fields whatever the result array
    already holds: called with an array that holds [result], it leaves
    [result] followed by the fields it pushes into an empty array, and it
    throws the same error where it throws with an empty array. *)
Theorem flattenProperties_pushes_the_same_fields
    (properties : value) (prefix : jsstring) (result : list FieldMapping) :
  flattenProperties properties prefix result
  = match flattenProperties properties prefix [] with
    | Ok fields => Ok (result ++ fields)
    | Throw e => Throw e
    end.
Proof.
  pose proof (@flattenProperties_fuel (S (depth properties)) properties prefix result
                (Nat.lt_succ_diag_r _)) as E1.
  pose proof (@flattenProperties_fuel (S (depth properties)) properties prefix []
                (Nat.lt_succ_diag_r _)) as E2.
  rewrite flatten_after_fields, E2 in E1.
  destruct (flattenProperties properties prefix []) as [fields|e];
    cbn [after_fields] in E1; injection E1 as <-; reflexivity.
Qed.

(** *** Step 6 of discover_cluster *)

Lemma discover_one_fields config idx w :
  exists d fields,
    fst (discover_one fields_of_mapping config idx w) = Ok d /\
    get_opt d (js "index") = index idx /\
    get_opt d (js "fields") = JArr (map FieldMapping_value fields) /\
    NoDup (map field fields).
Proof.
  assert (Hidx : forall fields,
    get_opt (JObj (set_prop (js "fields") fields (spread (IndexInfo_value idx))))
      (js "index") = index idx).
  { intros fields. unfold get_opt, get_prop.
    rewrite lookup_set_prop_other; [reflexivity|]. vm_compute. discriminate. }
  assert (Hf : forall fields,
    get_opt (JObj (set_prop (js "fields") fields (spread (IndexInfo_value idx))))
      (js "fields") = fields).
  { intros fields. unfold get_opt, get_prop. rewrite lookup_set_prop_same. reflexivity. }
  unfold discover_one, bind at 1, try_catch, bind at 1.
  destruct (getMapping_value config (index idx) w) as [[data|e] w1].
  - unfold lift, fields_of_mapping.
    destruct (mapping_fields data) as [fields|e]; unfold ret; cbn [fst].
    + exists (JObj (set_prop (js "fields")
                      (JArr (map FieldMapping_value (deduplicateFields fields)))
                      (spread (IndexInfo_value idx)))),
             (deduplicateFields fields).
      split; [reflexivity|]. split; [apply Hidx|]. split; [apply Hf|].
      rewrite deduplicateFields_first_seen. apply first_seen_NoDup.
    + exists (JObj (set_prop (js "fields") (JArr []) (spread (IndexInfo_value idx)))), [].
      split; [reflexivity|]. split; [apply Hidx|]. split; [apply Hf|constructor].
  - unfold ret. cbn [fst].
    exists (JObj (set_prop (js "fields") (JArr []) (spread (IndexInfo_value idx)))), [].
    split; [reflexivity|]. split; [apply Hidx|]. split; [apply Hf|constructor].
Qed.

(** X26: step 6 of discover_cluster never fails and describes every selected
    index, in order: each entry keeps the name of its index and carries a
    [fields] array of field and type pairs with no path twice; a mapping
    request that is refused or fails, or a mapping that cannot be flattened,
    leaves the entry in place. *)
Theorem discovery_survives_failed_fetches
    (config : ServerConfig) (indices : list IndexInfo) (w : World) :
  exists discovered,
    fst (discover_all fields_of_mapping config indices w) = Ok discovered /\
    Forall2
      (fun d idx =>
         get_opt d (js "index") = index idx /\
         exists fields,
           get_opt d (js "fields") = JArr (map FieldMapping_value fields) /\
           NoDup (map field fields))
      discovered indices.
Proof.
  revert w. induction indices as [|idx rest IH]; intros w.
  - exists []. split; [reflexivity|constructor].
  - destruct (discover_one_fields config idx w) as (d & fields & Hd & Hi & Hf & Hn).
    cbn [discover_all]. unfold bind at 1.
    destruct (discover_one fields_of_mapping config idx w) as [[d'|e] w1];
      cbn [fst] in Hd; [|discriminate].
    injection Hd as ->.
    destruct (IH w1) as (ds & Hds & Hall).
    unfold bind at 1.
    destruct (discover_all fields_of_mapping config rest w1) as [[ds'|e] w2];
      cbn [fst] in Hds; [|discriminate].
    injection Hds as ->.
    exists (d :: ds). split; [reflexivity|].
    constructor; [|exact Hall]. split; [exact Hi|]. exists fields. split; assumption.
Qed.

End DiscoveryFacts.

